(** * xword-fill: the crossword-to-exact-cover reduction, verified

    A shallow embedding of [xword-fill.c] (Arthur O'Dwyer's crossword grid
    filler) and of the part of [xdictlib.c] that streams the dictionary.

    - C [int]s are modelled as [Z]; every quantity that the program
      computes from a grid stays far below [2^31], so no wrap-around occurs
      and none is modelled.
    - A [char] is an [ascii]; a C string or a grid ([const char *]) is a
      [list ascii] without its terminating NUL.  Reading a list past its
      end yields NUL (the C program would read its string terminator, or
      have undefined behaviour); the theorems that depend on a read state
      the bounds under which the read is in range.
    - A failed [assert] ends the computation with [AssertionFailed line],
      where [line] is the line of the assertion in [xword-fill.c].
    - The file-scope option variables are a record [options]; the
      function-static counters of the callback are a record [counters]
      that is passed in and out explicitly.
    - [dancing.c] is not among the sources: what the program needs of it
      ([dance_init], [dance_addrow], [dance_solve]) is modelled from the
      specification of the exact-cover engine, and marked so. *)

From Stdlib Require Import Ascii String ZArith List Bool Lia Arith.
From Stdlib Require Import Sorting.Sorted Sorting.Permutation.
Import ListNotations.

#[local] Open Scope char_scope.
#[local] Open Scope Z_scope.

(** ** Characters and the C library *)

Definition NUL : ascii := Ascii.zero.

Definition str (s : string) : list ascii := list_ascii_of_string s.

Definition code (c : ascii) : Z := Z.of_nat (nat_of_ascii c).

(** [strchr(s, c) != NULL].  As in C, the terminating NUL counts as part of
    the string, so looking for NUL always succeeds. *)
Definition strchr (s : string) (c : ascii) : bool :=
  Ascii.eqb c NUL || existsb (Ascii.eqb c) (str s).

Definition isupper (c : ascii) : bool :=
  (code "A" <=? code c) && (code c <=? code "Z").

Definition islower (c : ascii) : bool :=
  (code "a" <=? code c) && (code c <=? code "z").

Definition isalpha (c : ascii) : bool := isupper c || islower c.

Definition tolower (c : ascii) : ascii :=
  if isupper c then ascii_of_nat (nat_of_ascii c + 32) else c.

(** [#define MAX_WORDLEN 15] *)
Definition MAX_WORDLEN : Z := 15.

(** [#define ch2idx(ch) (isalpha(ch)? tolower(ch)-'a': 'x'-'a')] *)
Definition ch2idx (ch : ascii) : Z :=
  if isalpha ch then code (tolower ch) - code "a" else code "x" - code "a".

(** [#define idx2ch(idx) (idx+'a')] *)
Definition idx2ch (idx : Z) : ascii :=
  ascii_of_nat (Z.to_nat (idx + code "a")).

(** [grid[idx]], [word[k]] *)
Definition at_ (s : list ascii) (idx : Z) : ascii :=
  nth (Z.to_nat idx) s NUL.

(** ** The pattern matcher *)

(** [int matches(int a, int b)]: 0 = no match, 1 = loose, 2 = exact. *)
Definition matches (a b : ascii) : Z :=
  if Ascii.eqb a "#" || Ascii.eqb b "#" then 0
  else if Ascii.eqb a "." || Ascii.eqb b "." then 1
  else if strchr "aeiouy" a && Ascii.eqb b "0" then 1
  else if strchr "aeiouy" b && Ascii.eqb a "0" then 1
  else if strchr "bcdfghjklmnpqrstvwxyz" a && Ascii.eqb b "1" then 1
  else if strchr "bcdfghjklmnpqrstvwxyz" b && Ascii.eqb a "1" then 1
  else if Ascii.eqb (tolower a) (tolower b) then 2 else 0.

(** ** Run fit *)

(** The [for (k=0; k < wlen; ++k)] loop of [entry_fits_across] and
    [entry_fits_down], with [cellof k] the grid index of the [k]-th run
    cell; [n] counts the iterations left. *)
Fixpoint fits_loop (grid : list ascii) (cellof : Z -> Z) (word : list ascii)
         (n : nat) (k : Z) (exact_match : bool) : Z :=
  match n with
  | O => if exact_match then 2 else 1
  | S n' =>
      let rc := matches (at_ grid (cellof k)) (at_ word k) in
      if rc =? 0 then 0
      else fits_loop grid cellof word n' (k + 1)
                     (if rc =? 1 then false else exact_match)
  end.

(** [int entry_fits_across(const char *grid, int w, int h, int i, int j,
    const char *word, int wlen)] *)
Definition entry_fits_across (grid : list ascii) (w h i j : Z)
           (word : list ascii) (wlen : Z) : Z :=
  if i + wlen >? w then 0
  else if (i >? 0) && negb (Ascii.eqb (at_ grid (j*w + (i-1))) "#") then 0
  else if (i + wlen <? w)
          && negb (Ascii.eqb (at_ grid (j*w + (i+wlen))) "#") then 0
  else fits_loop grid (fun k => j*w + (i+k)) word (Z.to_nat wlen) 0 true.

(** [int entry_fits_down(const char *grid, int w, int h, int i, int j,
    const char *word, int wlen)] *)
Definition entry_fits_down (grid : list ascii) (w h i j : Z)
           (word : list ascii) (wlen : Z) : Z :=
  if j + wlen >? h then 0
  else if (j >? 0) && negb (Ascii.eqb (at_ grid ((j-1)*w + i)) "#") then 0
  else if (j + wlen <? h)
          && negb (Ascii.eqb (at_ grid ((j+wlen)*w + i)) "#") then 0
  else fits_loop grid (fun k => (j+k)*w + i) word (Z.to_nat wlen) 0 true.

(** ** Assertions and loops

    A computation either returns, stops at a failed [assert] (recorded with
    the line of [xword-fill.c] it stands on), or exhausts the iteration
    budget given to one of the loops whose counter the body itself moves. *)

Inductive result (A : Type) : Type :=
| Ok (a : A)
| AssertionFailed (line : Z)
| OutOfFuel.

Arguments Ok {A} a.
Arguments AssertionFailed {A} line.
Arguments OutOfFuel {A}.

Definition bind {A B : Type} (m : result A) (k : A -> result B) : result B :=
  match m with
  | Ok a => k a
  | AssertionFailed l => AssertionFailed l
  | OutOfFuel => OutOfFuel
  end.

Notation "x <- m ;; k" := (bind m (fun x => k))
  (at level 61, m at next level, right associativity).

Definition assert (b : bool) (line : Z) : result unit :=
  if b then Ok tt else AssertionFailed line.

(** [int is_fixed_value(int ch)] *)
Definition is_fixed_value (ch : ascii) : result bool :=
  if Ascii.eqb ch "#" then Ok true
  else if isalpha ch then Ok true
  else
    _ <- assert (Ascii.eqb ch "." || Ascii.eqb ch "0" || Ascii.eqb ch "1")
                564 ;;
    Ok false.

(** [0, 1, ..., n-1], the values taken by [for (x=0; x < n; ++x)]. *)
Definition upto (n : Z) : list Z := map Z.of_nat (seq 0 (Z.to_nat n)).

(** [for x in xs: s = body(x, s)], stopping at the first failure. *)
Fixpoint for_each {A S : Type} (xs : list A) (body : A -> S -> result S)
         (s : S) : result S :=
  match xs with
  | [] => Ok s
  | x :: xs' => s' <- body x s ;; for_each xs' body s'
  end.

(** ** Program options (the file-scope variables set by [main]) *)

Record options : Type := {
  NumSolutions : Z;            (* -1: print all solutions *)
  RejectDuplicateWords : bool;
  UseNaiveMethod : bool;
  PrintEveryNthSolution : Z
}.

Definition default_options : options :=
  {| NumSolutions := -1; RejectDuplicateWords := true;
     UseNaiveMethod := false; PrintEveryNthSolution := 1 |}.

(** [struct xword_info], without the matrix and the output stream, which
    are threaded separately. *)
Record xword_info : Type := {
  info_w : Z;
  info_h : Z;
  info_grid : list ascii
}.

(** ** The exact-cover matrix as the encoder sees it *)

(** Modelled from the spec: [struct dance_matrix] of [dancing.h], which is
    not among the sources, reduced to what the encoder and the search need:
    the number of columns and the rows in insertion order, a row being the
    array of column indices handed to [dance_addrow]. *)
Record dance_matrix : Type := {
  ncolumns : Z;
  rows : list (list Z)
}.

(** Modelled from the spec: [dance_init] of [dancing.c], which is not among
    the sources; "builds [n_columns] column headers ... All columns start
    empty". *)
Definition dance_init (cols : Z) : dance_matrix :=
  {| ncolumns := cols; rows := [] |}.

(** Modelled from the spec: [dance_addrow] of [dancing.c], which is not
    among the sources; "appends a row with 1s in the given columns ...
    Fails if any index is out of range".  The callers in [xword-fill.c]
    ignore the value it returns. *)
Definition dance_addrow (mat : dance_matrix) (constraint : list Z)
  : dance_matrix :=
  if forallb (fun c => (0 <=? c) && (c <? ncolumns mat)) constraint
  then {| ncolumns := ncolumns mat; rows := rows mat ++ [constraint] |}
  else mat.

(** ** Slices *)

Section Slices.
Variables (opts : options) (info : xword_info).

Let n : Z := info_w info * info_h info.
Let grid : list ascii := info_grid info.

(** [for (i=0; i < n; ++i)] of [NUMBER_OF_SLICES], over the cells left. *)
Fixpoint count_unknown (cells : list Z) (unknown_cells : Z) : result Z :=
  match cells with
  | [] => Ok unknown_cells
  | i :: cells' =>
      fixed <- is_fixed_value (at_ grid i) ;;
      count_unknown cells' (if fixed then unknown_cells
                            else unknown_cells + 1)
  end.

(** [static int NUMBER_OF_SLICES(struct xword_info *info)] *)
Definition NUMBER_OF_SLICES : result Z :=
  if UseNaiveMethod opts then Ok n
  else count_unknown (upto n) 0.

(** [for (i=0; i < n; ++i)] of [SLICE_TO_CELL]; falling out of the loop is
    [assert(0)]. *)
Fixpoint slice_to_cell_loop (slice : Z) (cells : list Z) (unknown_cells : Z)
  : result Z :=
  match cells with
  | [] => AssertionFailed 277
  | i :: cells' =>
      fixed <- is_fixed_value (at_ grid i) ;;
      if fixed then slice_to_cell_loop slice cells' unknown_cells
      else if unknown_cells =? slice then Ok i
      else slice_to_cell_loop slice cells' (unknown_cells + 1)
  end.

(** [static int SLICE_TO_CELL(int slice, struct xword_info *info)] *)
Definition SLICE_TO_CELL (slice : Z) : result Z :=
  _ <- assert (slice <? n) 268 ;;
  if UseNaiveMethod opts then Ok slice
  else slice_to_cell_loop slice (upto n) 0.

(** [for (i=0; i < n; ++i)] of [CELL_TO_SLICE]; falling out of the loop is
    [assert(0)]. *)
Fixpoint cell_to_slice_loop (cell : Z) (cells : list Z) (unknown_cells : Z)
  : result Z :=
  match cells with
  | [] => AssertionFailed 298
  | i :: cells' =>
      if i =? cell then Ok unknown_cells
      else
        fixed <- is_fixed_value (at_ grid i) ;;
        cell_to_slice_loop cell cells' (if fixed then unknown_cells
                                        else unknown_cells + 1)
  end.

(** [static int CELL_TO_SLICE(int cell, struct xword_info *info)] *)
Definition CELL_TO_SLICE (cell : Z) : result Z :=
  if UseNaiveMethod opts then Ok cell
  else
    _ <- assert (cell <? n) 290 ;;
    fixed <- is_fixed_value (at_ grid cell) ;;
    _ <- assert (negb fixed) 291 ;;
    cell_to_slice_loop cell (upto n) 0.
End Slices.

(** ** Row emission *)

Section Rows.
Variables (opts : options) (info : xword_info).

Let w : Z := info_w info.
Let h : Z := info_h info.
Let grid : list ascii := info_grid info.

(** The 26 letter column-pairs and the "Across or Down" pair of one slice,
    as written into [constraint] by the two inner loops; [hit] is the
    offset in the pair of [relevant_index], [miss] in the other 25, and
    [ad] in the orientation pair. *)
Definition slice_columns (slice relevant_index hit miss ad : Z) : list Z :=
  map (fun m => slice + 2*m + (if relevant_index =? m then hit else miss))
      (upto 26)
  ++ [slice + 2*26 + ad].

(** One iteration of the [k] loop shared by [add_row_across] and
    [add_row_down]. *)
Definition add_row_step (cellof : Z -> Z) (hit miss ad : Z)
           (word : list ascii) (k : Z) (constraint : list Z)
  : result (list Z) :=
  let cell := cellof k in
  use <- (if UseNaiveMethod opts then Ok true
          else fixed <- is_fixed_value (at_ grid cell) ;; Ok (negb fixed)) ;;
  if use : bool then
    s <- CELL_TO_SLICE opts info cell ;;
    let slice := 27*2*s in
    let relevant_index := ch2idx (at_ word k) in
    Ok (constraint ++ slice_columns slice relevant_index hit miss ad)
  else Ok constraint.

(** The [constraint] array that [add_row_across] hands to
    [dance_addrow]. *)
Definition row_across (i j : Z) (word : list ascii) (wlen : Z)
  : result (list Z) :=
  constraint <- for_each (upto wlen)
                  (add_row_step (fun k => j*w + (i+k)) 0 1 0 word) [] ;;
  _ <- (if UseNaiveMethod opts
        then assert (Z.of_nat (length constraint) =? wlen*27) 594
        else Ok tt) ;;
  Ok constraint.

(** The [constraint] array that [add_row_down] hands to [dance_addrow]. *)
Definition row_down (i j : Z) (word : list ascii) (wlen : Z)
  : result (list Z) :=
  constraint <- for_each (upto wlen)
                  (add_row_step (fun k => (j+k)*w + i) 1 0 1 word) [] ;;
  _ <- (if UseNaiveMethod opts
        then assert (Z.of_nat (length constraint) =? wlen*27) 623
        else Ok tt) ;;
  Ok constraint.

(** [int add_row_across(struct xword_info *info, int i, int j,
    const char *word, int wlen)] *)
Definition add_row_across (mat : dance_matrix) (i j : Z)
           (word : list ascii) (wlen : Z) : result dance_matrix :=
  constraint <- row_across i j word wlen ;;
  Ok (dance_addrow mat constraint).

(** [int add_row_down(struct xword_info *info, int i, int j,
    const char *word, int wlen)] *)
Definition add_row_down (mat : dance_matrix) (i j : Z)
           (word : list ascii) (wlen : Z) : result dance_matrix :=
  constraint <- row_down i j word wlen ;;
  Ok (dance_addrow mat constraint).

(** The [constraint] array of [add_row_black]. *)
Definition row_black (cell : Z) : result (list Z) :=
  _ <- assert (UseNaiveMethod opts) 632 ;;
  let constraint :=
    flat_map (fun m => let slice := 27*2*cell in
                       [slice + 2*m + 0; slice + 2*m + 1]) (upto 27) in
  _ <- assert (Z.of_nat (length constraint) =? 27*2) 638 ;;
  Ok constraint.

(** [int add_row_black(struct dance_matrix *mat, int w, int h, int cell)] *)
Definition add_row_black (mat : dance_matrix) (cell : Z)
  : result dance_matrix :=
  constraint <- row_black cell ;;
  Ok (dance_addrow mat constraint).

(** The loop [for (k=0; i+k < w; ++k)] of [add_row_forced_across] (and
    [j+k < h] of [add_row_forced_down]); [n] is the number of iterations
    the loop condition still allows.  Returns the final [k] and
    [constraint]. *)
Fixpoint forced_loop (cellof : Z -> Z) (hit miss ad : Z) (line : Z)
         (n : nat) (k : Z) (constraint : list Z) : result (Z * list Z) :=
  match n with
  | O => Ok (k, constraint)
  | S n' =>
      let cell := cellof k in
      let slice := 27*2*cell in
      if Ascii.eqb (at_ grid cell) "#" then Ok (k, constraint)
      else
        _ <- assert (isalpha (at_ grid cell)) line ;;
        let relevant_index := ch2idx (at_ grid cell) in
        forced_loop cellof hit miss ad line n' (k + 1)
          (constraint ++ slice_columns slice relevant_index hit miss ad)
  end.

(** The [constraint] array of [add_row_forced_across]. *)
Definition row_forced_across (i j : Z) : result (list Z) :=
  _ <- assert (UseNaiveMethod opts) 648 ;;
  kc <- forced_loop (fun k => j*w + (i+k)) 0 1 0 655
                    (Z.to_nat (w - i)) 0 [] ;;
  _ <- assert (fst kc <? MAX_WORDLEN) 665 ;;
  _ <- assert (Z.of_nat (length (snd kc)) =? fst kc * 27) 666 ;;
  Ok (snd kc).

(** The [constraint] array of [add_row_forced_down]. *)
Definition row_forced_down (i j : Z) : result (list Z) :=
  _ <- assert (UseNaiveMethod opts) 676 ;;
  kc <- forced_loop (fun k => (j+k)*w + i) 1 0 1 683
                    (Z.to_nat (h - j)) 0 [] ;;
  _ <- assert (fst kc <? MAX_WORDLEN) 693 ;;
  _ <- assert (Z.of_nat (length (snd kc)) =? fst kc * 27) 694 ;;
  Ok (snd kc).

(** [int add_row_forced_across(struct dance_matrix *mat, int w, int h,
    int i, int j, const char *grid)] *)
Definition add_row_forced_across (mat : dance_matrix) (i j : Z)
  : result dance_matrix :=
  constraint <- row_forced_across i j ;;
  Ok (dance_addrow mat constraint).

(** [int add_row_forced_down(struct dance_matrix *mat, int w, int h,
    int i, int j, const char *grid)] *)
Definition add_row_forced_down (mat : dance_matrix) (i j : Z)
  : result dance_matrix :=
  constraint <- row_forced_down i j ;;
  Ok (dance_addrow mat constraint).

(** [int add_rows_for_word(const char *word, void *vinfo)]; the value
    returned to [xdict_find] is always 0. *)
Definition add_rows_for_word (word : list ascii) (mat : dance_matrix)
  : result dance_matrix :=
  let wlen := Z.of_nat (length word) in
  for_each (upto h) (fun j =>
    for_each (upto w) (fun i mat =>
      mat1 <- (if entry_fits_across grid w h i j word wlen =? 1
               then add_row_across mat i j word wlen else Ok mat) ;;
      if entry_fits_down grid w h i j word wlen =? 1
      then add_row_down mat1 i j word wlen else Ok mat1)) mat.
End Rows.

(** ** The dictionary *)

(** [#define XDICT_MAXLENGTH 10] of [xdictlib.h]: words of 0 to 9
    characters. *)
Definition XDICT_MAXLENGTH : Z := 10.

(** [struct xdict]: [words[k]] holds the [len[k]] words of length [k]; the
    list at position [k] is the live part [words[k][0 .. len[k]-1]]. *)
Definition xdict : Type := list (list (list ascii)).

(** [#define is_consonant(k) (strchr("bcdfghjklmnpqrstvwxyz",k) != NULL)] *)
Definition is_consonant (k : ascii) : bool := strchr "bcdfghjklmnpqrstvwxyz" k.

(** [#define is_vowel(k) (strchr("aeiouy",k) != NULL)] *)
Definition is_vowel (k : ascii) : bool := strchr "aeiouy" k.

(** [int xdict_match(const char *w, const char *p)] of [xdictlib.c]. *)
Fixpoint xdict_match (w p : list ascii) {struct p} : bool :=
  match p with
  | [] => match w with [] => true | _ => false end
  | c :: p' =>
      if Ascii.eqb c "*" then
        (fix any_suffix (w : list ascii) : bool :=
           xdict_match w p' ||
           match w with [] => false | _ :: w' => any_suffix w' end) w
      else
        match w with
        | [] => false
        | x :: w' =>
            (if Ascii.eqb c "1" then is_consonant x
             else if Ascii.eqb c "0" then is_vowel x
             else if Ascii.eqb c "?" then true
             else Ascii.eqb c x)
            && xdict_match w' p'
        end
  end.

(** [xdict_find(dict, pattern, f, info)] of [xdictlib.c] for a pattern that
    contains ['*'], with a visitor [f] that always returns 0 (as
    [add_rows_for_word] does): every matching word is visited, by
    increasing length from the number of non-star pattern characters, and
    in array order within one length. *)
Definition xdict_find_star {S : Type} (d : xdict) (pattern : list ascii)
           (f : list ascii -> S -> result S) (s : S) : result S :=
  let len := List.length (filter (fun c => negb (Ascii.eqb c "*")) pattern) in
  for_each
    (filter (fun word => xdict_match word pattern)
            (concat (skipn len (firstn (Z.to_nat XDICT_MAXLENGTH) d))))
    f s.

(** ** Dictionary pre-pruning *)

Inductive orientation : Type := Across | Down.

(** [entry_fits_across] or [entry_fits_down], by orientation. *)
Definition entry_fits (o : orientation) (grid : list ascii) (w h i j : Z)
           (word : list ascii) (wlen : Z) : Z :=
  match o with
  | Across => entry_fits_across grid w h i j word wlen
  | Down => entry_fits_down grid w h i j word wlen
  end.

Section StripDict.
Variables (opts : options) (grid : list ascii) (w h : Z).

(** The positions visited by the two pairs of nested loops of
    [strip_dict] for words of length [k], in order. *)
Definition strip_positions (k : Z) : list (orientation * Z * Z) :=
  flat_map (fun j => map (fun i => (Across, i, j)) (upto (w - k + 1)))
           (upto h)
  ++ flat_map (fun j => map (fun i => (Down, i, j)) (upto w))
              (upto (h - k + 1)).

(** The two [switch] statements: [true] when control reaches
    [remove_it], [false] when it reaches [next] with the word kept. *)
Fixpoint strip_scan (word : list ascii) (k : Z)
         (ps : list (orientation * Z * Z)) (fits_in_grid : bool) : bool :=
  match ps with
  | [] => negb fits_in_grid
  | (o, i, j) :: ps' =>
      let rc := entry_fits o grid w h i j word k in
      if rc =? 2 then
        if RejectDuplicateWords opts then true        (* goto remove_it *)
        else false                                    (* falls into case 1 *)
      else if rc =? 1 then
        if negb (RejectDuplicateWords opts) then false (* goto next *)
        else strip_scan word k ps' true
      else strip_scan word k ps' fits_in_grid
  end.

(** The body of the [widx] loop up to the label [remove_it]: whether the
    word is removed. *)
Definition strip_removes (word : list ascii) (k : Z) : bool :=
  strip_scan word k (strip_positions k) false.

(** [dict->words[k][widx] = dict->words[k][--dict->len[k]]] *)
Definition swap_remove (ws : list (list ascii)) (widx : nat)
  : list (list ascii) :=
  let moved := last ws [] in
  removelast (firstn widx ws ++ moved :: skipn (S widx) ws).

(** [for (widx=0; widx < dict->len[k]; ++widx)]; [n] bounds the number
    of iterations, which never exceeds the initial [len[k]]. *)
Fixpoint strip_bucket (k : Z) (n : nat) (widx : nat)
         (ws : list (list ascii)) : list (list ascii) :=
  match n with
  | O => ws
  | S n' =>
      if (widx <? List.length ws)%nat then
        let word := nth widx ws [] in
        if strip_removes word k
        then strip_bucket k n' (S widx) (swap_remove ws widx)
        else strip_bucket k n' (S widx) ws
      else ws
  end.

(** [void strip_dict(const char *grid, int w, int h, struct xdict *dict)] *)
Definition strip_dict (dict : xdict) : xdict :=
  map (fun kws => strip_bucket (fst kws) (List.length (snd kws)) 0 (snd kws))
      (combine (upto XDICT_MAXLENGTH) dict)
  ++ skipn (Z.to_nat XDICT_MAXLENGTH) dict.
End StripDict.

(** ** Duplicate detection *)

(** [strcmp], by sign; the strings hold no NUL. *)
Fixpoint strcmp (s t : list ascii) : Z :=
  match s, t with
  | [], [] => 0
  | [], _ :: _ => -1
  | _ :: _, [] => 1
  | a :: s', b :: t' =>
      if code a <? code b then -1
      else if code b <? code a then 1
      else strcmp s' t'
  end.

(** [int ptr_str_cmp(const void *vp, const void *vq)] *)
Definition ptr_str_cmp (a b : list ascii) : Z :=
  let k := strcmp a b in
  if k <? 0 then -1 else if k >? 0 then 1 else 0.

(** The C library's [qsort] with comparator [cmp]: here insertion sort.
    Which algorithm sorts is immaterial for [ptr_str_cmp], a total order
    under which only identical strings compare equal. *)
Fixpoint qsort_insert (cmp : list ascii -> list ascii -> Z)
         (x : list ascii) (l : list (list ascii)) : list (list ascii) :=
  match l with
  | [] => [x]
  | y :: l' => if cmp x y <=? 0 then x :: l else y :: qsort_insert cmp x l'
  end.

Definition qsort (cmp : list ascii -> list ascii -> Z)
           (l : list (list ascii)) : list (list ascii) :=
  fold_right (qsort_insert cmp) [] l.

(** [for (k=0; k < len-1; ++k) if (strcmp(dict[k], dict[k+1]) == 0) ...] *)
Fixpoint adjacent_equal (l : list (list ascii)) : bool :=
  match l with
  | x :: ((y :: _) as l') => (strcmp x y =? 0) || adjacent_equal l'
  | _ => false
  end.

Section Duplicates.
(** [malloc_ok n] tells whether the [n]-th allocation request of one call
    (counted from 0) is granted. *)
Variable malloc_ok : nat -> bool.

(** What the scan of the grid has accumulated: the strings stored in
    [dict[0 .. len-1]], the number of allocation requests made, and
    [rc]. *)
Record dup_state : Type := {
  ds_dict : list (list ascii);
  ds_nalloc : nat;
  ds_rc : Z
}.

(** [for (end=i; end < limit; ++end)]: the position where the run that
    starts at [i] stops, and whether it holds one of [.01]. *)
Fixpoint find_end (cell : Z -> ascii) (n : nat) (end_ : Z) (invalid : bool)
  : Z * bool :=
  match n with
  | O => (end_, invalid)
  | S n' =>
      if Ascii.eqb (cell end_) "#" then (end_, invalid)
      else find_end cell n' (end_ + 1)
                    (if strchr ".01" (cell end_) then true else invalid)
  end.

(** One line of the grid: [for (i=0; i < limit; i = end)], where [cell x]
    is the [x]-th cell of the line.  The loop stops early when an
    allocation fails ([rc = -3; break;]). *)
Fixpoint scan_line (cell : Z -> ascii) (limit : Z) (fuel : nat) (i : Z)
         (st : dup_state) : result dup_state :=
  match fuel with
  | O => OutOfFuel
  | S fuel' =>
      if negb (i <? limit) then Ok st
      else if Ascii.eqb (cell i) "#"
      then scan_line cell limit fuel' (i + 1) st
      else
        let '(end_, invalid) :=
          find_end cell (Z.to_nat (limit - i)) i false in
        if invalid then scan_line cell limit fuel' end_ st
        else if malloc_ok (ds_nalloc st) then
          let entry := map (fun k => tolower (cell (i + k)))
                           (upto (end_ - i)) in
          scan_line cell limit fuel' end_
                    {| ds_dict := ds_dict st ++ [entry];
                       ds_nalloc := S (ds_nalloc st);
                       ds_rc := ds_rc st |}
        else Ok {| ds_dict := ds_dict st;
                   ds_nalloc := S (ds_nalloc st);
                   ds_rc := -3 |}
  end.

(** [int grid_contains_duplicates(const char *grid, int w, int h)] *)
Definition grid_contains_duplicates (grid : list ascii) (w h : Z)
  : result Z :=
  if negb (malloc_ok 0) then Ok (-3)
  else
    st1 <- for_each (upto h)
             (fun j => scan_line (fun x => at_ grid (j*w + x)) w
                                 (S (Z.to_nat w)) 0)
             {| ds_dict := []; ds_nalloc := 1; ds_rc := 0 |} ;;
    st2 <- for_each (upto w)
             (fun i => scan_line (fun y => at_ grid (y*w + i)) h
                                 (S (Z.to_nat h)) 0)
             st1 ;;
    let dict := qsort ptr_str_cmp (ds_dict st2) in
    Ok (if adjacent_equal dict then 1 else ds_rc st2).
End Duplicates.

(** Every allocation request is granted. *)
Definition always_ok : nat -> bool := fun _ => true.

(** ** Building the matrix (the first half of [xword_solve]) *)

Section Build.
Variables (opts : options) (info : xword_info).

Let w : Z := info_w info.
Let h : Z := info_h info.
Let grid : list ascii := info_grid info.

(** "Complication 1": [for (i=0; i < w*h; ++i) if (grid[i] == '#') ...] *)
Definition add_black_rows (mat : dance_matrix) : result dance_matrix :=
  for_each (upto (w*h))
    (fun i mat => if Ascii.eqb (at_ grid i) "#"
                  then add_row_black opts mat i else Ok mat) mat.

(** [while (i < limit && cell(i) != '#') ++i;] where [n] is the number of
    iterations that [i < limit] still allows. *)
Fixpoint skip_entry (cell : Z -> ascii) (n : nat) (i : Z) : Z :=
  match n with
  | O => i
  | S n' => if negb (Ascii.eqb (cell i) "#")
            then skip_entry cell n' (i + 1) else i
  end.

(** "Complication 2", one line of the grid:
    [for (i=0; i <= limit; ++i)] with [word_starts_here]; [cell x] is the
    [x]-th cell of the line and [add s] emits the forced row of the run
    that starts at [s].  The body moves [i] itself, so the loop runs on
    an iteration budget. *)
Fixpoint forced_line (cell : Z -> ascii) (limit : Z) (line : Z)
         (add : Z -> dance_matrix -> result dance_matrix)
         (fuel : nat) (i word_starts_here : Z) (mat : dance_matrix)
  : result dance_matrix :=
  match fuel with
  | O => OutOfFuel
  | S fuel' =>
      if negb (i <=? limit) then Ok mat
      else if ((i =? limit) || Ascii.eqb (cell i) "#")
              && (word_starts_here <? i) then
        _ <- assert (i - word_starts_here <=? MAX_WORDLEN) line ;;
        mat' <- add word_starts_here mat ;;
        forced_line cell limit line add fuel' (i + 1) (i + 1) mat'
      else if i =? limit then Ok mat
      else if negb (isalpha (cell i)) then
        let i' := skip_entry cell (Z.to_nat (limit - i)) i in
        forced_line cell limit line add fuel' (i' + 1) (i' + 1) mat
      else forced_line cell limit line add fuel' (i + 1) word_starts_here
                       mat
  end.

Definition add_forced_rows (mat : dance_matrix) : result dance_matrix :=
  mat1 <- for_each (upto h)
            (fun j => forced_line (fun i => at_ grid (j*w + i)) w 427
                        (fun s mat => add_row_forced_across opts info mat s j)
                        (Z.to_nat w + 2) 0 0) mat ;;
  for_each (upto w)
    (fun i => forced_line (fun j => at_ grid (j*w + i)) h 449
                (fun s mat => add_row_forced_down opts info mat i s)
                (Z.to_nat h + 2) 0 0) mat1.

(** [xword_solve] up to the call of [dance_solve]. *)
Definition build_matrix (dict : xdict) : result dance_matrix :=
  ns <- NUMBER_OF_SLICES opts info ;;
  let cols := 27*2*ns in
  let mat := dance_init cols in
  mat1 <- xdict_find_star dict (str "*") (add_rows_for_word opts info) mat ;;
  mat2 <- (if UseNaiveMethod opts then add_black_rows mat1 else Ok mat1) ;;
  if UseNaiveMethod opts then add_forced_rows mat2 else Ok mat2.
End Build.

(** ** The solution callback *)

(** The function-static variables of [print_crossword_result]. *)
Record counters : Type := {
  printed_so_far : Z;
  skipped_so_far : Z
}.

(** Their values when the process starts. *)
Definition initial_counters : counters :=
  {| printed_so_far := 0; skipped_so_far := 0 |}.

(** [grid[cell] = ch] *)
Definition set_at (grid : list ascii) (cell : Z) (ch : ascii) : list ascii :=
  firstn (Z.to_nat cell) grid ++ ch :: skipn (S (Z.to_nat cell)) grid.

Section Callback.
Variables (malloc_ok : nat -> bool) (opts : options) (info : xword_info).

Let w : Z := info_w info.
Let h : Z := info_h info.

(** The body of [for (k=0; k < n; ++k)]: [row] lists the column names met
    from [sol[k]] along [o->right] until [sol[k]] comes round again. *)
Definition decode_row (row : list Z) (grid : list ascii)
  : result (list ascii) :=
  let this_is_an_across_word :=
    existsb (fun colx => Z.rem colx 54 =? 52) row in
  let this_is_a_down_word :=
    existsb (fun colx => Z.rem colx 54 =? 53) row in
  _ <- assert (this_is_an_across_word || this_is_a_down_word) 744 ;;
  if this_is_an_across_word && this_is_a_down_word then
    _ <- assert (UseNaiveMethod opts) 747 ;; Ok grid
  else if this_is_a_down_word then Ok grid
  else
    for_each row
      (fun colx grid =>
         cell <- SLICE_TO_CELL opts info (Z.quot colx 54) ;;
         _ <- assert ((0 <=? cell) && (cell <? w*h)) 759 ;;
         if Z.rem colx 2 =? 0 then
           let letter_idx := Z.quot (Z.rem colx 54) 2 in
           if letter_idx =? 26 then Ok grid
           else
             _ <- assert ((0 <=? letter_idx) && (letter_idx <? 26)) 766 ;;
             Ok (set_at grid cell (idx2ch letter_idx))
         else Ok grid)
      grid.

(** The prologue: [++skipped_so_far] and the test against
    [PrintEveryNthSolution].  [inl s]: return 0 at once, with
    [skipped_so_far = s]; [inr s]: go on, with [skipped_so_far = s]. *)
Definition every_nth_gate (st : counters) : Z + Z :=
  if negb (PrintEveryNthSolution opts =? 1) then
    let skipped := skipped_so_far st + 1 in
    if skipped <? PrintEveryNthSolution opts then inl skipped
    else inr 0
  else inr (skipped_so_far st).

(** [memcpy(grid, info->grid, w*h)] and the loop over [sol]. *)
Definition decode_solution (sol : list (list Z)) : result (list ascii) :=
  for_each sol decode_row (firstn (Z.to_nat (w*h)) (info_grid info)).

(** [int print_crossword_result(size_t n, struct data_object **sol,
    void *vinfo)]: the value returned, the static counters afterwards,
    and the grids written to [info->out] (none or one). *)
Definition print_crossword_result (sol : list (list Z)) (st : counters)
  : result (Z * counters * list (list ascii)) :=
  match every_nth_gate st with
  | inl skipped =>
      Ok (0, {| printed_so_far := printed_so_far st;
                skipped_so_far := skipped |}, [])
  | inr skipped =>
      let st1 := {| printed_so_far := printed_so_far st;
                    skipped_so_far := skipped |} in
      _ <- assert ((NumSolutions opts =? -1)
                   || (printed_so_far st <? NumSolutions opts)) 718 ;;
      if negb (malloc_ok 0) then Ok (-3, st1, [])
      else
        grid <- decode_solution sol ;;
        rc <- (if RejectDuplicateWords opts
               then grid_contains_duplicates
                      (fun n => malloc_ok (S n)) grid w h
               else Ok 0) ;;
        if rc <? 0 then Ok (-1, st1, [])
        else if rc =? 1 then Ok (0, st1, [])
        else
          _ <- assert (rc =? 0) 788 ;;
          let printed := printed_so_far st + 1 in
          Ok (if printed =? NumSolutions opts then -99 else 1,
              {| printed_so_far := printed; skipped_so_far := skipped |},
              [grid])
  end.
End Callback.

(** ** The exact-cover search *)

(** The row has a 1 in column [c]. *)
Definition has_column (c : Z) (row : list Z) : bool := existsb (Z.eqb c) row.

(** The two rows have no column in common. *)
Definition disjoint_rows (r r' : list Z) : bool :=
  forallb (fun c => negb (has_column c r')) r.

Section DanceSolve.
Variable St : Type.
(** The callback: the solution stack and the caller's state in, the value
    returned and the state out. *)
Variable callback : list (list Z) -> St -> result (Z * St).

(** Modelled from the spec: the live 1-count of a column header. *)
Definition column_count (rws : list (list Z)) (c : Z) : nat :=
  List.length (filter (has_column c) rws).

(** Modelled from the spec: column choice of [dance_solve] in
    [dancing.c], which is not among the sources; "pick the uncovered
    column with minimum count ... ties broken by first occurrence along
    the header chain". *)
Fixpoint min_column (rws : list (list Z)) (cols : list Z) (best : Z)
  : Z :=
  match cols with
  | [] => best
  | c :: cols' =>
      min_column rws cols'
        (if (column_count rws c <? column_count rws best)%nat
         then c else best)
  end.

(** Modelled from the spec: a row is handed to the callback as one of its
    nodes ("opaque node handles"), from which the callback walks the
    circular list [o->right]; here, the node in the chosen column [c]. *)
Fixpoint rotate_to (c : Z) (seen row : list Z) : list Z :=
  match row with
  | [] => rev seen
  | x :: row' => if x =? c then row ++ rev seen
                 else rotate_to c (x :: seen) row'
  end.

(** Modelled from the spec: the search of [dance_solve] in [dancing.c],
    which is not among the sources.  [cols] is the header chain (the
    uncovered columns), [rws] the rows none of whose columns is covered,
    in insertion order, [stack] the solution stack, top first.  Covering
    the columns of a chosen row removes them from the chain and removes
    every row that meets one of them.  A negative value returned by the
    callback "aborts the entire search immediately and is surfaced to
    the caller"; other values are accumulated. *)
Fixpoint search (fuel : nat) (cols : list Z) (rws : list (list Z))
         (stack : list (list Z)) (st : St) : result (Z * St) :=
  match fuel with
  | O => OutOfFuel
  | S fuel' =>
      match cols with
      | [] => callback (rev stack) st
      | c0 :: cols0 =>
          let c := min_column rws cols0 c0 in
          if (column_count rws c =? 0)%nat then Ok (0, st)
          else
            (fix try_rows (candidates : list (list Z)) (total : Z) (st : St)
               : result (Z * St) :=
               match candidates with
               | [] => Ok (total, st)
               | r :: candidates' =>
                   let cols' :=
                     filter (fun x => negb (has_column x r)) cols in
                   let rws' := filter (disjoint_rows r) rws in
                   res <- search fuel' cols' rws'
                                 (rotate_to c [] r :: stack) st ;;
                   if fst res <? 0 then Ok res
                   else try_rows candidates' (total + fst res) (snd res)
               end)
              (filter (has_column c) rws) 0 st
      end
  end.

(** Modelled from the spec: [dance_solve(mat, callback, info)]. *)
Definition dance_solve (mat : dance_matrix) (st : St) : result (Z * St) :=
  search (S (Z.to_nat (ncolumns mat))) (upto (ncolumns mat)) (rows mat)
         [] st.
End DanceSolve.

(** ** [xword_solve] *)

(** What one call leaves behind: the static counters and everything written
    to the output stream. *)
Definition solve_state : Type := counters * list (list ascii).

Definition xword_callback (malloc_ok : nat -> bool) (opts : options)
           (info : xword_info) (sol : list (list Z)) (s : solve_state)
  : result (Z * solve_state) :=
  r <- print_crossword_result malloc_ok opts info sol (fst s) ;;
  let '(rc, st, printed) := r in
  Ok (rc, (st, snd s ++ printed)).

(** [int xword_solve(const char *grid, int w, int h, struct xdict *dict,
    FILE *out)], started with the static counters at [st]: the value [ns]
    that [dance_solve] returned, the counters afterwards, and the grids
    written to [out]. *)
Definition xword_solve (malloc_ok : nat -> bool) (opts : options)
           (grid : list ascii) (w h : Z) (dict : xdict) (st : counters)
  : result (Z * solve_state) :=
  let info := {| info_w := w; info_h := h; info_grid := grid |} in
  mat <- build_matrix opts info dict ;;
  dance_solve solve_state (xword_callback malloc_ok opts info) mat (st, []).

(** * Specification vocabulary

    The notions in which the properties below are stated, written from the
    words of the specification and not from the code. *)

(** ** Cell characters *)

Definition vowel (c : ascii) : Prop := In c (str "aeiouy").

(** A consonant as the specification's table has it: a letter of [b..z]
    that is no vowel. *)
Definition strict_consonant (c : ascii) : Prop :=
  code "b" <= code c <= code "z" /\ ~ vowel c.

(** A consonant as the program has it: a letter of [b..z] other than
    [e], [i], [o], [u]; so [y] is both a vowel and a consonant. *)
Definition consonant (c : ascii) : Prop :=
  code "b" <= code c <= code "z" /\ ~ In c (str "aeiou").

Definition vowelb (c : ascii) : bool := existsb (Ascii.eqb c) (str "aeiouy").

Definition strict_consonantb (c : ascii) : bool :=
  (code "b" <=? code c) && (code c <=? code "z") && negb (vowelb c).

Definition consonantb (c : ascii) : bool :=
  (code "b" <=? code c) && (code c <=? code "z")
  && negb (existsb (Ascii.eqb c) (str "aeiou")).

(** The matcher's table as the specification words it. *)
Definition matches_spec (a b : ascii) : Z :=
  if Ascii.eqb a "#" || Ascii.eqb b "#" then 0
  else if Ascii.eqb a "." || Ascii.eqb b "." then 1
  else if (Ascii.eqb a "0" && vowelb b) || (Ascii.eqb b "0" && vowelb a)
  then 1
  else if (Ascii.eqb a "1" && strict_consonantb b)
          || (Ascii.eqb b "1" && strict_consonantb a)
  then 1
  else if isalpha a && isalpha b && Ascii.eqb (tolower a) (tolower b) then 2
  else 0.

(** A wildcard digit facing a letter of its class. *)
Definition wildcard_match (a b : ascii) : Prop :=
  (a = "0" /\ vowel b) \/ (b = "0" /\ vowel a)
  \/ (a = "1" /\ consonant b) \/ (b = "1" /\ consonant a).

(** The cell alphabet of a grid. *)
Definition open_cell (c : ascii) : Prop := c = "." \/ c = "0" \/ c = "1".

Definition legal_cell (c : ascii) : Prop :=
  c = "#" \/ isalpha c = true \/ open_cell c.

Definition legal_grid (grid : list ascii) (w h : Z) : Prop :=
  0 <= w /\ 0 <= h /\ Z.of_nat (List.length grid) = w * h
  /\ Forall legal_cell grid.

(** ** Placements *)

(** The grid index of the [k]-th cell of the run that starts at column [i]
    of row [j]. *)
Definition run_cell (o : orientation) (w i j k : Z) : Z :=
  match o with
  | Across => j*w + (i + k)
  | Down => (j + k)*w + i
  end.

(** The [L] cells of the run lie within the grid. *)
Definition within_grid (o : orientation) (w h i j L : Z) : Prop :=
  match o with
  | Across => 0 <= j < h /\ 0 <= i /\ i + L <= w
  | Down => 0 <= i < w /\ 0 <= j /\ j + L <= h
  end.

(** The cell just before the run is off the grid or black. *)
Definition bounded_before (o : orientation) (grid : list ascii)
           (w i j : Z) : Prop :=
  match o with
  | Across => i = 0 \/ at_ grid (run_cell Across w i j (-1)) = "#"
  | Down => j = 0 \/ at_ grid (run_cell Down w i j (-1)) = "#"
  end.

(** The cell just after the run is off the grid or black. *)
Definition bounded_after (o : orientation) (grid : list ascii)
           (w h i j L : Z) : Prop :=
  match o with
  | Across => w <= i + L \/ at_ grid (run_cell Across w i j L) = "#"
  | Down => h <= j + L \/ at_ grid (run_cell Down w i j L) = "#"
  end.

Definition letters_match (o : orientation) (grid : list ascii)
           (w i j : Z) (word : list ascii) (L : Z) : Prop :=
  forall k, 0 <= k < L ->
            matches (at_ grid (run_cell o w i j k)) (at_ word k) <> 0.

Definition letters_exact (o : orientation) (grid : list ascii)
           (w i j : Z) (word : list ascii) (L : Z) : Prop :=
  forall k, 0 <= k < L ->
            matches (at_ grid (run_cell o w i j k)) (at_ word k) = 2.

(** An admissible placement of [word], of length [L], at [(i, j)]. *)
Definition admissible (o : orientation) (grid : list ascii)
           (w h i j : Z) (word : list ascii) (L : Z) : Prop :=
  within_grid o w h i j L
  /\ bounded_before o grid w i j
  /\ bounded_after o grid w h i j L
  /\ letters_match o grid w i j word L.

(** ** Inputs of the worked examples *)

(** The options of [xword-fill --naive]. *)
Definition naive_options : options :=
  {| NumSolutions := -1; RejectDuplicateWords := true;
     UseNaiveMethod := true; PrintEveryNthSolution := 1 |}.

(** A dictionary that holds only words of three letters. *)
Definition three_letter_dict (ws : list string) : xdict :=
  [[]; []; []; map str ws].

(** The words of three letters left in a dictionary. *)
Definition three_letter_words (d : xdict) : list (list ascii) := nth 3 d [].

(** Some placement of [word] in the grid is accepted by the run-fit
    test. *)
Definition placeable (grid : list ascii) (w h : Z) (word : list ascii)
  : Prop :=
  exists o i j, 0 <= i < w /\ 0 <= j < h
                /\ entry_fits o grid w h i j word
                              (Z.of_nat (List.length word)) <> 0.

(** [word] is already spelled, with no loose match, by a run of the
    grid. *)
Definition already_in_grid (grid : list ascii) (w h : Z)
           (word : list ascii) : Prop :=
  exists o i j, 0 <= i < w /\ 0 <= j < h
                /\ entry_fits o grid w h i j word
                              (Z.of_nat (List.length word)) = 2.

(** A one-cell grid whose cell is open, and the Across row that writes
    the letter of index [i] into it. *)
Definition one_cell_info : xword_info :=
  {| info_w := 1; info_h := 1; info_grid := str "." |}.

Definition one_cell_row (i : Z) : list Z := slice_columns 0 i 0 1 0.

(** ** Slices and the columns of a placement *)

Definition openb (c : ascii) : bool :=
  Ascii.eqb c "." || Ascii.eqb c "0" || Ascii.eqb c "1".

(** The slice of a cell: the cell itself in naive mode, else the number of
    open cells that precede it in the grid. *)
Definition slice_index (naive : bool) (grid : list ascii) (cell : Z) : Z :=
  if naive then cell
  else Z.of_nat (List.length
                   (filter (fun i => openb (at_ grid i)) (upto cell))).

(** The place of [c] in the list [l], counted from [n]. *)
Fixpoint place_in (c : ascii) (l : list ascii) (n : Z) : option Z :=
  match l with
  | [] => None
  | x :: l' => if Ascii.eqb x c then Some n else place_in c l' (n + 1)
  end.

(** The letter index of the specification, written from its words and
    not from [ch2idx]: the place of the letter among the letters [a..z]
    of the 26 letter column-pairs, in either case.  A character that is
    no letter counts as the letter [x], as the program's help text has
    it. *)
Definition letter_index (c : ascii) : Z :=
  match place_in c (str "abcdefghijklmnopqrstuvwxyz") 0 with
  | Some i => i
  | None =>
      match place_in c (str "ABCDEFGHIJKLMNOPQRSTUVWXYZ") 0 with
      | Some i => i
      | None => 23
      end
  end.

(** The columns that a placement contributes for one cell of slice [s]
    that receives the letter of index [i]. *)
Definition placement_columns (o : orientation) (s i c : Z) : Prop :=
  match o with
  | Across =>
      c = 54*s + 2*i \/ c = 54*s + 52
      \/ exists m, 0 <= m < 26 /\ m <> i /\ c = 54*s + 2*m + 1
  | Down =>
      c = 54*s + 2*i + 1 \/ c = 54*s + 53
      \/ exists m, 0 <= m < 26 /\ m <> i /\ c = 54*s + 2*m
  end.

(** The row emitted for a placement. *)
Definition placement_row (o : orientation) (opts : options)
           (info : xword_info) (i j : Z) (word : list ascii) (wlen : Z)
  : result (list Z) :=
  match o with
  | Across => row_across opts info i j word wlen
  | Down => row_down opts info i j word wlen
  end.

(** The grid of the specification's first scenario (lower-cased, as
    [load_grid] stores it). *)
Definition scenario1_info : xword_info :=
  {| info_w := 3; info_h := 3; info_grid := str ".as.r.eta" |}.

(** ** Exact covers *)

(** The rows of [l] picked by [mask]. *)
Definition select {A : Type} (mask : list bool) (l : list A) : list A :=
  map snd (filter fst (combine mask l)).

(** [mask] picks an exact cover of [mat]: each column holds exactly one 1
    among the picked rows. *)
Definition exact_cover (mat : dance_matrix) (mask : list bool) : Prop :=
  List.length mask = List.length (rows mat)
  /\ forall c, 0 <= c < ncolumns mat ->
               count_occ Z.eq_dec (concat (select mask (rows mat))) c = 1%nat.

(** ** The program after its inputs are loaded *)

(** [main], from the duplicate check of the input grid on.  [None]: the
    program stops in [do_error] ("The input grid contains duplicate
    words!") before solving. *)
Definition main_after_load (malloc_ok : nat -> bool) (opts : options)
           (grid : list ascii) (w h : Z) (dict : xdict)
  : result (option (Z * solve_state)) :=
  dup <- (if RejectDuplicateWords opts
          then grid_contains_duplicates malloc_ok grid w h else Ok 0) ;;
  if negb (dup =? 0) then Ok None
  else
    r <- xword_solve malloc_ok opts grid w h
                     (strip_dict opts grid w h dict) initial_counters ;;
    Ok (Some r).

(** The specification's second scenario. *)
Definition b0g_info : xword_info :=
  {| info_w := 3; info_h := 1; info_grid := str "b0g" |}.

Definition b0g_dict : xdict :=
  three_letter_dict ["bag"; "beg"; "big"; "bog"; "bug"; "byg"; "bfg"]%string.

(** The same words in the order in which [xdict_load] leaves them
    (sorted). *)
Definition b0g_dict_sorted : xdict :=
  three_letter_dict ["bag"; "beg"; "bfg"; "big"; "bog"; "bug"; "byg"]%string.

(** The matrix built for it: one Across row per vowel, for the one open
    cell. *)
Definition b0g_matrix : dance_matrix :=
  {| ncolumns := 54;
     rows := map (fun l => slice_columns 0 (ch2idx l) 0 1 0) (str "aeiouy") |}.

(** ** Runs of a grid *)

(** The [x]-th cell of line [l]: of row [l] for Across, of column [l] for
    Down. *)
Definition line_cell (o : orientation) (grid : list ascii) (w : Z)
           (l x : Z) : ascii :=
  match o with
  | Across => at_ grid (l*w + x)
  | Down => at_ grid (x*w + l)
  end.

Definition line_count (o : orientation) (w h : Z) : Z :=
  match o with Across => h | Down => w end.

Definition line_length (o : orientation) (w h : Z) : Z :=
  match o with Across => w | Down => h end.

(** The cells [a .. b-1] of a line of [limit] cells are a maximal sequence
    of non-black cells. *)
Definition maximal_in_line (cell : Z -> ascii) (limit a b : Z) : Prop :=
  0 <= a < b /\ b <= limit
  /\ (forall x, a <= x < b -> cell x <> "#")
  /\ (a = 0 \/ cell (a - 1) = "#")
  /\ (b = limit \/ cell b = "#").

(** None of them is one of [.], [0], [1]. *)
Definition complete_in_line (cell : Z -> ascii) (a b : Z) : Prop :=
  forall x, a <= x < b -> ~ open_cell (cell x).

(** Their letters, in lower case. *)
Definition text_in_line (cell : Z -> ascii) (a b : Z) : list ascii :=
  map (fun k => tolower (cell (a + k))) (upto (b - a)).

(** A run: its direction, its line, and the positions where it starts and
    stops in the line. *)
Record run : Type := {
  run_o : orientation;
  run_line : Z;
  run_start : Z;
  run_stop : Z
}.

Definition run_length (r : run) : Z := run_stop r - run_start r.

Definition maximal_run (grid : list ascii) (w h : Z) (r : run) : Prop :=
  0 <= run_line r < line_count (run_o r) w h
  /\ maximal_in_line (line_cell (run_o r) grid w (run_line r))
                     (line_length (run_o r) w h)
                     (run_start r) (run_stop r).

Definition complete_run (grid : list ascii) (w : Z) (r : run) : Prop :=
  complete_in_line (line_cell (run_o r) grid w (run_line r))
                   (run_start r) (run_stop r).

Definition run_text (grid : list ascii) (w : Z) (r : run) : list ascii :=
  text_in_line (line_cell (run_o r) grid w (run_line r))
               (run_start r) (run_stop r).

(** Two different complete maximal runs of at least [minlen] cells spell
    the same letters. *)
Definition duplicate_runs (minlen : Z) (grid : list ascii) (w h : Z)
  : Prop :=
  exists r1 r2,
    r1 <> r2
    /\ maximal_run grid w h r1 /\ maximal_run grid w h r2
    /\ complete_run grid w r1 /\ complete_run grid w r2
    /\ minlen <= run_length r1 /\ minlen <= run_length r2
    /\ run_text grid w r1 = run_text grid w r2.

(** The scan of a line is at a place where a run may start. *)
Definition run_boundary (cell : Z -> ascii) (limit i : Z) : Prop :=
  i = 0 \/ i = limit \/ cell (i - 1) = "#" \/ cell i = "#".

(** ** The sequence of covers *)

(** The solution stacks with which [search] calls the callback, in order,
    when no call bails out: the same traversal, without the callback. *)
Fixpoint covers_of (fuel : nat) (cols : list Z) (rws : list (list Z))
         (stack : list (list Z)) : result (list (list (list Z))) :=
  match fuel with
  | O => OutOfFuel
  | S fuel' =>
      match cols with
      | [] => Ok [rev stack]
      | c0 :: cols0 =>
          let c := min_column rws cols0 c0 in
          if (column_count rws c =? 0)%nat then Ok []
          else
            (fix try_rows (candidates : list (list Z))
               : result (list (list (list Z))) :=
               match candidates with
               | [] => Ok []
               | r :: candidates' =>
                   let cols' :=
                     filter (fun x => negb (has_column x r)) cols in
                   let rws' := filter (disjoint_rows r) rws in
                   found <- covers_of fuel' cols' rws'
                                      (rotate_to c [] r :: stack) ;;
                   more <- try_rows candidates' ;;
                   Ok (found ++ more)
               end)
              (filter (has_column c) rws)
      end
  end.

(** The covers of a matrix in the order in which [dance_solve] finds
    them. *)
Definition covers_in_order (mat : dance_matrix)
  : result (list (list (list Z))) :=
  covers_of (S (Z.to_nat (ncolumns mat))) (upto (ncolumns mat)) (rows mat) [].

(** Handing a sequence of covers to the callback, as the callback contract
    has it: a negative value stops the sequence and is the result; other
    values are added up. *)
Fixpoint deliver {St : Type}
         (callback : list (list Z) -> St -> result (Z * St))
         (covers : list (list (list Z))) (total : Z) (st : St)
  : result (Z * St) :=
  match covers with
  | [] => Ok (total, st)
  | c :: covers' =>
      res <- callback c st ;;
      if fst res <? 0 then Ok res
      else deliver callback covers' (total + fst res) (snd res)
  end.

(** The elements of a sequence at the positions [K, 2K, 3K, ...] (counted
    from 1), given that [p] elements came before. *)
Fixpoint every_kth_from {A : Type} (K p : Z) (l : list A) : list A :=
  match l with
  | [] => []
  | x :: l' =>
      if (p + 1) mod K =? 0 then x :: every_kth_from K (p + 1) l'
      else every_kth_from K (p + 1) l'
  end.

Definition every_kth {A : Type} (K : Z) (l : list A) : list A :=
  every_kth_from K 0 l.

(** The grid that a cover decodes to, when the cover is acceptable: when
    duplicate rejection is off, or the grid has no duplicate. *)
Definition accepted_grid (opts : options) (info : xword_info)
           (cover : list (list Z)) : list (list ascii) :=
  match decode_solution opts info cover with
  | Ok grid =>
      if RejectDuplicateWords opts then
        match grid_contains_duplicates always_ok grid
                                       (info_w info) (info_h info) with
        | Ok 0 => [grid]
        | _ => []
        end
      else [grid]
  | _ => []
  end.

Definition accepted_grids (opts : options) (info : xword_info)
           (covers : list (list (list Z))) : list (list ascii) :=
  flat_map (accepted_grid opts info) covers.

(** A cover is decoded without a failed assertion. *)
Definition decodable (opts : options) (info : xword_info)
           (cover : list (list Z)) : Prop :=
  exists grid, decode_solution opts info cover = Ok grid.

(** A grid with two covers that hold a duplicate and two that do not. *)
Definition ctdg_grid : list ascii := str "c.t...d.g".

Definition ctdg_dict : xdict :=
  three_letter_dict ["aha"; "cad"; "cat"; "cod"; "cot"; "dag"; "dog";
                     "oho"; "tag"; "tog"]%string.

Definition every_nth_options (K : Z) : options :=
  {| NumSolutions := -1; RejectDuplicateWords := true;
     UseNaiveMethod := false; PrintEveryNthSolution := K |}.

(** ** What a call of [xword_solve] emits *)

(** The value of [ns] and the grids written, without the static counters
    that the call leaves behind. *)
Definition emitted (r : result (Z * solve_state))
  : result (Z * list (list ascii)) :=
  match r with
  | Ok (ns, (_, out)) => Ok (ns, out)
  | AssertionFailed l => AssertionFailed l
  | OutOfFuel => OutOfFuel
  end.

(** The dictionary of the specification's first scenario. *)
Definition scenario1_dict : xdict :=
  three_letter_dict ["art"; "eta"; "has"; "hie"; "hit"; "ire"; "sea"]%string.

Definition quota_options (N : Z) : options :=
  {| NumSolutions := N; RejectDuplicateWords := true;
     UseNaiveMethod := false; PrintEveryNthSolution := 1 |}.

(** ** Fully fixed runs *)

(** Every cell from [a] to [b-1] of the line holds a letter. *)
Definition fixed_in_line (cell : Z -> ascii) (a b : Z) : Prop :=
  forall x, a <= x < b -> isalpha (cell x) = true.

(** Every fully fixed maximal run of the grid is shorter than [bound]. *)
Definition fixed_runs_below (bound : Z) (grid : list ascii) (w h : Z)
  : Prop :=
  forall r,
    maximal_run grid w h r ->
    fixed_in_line (line_cell (run_o r) grid w (run_line r))
                  (run_start r) (run_stop r) ->
    run_length r < bound.

(** ** The slice table *)

(** The open cells among the first [n] cells of a grid, in grid order. *)
Definition open_cells (grid : list ascii) (n : Z) : list Z :=
  filter (fun i => openb (at_ grid i)) (upto n).

(** A cell that has a slice: any cell in naive mode, an open cell
    otherwise. *)
Definition has_slice (opts : options) (info : xword_info) (cell : Z) : Prop :=
  0 <= cell < info_w info * info_h info
  /\ (UseNaiveMethod opts = true \/ open_cell (at_ (info_grid info) cell)).

(** ** The row of a placement, cell by cell *)

(** What the [k]-th cell of the run contributes to the row of a
    placement: the 27 columns written by one iteration of the [k] loop,
    or nothing for a fixed cell in compressed mode. *)
Definition cell_columns (opts : options) (info : xword_info)
           (o : orientation) (i j : Z) (word : list ascii) (k : Z)
  : list Z :=
  let cell := run_cell o (info_w info) i j k in
  if UseNaiveMethod opts || openb (at_ (info_grid info) cell)
  then
    let slice := 27*2*slice_index (UseNaiveMethod opts) (info_grid info) cell in
    match o with
    | Across => slice_columns slice (ch2idx (at_ word k)) 0 1 0
    | Down => slice_columns slice (ch2idx (at_ word k)) 1 0 1
    end
  else [].

(** The letters that stand in the cells [a .. b-1] of a line. *)
Definition letters_in_line (cell : Z -> ascii) (a b : Z) : list ascii :=
  map (fun k => cell (a + k)) (upto (b - a)).

(** The forced row of the run that starts at position [s] of line [l]. *)
Definition row_forced (o : orientation) (opts : options) (info : xword_info)
           (l s : Z) : result (list Z) :=
  match o with
  | Across => row_forced_across opts info s l
  | Down => row_forced_down opts info l s
  end.

(** The row of a placement on line [l], from position [s] on. *)
Definition placement_row_in_line (o : orientation) (opts : options)
           (info : xword_info) (l s : Z) (word : list ascii) (wlen : Z)
  : result (list Z) :=
  match o with
  | Across => placement_row Across opts info s l word wlen
  | Down => placement_row Down opts info l s word wlen
  end.

(** ** Decoding *)

(** The [k]-th cell of the run of a placement contributes to its row. *)
Definition contributes (opts : options) (info : xword_info)
           (o : orientation) (i j L k : Z) : Prop :=
  0 <= k < L
  /\ (UseNaiveMethod opts = true
      \/ open_cell (at_ (info_grid info) (run_cell o (info_w info) i j k))).

(** The body of the second [do ... while] loop of
    [print_crossword_result], for one column. *)
Definition decode_column (opts : options) (info : xword_info)
           (colx : Z) (grid : list ascii) : result (list ascii) :=
  cell <- SLICE_TO_CELL opts info (Z.quot colx 54) ;;
  _ <- assert ((0 <=? cell) && (cell <? info_w info * info_h info)) 759 ;;
  if Z.rem colx 2 =? 0 then
    let letter_idx := Z.quot (Z.rem colx 54) 2 in
    if letter_idx =? 26 then Ok grid
    else
      _ <- assert ((0 <=? letter_idx) && (letter_idx <? 26)) 766 ;;
      Ok (set_at grid cell (idx2ch letter_idx))
  else Ok grid.

(** ** The rows of the matrix *)

(** The words that [xdict_find] visits for the pattern ["*"]: those of the
    buckets [0 .. XDICT_MAXLENGTH-1], by increasing length. *)
Definition dict_words (d : xdict) : list (list ascii) :=
  concat (firstn (Z.to_nat XDICT_MAXLENGTH) d).

(** The rows that one iteration of the inner loop of [add_rows_for_word]
    adds, at the cell [(i, j)]. *)
Definition rows_at (opts : options) (info : xword_info) (word : list ascii)
           (j i : Z) : list (list Z) :=
  let wlen := Z.of_nat (List.length word) in
  (if entry_fits_across (info_grid info) (info_w info) (info_h info)
                        i j word wlen =? 1
   then [flat_map (cell_columns opts info Across i j word) (upto wlen)]
   else [])
  ++ (if entry_fits_down (info_grid info) (info_w info) (info_h info)
                         i j word wlen =? 1
      then [flat_map (cell_columns opts info Down i j word) (upto wlen)]
      else []).

(** The rows that [add_rows_for_word] adds for one word. *)
Definition word_rows (opts : options) (info : xword_info)
           (word : list ascii) : list (list Z) :=
  flat_map (fun j => flat_map (rows_at opts info word j)
                              (upto (info_w info)))
           (upto (info_h info)).

(** The matrix with the rows [rs] appended. *)
Definition add_rows (mat : dance_matrix) (rs : list (list Z))
  : dance_matrix :=
  {| ncolumns := ncolumns mat; rows := rows mat ++ rs |}.

(** ** Covers and the grids they decode to *)

(** A solution stack as the search may hand it to the callback: every
    entry is a row of the matrix, up to the order of its columns (the
    callback walks the circular list of a row from an arbitrary node),
    and the entries together hold each column of the matrix exactly
    once. *)
Definition cover_stack (mat : dance_matrix) (sol : list (list Z)) : Prop :=
  Forall (fun r' => exists r, In r (rows mat) /\ Permutation r' r) sol
  /\ forall c, 0 <= c < ncolumns mat ->
               count_occ Z.eq_dec (concat sol) c = 1%nat.

(** A word made of letters only. *)
Definition alphabetic (word : list ascii) : Prop :=
  Forall (fun c => isalpha c = true) word.

(** A placement: direction, column and row of the first cell, word. *)
Record placement : Type := {
  pl_o : orientation;
  pl_i : Z;
  pl_j : Z;
  pl_word : list ascii
}.

Definition pl_len (P : placement) : Z := Z.of_nat (List.length (pl_word P)).

(** The row emitted for a placement. *)
Definition pl_row (opts : options) (info : xword_info) (P : placement)
  : list Z :=
  flat_map (cell_columns opts info (pl_o P) (pl_i P) (pl_j P) (pl_word P))
           (upto (pl_len P)).

(** A placement for which [add_rows_for_word] adds a row. *)
Definition pl_valid (info : xword_info) (dict : xdict) (P : placement)
  : Prop :=
  In (pl_word P) (dict_words dict)
  /\ 0 <= pl_i P < info_w info /\ 0 <= pl_j P < info_h info
  /\ entry_fits (pl_o P) (info_grid info) (info_w info) (info_h info)
                (pl_i P) (pl_j P) (pl_word P) (pl_len P) = 1.

(** The [k]-th cell of the run of the placement is [p], and it
    contributes to the row. *)
Definition touches (opts : options) (info : xword_info) (P : placement)
           (p k : Z) : Prop :=
  contributes opts info (pl_o P) (pl_i P) (pl_j P) (pl_len P) k
  /\ p = run_cell (pl_o P) (info_w info) (pl_i P) (pl_j P) k.

(** The letter that the placement puts into the [k]-th cell of its
    run. *)
Definition pl_letter (P : placement) (k : Z) : Z :=
  ch2idx (at_ (pl_word P) k).

(** An entry of a solution stack together with the placement whose row it
    is, up to the order of the columns. *)
Definition stack_entry (opts : options) (info : xword_info) (dict : xdict)
           (e : list Z * placement) : Prop :=
  pl_valid info dict (snd e)
  /\ (exists k, contributes opts info (pl_o (snd e)) (pl_i (snd e))
                            (pl_j (snd e)) (pl_len (snd e)) k)
  /\ Permutation (fst e) (pl_row opts info (snd e)).

(** Some Across entry of the stack puts a letter into the cell [p]. *)
Definition across_toucher (opts : options) (info : xword_info)
           (es : list (list Z * placement)) (p : Z) : Prop :=
  exists e k, In e es /\ pl_o (snd e) = Across
              /\ touches opts info (snd e) p k.

(** The matrix of the first scenario, and the stack of its one cover:
    HAS across, HIE down, IRE across, SEA down. *)
Definition scenario1_matrix : dance_matrix :=
  match build_matrix default_options scenario1_info scenario1_dict with
  | Ok mat => mat
  | _ => dance_init 0
  end.

Definition scenario1_cover : list (list Z) :=
  select [false; true; true; false; true; true] (rows scenario1_matrix).

(** ** The size of a dictionary *)

(** [size_t dict_len(struct xdict *dict)] *)
Definition dict_len (dict : xdict) : Z :=
  fold_left (fun count ws => count + Z.of_nat (List.length ws))
            (firstn (Z.to_nat XDICT_MAXLENGTH) dict) 0.

(** The bucket of the words of length [k]. *)
Definition bucket (dict : xdict) (k : nat) : list (list ascii) :=
  nth k dict [].

(** The number of times that [word] stands in a bucket. *)
Definition occurrences (ws : list (list ascii)) (word : list ascii) : nat :=
  count_occ (list_eq_dec ascii_dec) ws word.

(** ** The dictionary library: lookup, insertion, sorting *)

(** [int xdict_match_simple(const char *w, const char *p)] of
    [xdictlib.c]. *)
Fixpoint xdict_match_simple (w p : list ascii) {struct p} : bool :=
  match p with
  | [] => match w with [] => true | _ => false end
  | c :: p' =>
      match w with
      | [] => false
      | x :: w' =>
          (if Ascii.eqb c "1" then is_consonant x
           else if Ascii.eqb c "0" then is_vowel x
           else if Ascii.eqb c "?" then true
           else Ascii.eqb c x)
          && xdict_match_simple w' p'
      end
  end.

(** [static int is_purely_alphabetic(const char *pattern)] *)
Definition is_purely_alphabetic (pattern : list ascii) : bool :=
  forallb isalpha pattern.

(** [struct xdict] with its bookkeeping: [len[k]] is the length of the
    list [xd_words[k]]. *)
Record xdict_t : Type := {
  xd_words : xdict;
  xd_cap : list Z;
  xd_sorted : bool
}.

(** [a[k] = x], for [k] within the array. *)
Definition set_nth {A : Type} (l : list A) (k : nat) (x : A) : list A :=
  firstn k l ++ x :: skipn (S k) l.

(** [void xdict_init(struct xdict *d)] *)
Definition xdict_init : xdict_t :=
  {| xd_words := repeat [] (Z.to_nat XDICT_MAXLENGTH);
     xd_cap := repeat 0 (Z.to_nat XDICT_MAXLENGTH);
     xd_sorted := true |}.

(** [int xdict_addword(struct xdict *d, const char *word, int k)]: the
    value returned and the dictionary afterwards.  [realloc_ok] and
    [malloc_ok] tell whether the call of [realloc], if one is made, and
    the call of [malloc] succeed. *)
Definition xdict_addword (realloc_ok malloc_ok : bool) (d : xdict_t)
           (word : list ascii) (k : Z) : Z * xdict_t :=
  let k := if k =? 0 then Z.of_nat (List.length word) else k in
  if k >=? XDICT_MAXLENGTH then (-1, d)
  else if k <=? 2 then (-1, d)
  else
    let kn := Z.to_nat k in
    let ws := nth kn (xd_words d) [] in
    let cap := nth kn (xd_cap d) 0 in
    let grow := Z.of_nat (List.length ws) >=? cap in
    if grow && negb realloc_ok then (-3, d)
    else
      let caps := if grow then set_nth (xd_cap d) kn (cap * 2 + 15)
                  else xd_cap d in
      if negb malloc_ok
      then (-4, {| xd_words := xd_words d; xd_cap := caps;
                   xd_sorted := xd_sorted d |})
      else (0, {| xd_words := set_nth (xd_words d) kn
                                      (ws ++ [firstn kn word]);
                  xd_cap := caps;
                  xd_sorted := false |}).

(** The binary search of [xdict_find]: [while (low < high)], on an
    iteration budget. *)
Fixpoint bsearch (w : list (list ascii)) (pattern : list ascii)
         (fuel : nat) (low high : nat) : result Z :=
  match fuel with
  | O => OutOfFuel
  | S fuel' =>
      if (low <? high)%nat then
        let i := (low + (high - low) / 2)%nat in
        let rc := strcmp (nth i w []) pattern in
        if rc =? 0 then Ok 1
        else if rc >? 0 then bsearch w pattern fuel' low i
        else bsearch w pattern fuel' (i + 1)%nat high
      else Ok 0
  end.

(** [int xdict_find(struct xdict *d, const char *pattern, int (*f)(const
    char *, void *), void *info)] with [f == NULL]: the value returned. *)
Definition xdict_find (d : xdict_t) (pattern : list ascii) : result Z :=
  if negb (existsb (Ascii.eqb "*") pattern) then
    let len := Z.of_nat (List.length pattern) in
    if (len <? 2) || (len >=? XDICT_MAXLENGTH) then Ok (-1)
    else
      let w := nth (List.length pattern) (xd_words d) [] in
      if xd_sorted d && is_purely_alphabetic pattern then
        bsearch w pattern (S (List.length w)) 0 (List.length w)
      else
        Ok (Z.of_nat (List.length
                        (filter (fun word => xdict_match_simple word pattern)
                                w)))
  else
    let len :=
      List.length (filter (fun c => negb (Ascii.eqb c "*")) pattern) in
    Ok (Z.of_nat
          (List.length
             (filter (fun word => xdict_match word pattern)
                     (concat (skipn len (firstn (Z.to_nat XDICT_MAXLENGTH)
                                                (xd_words d))))))).

(** The loop [for (i=n; i > 1; --i)] of [xdict_sort] that removes
    duplicates: the array and [n] afterwards. *)
Fixpoint dedup_loop (i : nat) (w : list (list ascii)) (n : nat)
  : list (list ascii) * nat :=
  match i with
  | O => (w, n)
  | S i' =>
      match i' with
      | O => (w, n)
      | S i'' =>
          if strcmp (nth i' w []) (nth i'' w []) =? 0 then
            let n' := (n - 1)%nat in
            if (i <? n')%nat
            then dedup_loop i' (set_nth w i' (nth n' w [])) n'
            else dedup_loop i' w n'
          else dedup_loop i' w n
      end
  end.

(** The body of the [k] loop of [xdict_sort]: what becomes of the live
    part of one bucket. *)
Definition xdict_sort_bucket (ws : list (list ascii)) : list (list ascii) :=
  if (List.length ws <? 2)%nat then ws
  else
    let sorted := qsort strcmp ws in
    let '(w, n) := dedup_loop (List.length ws) sorted (List.length ws) in
    if (n <? List.length ws)%nat then qsort strcmp (firstn n w)
    else w.

(** [void xdict_sort(struct xdict *d)] *)
Definition xdict_sort (d : xdict_t) : xdict_t :=
  {| xd_words := map xdict_sort_bucket
                     (firstn (Z.to_nat XDICT_MAXLENGTH) (xd_words d))
                 ++ skipn (Z.to_nat XDICT_MAXLENGTH) (xd_words d);
     xd_cap := xd_cap d;
     xd_sorted := true |}.

(** The dictionary has its [XDICT_MAXLENGTH] buckets, none of them over
    its capacity. *)
Definition xdict_wf (d : xdict_t) : Prop :=
  List.length (xd_words d) = Z.to_nat XDICT_MAXLENGTH
  /\ List.length (xd_cap d) = Z.to_nat XDICT_MAXLENGTH.

(** A pattern without the wildcard [*]. *)
Definition star_free (p : list ascii) : Prop := ~ In "*" p.

(** ** Reading the grid file *)

(** [isspace] in the C locale: space, [\t], [\n], [\v], [\f], [\r]. *)
Definition isspace (c : ascii) : bool :=
  (code c =? 32) || ((9 <=? code c) && (code c <=? 13)).

(** The newline character. *)
Definition newline : ascii := "010".

(** The C string that an array of characters holds: the characters before
    the first NUL. *)
Fixpoint c_str (buf : list ascii) : list ascii :=
  match buf with
  | [] => []
  | c :: buf' => if Ascii.eqb c NUL then [] else c :: c_str buf'
  end.

(** [for (i=0; isspace(buf[i]); ++i)] of [strip_space]: the final [i]. *)
Fixpoint leading_space (buf : list ascii) : nat :=
  match buf with
  | [] => O
  | c :: buf' => if isspace c then S (leading_space buf') else O
  end.

(** [for (i=n; (i > 0) && isspace(buf[i-1]); --i)] of [strip_space]: the
    final [i]. *)
Fixpoint trailing_space (buf : list ascii) (i : nat) : nat :=
  match i with
  | O => O
  | S i' => if isspace (nth i' buf NUL) then trailing_space buf i' else i
  end.

(** [void strip_space(char *buf)]: the string in [buf] afterwards. *)
Definition strip_space (buf : list ascii) : list ascii :=
  let n := List.length buf in
  let i := leading_space buf in
  let buf1 := if (0 <? i)%nat then skipn i buf else buf in
  let n1 := if (0 <? i)%nat then (n - i)%nat else n in
  firstn (trailing_space buf1 n1) buf1.

(** An input stream: the characters not yet read and the end-of-file
    indicator.  Read errors are not modelled. *)
Record FILE : Type := {
  f_rest : list ascii;
  f_eof : bool
}.

(** The characters that one call of [fgets] stores when it may store up
    to [k] of them, what is left of the stream, and whether the end of
    the stream was met. *)
Fixpoint fgets_chars (k : nat) (rest : list ascii)
  : list ascii * list ascii * bool :=
  match k with
  | O => ([], rest, false)
  | S k' =>
      match rest with
      | [] => ([], [], true)
      | c :: rest' =>
          if Ascii.eqb c newline then ([c], rest', false)
          else
            let '(l, r, e) := fgets_chars k' rest' in (c :: l, r, e)
      end
  end.

(** [fgets(buf, size, fp)]: [None] stands for a null pointer, returned
    at end of file when no character was read. *)
Definition fgets (size : nat) (fp : FILE) : option (list ascii) * FILE :=
  let '(l, r, e) := fgets_chars (size - 1) (f_rest fp) in
  let fp' := {| f_rest := r; f_eof := f_eof fp || e |} in
  match l with
  | [] => if e then (None, fp') else (Some [], fp')
  | _ :: _ => (Some l, fp')
  end.

(** The first loop of [load_grid]: [while (fgets(buf, sizeof buf, fp) !=
    NULL) { strip_space(buf); if (buf[0] != '\0') break; }].  [Some buf]:
    the loop was left by [break]. *)
Fixpoint find_grid (fuel : nat) (fp : FILE)
  : result (option (list ascii) * FILE) :=
  match fuel with
  | O => OutOfFuel
  | S fuel' =>
      match fgets 100 fp with
      | (None, fp') => Ok (None, fp')
      | (Some l, fp') =>
          let buf := strip_space (c_str l) in
          match buf with
          | [] => find_grid fuel' fp'
          | _ :: _ => Ok (Some buf, fp')
          end
      end
  end.

(** How [load_grid] stores one character of a row. *)
Definition grid_char (c : ascii) : ascii :=
  if strchr "`.?" c then "." else tolower c.

(** The second loop of [load_grid]: [while (strlen(buf) == w) ...].  The
    value returned when the function ends here ([-3]) or the loop is
    left ([0]), the grid and [h]. *)
Fixpoint read_rows (malloc_ok : nat -> bool) (w : nat) (fuel : nat)
         (buf : list ascii) (fp : FILE) (grid : list ascii) (h : nat)
         (gridcap : nat) (nalloc : nat) : result (Z * list ascii * nat) :=
  match fuel with
  | O => OutOfFuel
  | S fuel' =>
      if negb (List.length buf =? w)%nat then Ok (0, grid, h)
      else
        let grow := (gridcap <=? w * h)%nat in
        if grow && negb (malloc_ok nalloc) then Ok (-3, grid, h)
        else
          let gridcap' := if grow then (gridcap + 2 * w)%nat else gridcap in
          let nalloc' := if grow then S nalloc else nalloc in
          let grid' := grid ++ map grid_char buf in
          match fgets 100 fp with
          | (None, _) => Ok (0, grid', S h)
          | (Some l, fp') =>
              read_rows malloc_ok w fuel' (strip_space (c_str l)) fp'
                        grid' (S h) gridcap' nalloc'
          end
  end.

(** [int load_grid(FILE *fp, char **ggrid, int *gw, int *gh)]: the value
    returned, and the grid, [w] and [h] stored through the pointers when
    that value is 0.  What is written to [stdout] is left out.  The first
    loop ends without a line only at the end of the file, read errors
    not being modelled, so the branch for [None] is never taken with the
    end-of-file indicator clear. *)
Definition load_grid (malloc_ok : nat -> bool) (fp : FILE)
  : result (Z * list ascii * Z * Z) :=
  found <- find_grid (S (List.length (f_rest fp))) fp ;;
  let '(first, fp1) := found in
  if f_eof fp1 then Ok (-2, [], 0, 0)
  else
    match first with
    | None => Ok (-2, [], 0, 0)
    | Some buf =>
        let w := List.length buf in
        r <- read_rows malloc_ok w (S (List.length (f_rest fp1)))
                       buf fp1 [] 0 0 0 ;;
        let '(rc, grid, h) := r in
        if rc =? 0 then Ok (0, grid, Z.of_nat w, Z.of_nat h)
        else Ok (rc, [], 0, 0)
    end.

(** The lines of a file, each ended by a newline. *)
Definition file_of_lines (lines : list (list ascii)) : list ascii :=
  flat_map (fun l => l ++ [newline]) lines.

(** A row as a grid file spells it: some characters, none of them white
    space or NUL. *)
Definition plain_row (w : nat) (row : list ascii) : Prop :=
  List.length row = w
  /\ Forall (fun c => isspace c = false /\ c <> NUL) row.

(** What [load_grid] stores in a cell: never an upper-case letter, a
    back quote, a question mark or NUL. *)
Definition stored_cell (c : ascii) : Prop :=
  isupper c = false /\ c <> "`" /\ c <> "?" /\ c <> NUL.

(** ** Removing words from the dictionary *)

(** [memcmp(a, b, k) == 0], for strings of at least [k] characters. *)
Definition memcmp_eq (a b : list ascii) (k : nat) : bool :=
  if list_eq_dec ascii_dec (firstn k a) (firstn k b) then true else false.

(** The loop over one bucket that [xdict_remword] and [xdict_remmatch]
    spell out with different tests:
    [for (i=0; i < d->len[k]; ++i) if (test) { d->len[k]--;
    if (i != d->len[k]) { strcpy(w[i].word, w[d->len[k]].word);
    d->sorted = 0; } free(w[d->len[k]].word); ++count; }].
    The bucket, [d->sorted] and [count] afterwards; [fuel] bounds the
    number of iterations, which never exceeds the initial [len[k]]. *)
Fixpoint rem_loop (test : list ascii -> bool) (fuel : nat) (i : nat)
         (ws : list (list ascii)) (sorted : bool) (count : Z)
  : list (list ascii) * bool * Z :=
  match fuel with
  | O => (ws, sorted, count)
  | S fuel' =>
      if (i <? List.length ws)%nat then
        if test (nth i ws []) then
          let sorted' :=
            if negb (i =? List.length ws - 1)%nat then false else sorted in
          rem_loop test fuel' (S i) (swap_remove ws i) sorted' (count + 1)
        else rem_loop test fuel' (S i) ws sorted count
      else (ws, sorted, count)
  end.

(** The loop of [rem_loop] over the bucket [kn] of the dictionary. *)
Definition rem_bucket (test : list ascii -> bool) (kn : nat)
           (words : xdict) (sorted : bool) (count : Z)
  : xdict * bool * Z :=
  let ws := nth kn words [] in
  let '(ws', sorted', count') :=
    rem_loop test (List.length ws) 0 ws sorted count in
  (set_nth words kn ws', sorted', count').

(** [int xdict_remword(struct xdict *d, const char *word, int k)]: the
    value returned and the dictionary afterwards. *)
Definition xdict_remword (d : xdict_t) (word : list ascii) (k : Z)
  : Z * xdict_t :=
  let k := if k =? 0 then Z.of_nat (List.length word) else k in
  if k >=? XDICT_MAXLENGTH then (-1, d)
  else if k <=? 2 then (-1, d)
  else
    let kn := Z.to_nat k in
    let '(words, sorted, count) :=
      rem_bucket (fun w => memcmp_eq w word kn) kn
                 (xd_words d) (xd_sorted d) 0 in
    (count, {| xd_words := words; xd_cap := xd_cap d;
               xd_sorted := sorted |}).

(** [for ( ; k < XDICT_MAXLENGTH; ++k)] of [xdict_remmatch], over the
    bucket numbers [ks]. *)
Fixpoint remmatch_buckets (pat : list ascii) (ks : list nat)
         (words : xdict) (sorted : bool) (count : Z) : xdict * bool * Z :=
  match ks with
  | [] => (words, sorted, count)
  | kn :: ks' =>
      let '(words', sorted', count') :=
        rem_bucket (fun w => xdict_match w pat) kn words sorted count in
      remmatch_buckets pat ks' words' sorted' count'
  end.

(** [int xdict_remmatch(struct xdict *d, const char *pat, int k)]: the
    value returned and the dictionary afterwards. *)
Definition xdict_remmatch (d : xdict_t) (pat : list ascii) (k : Z)
  : Z * xdict_t :=
  if negb (k =? 0) && negb (existsb (Ascii.eqb "*") pat) then
    if negb (existsb (Ascii.eqb "?") pat) then xdict_remword d pat k
    else
      let k := if k =? 0 then Z.of_nat (List.length pat) else k in
      if k >=? XDICT_MAXLENGTH then (-1, d)
      else if k <=? 2 then (-1, d)
      else
        let '(words, sorted, count) :=
          rem_bucket (fun w => xdict_match w pat) (Z.to_nat k)
                     (xd_words d) (xd_sorted d) 0 in
        (count, {| xd_words := words; xd_cap := xd_cap d;
                   xd_sorted := sorted |})
  else
    let k0 :=
      List.length (filter (fun c => negb (Ascii.eqb c "*")) pat) in
    let '(words, sorted, count) :=
      remmatch_buckets pat (seq k0 (Z.to_nat XDICT_MAXLENGTH - k0))
                       (xd_words d) (xd_sorted d) 0 in
    (count, {| xd_words := words; xd_cap := xd_cap d; xd_sorted := sorted |}).

(** ** Loading the dictionary file *)

(** [strchr(s, c) - s], for [c] other than NUL: the index of the first
    [c], [None] for a null pointer. *)
Fixpoint strchr_index (s : list ascii) (c : ascii) : option nat :=
  match s with
  | [] => None
  | x :: s' =>
      if Ascii.eqb x c then Some O else option_map S (strchr_index s' c)
  end.

(** The calls [xdict_addword(d, buffer, k)] that [xdict_load] makes for
    one line, each with the string that [buffer] holds at the call and
    its [k].  [before] is the character that [p[-1]] reads when the line
    begins with the slash, the one in front of [buffer] in memory. *)
Definition load_calls (before : ascii) (buffer : list ascii)
  : list (list ascii * Z) :=
  let buflen := Z.of_nat (List.length buffer) in
  match strchr_index buffer "/" with
  | Some pi =>
      let stem := firstn pi buffer in
      let k := Z.of_nat pi in
      let c := nth (S pi) buffer NUL in
      if Ascii.eqb c "s" || Ascii.eqb c "S" then
        [(buffer, k); (stem ++ str "s", k + 1)]
      else if Ascii.eqb c "v" || Ascii.eqb c "V" then
        [(buffer, k); (stem ++ str "s", k + 1); (stem ++ str "ed", k + 2);
         (stem ++ str "ing", k + 3)]
      else if Ascii.eqb c "w" || Ascii.eqb c "W" then
        [(stem ++ str "e", k + 1); (stem ++ str "es", k + 2);
         (stem ++ str "ed", k + 2); (stem ++ str "ing", k + 3)]
      else if Ascii.eqb c "x" || Ascii.eqb c "X" then
        let last_of_stem := nth pi (before :: buffer) NUL in
        [(buffer, k); (stem ++ str "s", k + 1);
         (c_str (stem ++ last_of_stem :: str "ed"), k + 3);
         (c_str (stem ++ last_of_stem :: str "ing"), k + 4)]
      else [(buffer, buflen)]
  | None => [(buffer, buflen)]
  end.

(** The calls of one line, each followed by [if (rc < -1) goto done]:
    whether [done] was jumped to, the dictionary and the number of calls
    of [xdict_addword] made so far.  [alloc n] tells whether the
    [realloc] and the [malloc] of call number [n] succeed. *)
Fixpoint add_calls (alloc : nat -> bool * bool)
         (calls : list (list ascii * Z)) (d : xdict_t) (n : nat)
  : bool * xdict_t * nat :=
  match calls with
  | [] => (false, d, n)
  | (word, k) :: calls' =>
      let '(rc, d') :=
        xdict_addword (fst (alloc n)) (snd (alloc n)) d word k in
      if rc <? -1 then (true, d', S n)
      else add_calls alloc calls' d' (S n)
  end.

(** [while (fgets(buffer, (sizeof buffer)-5, in) != NULL) ...] of
    [xdict_load], up to the label [done]: the dictionary there. *)
Fixpoint load_lines (alloc : nat -> bool * bool) (before : ascii)
         (fuel : nat) (fp : FILE) (d : xdict_t) (n : nat)
  : result xdict_t :=
  match fuel with
  | O => OutOfFuel
  | S fuel' =>
      match fgets (Z.to_nat (XDICT_MAXLENGTH + 25) - 5) fp with
      | (None, _) => Ok d
      | (Some l, fp') =>
          match strchr_index (c_str l) newline with
          | None => Ok d
          | Some p =>
              let buffer := firstn p (c_str l) in
              let '(stop, d', n') :=
                add_calls alloc (load_calls before buffer) d n in
              if stop then Ok d'
              else load_lines alloc before fuel' fp' d' n'
          end
      end
  end.

(** [int xdict_load(struct xdict *d, const char *fname)]: the value
    returned and the dictionary afterwards.  [file] is what [fopen]
    gives, [None] for a null pointer.  The [rc] that the loop assigns is
    the one declared in its body, so the [rc] returned is still 0. *)
Definition xdict_load (alloc : nat -> bool * bool) (before : ascii)
           (d : xdict_t) (file : option FILE) : result (Z * xdict_t) :=
  match file with
  | None => Ok (-1, d)
  | Some fp =>
      d' <- load_lines alloc before (S (List.length (f_rest fp))) fp d 0 ;;
      Ok (0, xdict_sort d')
  end.

(** A line of the dictionary file that is one plain word: letters only,
    of a length that the dictionary stores. *)
Definition plain_word (w : list ascii) : Prop :=
  is_purely_alphabetic w = true
  /\ 2 < Z.of_nat (List.length w) < XDICT_MAXLENGTH.

(** Every word stands in the bucket of its length. *)
Definition xdict_lengths (words : xdict) : Prop :=
  forall k x, In x (bucket words k) -> List.length x = k.

(** A call [xdict_addword(d, buffer, k)] whose [k] does not reach past
    the end of the string in [buffer]. *)
Definition call_in_string (call : list ascii * Z) : Prop :=
  0 <= snd call <= Z.of_nat (List.length (fst call)).

(** ** The command line *)

(** [isdigit] in the C locale. *)
Definition isdigit (c : ascii) : bool :=
  (code "0" <=? code c) && (code c <=? code "9").

(** The digits of [atoi], most significant first. *)
Fixpoint atoi_digits (s : list ascii) (acc : Z) : Z :=
  match s with
  | [] => acc
  | c :: s' =>
      if isdigit c then atoi_digits s' (10 * acc + (code c - code "0"))
      else acc
  end.

(** The value of the numeral that [atoi] reads: white space, an optional
    sign, decimal digits. *)
Definition numeral_value (s : list ascii) : Z :=
  match skipn (leading_space s) s with
  | [] => 0
  | c :: s' =>
      if Ascii.eqb c "-" then - atoi_digits s' 0
      else if Ascii.eqb c "+" then atoi_digits s' 0
      else atoi_digits (c :: s') 0
  end.

(** [INT_MIN] and [INT_MAX], for an [int] of 32 bits. *)
Definition INT_MIN : Z := -2147483648.
Definition INT_MAX : Z := 2147483647.

(** [atoi]: the value of the numeral when an [int] holds it; [None] when
    it does not, where the C standard leaves the behaviour of [atoi]
    undefined. *)
Definition atoi (s : list ascii) : option Z :=
  let n := numeral_value s in
  if (INT_MIN <=? n) && (n <=? INT_MAX) then Some n else None.

(** [#define steq(s,t) (!strcmp(s,t))] *)
Definition steq (s : list ascii) (t : string) : bool :=
  strcmp s (str t) =? 0.

(** The file-scope variables that [main] sets from the command line,
    and its local [LiteralInputNames].  [DebugFile] is [stderr] or
    null. *)
Record main_vars : Type := {
  mv_options : options;
  DictFilename : list ascii;
  OutputFilename : option (list ascii);
  DebugFile : bool;
  LiteralInputNames : bool
}.

(** The initializers of those variables. *)
Definition initial_vars : main_vars :=
  {| mv_options := default_options;
     DictFilename := str "xdict.save.txt";
     OutputFilename := None;
     DebugFile := false;
     LiteralInputNames := false |}.

Definition with_options (v : main_vars) (o : options) : main_vars :=
  {| mv_options := o; DictFilename := DictFilename v;
     OutputFilename := OutputFilename v; DebugFile := DebugFile v;
     LiteralInputNames := LiteralInputNames v |}.

(** How [main] goes on: [exit(0)] in [do_help], [exit(EXIT_FAILURE)] in
    [do_error], a call of [atoi] whose behaviour is undefined, or on with
    a value. *)
Inductive progress (A : Type) : Type :=
| ExitHelp : progress A
| ExitFailure : progress A
| Undefined : progress A
| Goes : A -> progress A.
Arguments ExitHelp {A}.
Arguments ExitFailure {A}.
Arguments Undefined {A}.
Arguments Goes {A} _.

(** [for (i=1; i < argc; ++i) ...] of [main]: [args] is [argv[i]] to
    [argv[argc-1]]; the arguments left when the loop ends, and the
    variables. *)
Fixpoint parse_options (args : list (list ascii)) (v : main_vars)
  : progress (list (list ascii) * main_vars) :=
  match args with
  | [] => Goes ([], v)
  | a :: rest =>
      if negb (Ascii.eqb (at_ a 0) "-") then Goes (args, v)
      else if Ascii.eqb (at_ a 1) NUL then Goes (args, v)
      else if steq (tl a) "-" then
        Goes (rest,
              {| mv_options := mv_options v; DictFilename := DictFilename v;
                 OutputFilename := OutputFilename v;
                 DebugFile := DebugFile v; LiteralInputNames := true |})
      else if steq (tl a) "-help" || steq (tl a) "h" || steq (tl a) "?"
      then ExitHelp
      else if steq (tl a) "-man" then ExitHelp
      else if steq a "-o" then
        match rest with
        | [] => ExitFailure
        | f :: rest' =>
            parse_options rest'
              {| mv_options := mv_options v; DictFilename := DictFilename v;
                 OutputFilename := Some f; DebugFile := DebugFile v;
                 LiteralInputNames := LiteralInputNames v |}
        end
      else if steq a "-d" then
        match rest with
        | [] => ExitFailure
        | f :: rest' =>
            parse_options rest'
              {| mv_options := mv_options v; DictFilename := f;
                 OutputFilename := OutputFilename v;
                 DebugFile := DebugFile v;
                 LiteralInputNames := LiteralInputNames v |}
        end
      else if steq a "-n" || steq a "-N" then
        match rest with
        | [] => ExitFailure
        | f :: rest' =>
            match atoi f with
            | None => Undefined
            | Some n =>
                if n <=? 0 then ExitFailure
                else
                  parse_options rest'
                    (with_options v
                       {| NumSolutions := n;
                          RejectDuplicateWords :=
                            RejectDuplicateWords (mv_options v);
                          UseNaiveMethod := UseNaiveMethod (mv_options v);
                          PrintEveryNthSolution :=
                            PrintEveryNthSolution (mv_options v) |})
            end
        end
      else if steq a "--every" then
        match rest with
        | [] => ExitFailure
        | f :: rest' =>
            match atoi f with
            | None => Undefined
            | Some n =>
                if n <=? 0 then ExitFailure
                else
                  parse_options rest'
                    (with_options v
                       {| NumSolutions := NumSolutions (mv_options v);
                          RejectDuplicateWords :=
                            RejectDuplicateWords (mv_options v);
                          UseNaiveMethod := UseNaiveMethod (mv_options v);
                          PrintEveryNthSolution := n |})
            end
        end
      else if steq a "--allow_duplicate_words" then
        parse_options rest
          (with_options v
             {| NumSolutions := NumSolutions (mv_options v);
                RejectDuplicateWords := false;
                UseNaiveMethod := UseNaiveMethod (mv_options v);
                PrintEveryNthSolution :=
                  PrintEveryNthSolution (mv_options v) |})
      else if steq a "--debug" then
        parse_options rest
          {| mv_options := mv_options v; DictFilename := DictFilename v;
             OutputFilename := OutputFilename v; DebugFile := true;
             LiteralInputNames := LiteralInputNames v |}
      else if steq a "--naive" then
        parse_options rest
          (with_options v
             {| NumSolutions := NumSolutions (mv_options v);
                RejectDuplicateWords := RejectDuplicateWords (mv_options v);
                UseNaiveMethod := true;
                PrintEveryNthSolution :=
                  PrintEveryNthSolution (mv_options v) |})
      else ExitFailure
  end.

(** What [main] reads the grid from: [None] for [stdin], [Some fname]
    for the file to open.  [args] are the arguments that the options
    loop has left. *)
Definition grid_input (args : list (list ascii)) (v : main_vars)
  : progress (option (list ascii)) :=
  if (1 <? List.length args)%nat then ExitFailure
  else
    match args with
    | fname :: _ =>
        if LiteralInputNames v || negb (steq fname "-")
        then Goes (Some fname) else Goes None
    | [] => Goes None
    end.

(** [main] up to the choice of the grid's input: [argv] without
    [argv[0]]. *)
Definition main_command_line (args : list (list ascii))
  : progress (option (list ascii) * main_vars) :=
  match parse_options args initial_vars with
  | ExitHelp => ExitHelp
  | ExitFailure => ExitFailure
  | Undefined => Undefined
  | Goes (rest, v) =>
      match grid_input rest v with
      | ExitHelp => ExitHelp
      | ExitFailure => ExitFailure
      | Undefined => Undefined
      | Goes input => Goes (input, v)
      end
  end.

(** * Verified properties *)

(** ** Characters *)

Lemma ascii_eqb_eq (a b : ascii) : Ascii.eqb a b = true <-> a = b.
Proof. apply Ascii.eqb_eq. Qed.

Lemma ascii_eqb_neq (a b : ascii) : Ascii.eqb a b = false <-> a <> b.
Proof. apply Ascii.eqb_neq. Qed.

Lemma strchr_vowelb (c : ascii) :
  c <> NUL -> strchr "aeiouy" c = vowelb c.
Proof.
  intros Hc. unfold strchr.
  apply ascii_eqb_neq in Hc. rewrite Hc. reflexivity.
Qed.

Lemma strchr_consonantb (c : ascii) :
  c <> NUL -> strchr "bcdfghjklmnpqrstvwxyz" c = consonantb c.
Proof.
  intros Hc. unfold strchr.
  apply ascii_eqb_neq in Hc. rewrite Hc. clear Hc.
  destruct c as [[] [] [] [] [] [] [] []]; reflexivity.
Qed.

Lemma vowelb_spec (c : ascii) : vowelb c = true <-> vowel c.
Proof.
  unfold vowelb, vowel. rewrite existsb_exists. split.
  - intros [x [Hin Hx]]. apply ascii_eqb_eq in Hx. now subst.
  - intros H. exists c. split; [assumption | apply Ascii.eqb_refl].
Qed.

Lemma consonantb_spec (c : ascii) : consonantb c = true <-> consonant c.
Proof.
  unfold consonantb, consonant.
  rewrite !andb_true_iff, !Z.leb_le, negb_true_iff.
  split.
  - intros [[H1 H2] H3]. split; [lia |].
    intros Hin. assert (E : existsb (Ascii.eqb c) (str "aeiou") = true).
    { apply existsb_exists. exists c. split; [assumption | apply Ascii.eqb_refl]. }
    congruence.
  - intros [H1 H2]. split; [split; lia |].
    destruct (existsb (Ascii.eqb c) (str "aeiou")) eqn:E; [| reflexivity].
    exfalso. apply H2. apply existsb_exists in E.
    destruct E as [x [Hin Hx]]. apply ascii_eqb_eq in Hx. now subst.
Qed.

(** ** The single-cell matcher (C3) *)

Lemma wildcard_match_bool (a b : ascii) :
  wildcard_match a b <->
  (Ascii.eqb a "0" && vowelb b) || (Ascii.eqb b "0" && vowelb a)
  || (Ascii.eqb a "1" && consonantb b) || (Ascii.eqb b "1" && consonantb a)
  = true.
Proof.
  unfold wildcard_match.
  rewrite !orb_true_iff, !andb_true_iff, !ascii_eqb_eq,
          !vowelb_spec, !consonantb_spec.
  tauto.
Qed.

(** C3, as the specification states it, fails: the program's consonant
    class contains [y], so the consonant wildcard matches [y] although the
    table allows it a vowel only; and two equal characters that are no
    letters (two vowel wildcards) are an exact match. *)
Lemma matches_spec_counterexample :
  matches "1" "y" = 1 /\ matches_spec "1" "y" = 0
  /\ matches "0" "0" = 2 /\ matches_spec "0" "0" = 0.
Proof. repeat split; reflexivity. Qed.

(** C3 (amended): for characters of C strings (none is NUL), [matches]
    returns no match when either is [#]; else a loose match when either is
    [.]; else a loose match when one is [0] and the other a vowel of
    [aeiouy], or one is [1] and the other a consonant, where [y] counts as
    a consonant too; else an exact match when the two characters are equal
    up to the case of letters; and no match otherwise. *)
Theorem matches_table (a b : ascii) :
  a <> NUL -> b <> NUL ->
  ((a = "#" \/ b = "#") -> matches a b = 0)
  /\ (a <> "#" -> b <> "#" -> (a = "." \/ b = ".") -> matches a b = 1)
  /\ (a <> "#" -> b <> "#" -> a <> "." -> b <> "." ->
      (wildcard_match a b -> matches a b = 1)
      /\ (~ wildcard_match a b -> tolower a = tolower b -> matches a b = 2)
      /\ (~ wildcard_match a b -> tolower a <> tolower b -> matches a b = 0)).
Proof.
  intros Ha Hb. unfold matches.
  rewrite (strchr_vowelb a Ha), (strchr_vowelb b Hb),
          (strchr_consonantb a Ha), (strchr_consonantb b Hb).
  split; [| split].
  - intros [-> | ->]; [reflexivity |].
    now rewrite orb_true_r.
  - intros Ha' Hb' Hdot.
    apply ascii_eqb_neq in Ha', Hb'. rewrite Ha', Hb'. simpl.
    destruct Hdot as [-> | ->]; [reflexivity |].
    now rewrite orb_true_r.
  - intros Ha' Hb' Ha'' Hb''.
    apply ascii_eqb_neq in Ha', Hb', Ha'', Hb''.
    rewrite Ha', Hb', Ha'', Hb''. simpl.
    rewrite (wildcard_match_bool a b).
    destruct (Ascii.eqb (tolower a) (tolower b)) eqn:E;
      [apply ascii_eqb_eq in E | apply ascii_eqb_neq in E];
      destruct (vowelb a), (vowelb b), (consonantb a), (consonantb b),
               (Ascii.eqb a "0"), (Ascii.eqb b "0"),
               (Ascii.eqb a "1"), (Ascii.eqb b "1");
      simpl; repeat split; intros; congruence.
Qed.

Lemma matches_table_witness :
  "1" <> NUL /\ "y" <> NUL
  /\ ((("1" = "#" \/ "y" = "#") -> matches "1" "y" = 0)
      /\ ("1" <> "#" -> "y" <> "#" -> ("1" = "." \/ "y" = ".") ->
          matches "1" "y" = 1)
      /\ ("1" <> "#" -> "y" <> "#" -> "1" <> "." -> "y" <> "." ->
          (wildcard_match "1" "y" -> matches "1" "y" = 1)
          /\ (~ wildcard_match "1" "y" -> tolower "1" = tolower "y" ->
              matches "1" "y" = 2)
          /\ (~ wildcard_match "1" "y" -> tolower "1" <> tolower "y" ->
              matches "1" "y" = 0))).
Proof.
  split; [discriminate | split; [discriminate |]].
  apply (matches_table "1" "y"); discriminate.
Defined.

(** ** Run fit (C4) *)

Lemma matches_range (a b : ascii) :
  matches a b = 0 \/ matches a b = 1 \/ matches a b = 2.
Proof.
  unfold matches.
  repeat match goal with
         | |- context [if ?c then _ else _] => destruct c
         end; auto.
Qed.

Lemma fits_loop_spec (grid : list ascii) (cellof : Z -> Z)
      (word : list ascii) (n : nat) :
  forall (k : Z) (e : bool),
    let r := fits_loop grid cellof word n k e in
    (r = 0 \/ r = 1 \/ r = 2)
    /\ (r <> 0 <->
        forall x, k <= x < k + Z.of_nat n ->
                  matches (at_ grid (cellof x)) (at_ word x) <> 0)
    /\ (r = 2 <->
        e = true /\
        forall x, k <= x < k + Z.of_nat n ->
                  matches (at_ grid (cellof x)) (at_ word x) = 2).
Proof.
  induction n as [| n IH]; intros k e; cbn zeta.
  - simpl. destruct e; repeat split; auto; try lia; try discriminate;
      intros; try lia.
  - cbn [fits_loop].
    set (rc := matches (at_ grid (cellof k)) (at_ word k)).
    destruct (matches_range (at_ grid (cellof k)) (at_ word k)) as [R | [R | R]];
      fold rc in R; rewrite R; simpl Z.eqb; cbv iota.
    + split; [auto |]. split; split; try congruence.
      * intros H. exfalso. apply (H k); [lia | exact R].
      * intros [_ H]. specialize (H k ltac:(lia)).
        fold rc in H. congruence.
    + specialize (IH (k + 1) false). cbn zeta in IH.
      destruct IH as [IH1 [IH2 IH3]].
      split; [exact IH1 |]. split.
      * rewrite IH2. split; intros H x Hx.
        -- destruct (Z.eq_dec x k) as [-> | Hne].
           ++ fold rc. rewrite R. discriminate.
           ++ apply H. lia.
        -- apply H. lia.
      * rewrite IH3. split.
        -- intros [H _]. discriminate H.
        -- intros [_ H]. specialize (H k ltac:(lia)).
           fold rc in H. congruence.
    + specialize (IH (k + 1) e). cbn zeta in IH.
      destruct IH as [IH1 [IH2 IH3]].
      split; [exact IH1 |]. split.
      * rewrite IH2. split; intros H x Hx.
        -- destruct (Z.eq_dec x k) as [-> | Hne].
           ++ fold rc. rewrite R. discriminate.
           ++ apply H. lia.
        -- apply H. lia.
      * rewrite IH3. split; intros [He H]; (split; [exact He |]); intros x Hx.
        -- destruct (Z.eq_dec x k) as [-> | Hne].
           ++ exact R.
           ++ apply H. lia.
        -- apply H. lia.
Qed.

Lemma Zgtb_false (a b : Z) : (a >? b) = false <-> a <= b.
Proof. rewrite Z.gtb_ltb, Z.ltb_ge. reflexivity. Qed.

Lemma Zgtb_true (a b : Z) : (a >? b) = true <-> b < a.
Proof. rewrite Z.gtb_ltb, Z.ltb_lt. reflexivity. Qed.

Lemma entry_fits_unfold (o : orientation) (grid : list ascii)
      (w h i j : Z) (word : list ascii) (L : Z) :
  entry_fits o grid w h i j word L =
  let pos := match o with Across => i | Down => j end in
  let lim := match o with Across => w | Down => h end in
  if pos + L >? lim then 0
  else if (pos >? 0)
          && negb (Ascii.eqb (at_ grid (run_cell o w i j (-1))) "#") then 0
  else if (pos + L <? lim)
          && negb (Ascii.eqb (at_ grid (run_cell o w i j L)) "#") then 0
  else fits_loop grid (run_cell o w i j) word (Z.to_nat L) 0 true.
Proof.
  destruct o; cbn [entry_fits run_cell];
    unfold entry_fits_across, entry_fits_down; cbn zeta.
  - replace (j * w + (i + -1)) with (j * w + (i - 1)) by lia. reflexivity.
  - replace ((j + -1) * w + i) with ((j - 1) * w + i) by lia. reflexivity.
Qed.

(** A placement that the run-fit test accepts lies within the grid. *)
Lemma entry_fits_within_grid (o : orientation) (grid : list ascii)
      (w h i j : Z) (word : list ascii) (L : Z) :
  0 <= i < w -> 0 <= j < h ->
  entry_fits o grid w h i j word L <> 0 -> within_grid o w h i j L.
Proof.
  intros Hi Hj. rewrite entry_fits_unfold. cbn zeta. intros H.
  destruct o; cbn [within_grid];
    match type of H with
    | (if ?a + L >? ?b then _ else _) <> 0 =>
        destruct (a + L >? b) eqn:E;
        [exfalso; apply H; reflexivity | apply Zgtb_false in E; lia]
    end.
Qed.

(** C4: for a cell [(i, j)] of the grid, either orientation and a word
    length [L >= 0], the run-fit test returns 0, 1 or 2; it accepts
    (returns non-zero) exactly when the [L] cells of the run lie within the
    grid, the cells just before and just after it are off the grid or
    black, and every letter matches its cell; and it returns 2 exactly
    when, moreover, every per-cell match is exact. *)
Theorem entry_fits_admissible (o : orientation) (grid : list ascii)
        (w h i j : Z) (word : list ascii) (L : Z) :
  0 <= i < w -> 0 <= j < h -> 0 <= L ->
  (entry_fits o grid w h i j word L = 0
   \/ entry_fits o grid w h i j word L = 1
   \/ entry_fits o grid w h i j word L = 2)
  /\ (entry_fits o grid w h i j word L <> 0 <->
      admissible o grid w h i j word L)
  /\ (entry_fits o grid w h i j word L = 2 <->
      admissible o grid w h i j word L /\ letters_exact o grid w i j word L).
Proof.
  intros Hi Hj HL. rewrite entry_fits_unfold. cbn zeta.
  pose proof (fits_loop_spec grid (run_cell o w i j) word (Z.to_nat L) 0 true)
    as F. cbn zeta in F. rewrite Z2Nat.id in F by assumption.
  destruct F as [F1 [F2 F3]].
  unfold admissible, letters_match, letters_exact.
  set (pos := match o with Across => i | Down => j end).
  set (lim := match o with Across => w | Down => h end).
  assert (Hpos : 0 <= pos) by (destruct o; unfold pos; lia).
  assert (W : within_grid o w h i j L <-> pos + L <= lim)
    by (destruct o; cbn [within_grid]; unfold pos, lim; lia).
  assert (B : bounded_before o grid w i j <->
              pos = 0 \/ at_ grid (run_cell o w i j (-1)) = "#")
    by (destruct o; reflexivity).
  assert (A : bounded_after o grid w h i j L <->
              lim <= pos + L \/ at_ grid (run_cell o w i j L) = "#")
    by (destruct o; reflexivity).
  rewrite W, B, A. clear W B A.
  destruct (pos + L >? lim) eqn:E1;
    [apply Zgtb_true in E1 | apply Zgtb_false in E1].
  { split; [auto |]. intuition (try lia; try congruence). }
  destruct (pos >? 0) eqn:E2;
    [apply Zgtb_true in E2 | apply Zgtb_false in E2];
    destruct (Ascii.eqb (at_ grid (run_cell o w i j (-1))) "#") eqn:E3;
    [apply ascii_eqb_eq in E3 | apply ascii_eqb_neq in E3
     | apply ascii_eqb_eq in E3 | apply ascii_eqb_neq in E3];
    cbn [andb negb].
  2: { split; [auto |]. intuition (try lia; try congruence). }
  all: destruct (pos + L <? lim) eqn:E4;
    [apply Z.ltb_lt in E4 | apply Z.ltb_ge in E4];
    destruct (Ascii.eqb (at_ grid (run_cell o w i j L)) "#") eqn:E5;
    [apply ascii_eqb_eq in E5 | apply ascii_eqb_neq in E5
     | apply ascii_eqb_eq in E5 | apply ascii_eqb_neq in E5];
    cbn [andb negb].
  all: (split; [first [exact F1 | auto] |]); try rewrite F2, F3;
    rewrite ?Z.add_0_l in *;
    intuition (try lia; try congruence).
Qed.

Lemma entry_fits_admissible_witness :
  (entry_fits Across (str ".as.r.eta") 3 3 0 0 (str "has") 3 = 0
   \/ entry_fits Across (str ".as.r.eta") 3 3 0 0 (str "has") 3 = 1
   \/ entry_fits Across (str ".as.r.eta") 3 3 0 0 (str "has") 3 = 2)
  /\ (entry_fits Across (str ".as.r.eta") 3 3 0 0 (str "has") 3 <> 0 <->
      admissible Across (str ".as.r.eta") 3 3 0 0 (str "has") 3)
  /\ (entry_fits Across (str ".as.r.eta") 3 3 0 0 (str "has") 3 = 2 <->
      admissible Across (str ".as.r.eta") 3 3 0 0 (str "has") 3
      /\ letters_exact Across (str ".as.r.eta") 3 0 0 (str "has") 3).
Proof.
  apply (entry_fits_admissible Across (str ".as.r.eta") 3 3 0 0 (str "has") 3);
    lia.
Defined.

(** ** Dictionary pre-pruning (C8) *)

Lemma in_upto (n i : Z) : In i (upto n) <-> 0 <= i < n.
Proof.
  unfold upto. rewrite in_map_iff. split.
  - intros [x [<- Hx]]. apply in_seq in Hx. lia.
  - intros Hi. exists (Z.to_nat i). split; [lia |]. apply in_seq. lia.
Qed.

(** C8 fails on the code: [strip_dict] moves the last word of the array
    into the slot of a word it removes and then steps past that slot, so
    the moved word is never examined.  From the sorted dictionary
    [aaa, zzz] and the grid [b0g] it leaves [zzz], which fits nowhere; from
    [aaa, bag, zoo] and the grid [b0g / zoo], with duplicate rejection
    enabled, it leaves [zoo], which the second row already spells. *)
Theorem strip_dict_keeps_unexamined_word :
  (three_letter_words
     (strip_dict default_options (str "b0g") 3 1
                 (three_letter_dict ["aaa"; "zzz"]%string))
   = [str "zzz"]
   /\ ~ placeable (str "b0g") 3 1 (str "zzz"))
  /\ (RejectDuplicateWords default_options = true
      /\ three_letter_words
           (strip_dict default_options (str "b0gzoo") 3 2
                       (three_letter_dict ["aaa"; "bag"; "zoo"]%string))
         = [str "zoo"; str "bag"]
      /\ already_in_grid (str "b0gzoo") 3 2 (str "zoo")).
Proof.
  split; [split | split; [| split]].
  - vm_compute. reflexivity.
  - intros [o [i [j [Hi [Hj H]]]]]. apply H. clear H.
    apply in_upto in Hi, Hj. simpl in Hi, Hj.
    destruct Hj as [<- | []];
      destruct Hi as [<- | [<- | [<- | []]]];
      destruct o; vm_compute; reflexivity.
  - reflexivity.
  - vm_compute. reflexivity.
  - exists Across, 0, 1. repeat split; try lia. 
Qed.

(** ** Forced rows of the naive matrix (C10) *)

(** C10 fails on the code: a row of fifteen fixed letters is a valid
    grid, and [xword_solve] lets a forced run of [MAX_WORDLEN] cells pass
    its own assertion ([i - word_starts_here <= MAX_WORDLEN]), but
    [add_row_forced_across] then asserts [k < MAX_WORDLEN] (line 665) and
    stops.  With fourteen letters the rows are emitted. *)
Theorem forced_row_of_15_letters_fails :
  legal_grid (str "abcdefghijklmno") 15 1
  /\ build_matrix naive_options
       {| info_w := 15; info_h := 1; info_grid := str "abcdefghijklmno" |}
       [] = AssertionFailed 665
  /\ xword_solve always_ok naive_options (str "abcdefghijklmno") 15 1 []
                 initial_counters = AssertionFailed 665
  /\ exists mat,
      build_matrix naive_options
        {| info_w := 14; info_h := 1; info_grid := str "abcdefghijklmn" |}
        [] = Ok mat
      /\ List.length (rows mat) = 15%nat.
Proof.
  split; [| split; [| split]].
  - unfold legal_grid. repeat split; try lia.
    repeat (apply Forall_cons; [right; left; reflexivity |]).
    apply Forall_nil.
  - vm_compute. reflexivity.
  - vm_compute. reflexivity.
  - eexists. split; [vm_compute; reflexivity | reflexivity].
Qed.

(** ** The solution callback (C6) *)

(** Two equations with the same left-hand side are merged. *)
Ltac merge_equations :=
  repeat match goal with
         | H1 : ?x = _, H2 : ?x = _ |- _ =>
             rewrite H1 in H2;
             first [discriminate H2 | injection H2 as ?; subst; clear H1
                   | clear H2]
         end.

Ltac quota_case :=
  cbn [printed_so_far];
  repeat split; intros;
  repeat match goal with
         | H : Ok _ = Ok _ |- _ => injection H as ?; subst
         end;
  merge_equations; subst;
  try discriminate; try congruence; try lia;
  repeat match goal with
         | H : _ /\ _ |- _ => destruct H
         end;
  try congruence; try lia.

(** What a call of the callback that returns leaves behind. *)
Lemma callback_returns (malloc_ok : nat -> bool) (opts : options)
      (info : xword_info) (sol : list (list Z)) (st st' : counters)
      (rc : Z) (out : list (list ascii)) :
  RejectDuplicateWords opts = true ->
  print_crossword_result malloc_ok opts info sol st = Ok (rc, st', out) ->
  (forall s grid,
      every_nth_gate opts st = inr s ->
      malloc_ok 0%nat = true ->
      decode_solution opts info sol = Ok grid ->
      grid_contains_duplicates (fun n => malloc_ok (S n)) grid
                               (info_w info) (info_h info) = Ok 1 ->
      rc = 0 /\ out = [] /\ printed_so_far st' = printed_so_far st)
  /\ (out = [] -> printed_so_far st' = printed_so_far st)
  /\ (out <> [] -> printed_so_far st' = printed_so_far st + 1)
  /\ (rc = -99 <-> out <> [] /\ printed_so_far st' = NumSolutions opts)
  /\ (out <> [] -> printed_so_far st' <> NumSolutions opts -> rc = 1).
Proof.
  intros HR H. unfold print_crossword_result in H. rewrite HR in H.
  destruct (every_nth_gate opts st) as [s0 | s0] eqn:G.
  { injection H as <- <- <-. quota_case. }
  destruct ((NumSolutions opts =? -1)
            || (printed_so_far st <? NumSolutions opts)) eqn:A;
    cbn [assert bind] in H; [| discriminate H].
  destruct (malloc_ok 0%nat) eqn:M; cbn [negb] in H.
  2: { injection H as <- <- <-. quota_case. }
  destruct (decode_solution opts info sol) as [grid | l |] eqn:D;
    cbn [bind] in H; try discriminate H.
  destruct (grid_contains_duplicates (fun n => malloc_ok (S n)) grid
              (info_w info) (info_h info)) as [d | l |] eqn:Dup;
    cbn [bind] in H; try discriminate H.
  destruct (d <? 0) eqn:Dneg.
  { injection H as <- <- <-. quota_case. }
  destruct (d =? 1) eqn:D1.
  { injection H as <- <- <-. quota_case. }
  destruct (d =? 0) eqn:D0; cbn [assert bind] in H; [| discriminate H].
  injection H as <- <- <-.
  destruct (printed_so_far st + 1 =? NumSolutions opts) eqn:P;
    [apply Z.eqb_eq in P | apply Z.eqb_neq in P]; quota_case.
Qed.

(** C6: with duplicate rejection enabled.  A cover that passes the
    every-N-th gate while the quota is not yet reached, and that is
    decoded: if [grid_contains_duplicates] reports its grid as
    duplicated, the callback returns 0, prints nothing and leaves
    [printed_so_far] as it was; if the grid holds no duplicate, the
    callback prints the grid, advances [printed_so_far] by one, and
    returns -99 if [printed_so_far] has thereby reached [NumSolutions]
    and 1 if not.  And for every call that returns: a call that prints
    nothing never advances [printed_so_far]; a call that prints advances
    it by one; the callback returns -99 exactly when it has printed and
    [printed_so_far] has reached [NumSolutions], and 1 for every other
    printed solution. *)
Theorem callback_quota (malloc_ok : nat -> bool) (opts : options)
        (info : xword_info) (sol : list (list Z)) (st : counters) :
  RejectDuplicateWords opts = true ->
  (forall s grid,
      every_nth_gate opts st = inr s ->
      NumSolutions opts = -1 \/ printed_so_far st < NumSolutions opts ->
      malloc_ok 0%nat = true ->
      decode_solution opts info sol = Ok grid ->
      (grid_contains_duplicates (fun n => malloc_ok (S n)) grid
                                (info_w info) (info_h info) = Ok 1 ->
       print_crossword_result malloc_ok opts info sol st
       = Ok (0, {| printed_so_far := printed_so_far st;
                   skipped_so_far := s |}, []))
      /\ (grid_contains_duplicates (fun n => malloc_ok (S n)) grid
                                   (info_w info) (info_h info) = Ok 0 ->
          print_crossword_result malloc_ok opts info sol st
          = Ok (if printed_so_far st + 1 =? NumSolutions opts
                then -99 else 1,
                {| printed_so_far := printed_so_far st + 1;
                   skipped_so_far := s |}, [grid])))
  /\ (forall rc st' out,
        print_crossword_result malloc_ok opts info sol st
        = Ok (rc, st', out) ->
        (forall s grid,
            every_nth_gate opts st = inr s ->
            malloc_ok 0%nat = true ->
            decode_solution opts info sol = Ok grid ->
            grid_contains_duplicates (fun n => malloc_ok (S n)) grid
                                     (info_w info) (info_h info) = Ok 1 ->
            rc = 0 /\ out = [] /\ printed_so_far st' = printed_so_far st)
        /\ (out = [] -> printed_so_far st' = printed_so_far st)
        /\ (out <> [] -> printed_so_far st' = printed_so_far st + 1)
        /\ (rc = -99 <->
            out <> [] /\ printed_so_far st' = NumSolutions opts)
        /\ (out <> [] -> printed_so_far st' <> NumSolutions opts ->
            rc = 1)).
Proof.
  intros HR. split.
  - intros s grid G Q M D.
    assert (A : (NumSolutions opts =? -1)
                || (printed_so_far st <? NumSolutions opts) = true).
    { apply orb_true_iff. destruct Q as [Q | Q];
        [left; apply Z.eqb_eq; exact Q | right; apply Z.ltb_lt; exact Q]. }
    unfold print_crossword_result.
    rewrite G, A, M, D, HR. cbn [assert bind negb].
    split; intros Dup; rewrite Dup; reflexivity.
  - intros rc st' out H.
    exact (callback_returns malloc_ok opts info sol st st' rc out HR H).
Qed.

Lemma callback_quota_witness :
  print_crossword_result always_ok (quota_options 2) scenario1_info
                         scenario1_cover
                         {| printed_so_far := 1; skipped_so_far := 0 |}
  = Ok (-99, {| printed_so_far := 2; skipped_so_far := 0 |},
        [str "hasireeta"])
  /\ print_crossword_result always_ok (quota_options 2) scenario1_info
                            scenario1_cover initial_counters
     = Ok (1, {| printed_so_far := 1; skipped_so_far := 0 |},
           [str "hasireeta"]).
Proof.
  split.
  - apply (proj1 (callback_quota always_ok (quota_options 2) scenario1_info
                    scenario1_cover
                    {| printed_so_far := 1; skipped_so_far := 0 |}
                    eq_refl) 0 (str "hasireeta"));
      [reflexivity | right; vm_compute; reflexivity | reflexivity
       | vm_compute; reflexivity | vm_compute; reflexivity].
  - apply (proj1 (callback_quota always_ok (quota_options 2) scenario1_info
                    scenario1_cover initial_counters eq_refl)
                 0 (str "hasireeta"));
      [reflexivity | right; vm_compute; reflexivity | reflexivity
       | vm_compute; reflexivity | vm_compute; reflexivity].
Defined.

(** ** Rows of placements (C2) *)

Lemma ch2idx_range (c : ascii) : 0 <= ch2idx c < 26.
Proof.
  destruct c as [[] [] [] [] [] [] [] []]; vm_compute; split; congruence.
Qed.

Lemma open_cell_openb (c : ascii) : open_cell c <-> openb c = true.
Proof.
  unfold open_cell, openb.
  rewrite !orb_true_iff, !ascii_eqb_eq. tauto.
Qed.

Lemma is_fixed_value_legal (c : ascii) :
  legal_cell c -> is_fixed_value c = Ok (negb (openb c)).
Proof.
  unfold is_fixed_value.
  intros [-> | [Ha | Ho]].
  - reflexivity.
  - destruct (Ascii.eqb c "#") eqn:E.
    + apply ascii_eqb_eq in E. subst. reflexivity.
    + rewrite Ha.
      destruct (openb c) eqn:O; [| reflexivity].
      apply open_cell_openb in O.
      destruct O as [-> | [-> | ->]]; discriminate Ha.
  - destruct Ho as [-> | [-> | ->]]; reflexivity.
Qed.

Lemma at_legal (grid : list ascii) (w h cell : Z) :
  legal_grid grid w h -> 0 <= cell < w * h -> legal_cell (at_ grid cell).
Proof.
  intros [_ [_ [Hlen Hall]]] Hc. unfold at_.
  rewrite Forall_forall in Hall. apply Hall. apply nth_In. lia.
Qed.

Lemma cell_to_slice_loop_count (info : xword_info) (c : nat) :
  forall (len a : nat) (unknown : Z),
    (a <= c < a + len)%nat ->
    (forall x, (a <= x < c)%nat ->
               legal_cell (at_ (info_grid info) (Z.of_nat x))) ->
    cell_to_slice_loop info (Z.of_nat c) (map Z.of_nat (seq a len)) unknown
    = Ok (unknown
          + Z.of_nat (List.length
                        (filter (fun i => openb (at_ (info_grid info) i))
                                (map Z.of_nat (seq a (c - a)))))).
Proof.
  induction len as [| len IH]; intros a unknown Hr Hl; [lia |].
  cbn [seq map cell_to_slice_loop].
  destruct (Z.of_nat a =? Z.of_nat c) eqn:E.
  - apply Z.eqb_eq in E. assert (a = c) by lia. subst a.
    rewrite Nat.sub_diag. cbn. f_equal. lia.
  - apply Z.eqb_neq in E. assert (Hlt : (a < c)%nat) by lia.
    rewrite (is_fixed_value_legal _ (Hl a ltac:(lia))). cbn [bind].
    rewrite IH by (try lia; intros; apply Hl; lia).
    replace (c - a)%nat with (S (c - S a)) by lia.
    cbn [seq map filter].
    destruct (openb (at_ (info_grid info) (Z.of_nat a)));
      cbn [negb List.length]; f_equal; lia.
Qed.

Lemma CELL_TO_SLICE_slice_index (opts : options) (info : xword_info)
      (cell : Z) :
  legal_grid (info_grid info) (info_w info) (info_h info) ->
  0 <= cell < info_w info * info_h info ->
  UseNaiveMethod opts = true \/ open_cell (at_ (info_grid info) cell) ->
  CELL_TO_SLICE opts info cell
  = Ok (slice_index (UseNaiveMethod opts) (info_grid info) cell).
Proof.
  intros Hg Hc Hu. unfold CELL_TO_SLICE, slice_index.
  destruct (UseNaiveMethod opts) eqn:N; [reflexivity |].
  destruct Hu as [Hu | Hu]; [discriminate Hu |].
  assert (Hlt : (cell <? info_w info * info_h info) = true)
    by (apply Z.ltb_lt; lia).
  rewrite Hlt. cbn [assert bind].
  rewrite (is_fixed_value_legal _ (at_legal _ _ _ _ Hg Hc)). cbn [bind].
  apply open_cell_openb in Hu. rewrite Hu. cbn [negb assert bind].
  unfold upto.
  pose proof (cell_to_slice_loop_count info (Z.to_nat cell)
                (Z.to_nat (info_w info * info_h info)) 0 0) as L.
  rewrite Z2Nat.id in L by lia. rewrite Nat.sub_0_r in L.
  rewrite L; [f_equal |lia |].
  intros x Hx. apply (at_legal _ _ _ _ Hg). lia.
Qed.

Lemma slice_columns_length (slice i hit miss ad : Z) :
  List.length (slice_columns slice i hit miss ad) = 27%nat.
Proof. reflexivity. Qed.

Lemma in_slice_columns (slice i hit miss ad c : Z) :
  In c (slice_columns slice i hit miss ad) <->
  (exists m, 0 <= m < 26
             /\ c = slice + 2*m + (if i =? m then hit else miss))
  \/ c = slice + 2*26 + ad.
Proof.
  unfold slice_columns. rewrite in_app_iff, in_map_iff. cbn [In].
  split.
  - intros [[m [<- Hm]] | [<- | []]]; [left | right; reflexivity].
    apply in_upto in Hm. exists m. split; [lia | reflexivity].
  - intros [[m [Hm ->]] | ->]; [left | right; left; reflexivity].
    exists m. split; [reflexivity | apply in_upto; lia].
Qed.

Lemma slice_columns_placement (o : orientation) (s i c : Z) :
  0 <= i < 26 ->
  In c (match o with
        | Across => slice_columns (27*2*s) i 0 1 0
        | Down => slice_columns (27*2*s) i 1 0 1
        end)
  <-> placement_columns o s i c.
Proof.
  intros Hi. destruct o; rewrite in_slice_columns; cbn [placement_columns].
  - split.
    + intros [[m [Hm ->]] | ->]; [| right; left; lia].
      destruct (i =? m) eqn:E;
        [apply Z.eqb_eq in E | apply Z.eqb_neq in E].
      * left. lia.
      * right; right. exists m. repeat split; try lia.
    + intros [-> | [-> | [m [Hm [Hne ->]]]]].
      * left. exists i. rewrite Z.eqb_refl. split; lia.
      * right. lia.
      * left. exists m. apply not_eq_sym, Z.eqb_neq in Hne. rewrite Hne.
        split; lia.
  - split.
    + intros [[m [Hm ->]] | ->]; [| right; left; lia].
      destruct (i =? m) eqn:E;
        [apply Z.eqb_eq in E | apply Z.eqb_neq in E].
      * left. lia.
      * right; right. exists m. repeat split; try lia.
    + intros [-> | [-> | [m [Hm [Hne ->]]]]].
      * left. exists i. rewrite Z.eqb_refl. split; lia.
      * right. lia.
      * left. exists m. apply not_eq_sym, Z.eqb_neq in Hne. rewrite Hne.
        split; lia.
Qed.

(** What one run cell contributes to the row of a placement. *)
Lemma add_row_step_legal (opts : options) (info : xword_info)
      (cellof : Z -> Z) (hit miss ad : Z) (word : list ascii) (k : Z)
      (constraint : list Z) :
  legal_grid (info_grid info) (info_w info) (info_h info) ->
  0 <= cellof k < info_w info * info_h info ->
  add_row_step opts info cellof hit miss ad word k constraint
  = Ok (constraint ++
        if UseNaiveMethod opts || openb (at_ (info_grid info) (cellof k))
        then slice_columns
               (27*2*slice_index (UseNaiveMethod opts) (info_grid info)
                                 (cellof k))
               (ch2idx (at_ word k)) hit miss ad
        else []).
Proof.
  intros Hg Hc. unfold add_row_step.
  destruct (UseNaiveMethod opts) eqn:N; cbn [bind orb].
  - rewrite CELL_TO_SLICE_slice_index by (auto; rewrite N; auto).
    rewrite N. reflexivity.
  - rewrite (is_fixed_value_legal _ (at_legal _ _ _ _ Hg Hc)).
    cbn [bind]. rewrite negb_involutive.
    destruct (openb (at_ (info_grid info) (cellof k))) eqn:O.
    + rewrite CELL_TO_SLICE_slice_index
        by (auto; right; apply open_cell_openb; exact O).
      rewrite N. reflexivity.
    + now rewrite app_nil_r.
Qed.

Lemma for_each_add_row_step (opts : options) (info : xword_info)
      (cellof : Z -> Z) (hit miss ad : Z) (word : list ascii) :
  legal_grid (info_grid info) (info_w info) (info_h info) ->
  forall (ks : list Z) (constraint : list Z),
    (forall k, In k ks -> 0 <= cellof k < info_w info * info_h info) ->
    for_each ks (add_row_step opts info cellof hit miss ad word) constraint
    = Ok (constraint ++
          flat_map
            (fun k =>
               if UseNaiveMethod opts
                  || openb (at_ (info_grid info) (cellof k))
               then slice_columns
                      (27*2*slice_index (UseNaiveMethod opts)
                                        (info_grid info) (cellof k))
                      (ch2idx (at_ word k)) hit miss ad
               else []) ks).
Proof.
  intros Hg. induction ks as [| k ks IH]; intros constraint Hks.
  - cbn. now rewrite app_nil_r.
  - cbn [for_each flat_map].
    rewrite add_row_step_legal by (auto; apply Hks; now left).
    cbn [bind]. rewrite IH by (intros; apply Hks; now right).
    now rewrite <- app_assoc.
Qed.

Lemma flat_map_const_length {A B : Type} (f : A -> list B) (n : nat)
      (l : list A) :
  (forall x, In x l -> List.length (f x) = n) ->
  List.length (flat_map f l) = (List.length l * n)%nat.
Proof.
  induction l as [| x l IH]; intros H; [reflexivity |].
  cbn [flat_map List.length]. rewrite length_app, IH, H; auto.
  - now left.
  - intros; apply H; now right.
Qed.

Lemma upto_length (n : Z) : List.length (upto n) = Z.to_nat n.
Proof. unfold upto. now rewrite length_map, length_seq. Qed.

Lemma run_cell_in_grid (o : orientation) (w h i j L k : Z) :
  0 <= i < w -> 0 <= j < h -> within_grid o w h i j L -> 0 <= k < L ->
  0 <= run_cell o w i j k < w * h.
Proof.
  intros Hi Hj Hw Hk. destruct o; cbn [run_cell within_grid] in *; nia.
Qed.

(** The columns of the row emitted for an admissible placement, with the
    index that the code computes for each letter of the word, and the
    number of entries of the row. *)
Lemma placement_row_columns_code (opts : options) (info : xword_info)
      (o : orientation) (i j : Z) (word : list ascii) (L : Z) :
  legal_grid (info_grid info) (info_w info) (info_h info) ->
  0 <= i < info_w info -> 0 <= j < info_h info -> 0 <= L ->
  entry_fits o (info_grid info) (info_w info) (info_h info) i j word L
  <> 0 ->
  exists row,
    placement_row o opts info i j word L = Ok row
    /\ Z.of_nat (List.length row) <= L * 27
    /\ forall c,
      In c row <->
      exists k,
        0 <= k < L
        /\ (UseNaiveMethod opts = true
            \/ open_cell (at_ (info_grid info)
                              (run_cell o (info_w info) i j k)))
        /\ 0 <= ch2idx (at_ word k) < 26
        /\ placement_columns
             o (slice_index (UseNaiveMethod opts) (info_grid info)
                            (run_cell o (info_w info) i j k))
             (ch2idx (at_ word k)) c.
Proof.
  intros Hg Hi Hj HL Hfit.
  pose proof (entry_fits_within_grid _ _ _ _ _ _ _ _ Hi Hj Hfit) as Hw.
  set (contrib := fun k =>
         if UseNaiveMethod opts
            || openb (at_ (info_grid info) (run_cell o (info_w info) i j k))
         then match o with
              | Across =>
                  slice_columns
                    (27*2*slice_index (UseNaiveMethod opts) (info_grid info)
                                      (run_cell o (info_w info) i j k))
                    (ch2idx (at_ word k)) 0 1 0
              | Down =>
                  slice_columns
                    (27*2*slice_index (UseNaiveMethod opts) (info_grid info)
                                      (run_cell o (info_w info) i j k))
                    (ch2idx (at_ word k)) 1 0 1
              end
         else []).
  assert (Hcells : forall k, In k (upto L) ->
             0 <= run_cell o (info_w info) i j k < info_w info * info_h info).
  { intros k Hk. apply in_upto in Hk.
    apply (run_cell_in_grid o _ _ i j L); assumption. }
  assert (Hrow : placement_row o opts info i j word L
                 = Ok (flat_map contrib (upto L))).
  { assert (Hlen : UseNaiveMethod opts = true ->
                   (Z.of_nat (List.length (flat_map contrib (upto L)))
                    =? L * 27) = true).
    { intros N. apply Z.eqb_eq.
      rewrite (flat_map_const_length contrib 27).
      - rewrite upto_length. lia.
      - intros k _. unfold contrib. rewrite N. cbn [orb].
        destruct o; apply slice_columns_length. }
    destruct o; cbn [placement_row]; unfold row_across, row_down;
      cbn [run_cell] in *;
      rewrite for_each_add_row_step by assumption;
      cbn [bind app]; fold contrib;
      (destruct (UseNaiveMethod opts) eqn:N;
       [rewrite (Hlen eq_refl) | ]; reflexivity). }
  exists (flat_map contrib (upto L)). split; [exact Hrow |].
  split.
  { assert (Hle : forall l,
               (List.length (flat_map contrib l) <= List.length l * 27)%nat).
    { induction l as [| k l IH]; [cbn; lia |].
      cbn [flat_map List.length]. rewrite length_app.
      assert (List.length (contrib k) <= 27)%nat.
      { unfold contrib. destruct (_ || _); [| cbn; lia].
        destruct o; rewrite slice_columns_length; lia. }
      lia. }
    specialize (Hle (upto L)). rewrite upto_length in Hle. lia. }
  intros c. rewrite in_flat_map. split.
  - intros [k [Hk Hc]]. exists k. apply in_upto in Hk.
    unfold contrib in Hc.
    destruct (UseNaiveMethod opts
              || openb (at_ (info_grid info)
                            (run_cell o (info_w info) i j k))) eqn:U;
      [| destruct Hc].
    split; [exact Hk |]. split.
    { apply orb_true_iff in U. destruct U as [U | U];
        [left; exact U | right; apply open_cell_openb; exact U]. }
    split; [apply ch2idx_range |].
    apply slice_columns_placement; [apply ch2idx_range | exact Hc].
  - intros [k [Hk [U [Hx Hc]]]]. exists k.
    split; [apply in_upto; exact Hk |].
    unfold contrib.
    assert (U' : UseNaiveMethod opts
                 || openb (at_ (info_grid info)
                               (run_cell o (info_w info) i j k)) = true).
    { apply orb_true_iff. destruct U as [U | U];
        [left; exact U | right; apply open_cell_openb; exact U]. }
    rewrite U'. apply slice_columns_placement; assumption.
Qed.

Lemma legal_cell_dec_true (c : ascii) :
  Ascii.eqb c "#" || isalpha c || openb c = true -> legal_cell c.
Proof.
  rewrite !orb_true_iff, ascii_eqb_eq, <- open_cell_openb.
  unfold legal_cell. tauto.
Qed.

Lemma legal_grid_dec_true (grid : list ascii) (w h : Z) :
  (0 <=? w) && (0 <=? h) && (Z.of_nat (List.length grid) =? w * h)
  && forallb (fun c => Ascii.eqb c "#" || isalpha c || openb c) grid = true
  -> legal_grid grid w h.
Proof.
  rewrite !andb_true_iff, !Z.leb_le, Z.eqb_eq, forallb_forall.
  intros [[[Hw Hh] Hl] Hall]. repeat split; try assumption.
  apply Forall_forall. intros c Hc. apply legal_cell_dec_true, Hall, Hc.
Qed.

(** The index that the code computes for a character is the letter
    index of the specification. *)
Lemma ch2idx_letter_index (c : ascii) : ch2idx c = letter_index c.
Proof. destruct c as [[] [] [] [] [] [] [] []]; vm_compute; reflexivity. Qed.

(** C2: for an admissible placement of a word of at most [MAX_WORDLEN]
    letters at a cell [(i, j)] of a grid of legal cells, a row is
    emitted, it has room in the [constraint] array of [MAX_WORDLEN * 27]
    entries, and its columns are exactly these: for every run cell [p]
    that is open (every run cell in naive mode), with [s] the slice of
    [p] and [x] in [0..25] the letter index of the word's letter there
    (0 for [a] up to 25 for [z], in either case), in an Across row the
    columns [54s + 2m + 1] for [m <> x], [54s + 2x] and [54s + 52]; in a
    Down row the columns [54s + 2m] for [m <> x], [54s + 2x + 1] and
    [54s + 53].  In compressed mode a fixed run cell contributes
    nothing. *)
Theorem placement_row_columns (opts : options) (info : xword_info)
        (o : orientation) (i j : Z) (word : list ascii) (L : Z) :
  legal_grid (info_grid info) (info_w info) (info_h info) ->
  0 <= i < info_w info -> 0 <= j < info_h info ->
  0 <= L <= MAX_WORDLEN ->
  entry_fits o (info_grid info) (info_w info) (info_h info) i j word L
  <> 0 ->
  exists row,
    placement_row o opts info i j word L = Ok row
    /\ Z.of_nat (List.length row) <= MAX_WORDLEN * 27
    /\ forall c,
      In c row <->
      exists k,
        0 <= k < L
        /\ (UseNaiveMethod opts = true
            \/ open_cell (at_ (info_grid info)
                              (run_cell o (info_w info) i j k)))
        /\ 0 <= letter_index (at_ word k) < 26
        /\ placement_columns
             o (slice_index (UseNaiveMethod opts) (info_grid info)
                            (run_cell o (info_w info) i j k))
             (letter_index (at_ word k)) c.
Proof.
  intros Hg Hi Hj [HL HM] Hfit.
  destruct (placement_row_columns_code opts info o i j word L Hg Hi Hj HL
                                       Hfit) as [row [Hrow [Hlen Hc]]].
  exists row. split; [exact Hrow |]. split; [lia |].
  intros c. rewrite (Hc c).
  split; intros [k H]; exists k;
    [rewrite <- !ch2idx_letter_index | rewrite !ch2idx_letter_index];
    exact H.
Qed.

Lemma placement_row_columns_witness :
  exists row,
    placement_row Across default_options scenario1_info 0 0 (str "has") 3
    = Ok row
    /\ Z.of_nat (List.length row) <= MAX_WORDLEN * 27
    /\ forall c,
      In c row <->
      exists k,
        0 <= k < 3
        /\ (UseNaiveMethod default_options = true
            \/ open_cell (at_ (info_grid scenario1_info)
                              (run_cell Across (info_w scenario1_info) 0 0 k)))
        /\ 0 <= letter_index (at_ (str "has") k) < 26
        /\ placement_columns
             Across
             (slice_index (UseNaiveMethod default_options)
                          (info_grid scenario1_info)
                          (run_cell Across (info_w scenario1_info) 0 0 k))
             (letter_index (at_ (str "has") k)) c.
Proof.
  apply (placement_row_columns default_options scenario1_info Across 0 0
                               (str "has") 3).
  - apply legal_grid_dec_true. reflexivity.
  - simpl. lia.
  - simpl. lia.
  - unfold MAX_WORDLEN. lia.
  - vm_compute. discriminate.
Defined.

(** ** The first scenario, end to end *)

(** The model reproduces the worked example of the source comment: for the
    grid [.AS / .R. / ETA] and the dictionary [art, eta, has, hie, hit,
    ire, sea] the program prints the single solution [has / ire / eta], in
    compressed and in naive mode. *)
Example scenario1_sole_solution :
  main_after_load always_ok default_options (str ".as.r.eta") 3 3
                  scenario1_dict
  = Ok (Some (1, ({| printed_so_far := 1; skipped_so_far := 0 |},
                  [str "hasireeta"])))
  /\ main_after_load always_ok naive_options (str ".as.r.eta") 3 3
                     scenario1_dict
     = Ok (Some (1, ({| printed_so_far := 1; skipped_so_far := 0 |},
                     [str "hasireeta"]))).
Proof. split; vm_compute; reflexivity. Qed.

(** ** The vowel-wildcard scenario (C1) *)

Lemma select_incl {A : Type} (mask : list bool) (l : list A) (x : A) :
  In x (select mask l) -> In x l.
Proof.
  unfold select. rewrite in_map_iff.
  intros [[b y] [<- H]]. apply filter_In in H. destruct H as [H _].
  apply in_combine_r in H. exact H.
Qed.

Lemma uncovered_column (mat : dance_matrix) (c : Z) :
  0 <= c < ncolumns mat ->
  forallb (fun r => negb (has_column c r)) (rows mat) = true ->
  forall mask, ~ exact_cover mat mask.
Proof.
  intros Hc Hno mask [_ Hcov].
  specialize (Hcov c Hc).
  assert (Hnot : ~ In c (concat (select mask (rows mat)))).
  { rewrite in_concat. intros [r [Hr Hin]].
    apply select_incl in Hr.
    rewrite forallb_forall in Hno. specialize (Hno r Hr).
    apply negb_true_iff in Hno.
    assert (E : has_column c r = true).
    { unfold has_column. apply existsb_exists. exists c.
      split; [exact Hin | apply Z.eqb_refl]. }
    congruence. }
  apply (count_occ_not_In Z.eq_dec) in Hnot. lia.
Qed.

(** C1 fails on the code: the grid [b0g] has a single row, so no Down
    run of a dictionary word exists; the encoder emits six Across rows and
    no row holds a 1 in column 53, so the matrix has no exact cover at all
    and the program prints no solution. *)
Lemma b0g_counterexample :
  (forall ns st,
      xword_solve always_ok default_options (str "b0g") 3 1 b0g_dict
                  initial_counters
      <> Ok (ns, (st, map str ["bag"; "beg"; "big"; "bog"; "bug";
                               "byg"]%string)))
  /\ build_matrix default_options b0g_info b0g_dict = Ok b0g_matrix
  /\ ~ (exists covers : list (list bool),
           List.length covers = 6%nat
           /\ forall m, In m covers -> exact_cover b0g_matrix m).
Proof.
  split; [| split].
  - intros ns st H. vm_compute in H. discriminate H.
  - vm_compute. reflexivity.
  - intros [covers [Hlen Hall]].
    destruct covers as [| m covers]; [discriminate Hlen |].
    apply (uncovered_column b0g_matrix 53 ltac:(simpl; lia) eq_refl m).
    apply Hall. now left.
Qed.

(** C1 (amended): for the grid [b0g] and the dictionary [bag, beg, big,
    bog, bug, byg, bfg], the encoder emits exactly six rows, the Across
    placements of bag, beg, big, bog, bug, byg at the start of the row, in
    that order; bfg fits nowhere and no Down placement of any of the words
    fits; column 53 (Down through the open cell) is in no row, so the
    matrix has no exact cover, and the program prints no solution and
    reports 0 solutions, in compressed and in naive mode, also when the
    dictionary arrives sorted and pruned by [strip_dict]. *)
Theorem b0g_has_no_cover :
  build_matrix default_options b0g_info b0g_dict = Ok b0g_matrix
  /\ map Ok (rows b0g_matrix)
     = map (fun word =>
              placement_row Across default_options b0g_info 0 0 (str word) 3)
           ["bag"; "beg"; "big"; "bog"; "bug"; "byg"]%string
  /\ (forall o i j, 0 <= i < 3 -> 0 <= j < 1 ->
                    entry_fits o (str "b0g") 3 1 i j (str "bfg") 3 = 0)
  /\ (forall word i j, 0 <= i < 3 -> 0 <= j < 1 ->
                       entry_fits Down (str "b0g") 3 1 i j word 3 = 0)
  /\ (forall mask, ~ exact_cover b0g_matrix mask)
  /\ xword_solve always_ok default_options (str "b0g") 3 1 b0g_dict
                 initial_counters
     = Ok (0, (initial_counters, []))
  /\ xword_solve always_ok naive_options (str "b0g") 3 1 b0g_dict
                 initial_counters
     = Ok (0, (initial_counters, []))
  /\ main_after_load always_ok default_options (str "b0g") 3 1
                     b0g_dict_sorted
     = Ok (Some (0, (initial_counters, []))).
Proof.
  split; [vm_compute; reflexivity |].
  split; [vm_compute; reflexivity |].
  split.
  { intros o i j Hi Hj. apply in_upto in Hi, Hj. simpl in Hi, Hj.
    destruct Hj as [<- | []];
      destruct Hi as [<- | [<- | [<- | []]]];
      destruct o; vm_compute; reflexivity. }
  split.
  { intros word i j Hi Hj. unfold entry_fits, entry_fits_down.
    assert (E : (j + 3 >? 1) = true) by (apply Zgtb_true; lia).
    now rewrite E. }
  split; [apply (uncovered_column b0g_matrix 53 ltac:(simpl; lia) eq_refl) |].
  repeat split; vm_compute; reflexivity.
Qed.

(** ** Sorting the runs *)

Lemma code_inj (a b : ascii) : code a = code b -> a = b.
Proof.
  unfold code. intros H. apply Nat2Z.inj in H.
  rewrite <- (ascii_nat_embedding a), <- (ascii_nat_embedding b).
  now rewrite H.
Qed.

Ltac ltb_cases :=
  repeat match goal with
         | |- context [?a <? ?b] =>
             let E := fresh "E" in
             destruct (a <? b) eqn:E;
             [apply Z.ltb_lt in E | apply Z.ltb_ge in E]
         end.

Lemma strcmp_eq (s t : list ascii) : strcmp s t = 0 <-> s = t.
Proof.
  revert t. induction s as [| a s IH]; intros [| b t]; cbn [strcmp];
    try (split; [discriminate | discriminate]); [tauto |].
  ltb_cases.
  - split; [discriminate |]. intros H. injection H as -> _. lia.
  - split; [discriminate |]. intros H. injection H as -> _. lia.
  - rewrite IH. assert (a = b) by (apply code_inj; lia). subst b.
    split; [intros -> | intros H; injection H as ->]; reflexivity.
Qed.

Lemma strcmp_antisym (s t : list ascii) : strcmp t s = - strcmp s t.
Proof.
  revert t. induction s as [| a s IH]; intros [| b t]; cbn [strcmp];
    try reflexivity.
  ltb_cases; try lia; try reflexivity. apply IH.
Qed.

Lemma strcmp_trans (s t u : list ascii) :
  strcmp s t <= 0 -> strcmp t u <= 0 -> strcmp s u <= 0.
Proof.
  revert t u. induction s as [| a s IH]; intros [| b t] [| c u];
    cbn [strcmp]; try lia.
  ltb_cases; try lia. apply IH.
Qed.

Lemma ptr_str_cmp_le (a b : list ascii) :
  ptr_str_cmp a b <= 0 <-> strcmp a b <= 0.
Proof.
  unfold ptr_str_cmp.
  destruct (strcmp a b <? 0) eqn:E1; [apply Z.ltb_lt in E1 |
                                      apply Z.ltb_ge in E1]; [lia |].
  destruct (strcmp a b >? 0) eqn:E2; [apply Zgtb_true in E2 |
                                      apply Zgtb_false in E2]; lia.
Qed.

Lemma qsort_insert_perm (x : list ascii) (l : list (list ascii)) :
  Permutation (qsort_insert ptr_str_cmp x l) (x :: l).
Proof.
  induction l as [| y l IH]; cbn [qsort_insert]; [apply Permutation_refl |].
  destruct (ptr_str_cmp x y <=? 0); [apply Permutation_refl |].
  eapply perm_trans; [apply perm_skip, IH | apply perm_swap].
Qed.

Lemma qsort_perm (l : list (list ascii)) :
  Permutation (qsort ptr_str_cmp l) l.
Proof.
  induction l as [| x l IH]; cbn [qsort fold_right]; [apply perm_nil |].
  eapply perm_trans; [apply qsort_insert_perm | apply perm_skip, IH].
Qed.

Lemma qsort_insert_sorted (x : list ascii) (l : list (list ascii)) :
  StronglySorted (fun a b => strcmp a b <= 0) l ->
  StronglySorted (fun a b => strcmp a b <= 0)
                 (qsort_insert ptr_str_cmp x l).
Proof.
  induction l as [| y l IH]; intros Hs; cbn [qsort_insert].
  - constructor; constructor.
  - inversion Hs as [| ? ? Hs' Hall]; subst.
    destruct (ptr_str_cmp x y <=? 0) eqn:E;
      [apply Z.leb_le, ptr_str_cmp_le in E
      | apply Z.leb_gt in E].
    + constructor; [exact Hs |]. constructor; [exact E |].
      rewrite Forall_forall in *. intros z Hz.
      eapply strcmp_trans; [exact E | apply Hall, Hz].
    + assert (Hyx : strcmp y x <= 0).
      { rewrite strcmp_antisym.
        assert (~ strcmp x y <= 0) by (rewrite <- ptr_str_cmp_le; lia).
        lia. }
      constructor; [apply IH, Hs' |].
      rewrite Forall_forall in *. intros z Hz.
      apply (Permutation_in _ (qsort_insert_perm x l)) in Hz.
      destruct Hz as [<- | Hz]; [exact Hyx | apply Hall, Hz].
Qed.

Lemma qsort_sorted (l : list (list ascii)) :
  StronglySorted (fun a b => strcmp a b <= 0) (qsort ptr_str_cmp l).
Proof.
  induction l as [| x l IH]; cbn [qsort fold_right]; [constructor |].
  apply qsort_insert_sorted, IH.
Qed.

Lemma adjacent_equal_sorted (l : list (list ascii)) :
  StronglySorted (fun a b => strcmp a b <= 0) l ->
  adjacent_equal l = false <-> NoDup l.
Proof.
  induction l as [| x l IH]; intros Hs.
  - split; [constructor | reflexivity].
  - inversion Hs as [| ? ? Hs' Hall]; subst. specialize (IH Hs').
    destruct l as [| y l].
    + split; [repeat constructor; intros [] | reflexivity].
    + cbn [adjacent_equal]. rewrite orb_false_iff, IH.
      rewrite (NoDup_cons_iff x (y :: l)).
      inversion Hs' as [| ? ? _ Hall']; subst.
      rewrite Forall_forall in Hall, Hall'.
      split.
      * intros [Hxy Hnd]. split; [| exact Hnd].
        apply Z.eqb_neq in Hxy. intros [-> | Hin].
        -- apply Hxy, strcmp_eq. reflexivity.
        -- apply Hxy, strcmp_eq.
           assert (H1 : strcmp x y <= 0) by (apply Hall; now left).
           assert (H2 : strcmp y x <= 0) by (apply Hall', Hin).
           rewrite strcmp_antisym in H2.
           apply strcmp_eq. lia.
      * intros [Hnin Hnd]. split; [| exact Hnd].
        apply Z.eqb_neq. rewrite strcmp_eq. intros ->. apply Hnin. now left.
Qed.

(** After [qsort], two neighbours are equal exactly when the array held
    some string twice. *)
Lemma adjacent_equal_qsort (l : list (list ascii)) :
  adjacent_equal (qsort ptr_str_cmp l) = false <-> NoDup l.
Proof.
  rewrite (adjacent_equal_sorted _ (qsort_sorted l)).
  split; apply Permutation_NoDup;
    [apply qsort_perm | apply Permutation_sym, qsort_perm].
Qed.

(** ** Scanning a line for runs *)

Lemma strchr_open (c : ascii) :
  c <> NUL -> strchr ".01" c = true <-> open_cell c.
Proof.
  intros Hc. unfold strchr. apply ascii_eqb_neq in Hc. rewrite Hc.
  cbn [orb str list_ascii_of_string existsb]. rewrite orb_false_r.
  rewrite open_cell_openb. unfold openb. now rewrite orb_assoc.
Qed.

Section ScanLine.
Variable malloc_ok : nat -> bool.
Hypothesis malloc_granted : forall n, malloc_ok n = true.
Variables (cell : Z -> ascii) (limit : Z).
Hypothesis cell_not_NUL : forall x, 0 <= x < limit -> cell x <> NUL.

Lemma find_end_spec (n : nat) :
  forall (e : Z) (inv : bool),
    0 <= e <= limit -> n = Z.to_nat (limit - e) ->
    let r := find_end cell n e inv in
    e <= fst r <= limit
    /\ (forall x, e <= x < fst r -> cell x <> "#")
    /\ (fst r = limit \/ cell (fst r) = "#")
    /\ (snd r = true <->
        inv = true \/ exists x, e <= x < fst r /\ open_cell (cell x)).
Proof.
  induction n as [| n IH]; intros e inv He Hn; cbn zeta.
  - cbn [find_end fst snd]. assert (e = limit) by lia. subst e.
    repeat split; try lia; auto.
    intros [H | [x [Hx _]]]; [exact H | lia].
  - cbn [find_end].
    destruct (Ascii.eqb (cell e) "#") eqn:E;
      [apply ascii_eqb_eq in E | apply ascii_eqb_neq in E].
    + cbn [fst snd]. repeat split; try lia; auto.
      intros [H | [x [Hx _]]]; [exact H | lia].
    + specialize (IH (e + 1)
                     (if strchr ".01" (cell e) then true else inv)
                     ltac:(lia) ltac:(lia)).
      cbn zeta in IH. destruct IH as [I1 [I2 [I3 I4]]].
      split; [lia |]. split; [| split; [exact I3 |]].
      * intros x Hx. destruct (Z.eq_dec x e) as [-> | Hne];
          [exact E | apply I2; lia].
      * rewrite I4. split.
        -- intros [H | [x [Hx Ho]]].
           ++ destruct (strchr ".01" (cell e)) eqn:S; [| left; exact H].
              right. exists e. split; [lia |].
              apply strchr_open; [apply cell_not_NUL; lia | exact S].
           ++ right. exists x. split; [lia | exact Ho].
        -- intros [H | [x [Hx Ho]]].
           ++ left. rewrite H. now destruct (strchr ".01" (cell e)).
           ++ destruct (Z.eq_dec x e) as [-> | Hne].
              ** left. apply strchr_open in Ho;
                   [now rewrite Ho | apply cell_not_NUL; lia].
              ** right. exists x. split; [lia | exact Ho].
Qed.

Lemma scan_line_runs (fuel : nat) :
  forall (i : Z) (st : dup_state),
    0 <= i <= limit -> (Z.to_nat (limit - i) < fuel)%nat ->
    run_boundary cell limit i ->
    exists rs : list (Z * Z),
      scan_line malloc_ok cell limit fuel i st
      = Ok {| ds_dict := ds_dict st
                         ++ map (fun ab => text_in_line cell (fst ab) (snd ab))
                                rs;
              ds_nalloc := ds_nalloc st + List.length rs;
              ds_rc := ds_rc st |}
      /\ NoDup rs
      /\ forall a b,
          In (a, b) rs <->
          i <= a /\ maximal_in_line cell limit a b
          /\ complete_in_line cell a b.
Proof.
  induction fuel as [| fuel IH]; intros i st Hi Hf Hb; [lia |].
  cbn [scan_line].
  destruct (i <? limit) eqn:L; [apply Z.ltb_lt in L | apply Z.ltb_ge in L];
    cbn [negb].
  2: { exists []. cbn [map List.length]. rewrite app_nil_r, Nat.add_0_r.
       split; [now destruct st |]. split; [constructor |].
       intros a b. split; [intros [] |].
       intros [Ha [[M1 [M2 _]] _]]. lia. }
  destruct (Ascii.eqb (cell i) "#") eqn:E;
    [apply ascii_eqb_eq in E | apply ascii_eqb_neq in E].
  { destruct (IH (i + 1) st ltac:(lia) ltac:(lia)) as [rs [R1 [R2 R3]]].
    { right; right; left. now replace (i + 1 - 1) with i by lia. }
    exists rs. split; [exact R1 |]. split; [exact R2 |].
    intros a b. rewrite R3. split.
    - intros [Ha H]. split; [lia | exact H].
    - intros [Ha [M C]]. split; [| split; assumption].
      destruct (Z.eq_dec a i) as [-> | Hne]; [| lia].
      destruct M as [M1 [_ [M3 _]]]. exfalso. apply (M3 i); [lia | exact E]. }
  pose proof (find_end_spec (Z.to_nat (limit - i)) i false
                            ltac:(lia) eq_refl) as F.
  cbn zeta in F.
  destruct (find_end cell (Z.to_nat (limit - i)) i false) as [e invalid].
  cbn [fst snd] in F. destruct F as [F1 [F2 [F3 F4]]].
  assert (Hie : i < e).
  { destruct (Z.eq_dec e i) as [-> | Hne]; [| lia].
    destruct F3 as [F3 | F3]; [lia | contradiction]. }
  assert (Hmax : maximal_in_line cell limit i e).
  { unfold maximal_in_line. repeat split; try lia; auto.
    destruct Hb as [Hb | [Hb | [Hb | Hb]]]; auto; try lia; contradiction. }
  assert (Hlater : forall a b,
             i <= a -> maximal_in_line cell limit a b ->
             (a = i /\ b = e) \/ e <= a).
  { intros a b Ha [M1 [M2 [M3 [M4 M5]]]].
    destruct (Z.eq_dec a i) as [-> | Hne].
    - left. split; [reflexivity |].
      destruct (Z_lt_le_dec b e) as [Hlt | Hge].
      + destruct M5 as [M5 | M5]; [lia |]. exfalso. apply (F2 b); [lia | auto].
      + destruct (Z.eq_dec b e) as [-> | Hne]; [reflexivity |].
        destruct F3 as [F3 | F3]; [lia |].
        exfalso. apply (M3 e); [lia | exact F3].
    - right. destruct (Z_lt_le_dec a e) as [Hlt | Hge]; [| exact Hge].
      destruct M4 as [M4 | M4]; [lia |].
      exfalso. apply (F2 (a - 1)); [lia | exact M4]. }
  assert (Hbe : run_boundary cell limit e).
  { destruct F3 as [F3 | F3]; [right; left; exact F3 | right; right; right; exact F3]. }
  destruct invalid.
  - destruct (IH e st ltac:(lia) ltac:(lia) Hbe) as [rs [R1 [R2 R3]]].
    exists rs. split; [exact R1 |]. split; [exact R2 |].
    intros a b. rewrite R3. split.
    + intros [Ha H]. split; [lia | exact H].
    + intros [Ha [M C]]. split; [| split; assumption].
      destruct (Hlater a b Ha M) as [[-> ->] | Hge]; [| exact Hge].
      exfalso. destruct F4 as [F4 _].
      destruct (F4 eq_refl) as [H | [x [Hx Ho]]]; [discriminate H |].
      apply (C x Hx Ho).
  - rewrite malloc_granted.
    set (st' := {| ds_dict := ds_dict st
                     ++ [map (fun k => tolower (cell (i + k))) (upto (e - i))];
                   ds_nalloc := S (ds_nalloc st);
                   ds_rc := ds_rc st |}).
    destruct (IH e st' ltac:(lia) ltac:(lia) Hbe) as [rs [R1 [R2 R3]]].
    exists ((i, e) :: rs). split; [| split].
    + rewrite R1. unfold st'. cbn [ds_dict ds_nalloc ds_rc map fst snd
                                   List.length].
      unfold text_in_line. rewrite <- app_assoc. cbn [app].
      f_equal. f_equal. lia.
    + constructor; [| exact R2]. rewrite R3. intros [Ha _]. lia.
    + intros a b. cbn [In]. rewrite R3. split.
      * intros [H | [Ha H]].
        -- injection H as <- <-. split; [lia |]. split; [exact Hmax |].
           intros x Hx Ho.
           assert (T : false = true); [| discriminate T].
           apply F4. right. exists x. split; assumption.
        -- split; [lia | exact H].
      * intros [Ha [M C]].
        destruct (Hlater a b Ha M) as [[-> ->] | Hge];
          [left; reflexivity | right; split; [exact Hge | split; assumption]].
Qed.
End ScanLine.

(** The scan of a line ends, whatever the line holds. *)
Lemma find_end_bounds (cell : Z -> ascii) (limit : Z) (n : nat) :
  forall (e : Z) (inv : bool),
    0 <= e <= limit -> n = Z.to_nat (limit - e) ->
    e <= fst (find_end cell n e inv) <= limit
    /\ (cell e <> "#" -> e < limit -> e < fst (find_end cell n e inv)).
Proof.
  induction n as [| n IH]; intros e inv He Hn.
  - cbn [find_end fst]. lia.
  - cbn [find_end].
    destruct (Ascii.eqb (cell e) "#") eqn:E;
      [apply ascii_eqb_eq in E | apply ascii_eqb_neq in E].
    + cbn [fst]. split; [lia | intros H; contradiction].
    + destruct (IH (e + 1) (if strchr ".01" (cell e) then true else inv)
                   ltac:(lia) ltac:(lia)) as [I1 _].
      split; [lia | intros _ _; lia].
Qed.

Lemma scan_line_total (malloc_ok : nat -> bool) (cell : Z -> ascii)
      (limit : Z) (fuel : nat) :
  (forall n, malloc_ok n = true) ->
  forall (i : Z) (st : dup_state),
    0 <= i -> (Z.to_nat (limit - i) < fuel)%nat ->
    exists st', scan_line malloc_ok cell limit fuel i st = Ok st'
                /\ ds_rc st' = ds_rc st.
Proof.
  intros Hok. induction fuel as [| fuel IH]; intros i st Hi Hf; [lia |].
  cbn [scan_line].
  destruct (i <? limit) eqn:L; [apply Z.ltb_lt in L | apply Z.ltb_ge in L];
    cbn [negb]; [| exists st; split; reflexivity].
  destruct (Ascii.eqb (cell i) "#") eqn:E;
    [apply ascii_eqb_eq in E | apply ascii_eqb_neq in E].
  { apply IH; lia. }
  pose proof (find_end_bounds cell limit (Z.to_nat (limit - i)) i false
                              ltac:(lia) eq_refl) as [B1 B2].
  specialize (B2 E L).
  destruct (find_end cell (Z.to_nat (limit - i)) i false) as [e invalid].
  cbn [fst] in B1, B2.
  destruct invalid; [apply IH; lia |].
  rewrite Hok.
  match goal with
  | |- exists st', scan_line _ _ _ _ _ ?s = _ /\ _ =>
      destruct (IH e s ltac:(lia) ltac:(lia)) as [st' [H1 H2]]
  end.
  exists st'. split; [exact H1 | exact H2].
Qed.

Lemma for_each_scan_total (malloc_ok : nat -> bool)
      (cellof : Z -> Z -> ascii) (limit : Z) :
  (forall n, malloc_ok n = true) ->
  forall (ls : list Z) (st : dup_state),
    exists st',
      for_each ls (fun l => scan_line malloc_ok (cellof l) limit
                                      (S (Z.to_nat limit)) 0) st = Ok st'
      /\ ds_rc st' = ds_rc st.
Proof.
  intros Hok. induction ls as [| l ls IH]; intros st.
  - exists st. split; reflexivity.
  - cbn [for_each].
    destruct (scan_line_total malloc_ok (cellof l) limit (S (Z.to_nat limit))
                Hok 0 st ltac:(lia) ltac:(lia)) as [st1 [H1 H2]].
    rewrite H1. cbn [bind].
    destruct (IH st1) as [st' [H3 H4]].
    exists st'. split; [exact H3 | congruence].
Qed.

(** With every allocation granted, [grid_contains_duplicates] returns 0
    or 1, for any grid and any dimensions. *)
Lemma grid_contains_duplicates_total (malloc_ok : nat -> bool)
      (grid : list ascii) (w h : Z) :
  (forall n, malloc_ok n = true) ->
  grid_contains_duplicates malloc_ok grid w h = Ok 0
  \/ grid_contains_duplicates malloc_ok grid w h = Ok 1.
Proof.
  intros Hok. unfold grid_contains_duplicates.
  rewrite Hok. cbn [negb].
  destruct (for_each_scan_total malloc_ok (fun j x => at_ grid (j*w + x)) w
              Hok (upto h)
              {| ds_dict := []; ds_nalloc := 1; ds_rc := 0 |})
    as [st1 [H1 R1]].
  rewrite H1. cbn [bind].
  destruct (for_each_scan_total malloc_ok (fun i y => at_ grid (y*w + i)) h
              Hok (upto w) st1) as [st2 [H2 R2]].
  rewrite H2. cbn [bind].
  destruct (adjacent_equal (qsort ptr_str_cmp (ds_dict st2)));
    [right; reflexivity | left].
  rewrite R2, R1. reflexivity.
Qed.

(** ** Duplicate runs of a grid (C5) *)

Lemma NoDup_map_in {A B : Type} (f : A -> B) (l : list A) :
  (forall x y, In x l -> In y l -> f x = f y -> x = y) ->
  NoDup l -> NoDup (map f l).
Proof.
  induction l as [| x l IH]; intros Hinj Hnd; [constructor |].
  inversion Hnd as [| ? ? Hnin Hnd']; subst.
  cbn [map]. constructor.
  - rewrite in_map_iff. intros [y [Hy Hin]].
    apply Hnin. rewrite (Hinj x y); auto; [now left | now right].
  - apply IH; [| exact Hnd'].
    intros a b Ha Hb. apply Hinj; now right.
Qed.

Lemma map_NoDup_inj {A B : Type} (f : A -> B) (l : list A) :
  NoDup (map f l) ->
  forall x y, In x l -> In y l -> f x = f y -> x = y.
Proof.
  induction l as [| a l IH]; intros Hnd x y Hx Hy Hf; [destruct Hx |].
  cbn [map] in Hnd. inversion Hnd as [| ? ? Hnin Hnd']; subst.
  destruct Hx as [-> | Hx], Hy as [-> | Hy].
  - reflexivity.
  - exfalso. apply Hnin. rewrite Hf. now apply in_map.
  - exfalso. apply Hnin. rewrite <- Hf. now apply in_map.
  - now apply IH.
Qed.

(** A list without repetition is mapped to a list with a repetition
    exactly when two of its elements have the same image. *)
Lemma map_repeats_iff {A : Type} (f : A -> list ascii) (l : list A) :
  NoDup l ->
  ~ NoDup (map f l) <->
  exists x y, In x l /\ In y l /\ x <> y /\ f x = f y.
Proof.
  intros Hnd. split.
  - induction l as [| a l IH]; intros H; [exfalso; apply H; constructor |].
    inversion Hnd as [| ? ? Hnin Hnd']; subst.
    destruct (in_dec (list_eq_dec ascii_dec) (f a) (map f l)) as [Hin | Hout].
    + apply in_map_iff in Hin. destruct Hin as [y [Hy Hin]].
      exists a, y. repeat split; [now left | now right | | now symmetry].
      intros ->. contradiction.
    + destruct (IH Hnd') as [x [y [Hx [Hy [Hne Hf]]]]].
      { intros H'. apply H. cbn [map]. now constructor. }
      exists x, y. repeat split; [now right | now right | exact Hne | exact Hf].
  - intros [x [y [Hx [Hy [Hne Hf]]]]] H.
    apply Hne. exact (map_NoDup_inj f l H x y Hx Hy Hf).
Qed.

Lemma NoDup_upto (n : Z) : NoDup (upto n).
Proof.
  unfold upto. apply NoDup_map_in; [| apply seq_NoDup].
  intros x y _ _ H. lia.
Qed.

Lemma legal_cell_not_NUL (c : ascii) : legal_cell c -> c <> NUL.
Proof.
  intros [-> | [H | [-> | [-> | ->]]]]; try discriminate.
  intros ->. discriminate H.
Qed.

Lemma line_cell_legal (o : orientation) (grid : list ascii) (w h l x : Z) :
  legal_grid grid w h ->
  0 <= l < line_count o w h -> 0 <= x < line_length o w h ->
  legal_cell (line_cell o grid w l x).
Proof.
  intros Hg Hl Hx. destruct o; cbn [line_cell line_count line_length] in *;
    apply (at_legal grid w h); try assumption; nia.
Qed.

Lemma scan_lines_runs (malloc_ok : nat -> bool) (o : orientation)
      (grid : list ascii) (w h : Z) :
  (forall n, malloc_ok n = true) ->
  legal_grid grid w h ->
  forall (ls : list Z) (st : dup_state),
    NoDup ls -> (forall l, In l ls -> 0 <= l < line_count o w h) ->
    exists runs : list run,
      for_each ls
        (fun l => scan_line malloc_ok (line_cell o grid w l)
                            (line_length o w h)
                            (S (Z.to_nat (line_length o w h))) 0) st
      = Ok {| ds_dict := ds_dict st ++ map (run_text grid w) runs;
              ds_nalloc := ds_nalloc st + List.length runs;
              ds_rc := ds_rc st |}
      /\ NoDup runs
      /\ forall r,
          In r runs <->
          run_o r = o /\ In (run_line r) ls
          /\ maximal_in_line (line_cell o grid w (run_line r))
                             (line_length o w h) (run_start r) (run_stop r)
          /\ complete_run grid w r.
Proof.
  intros Hok Hg.
  assert (Hlen : 0 <= line_length o w h)
    by (destruct Hg as [? [? _]]; destruct o; assumption).
  induction ls as [| l ls IH]; intros st Hnd Hls.
  - exists []. cbn [for_each map List.length].
    rewrite app_nil_r, Nat.add_0_r.
    split; [now destruct st |]. split; [constructor |].
    intros r. split; [intros [] | intros [_ [[] _]]].
  - inversion Hnd as [| ? ? Hnin Hnd']; subst.
    cbn [for_each].
    destruct (scan_line_runs malloc_ok Hok (line_cell o grid w l)
                (line_length o w h)
                (fun x Hx => legal_cell_not_NUL _
                   (line_cell_legal o grid w h l x Hg
                                    (Hls l (or_introl eq_refl)) Hx))
                (S (Z.to_nat (line_length o w h))) 0 st
                ltac:(lia) ltac:(lia) (or_introl eq_refl))
      as [rs [R1 [R2 R3]]].
    rewrite R1. cbn [bind].
    match goal with
    | |- exists runs, for_each _ _ ?s = _ /\ _ =>
        destruct (IH s Hnd' (fun l' H => Hls l' (or_intror H)))
          as [runs [S1 [S2 S3]]]
    end.
    set (mk := fun ab : Z * Z =>
                 {| run_o := o; run_line := l;
                    run_start := fst ab; run_stop := snd ab |}).
    exists (map mk rs ++ runs). split; [| split].
    + rewrite S1. cbn [ds_dict ds_nalloc ds_rc].
      rewrite map_app, map_map, length_app, length_map, <- app_assoc.
      f_equal. f_equal. lia.
    + apply NoDup_app; [| exact S2 |].
      * apply NoDup_map_in; [| exact R2].
        intros [a b] [a' b'] _ _ H. unfold mk in H. cbn [fst snd] in H.
        injection H as -> ->. reflexivity.
      * intros r Hr Hr'. apply in_map_iff in Hr.
        destruct Hr as [ab [<- _]]. apply S3 in Hr'.
        destruct Hr' as [_ [Hin _]]. cbn [run_line mk] in Hin.
        contradiction.
    + intros r. rewrite in_app_iff, in_map_iff, S3. cbn [In]. split.
      * intros [[[a b] [<- Hab]] | [Ho [Hin [M C]]]].
        -- apply R3 in Hab. destruct Hab as [_ [M C]].
           cbn [mk run_o run_line run_start run_stop fst snd].
           split; [reflexivity | split; [now left | split; [exact M | exact C]]].
        -- split; [exact Ho | split; [now right | split; [exact M | exact C]]].
      * intros [Ho [[Hl | Hin] [M C]]].
        -- left. exists (run_start r, run_stop r). split.
           ++ destruct r as [ro rl ra rb]. cbn in *. subst. reflexivity.
           ++ apply R3. subst l. cbn [fst snd].
              split; [destruct M as [[M1 _] _]; exact M1 |].
              split; [exact M |].
              unfold complete_run in C. now rewrite Ho in C.
        -- right. split; [exact Ho | split; [exact Hin | split; [exact M | exact C]]].
Qed.

(** The strings that [grid_contains_duplicates] sorts are the texts of the
    complete maximal runs of the grid, each run once. *)
Lemma collected_runs (malloc_ok : nat -> bool) (grid : list ascii)
      (w h : Z) :
  (forall n, malloc_ok n = true) ->
  legal_grid grid w h ->
  exists runs : list run,
    grid_contains_duplicates malloc_ok grid w h
    = Ok (if adjacent_equal (qsort ptr_str_cmp (map (run_text grid w) runs))
          then 1 else 0)
    /\ NoDup runs
    /\ forall r, In r runs <-> maximal_run grid w h r /\ complete_run grid w r.
Proof.
  intros Hok Hg. unfold grid_contains_duplicates.
  rewrite Hok. cbn [negb].
  destruct (scan_lines_runs malloc_ok Across grid w h Hok Hg (upto h)
              {| ds_dict := []; ds_nalloc := 1; ds_rc := 0 |}
              (NoDup_upto h) (fun l H => proj1 (in_upto h l) H))
    as [ra [A1 [A2 A3]]].
  unfold line_cell, line_length in A1.
  cbn [ds_dict ds_nalloc ds_rc app] in A1.
  rewrite A1. cbn [bind].
  match goal with
  | |- context [for_each (upto w) _ ?s] =>
      destruct (scan_lines_runs malloc_ok Down grid w h Hok Hg (upto w) s
                  (NoDup_upto w) (fun l H => proj1 (in_upto w l) H))
        as [rd [D1 [D2 D3]]]
  end.
  unfold line_cell, line_length in D1.
  cbn [ds_dict ds_nalloc ds_rc app] in D1.
  rewrite D1. cbn [bind ds_dict ds_rc].
  exists (ra ++ rd). rewrite map_app.
  split; [reflexivity |]. split.
  - apply NoDup_app; [exact A2 | exact D2 |].
    intros r Hr Hr'. apply A3 in Hr. apply D3 in Hr'.
    destruct Hr as [Hr _], Hr' as [Hr' _]. congruence.
  - intros r. rewrite in_app_iff, A3, D3. unfold maximal_run.
    rewrite !in_upto. split.
    + intros [[Ho [Hl [M C]]] | [Ho [Hl [M C]]]]; rewrite Ho;
        (split; [split; [exact Hl | exact M] | exact C]).
    + intros [[Hl M] C]. destruct (run_o r) eqn:Ho; [left | right];
        (split; [reflexivity | split; [exact Hl | split; [exact M | exact C]]]).
Qed.

(** C5, as the specification states it, fails: the code compares every
    maximal run, whatever its length.  The row [bab] has a single run of
    three cells or more, yet its one-cell Down runs [b] and [b] are
    reported as a duplicate. *)
Lemma short_runs_counterexample :
  grid_contains_duplicates always_ok (str "bab") 3 1 = Ok 1
  /\ ~ duplicate_runs 3 (str "bab") 3 1.
Proof.
  split; [reflexivity |].
  intros [r1 [r2 [Hne [[L1 M1] [[L2 M2] [_ [_ [H1 [H2 _]]]]]]]]].
  apply Hne.
  destruct M1 as [A1 [B1 _]], M2 as [A2 [B2 _]].
  unfold run_length in H1, H2.
  destruct r1 as [[] l1 a1 b1], r2 as [[] l2 a2 b2];
    cbn [run_o run_line run_start run_stop line_count line_length] in *;
    try lia.
  f_equal; lia.
Qed.

(** C5 (amended): for a grid of legal cells, when no allocation fails,
    [grid_contains_duplicates] returns 1 or 0, and it returns 1 exactly
    when two different maximal runs spell the same letters (compared in
    lower case), where a run is a maximal horizontal or vertical sequence
    of non-black cells of any length, one cell included, and runs that hold
    [.], [0] or [1] are left out; it returns -3 only if some allocation
    fails, and does so when the first allocation fails. *)
Theorem grid_contains_duplicates_runs (malloc_ok : nat -> bool)
        (grid : list ascii) (w h : Z) :
  legal_grid grid w h ->
  ((forall n, malloc_ok n = true) ->
   (grid_contains_duplicates malloc_ok grid w h = Ok 1
    \/ grid_contains_duplicates malloc_ok grid w h = Ok 0)
   /\ (grid_contains_duplicates malloc_ok grid w h = Ok 1
       <-> duplicate_runs 1 grid w h))
  /\ (grid_contains_duplicates malloc_ok grid w h = Ok (-3) ->
      ~ forall n, malloc_ok n = true)
  /\ (malloc_ok 0%nat = false ->
      grid_contains_duplicates malloc_ok grid w h = Ok (-3)).
Proof.
  intros Hg. split; [| split].
  - intros Hok.
    destruct (collected_runs malloc_ok grid w h Hok Hg) as [runs [R [Hnd Hin]]].
    rewrite R.
    pose proof (adjacent_equal_qsort (map (run_text grid w) runs)) as Q.
    pose proof (map_repeats_iff (run_text grid w) runs Hnd) as P.
    destruct (adjacent_equal (qsort ptr_str_cmp (map (run_text grid w) runs)))
      eqn:E.
    + split; [left; reflexivity |]. split; [intros _ | reflexivity].
      assert (N : ~ NoDup (map (run_text grid w) runs)).
      { intros H. apply Q in H. discriminate H. }
      apply P in N. destruct N as [x [y [Hx [Hy [Hne Hf]]]]].
      apply Hin in Hx, Hy. destruct Hx as [Mx Cx], Hy as [My Cy].
      exists x, y. repeat split; try assumption;
        try (apply Mx); try (apply My);
        unfold run_length;
        [destruct Mx as [_ [Mx _]] | destruct My as [_ [My _]]]; lia.
    + split; [right; reflexivity |]. split; [discriminate |].
      intros [r1 [r2 [Hne [M1 [M2 [C1 [C2 [_ [_ Ht]]]]]]]]].
      exfalso.
      assert (N : NoDup (map (run_text grid w) runs)) by (apply Q; reflexivity).
      apply P; [| exact N].
      exists r1, r2. repeat split; try assumption; apply Hin; split; assumption.
  - intros H Hok.
    destruct (grid_contains_duplicates_total malloc_ok grid w h Hok) as [T | T];
      rewrite T in H; discriminate H.
  - intros H. unfold grid_contains_duplicates. now rewrite H.
Qed.

Lemma grid_contains_duplicates_runs_witness :
  legal_grid (str "bab") 3 1
  /\ (grid_contains_duplicates always_ok (str "bab") 3 1 = Ok 1
      <-> duplicate_runs 1 (str "bab") 3 1).
Proof.
  split; [apply legal_grid_dec_true; reflexivity |].
  apply (grid_contains_duplicates_runs always_ok (str "bab") 3 1).
  - apply legal_grid_dec_true. reflexivity.
  - intros n. reflexivity.
Defined.

(** ** The search calls the callback on a fixed sequence of covers *)

Section SearchDeliver.
Variable St : Type.
Variable callback : list (list Z) -> St -> result (Z * St).

Lemma deliver_app (cs1 cs2 : list (list (list Z))) :
  forall (t u : Z) (st : St),
    0 <= u ->
    deliver callback (cs1 ++ cs2) (t + u) st
    = match deliver callback cs1 u st with
      | Ok r => if fst r <? 0 then Ok r
                else deliver callback cs2 (t + fst r) (snd r)
      | AssertionFailed l => AssertionFailed l
      | OutOfFuel => OutOfFuel
      end.
Proof.
  induction cs1 as [| c cs1 IH]; intros t u st Hu.
  - cbn [app deliver fst snd].
    assert (E : (u <? 0) = false) by (apply Z.ltb_ge; lia).
    now rewrite E.
  - cbn [app deliver].
    destruct (callback c st) as [res | l |]; cbn [bind]; try reflexivity.
    destruct (fst res <? 0) eqn:E.
    + now rewrite E.
    + apply Z.ltb_ge in E.
      rewrite <- Z.add_assoc. apply IH. lia.
Qed.

Lemma search_deliver (fuel : nat) :
  forall (cols : list Z) (rws stack : list (list Z))
         (covers : list (list (list Z))) (st : St),
    covers_of fuel cols rws stack = Ok covers ->
    search St callback fuel cols rws stack st = deliver callback covers 0 st.
Proof.
  induction fuel as [| fuel IH]; intros cols rws stack covers st H;
    [discriminate H |].
  cbn [covers_of] in H. cbn [search].
  destruct cols as [| c0 cols0].
  - injection H as <-. cbn [deliver].
    destruct (callback (rev stack) st) as [[rc st'] | l |]; cbn [bind];
      try reflexivity.
    cbn [fst snd]. now destruct (rc <? 0).
  - set (c := min_column rws cols0 c0) in *.
    destruct (column_count rws c =? 0)%nat.
    + injection H as <-. reflexivity.
    + remember (filter (has_column c) rws) as cands eqn:Hc. clear Hc.
      match goal with
      | H : ?g cands = Ok covers |- ?f cands 0 st = _ =>
          assert (A : forall l total cs s',
                     0 <= total -> g l = Ok cs ->
                     f l total s' = deliver callback cs total s')
      end.
      { clear H covers st cands.
        induction l as [| r cands IHc]; intros total covers st Ht H.
        - injection H as <-. reflexivity.
        - destruct (covers_of fuel
                      (filter (fun x => negb (has_column x r)) (c0 :: cols0))
                      (filter (disjoint_rows r) rws)
                      (rotate_to c [] r :: stack)) as [found | l |] eqn:F;
            cbn [bind] in H; try discriminate H.
          match type of H with
          | bind ?m _ = _ => destruct m as [more | l |] eqn:M
          end; cbn [bind] in H; try discriminate H.
          injection H as <-.
          rewrite (IH _ _ _ _ st F).
          pose proof (deliver_app found more total 0 st ltac:(lia)) as D.
          rewrite Z.add_0_r in D. rewrite D. clear D.
          destruct (deliver callback found 0 st) as [res | l |];
            cbn [bind]; try reflexivity.
          destruct (fst res <? 0) eqn:E; [reflexivity |].
          apply Z.ltb_ge in E.
          apply IHc; [lia | reflexivity]. }
      apply A; [lia | exact H].
Qed.
End SearchDeliver.

Lemma min_column_in (rws : list (list Z)) (cols : list Z) :
  forall best, In (min_column rws cols best) (best :: cols).
Proof.
  induction cols as [| c cols IH]; intros best; cbn [min_column].
  - now left.
  - destruct (IH (if (column_count rws c <? column_count rws best)%nat
                  then c else best)) as [H | H].
    + destruct (column_count rws c <? column_count rws best)%nat;
        rewrite <- H; [right; now left | now left].
    + right; now right.
Qed.

Lemma filter_shorter {A : Type} (f : A -> bool) (l : list A) (x : A) :
  In x l -> f x = false -> (List.length (filter f l) < List.length l)%nat.
Proof.
  induction l as [| y l IH]; intros Hin Hf; [destruct Hin |].
  cbn [filter]. pose proof (filter_length_le f l) as Hle.
  destruct Hin as [-> | Hin].
  - rewrite Hf. cbn [List.length]. lia.
  - specialize (IH Hin Hf). destruct (f y); cbn [List.length]; lia.
Qed.

(** The traversal ends within its budget of one level per column. *)
Lemma covers_of_total (fuel : nat) :
  forall (cols : list Z) (rws stack : list (list Z)),
    (List.length cols < fuel)%nat ->
    exists covers, covers_of fuel cols rws stack = Ok covers.
Proof.
  induction fuel as [| fuel IH]; intros cols rws stack Hf; [lia |].
  cbn [covers_of]. destruct cols as [| c0 cols0]; [eexists; reflexivity |].
  set (c := min_column rws cols0 c0).
  destruct (column_count rws c =? 0)%nat; [eexists; reflexivity |].
  assert (Hsub : forall r, In r (filter (has_column c) rws) ->
                           has_column c r = true).
  { intros r Hr. apply filter_In in Hr. apply Hr. }
  revert Hsub.
  induction (filter (has_column c) rws) as [| r cands IHc]; intros Hsub.
  - eexists; reflexivity.
  - destruct (IH (filter (fun x => negb (has_column x r)) (c0 :: cols0))
                 (filter (disjoint_rows r) rws)
                 (rotate_to c [] r :: stack)) as [found F].
    { assert (L : (List.length
                     (filter (fun x => negb (has_column x r)) (c0 :: cols0))
                   < List.length (c0 :: cols0))%nat).
      { apply (filter_shorter _ _ c); [apply min_column_in |].
        rewrite (Hsub r (or_introl eq_refl)). reflexivity. }
      lia. }
    rewrite F. cbn [bind].
    destruct (IHc (fun r' H => Hsub r' (or_intror H))) as [more M].
    rewrite M. cbn [bind]. eexists; reflexivity.
Qed.

(** [dance_solve] hands the covers of the matrix to the callback in a
    fixed order that does not depend on the callback. *)
Lemma dance_solve_deliver (mat : dance_matrix) :
  exists covers,
    covers_in_order mat = Ok covers
    /\ forall (St : Type)
              (callback : list (list Z) -> St -> result (Z * St)) (st : St),
        dance_solve St callback mat st = deliver callback covers 0 st.
Proof.
  destruct (covers_of_total (S (Z.to_nat (ncolumns mat)))
              (upto (ncolumns mat)) (rows mat) []) as [covers C].
  { rewrite upto_length. lia. }
  exists covers. split; [exact C |].
  intros St callback st. unfold dance_solve.
  apply search_deliver. exact C.
Qed.

(** ** Every N-th solution (C7) *)

(** C7 fails on the code: the every-N-th counter is advanced for every
    cover that the solver delivers, before the cover is decoded and
    checked for duplicates.  For the grid [c.t / ... / d.g] the solver
    finds four covers; the first and the last hold a duplicate ([aha]
    twice, [oho] twice).  The acceptable solutions are the second and the
    third cover; with [--every 2] the program prints the second cover, not
    the second acceptable solution. *)
Lemma every_nth_counterexample :
  main_after_load always_ok (every_nth_options 1) ctdg_grid 3 3 ctdg_dict
  = Ok (Some (2, ({| printed_so_far := 2; skipped_so_far := 0 |},
                  [str "catohodag"; str "cotahadog"])))
  /\ main_after_load always_ok (every_nth_options 2) ctdg_grid 3 3 ctdg_dict
     = Ok (Some (1, ({| printed_so_far := 1; skipped_so_far := 0 |},
                     [str "catohodag"])))
  /\ every_kth 2 [str "catohodag"; str "cotahadog"] = [str "cotahadog"]
  /\ [str "catohodag"] <> every_kth 2 [str "catohodag"; str "cotahadog"].
Proof.
  split; [vm_compute; reflexivity |].
  split; [vm_compute; reflexivity |].
  split; [reflexivity | discriminate].
Qed.

Lemma gate_position (opts : options) (st : counters) (p : Z) :
  1 <= PrintEveryNthSolution opts -> 0 <= p ->
  skipped_so_far st = p mod PrintEveryNthSolution opts ->
  (((p + 1) mod PrintEveryNthSolution opts =? 0) = false
   /\ every_nth_gate opts st
      = inl ((p + 1) mod PrintEveryNthSolution opts))
  \/ (((p + 1) mod PrintEveryNthSolution opts =? 0) = true
      /\ every_nth_gate opts st
         = inr ((p + 1) mod PrintEveryNthSolution opts)).
Proof.
  intros HK Hp Hs. unfold every_nth_gate.
  set (K := PrintEveryNthSolution opts) in *.
  destruct (K =? 1) eqn:K1; [apply Z.eqb_eq in K1 | apply Z.eqb_neq in K1];
    cbn [negb].
  - right. rewrite K1 in *. rewrite Z.mod_1_r in *. split; [reflexivity |].
    now rewrite Hs.
  - rewrite Hs.
    assert (Hm : 0 <= p mod K < K) by (apply Z.mod_pos_bound; lia).
    assert (Hadd : (p + 1) mod K = (p mod K + 1) mod K).
    { rewrite Z.add_mod by lia. rewrite (Z.mod_small 1 K) by lia.
      reflexivity. }
    destruct (p mod K + 1 <? K) eqn:L;
      [apply Z.ltb_lt in L | apply Z.ltb_ge in L].
    + left. rewrite Hadd, Z.mod_small by lia.
      split; [apply Z.eqb_neq; lia | reflexivity].
    + right. assert (E : p mod K + 1 = K) by lia.
      rewrite Hadd, E, Z.mod_same by lia. split; reflexivity.
Qed.

(** One call of the callback at position [p + 1] of the sequence of
    covers, with no quota: the cover is printed exactly when its position
    is a multiple of [K] and it is acceptable. *)
Lemma callback_at_position (opts : options) (info : xword_info)
      (c : list (list Z)) (st : counters) (out : list (list ascii))
      (p : Z) :
  NumSolutions opts = -1 -> 1 <= PrintEveryNthSolution opts ->
  0 <= p -> 0 <= printed_so_far st ->
  skipped_so_far st = p mod PrintEveryNthSolution opts ->
  Forall (decodable opts info)
         (every_kth_from (PrintEveryNthSolution opts) p [c]) ->
  exists rc st',
    xword_callback always_ok opts info c (st, out)
    = Ok (rc, (st', out ++ accepted_grids opts info
                         (every_kth_from (PrintEveryNthSolution opts) p [c])))
    /\ 0 <= rc
    /\ 0 <= printed_so_far st'
    /\ skipped_so_far st' = (p + 1) mod PrintEveryNthSolution opts.
Proof.
  intros HN HK Hp Hpr Hs Hdec.
  unfold xword_callback, print_crossword_result. cbn [fst snd].
  cbn [every_kth_from] in *.
  destruct (gate_position opts st p HK Hp Hs) as [[E G] | [E G]];
    rewrite G; rewrite E in *.
  { cbn [bind accepted_grids flat_map].
    eexists _, _. split; [reflexivity |]. cbn [printed_so_far skipped_so_far].
    repeat split; lia. }
  rewrite HN. rewrite Z.eqb_refl. cbn [orb assert bind negb always_ok].
  inversion Hdec as [| ? ? [grid D] _]; subst.
  rewrite D. cbn [bind accepted_grids flat_map].
  unfold accepted_grid. rewrite D.
  assert (P : (printed_so_far st + 1 =? -1) = false)
    by (apply Z.eqb_neq; lia).
  destruct (RejectDuplicateWords opts).
  - change (fun n : nat => always_ok (S n)) with always_ok.
    destruct (grid_contains_duplicates_total always_ok grid
                (info_w info) (info_h info) (fun _ => eq_refl)) as [T | T];
      rewrite T; cbn [bind].
    + change (0 <? 0) with false. change (0 =? 1) with false.
      change (0 =? 0) with true. cbn [assert bind]. rewrite P.
      eexists _, _. split; [reflexivity |].
      cbn [printed_so_far skipped_so_far]. repeat split; lia.
    + change (1 <? 0) with false. change (1 =? 1) with true. cbv iota.
      eexists _, _. split; [reflexivity |].
      cbn [printed_so_far skipped_so_far]. repeat split; lia.
  - cbn [bind]. change (0 <? 0) with false. change (0 =? 1) with false.
    change (0 =? 0) with true. cbn [assert bind]. rewrite P.
    eexists _, _. split; [reflexivity |].
    cbn [printed_so_far skipped_so_far]. repeat split; lia.
Qed.

Lemma every_kth_from_cons {A : Type} (K p : Z) (x : A) (l : list A) :
  every_kth_from K p (x :: l)
  = every_kth_from K p [x] ++ every_kth_from K (p + 1) l.
Proof.
  cbn [every_kth_from]. now destruct ((p + 1) mod K =? 0).
Qed.

Lemma deliver_every_nth (opts : options) (info : xword_info) :
  NumSolutions opts = -1 -> 1 <= PrintEveryNthSolution opts ->
  forall (covers : list (list (list Z))) (p total : Z) (st : counters)
         (out : list (list ascii)),
    0 <= p -> 0 <= printed_so_far st ->
    skipped_so_far st = p mod PrintEveryNthSolution opts ->
    Forall (decodable opts info)
           (every_kth_from (PrintEveryNthSolution opts) p covers) ->
    exists total' st',
      deliver (xword_callback always_ok opts info) covers total (st, out)
      = Ok (total',
            (st', out ++ accepted_grids opts info
                           (every_kth_from (PrintEveryNthSolution opts)
                                           p covers))).
Proof.
  intros HN HK.
  induction covers as [| c covers IH]; intros p total st out Hp Hpr Hs Hdec.
  - cbn. rewrite app_nil_r. eexists _, _. reflexivity.
  - rewrite every_kth_from_cons in *. apply Forall_app in Hdec.
    destruct Hdec as [Hc Hrest].
    destruct (callback_at_position opts info c st out p HN HK Hp Hpr Hs Hc)
      as [rc [st1 [C [Hrc [Hpr1 Hs1]]]]].
    cbn [deliver]. rewrite C. cbn [bind fst snd].
    assert (E : (rc <? 0) = false) by (apply Z.ltb_ge; lia). rewrite E.
    destruct (IH (p + 1) (total + rc) st1
                 (out ++ accepted_grids opts info
                           (every_kth_from (PrintEveryNthSolution opts)
                                           p [c]))
                 ltac:(lia) Hpr1 Hs1 Hrest) as [total' [st' D]].
    rewrite D. unfold accepted_grids. rewrite flat_map_app, app_assoc.
    eexists _, _. reflexivity.
Qed.

(** C7 (amended): with [every_nth = K >= 1] and no quota, started with the
    static counters at zero, the callback lets through exactly the covers
    at the positions [K, 2K, 3K, ...] of the sequence of all covers that
    the solver delivers (counted before the duplicate filter), and of
    those it prints the acceptable ones, provided they decode without a
    failed assertion; a cover that the duplicate filter rejects, or would
    reject, advances the cycle like any other. *)
Theorem every_nth_counts_all_covers (opts : options) (grid : list ascii)
        (w h : Z) (dict : xdict) (mat : dance_matrix)
        (covers : list (list (list Z))) :
  NumSolutions opts = -1 -> 1 <= PrintEveryNthSolution opts ->
  build_matrix opts {| info_w := w; info_h := h; info_grid := grid |} dict
  = Ok mat ->
  covers_in_order mat = Ok covers ->
  Forall (decodable opts {| info_w := w; info_h := h; info_grid := grid |})
         (every_kth (PrintEveryNthSolution opts) covers) ->
  exists ns st,
    xword_solve always_ok opts grid w h dict initial_counters
    = Ok (ns, (st, accepted_grids
                     opts {| info_w := w; info_h := h; info_grid := grid |}
                     (every_kth (PrintEveryNthSolution opts) covers))).
Proof.
  intros HN HK Hmat C Hdec.
  unfold xword_solve. rewrite Hmat. cbn [bind].
  unfold dance_solve. rewrite (search_deliver _ _ _ _ _ _ _ _ C).
  destruct (deliver_every_nth
              opts {| info_w := w; info_h := h; info_grid := grid |}
              HN HK covers 0 0 initial_counters [] ltac:(lia)
              ltac:(cbn; lia)
              ltac:(cbn [skipped_so_far initial_counters];
                    now rewrite Z.mod_0_l by lia)
              Hdec) as [ns [st R]].
  exists ns, st. exact R.
Qed.

Lemma every_nth_counts_all_covers_witness :
  exists ns st,
    xword_solve always_ok (every_nth_options 2) ctdg_grid 3 3 ctdg_dict
                initial_counters
    = Ok (ns, (st, [str "catohodag"])).
Proof.
  eassert (B : build_matrix
                 (every_nth_options 2)
                 {| info_w := 3; info_h := 3; info_grid := ctdg_grid |}
                 ctdg_dict = Ok _) by (vm_compute; reflexivity).
  match type of B with
  | _ = Ok ?m =>
      eassert (C : covers_in_order m = Ok _) by (vm_compute; reflexivity)
  end.
  destruct (every_nth_counts_all_covers
              (every_nth_options 2) ctdg_grid 3 3 ctdg_dict _ _
              eq_refl ltac:(simpl; lia) B C) as [ns [st R]].
  - vm_compute every_kth.
    repeat (apply Forall_cons; [eexists; vm_compute; reflexivity |]).
    apply Forall_nil.
  - exists ns, st. rewrite R. vm_compute. reflexivity.
Defined.

(** ** The static counters (C9) *)

(** C9 fails on the code: [printed_so_far] and [skipped_so_far] are
    function-static variables, so a second call of [xword_solve] in the
    same process starts with what the first call left.  With [--every 2]
    and the first scenario (one solution), the first call skips the
    solution and prints nothing; the second call, on the same inputs,
    prints it.  With [-n 1], the first call prints the solution and bails
    out; the second call stops at the assertion of line 718. *)
Lemma static_counters_counterexample :
  xword_solve always_ok (every_nth_options 2) (str ".as.r.eta") 3 3
              scenario1_dict initial_counters
  = Ok (0, ({| printed_so_far := 0; skipped_so_far := 1 |}, []))
  /\ xword_solve always_ok (every_nth_options 2) (str ".as.r.eta") 3 3
                 scenario1_dict {| printed_so_far := 0; skipped_so_far := 1 |}
     = Ok (1, ({| printed_so_far := 1; skipped_so_far := 0 |},
               [str "hasireeta"]))
  /\ xword_solve always_ok (quota_options 1) (str ".as.r.eta") 3 3
                 scenario1_dict initial_counters
     = Ok (-99, ({| printed_so_far := 1; skipped_so_far := 0 |},
                 [str "hasireeta"]))
  /\ xword_solve always_ok (quota_options 1) (str ".as.r.eta") 3 3
                 scenario1_dict {| printed_so_far := 1; skipped_so_far := 0 |}
     = AssertionFailed 718.
Proof. repeat split; vm_compute; reflexivity. Qed.

Lemma callback_counters_irrelevant (malloc_ok : nat -> bool)
      (opts : options) (info : xword_info) (c : list (list Z))
      (st1 st2 : counters) (out : list (list ascii)) :
  PrintEveryNthSolution opts = 1 -> NumSolutions opts = -1 ->
  0 <= printed_so_far st1 -> 0 <= printed_so_far st2 ->
  match xword_callback malloc_ok opts info c (st1, out),
        xword_callback malloc_ok opts info c (st2, out) with
  | Ok (rc1, (s1, o1)), Ok (rc2, (s2, o2)) =>
      rc1 = rc2 /\ o1 = o2
      /\ 0 <= printed_so_far s1 /\ 0 <= printed_so_far s2
  | AssertionFailed l1, AssertionFailed l2 => l1 = l2
  | OutOfFuel, OutOfFuel => True
  | _, _ => False
  end.
Proof.
  intros HK HN H1 H2.
  unfold xword_callback, print_crossword_result, every_nth_gate.
  cbn [fst snd]. rewrite HK, HN, !Z.eqb_refl.
  cbn [negb orb assert bind].
  destruct (malloc_ok 0%nat); cbn [negb bind].
  2: { repeat split; assumption. }
  destruct (decode_solution opts info c) as [grid | l |]; cbn [bind];
    [| reflexivity | exact I].
  destruct (if RejectDuplicateWords opts
            then grid_contains_duplicates (fun n => malloc_ok (S n)) grid
                                          (info_w info) (info_h info)
            else Ok 0) as [d | l |]; cbn [bind]; [| reflexivity | exact I].
  destruct (d <? 0); [repeat split; assumption |].
  destruct (d =? 1); [repeat split; assumption |].
  destruct (d =? 0); cbn [assert bind]; [| reflexivity].
  assert (P1 : (printed_so_far st1 + 1 =? -1) = false)
    by (apply Z.eqb_neq; lia).
  assert (P2 : (printed_so_far st2 + 1 =? -1) = false)
    by (apply Z.eqb_neq; lia).
  rewrite P1, P2. cbn [printed_so_far]. repeat split; lia.
Qed.

Lemma deliver_counters_irrelevant (malloc_ok : nat -> bool)
      (opts : options) (info : xword_info) :
  PrintEveryNthSolution opts = 1 -> NumSolutions opts = -1 ->
  forall (covers : list (list (list Z))) (total : Z) (st1 st2 : counters)
         (out : list (list ascii)),
    0 <= printed_so_far st1 -> 0 <= printed_so_far st2 ->
    emitted (deliver (xword_callback malloc_ok opts info) covers total
                     (st1, out))
    = emitted (deliver (xword_callback malloc_ok opts info) covers total
                       (st2, out)).
Proof.
  intros HK HN.
  induction covers as [| c covers IH]; intros total st1 st2 out H1 H2.
  - reflexivity.
  - cbn [deliver].
    pose proof (callback_counters_irrelevant malloc_ok opts info c st1 st2
                  out HK HN H1 H2) as C.
    destruct (xword_callback malloc_ok opts info c (st1, out))
      as [[rc1 [s1 o1]] | l1 |];
      destruct (xword_callback malloc_ok opts info c (st2, out))
      as [[rc2 [s2 o2]] | l2 |]; try contradiction; cbn [bind fst snd].
    + destruct C as [<- [<- [P1 P2]]].
      destruct (rc1 <? 0); [reflexivity |]. apply IH; assumption.
    + now subst.
    + reflexivity.
Qed.

(** C9 (amended): the counters of the callback are function-static
    variables that a call of [xword_solve] inherits from the calls before
    it.  With the default policy ([every_nth = 1], no quota) they take no
    part in the result: two calls with the same grid, dictionary and
    options return the same count and emit the same grids whatever
    (non-negative) counters each starts with.  With another [every_nth]
    or with a quota that is not so: on the first scenario with
    [every_nth = 2], and with a quota of 1, two calls with the same
    grid, dictionary and options that start with different counters
    differ in what they return and emit, the second being the call that
    follows the first in the same process. *)
Theorem default_policy_ignores_counters :
  (forall (malloc_ok : nat -> bool) (opts : options) (grid : list ascii)
          (w h : Z) (dict : xdict) (st1 st2 : counters),
      PrintEveryNthSolution opts = 1 -> NumSolutions opts = -1 ->
      0 <= printed_so_far st1 -> 0 <= printed_so_far st2 ->
      emitted (xword_solve malloc_ok opts grid w h dict st1)
      = emitted (xword_solve malloc_ok opts grid w h dict st2))
  /\ (exists st1 st2,
        xword_solve always_ok (every_nth_options 2) (str ".as.r.eta") 3 3
                    scenario1_dict initial_counters
        = Ok (0, (st1, []))
        /\ xword_solve always_ok (every_nth_options 2) (str ".as.r.eta")
                       3 3 scenario1_dict st1
           = Ok (1, (st2, [str "hasireeta"])))
  /\ (exists st1,
        xword_solve always_ok (quota_options 1) (str ".as.r.eta") 3 3
                    scenario1_dict initial_counters
        = Ok (-99, (st1, [str "hasireeta"]))
        /\ xword_solve always_ok (quota_options 1) (str ".as.r.eta") 3 3
                       scenario1_dict st1
           = AssertionFailed 718).
Proof.
  split; [| split].
  - intros malloc_ok opts grid w h dict st1 st2 HK HN H1 H2.
    unfold xword_solve.
    destruct (build_matrix opts {| info_w := w; info_h := h;
                                   info_grid := grid |} dict)
      as [mat | l |]; cbn [bind]; try reflexivity.
    destruct (dance_solve_deliver mat) as [covers [_ D]].
    rewrite !D. apply deliver_counters_irrelevant; assumption.
  - exists {| printed_so_far := 0; skipped_so_far := 1 |},
           {| printed_so_far := 1; skipped_so_far := 0 |}.
    split; vm_compute; reflexivity.
  - exists {| printed_so_far := 1; skipped_so_far := 0 |}.
    split; vm_compute; reflexivity.
Qed.

Lemma default_policy_ignores_counters_witness :
  emitted (xword_solve always_ok default_options (str ".as.r.eta") 3 3
                       scenario1_dict initial_counters)
  = emitted (xword_solve always_ok default_options (str ".as.r.eta") 3 3
                         scenario1_dict
                         {| printed_so_far := 7; skipped_so_far := 3 |}).
Proof.
  apply (proj1 default_policy_ignores_counters always_ok default_options
           (str ".as.r.eta") 3 3 scenario1_dict initial_counters
           {| printed_so_far := 7; skipped_so_far := 3 |});
    first [reflexivity | simpl; lia].
Defined.

(** ** Forced rows: the bound that the assertions enforce

    The assertion of [add_row_forced_across] and [add_row_forced_down]
    holds for fully fixed runs of fewer than [MAX_WORDLEN] cells: with that
    bound on the runs, every black-cell and forced row is emitted. *)

Lemma alpha_not_black (c : ascii) : isalpha c = true -> c <> "#".
Proof. intros H ->. discriminate H. Qed.

Lemma for_each_ok {A S : Type} (body : A -> S -> result S) (xs : list A) :
  (forall x s, In x xs -> exists s', body x s = Ok s') ->
  forall s, exists s', for_each xs body s = Ok s'.
Proof.
  induction xs as [| x xs IH]; intros H s.
  - exists s. reflexivity.
  - cbn [for_each]. destruct (H x s (or_introl eq_refl)) as [s1 E].
    rewrite E. cbn [bind]. apply IH. intros y t Hy. apply H. now right.
Qed.

Lemma forced_loop_fixed (info : xword_info) (cellof : Z -> Z)
      (hit miss ad line : Z) (m : nat) :
  forall (k n : Z) (constraint : list Z),
    0 <= n ->
    (forall x, k <= x < k + n ->
               isalpha (at_ (info_grid info) (cellof x)) = true) ->
    Z.of_nat m = n
    \/ (n < Z.of_nat m /\ at_ (info_grid info) (cellof (k + n)) = "#") ->
    exists constraint',
      forced_loop info cellof hit miss ad line m k constraint
      = Ok (k + n, constraint')
      /\ Z.of_nat (List.length constraint')
         = Z.of_nat (List.length constraint) + 27 * n.
Proof.
  induction m as [| m IH]; intros k n constraint Hn Halpha Hstop.
  - assert (n = 0) by lia. subst n. exists constraint.
    cbn [forced_loop]. rewrite Z.add_0_r. split; [reflexivity | lia].
  - cbn [forced_loop].
    destruct (Ascii.eqb (at_ (info_grid info) (cellof k)) "#") eqn:E;
      [apply ascii_eqb_eq in E | apply ascii_eqb_neq in E].
    + assert (n = 0).
      { destruct (Z.eq_dec n 0) as [-> | Hne]; [reflexivity |].
        exfalso. apply (alpha_not_black _ (Halpha k ltac:(lia))). exact E. }
      subst n. exists constraint. rewrite Z.add_0_r.
      split; [reflexivity | lia].
    + assert (Hpos : 0 < n).
      { destruct (Z.eq_dec n 0) as [-> | Hne]; [| lia].
        exfalso. rewrite Z.add_0_r in Hstop.
        destruct Hstop as [H | [_ H]]; [lia | contradiction]. }
      rewrite (Halpha k ltac:(lia)). cbn [assert bind].
      destruct (IH (k + 1) (n - 1)
                   (constraint
                    ++ slice_columns (27*2*cellof k)
                         (ch2idx (at_ (info_grid info) (cellof k)))
                         hit miss ad)
                   ltac:(lia)) as [c' [R L]].
      { intros x Hx. apply Halpha. lia. }
      { replace (k + 1 + (n - 1)) with (k + n) by lia.
        destruct Hstop as [H | [H1 H2]]; [left; lia | right; split; [lia | exact H2]]. }
      exists c'. replace (k + n) with (k + 1 + (n - 1)) by lia.
      split; [exact R |].
      rewrite L, length_app, slice_columns_length. lia.
Qed.

Lemma skip_entry_stops (cell : Z -> ascii) (limit : Z) (n : nat) :
  forall i, n = Z.to_nat (limit - i) -> i <= limit ->
            i <= skip_entry cell n i <= limit
            /\ (skip_entry cell n i = limit
                \/ cell (skip_entry cell n i) = "#").
Proof.
  induction n as [| n IH]; intros i Hn Hi; cbn [skip_entry].
  - split; [lia | left; lia].
  - destruct (Ascii.eqb (cell i) "#") eqn:E; cbn [negb].
    + apply ascii_eqb_eq in E. split; [lia | right; exact E].
    + destruct (IH (i + 1) ltac:(lia) ltac:(lia)) as [I1 I2].
      split; [lia | exact I2].
Qed.

Section ForcedLine.
Variables (cell : Z -> ascii) (limit line : Z).
Variable add : Z -> dance_matrix -> result dance_matrix.
Hypothesis runs_short :
  forall s e, maximal_in_line cell limit s e -> fixed_in_line cell s e ->
              e - s < MAX_WORDLEN.
Hypothesis add_emits :
  forall s e mat, maximal_in_line cell limit s e -> fixed_in_line cell s e ->
                  exists mat', add s mat = Ok mat'.

Lemma forced_line_emits (fuel : nat) :
  forall (i word_starts_here : Z) (mat : dance_matrix),
    0 <= word_starts_here <= i -> i <= limit + 1 ->
    (Z.to_nat (limit + 1 - i) < fuel)%nat ->
    fixed_in_line cell word_starts_here i ->
    word_starts_here = 0 \/ cell (word_starts_here - 1) = "#"
    \/ word_starts_here = limit + 1 ->
    exists mat',
      forced_line cell limit line add fuel i word_starts_here mat = Ok mat'.
Proof.
  induction fuel as [| fuel IH]; intros i s mat Hs Hi Hf Hfix Hb; [lia |].
  cbn [forced_line].
  destruct (i <=? limit) eqn:L; [apply Z.leb_le in L | apply Z.leb_gt in L];
    cbn [negb]; [| eexists; reflexivity].
  destruct (((i =? limit) || Ascii.eqb (cell i) "#") && (s <? i)) eqn:C.
  { apply andb_true_iff in C. destruct C as [C1 C2].
    apply Z.ltb_lt in C2. apply orb_true_iff in C1.
    assert (M : maximal_in_line cell limit s i).
    { unfold maximal_in_line. split; [lia |]. split; [lia |].
      split; [intros x Hx; apply alpha_not_black, Hfix, Hx |].
      split.
      - destruct Hb as [Hb | [Hb | Hb]]; [left; exact Hb | right; exact Hb | lia].
      - destruct C1 as [C1 | C1];
          [left; apply Z.eqb_eq; exact C1 | right; apply ascii_eqb_eq; exact C1]. }
    pose proof (runs_short s i M Hfix) as Hshort.
    assert (A : (i - s <=? MAX_WORDLEN) = true) by (apply Z.leb_le; lia).
    rewrite A. cbn [assert bind].
    destruct (add_emits s i mat M Hfix) as [mat1 E]. rewrite E. cbn [bind].
    apply IH; try lia.
    - intros x Hx. lia.
    - destruct C1 as [C1 | C1].
      + apply Z.eqb_eq in C1. right; right. lia.
      + apply ascii_eqb_eq in C1. right; left.
        now replace (i + 1 - 1) with i by lia. }
  destruct (i =? limit) eqn:E; [eexists; reflexivity |].
  apply Z.eqb_neq in E.
  destruct (isalpha (cell i)) eqn:Al; cbn [negb].
  - apply IH; try lia; [| exact Hb].
    intros x Hx. destruct (Z.eq_dec x i) as [-> | Hne];
      [exact Al | apply Hfix; lia].
  - destruct (skip_entry_stops cell limit (Z.to_nat (limit - i)) i eq_refl
                               ltac:(lia)) as [K1 K2].
    apply IH; try lia.
    + intros x Hx. lia.
    + destruct K2 as [K2 | K2]; [right; right; lia |].
      right; left.
      now replace (skip_entry cell (Z.to_nat (limit - i)) i + 1 - 1)
        with (skip_entry cell (Z.to_nat (limit - i)) i) by lia.
Qed.
End ForcedLine.

Lemma row_forced_emits (opts : options) (info : xword_info)
      (o : orientation) (l s e : Z) :
  UseNaiveMethod opts = true ->
  maximal_in_line (line_cell o (info_grid info) (info_w info) l)
                  (line_length o (info_w info) (info_h info)) s e ->
  fixed_in_line (line_cell o (info_grid info) (info_w info) l) s e ->
  e - s < MAX_WORDLEN ->
  exists row,
    match o with
    | Across => row_forced_across opts info s l
    | Down => row_forced_down opts info l s
    end = Ok row.
Proof.
  intros HN [M1 [M2 [_ [_ M5]]]] Hfix Hshort.
  destruct o; unfold row_forced_across, row_forced_down;
    rewrite HN; cbn [assert bind line_length] in *.
  - destruct (forced_loop_fixed info
                (fun k => l * info_w info + (s + k)) 0 1 0 655
                (Z.to_nat (info_w info - s)) 0 (e - s) [] ltac:(lia))
      as [c [R L]].
    + intros x Hx. apply (Hfix (s + x)). lia.
    + destruct (Z.eq_dec e (info_w info)) as [He | He]; [left; lia |].
      destruct M5 as [M5 | M5]; [contradiction | right; split; [lia |]].
      cbn [line_cell] in M5.
      now replace (s + (0 + (e - s))) with e by lia.
    + rewrite R. cbn [bind fst snd].
      assert (A1 : (0 + (e - s) <? MAX_WORDLEN) = true)
        by (apply Z.ltb_lt; lia).
      assert (A2 : (Z.of_nat (List.length c) =? (0 + (e - s)) * 27) = true)
        by (apply Z.eqb_eq; cbn [List.length] in L; lia).
      rewrite A1, A2. cbn [assert bind]. eexists; reflexivity.
  - destruct (forced_loop_fixed info
                (fun k => (s + k) * info_w info + l) 1 0 1 683
                (Z.to_nat (info_h info - s)) 0 (e - s) [] ltac:(lia))
      as [c [R L]].
    + intros x Hx. apply (Hfix (s + x)). lia.
    + destruct (Z.eq_dec e (info_h info)) as [He | He]; [left; lia |].
      destruct M5 as [M5 | M5]; [contradiction | right; split; [lia |]].
      cbn [line_cell] in M5.
      now replace (s + (0 + (e - s))) with e by lia.
    + rewrite R. cbn [bind fst snd].
      assert (A1 : (0 + (e - s) <? MAX_WORDLEN) = true)
        by (apply Z.ltb_lt; lia).
      assert (A2 : (Z.of_nat (List.length c) =? (0 + (e - s)) * 27) = true)
        by (apply Z.eqb_eq; cbn [List.length] in L; lia).
      rewrite A1, A2. cbn [assert bind]. eexists; reflexivity.
Qed.

(** When every fully fixed maximal run has fewer than [MAX_WORDLEN] cells,
    the naive-mode emission of the black-cell rows and of the forced rows
    ends without a failed assertion, for any grid. *)
Lemma naive_rows_emitted (opts : options) (info : xword_info)
      (mat : dance_matrix) :
  UseNaiveMethod opts = true ->
  0 <= info_w info -> 0 <= info_h info ->
  fixed_runs_below MAX_WORDLEN (info_grid info) (info_w info) (info_h info) ->
  exists mat1 mat2,
    add_black_rows opts info mat = Ok mat1
    /\ add_forced_rows opts info mat1 = Ok mat2.
Proof.
  intros HN Hw Hh Hruns.
  destruct (for_each_ok
              (fun i mat => if Ascii.eqb (at_ (info_grid info) i) "#"
                            then add_row_black opts mat i else Ok mat)
              (upto (info_w info * info_h info))) with (s := mat)
    as [mat1 B].
  { intros i m _. destruct (Ascii.eqb (at_ (info_grid info) i) "#");
      [| eexists; reflexivity].
    unfold add_row_black, row_black. rewrite HN. cbn [assert bind].
    eexists; reflexivity. }
  exists mat1.
  assert (Line : forall o l, 0 <= l < line_count o (info_w info) (info_h info) ->
            forall m,
            exists m',
              forced_line (line_cell o (info_grid info) (info_w info) l)
                (line_length o (info_w info) (info_h info))
                (match o with Across => 427 | Down => 449 end)
                (fun s mat =>
                   match o with
                   | Across => add_row_forced_across opts info mat s l
                   | Down => add_row_forced_down opts info mat l s
                   end)
                (Z.to_nat (line_length o (info_w info) (info_h info)) + 2)
                0 0 m = Ok m').
  { intros o l Hl m.
    assert (Hlim : 0 <= line_length o (info_w info) (info_h info))
      by (destruct o; assumption).
    assert (Hshort : forall s e,
               maximal_in_line (line_cell o (info_grid info) (info_w info) l)
                 (line_length o (info_w info) (info_h info)) s e ->
               fixed_in_line (line_cell o (info_grid info) (info_w info) l)
                             s e ->
               e - s < MAX_WORDLEN).
    { intros s e M F.
      apply (Hruns {| run_o := o; run_line := l;
                      run_start := s; run_stop := e |});
        [split; [exact Hl | exact M] | exact F]. }
    apply (forced_line_emits _ _ _ _ Hshort); try lia.
    - intros s e m0 M F.
      destruct (row_forced_emits opts info o l s e HN M F (Hshort s e M F))
        as [row R].
      destruct o; unfold add_row_forced_across, add_row_forced_down;
        rewrite R; cbn [bind]; eexists; reflexivity.
    - intros x Hx. lia. }
  unfold add_forced_rows.
  destruct (for_each_ok
              (fun j => forced_line
                          (fun i => at_ (info_grid info) (j * info_w info + i))
                          (info_w info) 427
                          (fun s mat => add_row_forced_across opts info mat s j)
                          (Z.to_nat (info_w info) + 2) 0 0)
              (upto (info_h info))) with (s := mat1) as [m2 A].
  { intros j m Hj. apply in_upto in Hj. exact (Line Across j Hj m). }
  rewrite A. cbn [bind].
  destruct (for_each_ok
              (fun i => forced_line
                          (fun j => at_ (info_grid info) (j * info_w info + i))
                          (info_h info) 449
                          (fun s mat => add_row_forced_down opts info mat i s)
                          (Z.to_nat (info_h info) + 2) 0 0)
              (upto (info_w info))) with (s := m2) as [m3 D].
  { intros i m Hi. apply in_upto in Hi. exact (Line Down i Hi m). }
  exists m3. split; [exact B | exact D].
Qed.

(** * Further properties of the program *)

(** ** The slice table *)

Lemma seq_offset (a : nat) (m : nat) :
  forall b,
    map Z.of_nat (seq (a + b) m)
    = map (fun x => Z.of_nat a + x) (map Z.of_nat (seq b m)).
Proof.
  induction m as [| m IH]; intros b; [reflexivity |].
  cbn [seq map]. f_equal; [lia |].
  rewrite <- IH. f_equal. f_equal. lia.
Qed.

Lemma upto_split (n c : Z) :
  0 <= c < n ->
  upto n = upto c ++ c :: map (fun x => c + 1 + x) (upto (n - c - 1)).
Proof.
  intros H. unfold upto.
  replace (Z.to_nat n) with (Z.to_nat c + S (Z.to_nat (n - c - 1)))%nat by lia.
  rewrite seq_app, map_app. cbn [seq map Nat.add]. f_equal.
  rewrite Z2Nat.id by lia. f_equal.
  replace (S (Z.to_nat c)) with (Z.to_nat (c + 1) + 0)%nat by lia.
  rewrite seq_offset. apply map_ext. intros x. lia.
Qed.

Lemma count_unknown_legal (info : xword_info) (cells : list Z) :
  forall unknown,
    (forall i, In i cells -> legal_cell (at_ (info_grid info) i)) ->
    count_unknown info cells unknown
    = Ok (unknown
          + Z.of_nat (List.length
                        (filter (fun i => openb (at_ (info_grid info) i))
                                cells))).
Proof.
  induction cells as [| i cells IH]; intros unknown Hl.
  - cbn. f_equal. lia.
  - cbn [count_unknown filter].
    rewrite (is_fixed_value_legal _ (Hl i (or_introl eq_refl))). cbn [bind].
    rewrite IH by (intros; apply Hl; now right).
    destruct (openb (at_ (info_grid info) i)); cbn [negb List.length];
      f_equal; lia.
Qed.

Lemma slice_to_cell_loop_nth (info : xword_info) (slice : Z)
      (cells : list Z) :
  forall unknown,
    (forall i, In i cells -> legal_cell (at_ (info_grid info) i)) ->
    slice_to_cell_loop info slice cells unknown
    = if slice <? unknown then AssertionFailed 277
      else match nth_error (filter (fun i => openb (at_ (info_grid info) i))
                                   cells)
                           (Z.to_nat (slice - unknown)) with
           | Some c => Ok c
           | None => AssertionFailed 277
           end.
Proof.
  induction cells as [| i cells IH]; intros unknown Hl.
  - cbn [slice_to_cell_loop filter].
    destruct (slice <? unknown); [reflexivity |].
    now destruct (Z.to_nat (slice - unknown)).
  - cbn [slice_to_cell_loop filter].
    rewrite (is_fixed_value_legal _ (Hl i (or_introl eq_refl))). cbn [bind].
    destruct (openb (at_ (info_grid info) i)); cbn [negb].
    + destruct (unknown =? slice) eqn:E.
      * apply Z.eqb_eq in E. subst.
        rewrite Z.ltb_irrefl, Z.sub_diag. reflexivity.
      * apply Z.eqb_neq in E.
        rewrite IH by (intros; apply Hl; now right).
        destruct (slice <? unknown) eqn:L1;
          [apply Z.ltb_lt in L1 | apply Z.ltb_ge in L1].
        -- replace (slice <? unknown + 1) with true
             by (symmetry; apply Z.ltb_lt; lia).
           reflexivity.
        -- replace (slice <? unknown + 1) with false
             by (symmetry; apply Z.ltb_ge; lia).
           replace (Z.to_nat (slice - unknown))
             with (S (Z.to_nat (slice - (unknown + 1)))) by lia.
           reflexivity.
    + apply IH. intros; apply Hl; now right.
Qed.

Lemma open_cells_nth (grid : list ascii) (n cell : Z) :
  0 <= cell < n -> openb (at_ grid cell) = true ->
  nth_error (open_cells grid n)
            (List.length (open_cells grid cell)) = Some cell.
Proof.
  intros Hc Ho. unfold open_cells at 1.
  rewrite (upto_split n cell Hc), filter_app. cbn [filter]. rewrite Ho.
  fold (open_cells grid cell).
  rewrite nth_error_app2 by lia. now rewrite Nat.sub_diag.
Qed.

Lemma in_open_cells (grid : list ascii) (n cell : Z) :
  In cell (open_cells grid n) <-> 0 <= cell < n /\ openb (at_ grid cell) = true.
Proof. unfold open_cells. now rewrite filter_In, in_upto. Qed.

Lemma NoDup_open_cells (grid : list ascii) (n : Z) : NoDup (open_cells grid n).
Proof. apply NoDup_filter, NoDup_upto. Qed.

Lemma open_cells_index (grid : list ascii) (n cell : Z) (s : nat) :
  nth_error (open_cells grid n) s = Some cell ->
  0 <= cell < n /\ openb (at_ grid cell) = true
  /\ List.length (open_cells grid cell) = s.
Proof.
  intros H.
  assert (I : In cell (open_cells grid n)) by (eapply nth_error_In; eauto).
  apply in_open_cells in I. destruct I as [Hc Ho].
  split; [exact Hc |]. split; [exact Ho |].
  pose proof (open_cells_nth grid n cell Hc Ho) as H'.
  pose proof (NoDup_open_cells grid n) as ND.
  rewrite NoDup_nth_error in ND. apply ND.
  - apply nth_error_Some. rewrite H'. discriminate.
  - now rewrite H, H'.
Qed.

Lemma open_cells_prefix_length (grid : list ascii) (n cell : Z) :
  0 <= cell < n -> openb (at_ grid cell) = true ->
  (List.length (open_cells grid cell) < List.length (open_cells grid n))%nat.
Proof.
  intros Hc Ho. apply nth_error_Some.
  rewrite (open_cells_nth grid n cell Hc Ho). discriminate.
Qed.
Lemma NUMBER_OF_SLICES_legal (opts : options) (info : xword_info) :
  legal_grid (info_grid info) (info_w info) (info_h info) ->
  NUMBER_OF_SLICES opts info
  = Ok (if UseNaiveMethod opts then info_w info * info_h info
        else Z.of_nat (List.length
                         (open_cells (info_grid info)
                                     (info_w info * info_h info)))).
Proof.
  intros Hg. unfold NUMBER_OF_SLICES.
  destruct (UseNaiveMethod opts); [reflexivity |].
  rewrite count_unknown_legal; [reflexivity |].
  intros i Hi. apply in_upto in Hi. exact (at_legal _ _ _ _ Hg Hi).
Qed.

Lemma SLICE_TO_CELL_legal (opts : options) (info : xword_info) (s : Z) :
  legal_grid (info_grid info) (info_w info) (info_h info) ->
  0 <= s < info_w info * info_h info ->
  SLICE_TO_CELL opts info s
  = if UseNaiveMethod opts then Ok s
    else match nth_error (open_cells (info_grid info)
                                     (info_w info * info_h info))
                         (Z.to_nat s) with
         | Some c => Ok c
         | None => AssertionFailed 277
         end.
Proof.
  intros Hg Hs. unfold SLICE_TO_CELL.
  replace (s <? info_w info * info_h info) with true
    by (symmetry; apply Z.ltb_lt; lia).
  cbn [assert bind].
  destruct (UseNaiveMethod opts); [reflexivity |].
  rewrite slice_to_cell_loop_nth.
  - replace (s <? 0) with false by (symmetry; apply Z.ltb_ge; lia).
    now rewrite Z.sub_0_r.
  - intros i Hi. apply in_upto in Hi. exact (at_legal _ _ _ _ Hg Hi).
Qed.

(** X1: on a grid of legal cells, [CELL_TO_SLICE] and [SLICE_TO_CELL] are
    inverse bijections between the cells that have a slice (the open
    cells; every cell in naive mode) and the slice numbers
    [0 .. NUMBER_OF_SLICES - 1], and none of the three fails an
    assertion there. *)
Theorem slice_table_bijection (opts : options) (info : xword_info) :
  legal_grid (info_grid info) (info_w info) (info_h info) ->
  exists ns,
    NUMBER_OF_SLICES opts info = Ok ns
    /\ (forall cell,
           has_slice opts info cell ->
           exists s, 0 <= s < ns
                     /\ CELL_TO_SLICE opts info cell = Ok s
                     /\ SLICE_TO_CELL opts info s = Ok cell)
    /\ (forall s,
           0 <= s < ns ->
           exists cell, has_slice opts info cell
                        /\ SLICE_TO_CELL opts info s = Ok cell
                        /\ CELL_TO_SLICE opts info cell = Ok s).
Proof.
  intros Hg. eexists. split; [apply NUMBER_OF_SLICES_legal, Hg |].
  set (n := info_w info * info_h info).
  set (grid := info_grid info).
  split.
  - intros cell [Hc Hu].
    exists (slice_index (UseNaiveMethod opts) grid cell).
    rewrite CELL_TO_SLICE_slice_index by assumption.
    unfold slice_index. fold grid.
    destruct (UseNaiveMethod opts) eqn:N.
    + split; [exact Hc |]. split; [reflexivity |].
      rewrite SLICE_TO_CELL_legal by assumption. now rewrite N.
    + destruct Hu as [Hu | Hu]; [discriminate Hu |].
      apply open_cell_openb in Hu. fold (open_cells grid cell).
      pose proof (open_cells_prefix_length grid n cell Hc Hu) as Hlt.
      pose proof (filter_length_le (fun i => openb (at_ grid i)) (upto n))
        as Hle.
      rewrite upto_length in Hle. fold (open_cells grid n) in Hle.
      split; [lia |]. split; [reflexivity |].
      rewrite SLICE_TO_CELL_legal by (try assumption; fold n; lia).
      rewrite N, Nat2Z.id. fold n grid.
      now rewrite (open_cells_nth grid n cell Hc Hu).
  - intros s Hs. destruct (UseNaiveMethod opts) eqn:N.
    + exists s. split; [split; [exact Hs | left; exact N] |].
      rewrite SLICE_TO_CELL_legal by assumption. rewrite N.
      split; [reflexivity |].
      rewrite CELL_TO_SLICE_slice_index by (auto; left; exact N).
      unfold slice_index. now rewrite N.
    + fold n grid in Hs.
      destruct (nth_error (open_cells grid n) (Z.to_nat s)) as [cell |] eqn:E.
      2:{ apply nth_error_None in E. lia. }
      destruct (open_cells_index grid n cell _ E) as [Hc [Ho Hi]].
      assert (Hsn : 0 <= s < n).
      { pose proof (filter_length_le (fun i => openb (at_ grid i)) (upto n))
          as Hle.
        rewrite upto_length in Hle. fold (open_cells grid n) in Hle. lia. }
      exists cell.
      split; [split; [exact Hc | right; apply open_cell_openb; exact Ho] |].
      rewrite SLICE_TO_CELL_legal by assumption. rewrite N. fold n grid.
      rewrite E. split; [reflexivity |].
      rewrite CELL_TO_SLICE_slice_index
        by (auto; right; apply open_cell_openb; exact Ho).
      unfold slice_index. rewrite N. fold grid (open_cells grid cell).
      rewrite Hi. f_equal. lia.
Qed.

Lemma slice_table_bijection_witness :
  exists ns,
    NUMBER_OF_SLICES default_options scenario1_info = Ok ns
    /\ (forall cell,
           has_slice default_options scenario1_info cell ->
           exists s, 0 <= s < ns
                     /\ CELL_TO_SLICE default_options scenario1_info cell = Ok s
                     /\ SLICE_TO_CELL default_options scenario1_info s
                        = Ok cell)
    /\ (forall s,
           0 <= s < ns ->
           exists cell, has_slice default_options scenario1_info cell
                        /\ SLICE_TO_CELL default_options scenario1_info s
                           = Ok cell
                        /\ CELL_TO_SLICE default_options scenario1_info cell
                           = Ok s).
Proof.
  apply (slice_table_bijection default_options scenario1_info).
  apply legal_grid_dec_true. reflexivity.
Defined.

(** X2: in compressed mode the slice table rejects what has no slice, by a
    failed assertion: [CELL_TO_SLICE] a cell that is black or holds a
    letter (line 291) or lies beyond the grid (line 290), [SLICE_TO_CELL]
    a slice number from [NUMBER_OF_SLICES] on (line 277 within the number
    of cells, line 268 beyond). *)
Theorem slice_table_rejects (opts : options) (info : xword_info) :
  legal_grid (info_grid info) (info_w info) (info_h info) ->
  UseNaiveMethod opts = false ->
  (forall cell,
      0 <= cell < info_w info * info_h info ->
      ~ open_cell (at_ (info_grid info) cell) ->
      CELL_TO_SLICE opts info cell = AssertionFailed 291)
  /\ (forall cell,
         info_w info * info_h info <= cell ->
         CELL_TO_SLICE opts info cell = AssertionFailed 290)
  /\ (forall ns s,
         NUMBER_OF_SLICES opts info = Ok ns ->
         ns <= s < info_w info * info_h info ->
         SLICE_TO_CELL opts info s = AssertionFailed 277)
  /\ (forall s,
         info_w info * info_h info <= s ->
         SLICE_TO_CELL opts info s = AssertionFailed 268).
Proof.
  intros Hg N. repeat split.
  - intros cell Hc Hn. unfold CELL_TO_SLICE. rewrite N.
    replace (cell <? info_w info * info_h info) with true
      by (symmetry; apply Z.ltb_lt; lia).
    cbn [assert bind].
    rewrite (is_fixed_value_legal _ (at_legal _ _ _ _ Hg Hc)). cbn [bind].
    destruct (openb (at_ (info_grid info) cell)) eqn:O; [| reflexivity].
    apply open_cell_openb in O. contradiction.
  - intros cell Hc. unfold CELL_TO_SLICE. rewrite N.
    replace (cell <? info_w info * info_h info) with false
      by (symmetry; apply Z.ltb_ge; lia).
    reflexivity.
  - intros ns s Hns Hs.
    rewrite NUMBER_OF_SLICES_legal in Hns by assumption. rewrite N in Hns.
    injection Hns as <-.
    rewrite SLICE_TO_CELL_legal by (try assumption; lia). rewrite N.
    destruct (nth_error _ _) eqn:E; [| reflexivity].
    assert (E' : nth_error
                   (open_cells (info_grid info) (info_w info * info_h info))
                   (Z.to_nat s) <> None) by (rewrite E; discriminate).
    apply nth_error_Some in E'. lia.
  - intros s Hs. unfold SLICE_TO_CELL.
    replace (s <? info_w info * info_h info) with false
      by (symmetry; apply Z.ltb_ge; lia).
    reflexivity.
Qed.

Lemma slice_table_rejects_witness :
  (forall cell,
      0 <= cell < info_w scenario1_info * info_h scenario1_info ->
      ~ open_cell (at_ (info_grid scenario1_info) cell) ->
      CELL_TO_SLICE default_options scenario1_info cell = AssertionFailed 291)
  /\ (forall cell,
         info_w scenario1_info * info_h scenario1_info <= cell ->
         CELL_TO_SLICE default_options scenario1_info cell
         = AssertionFailed 290)
  /\ (forall ns s,
         NUMBER_OF_SLICES default_options scenario1_info = Ok ns ->
         ns <= s < info_w scenario1_info * info_h scenario1_info ->
         SLICE_TO_CELL default_options scenario1_info s = AssertionFailed 277)
  /\ (forall s,
         info_w scenario1_info * info_h scenario1_info <= s ->
         SLICE_TO_CELL default_options scenario1_info s = AssertionFailed 268).
Proof.
  apply (slice_table_rejects default_options scenario1_info).
  - apply legal_grid_dec_true. reflexivity.
  - reflexivity.
Defined.

Lemma is_fixed_value_illegal (c : ascii) :
  ~ legal_cell c -> is_fixed_value c = AssertionFailed 564.
Proof.
  intros H. unfold is_fixed_value.
  destruct (Ascii.eqb c "#") eqn:E1.
  { apply ascii_eqb_eq in E1. exfalso. apply H. now left. }
  destruct (isalpha c) eqn:E2.
  { exfalso. apply H. right; left. exact E2. }
  fold (openb c). destruct (openb c) eqn:E3; [| reflexivity].
  exfalso. apply H. right; right. apply open_cell_openb. exact E3.
Qed.

Lemma is_fixed_value_cases (c : ascii) :
  (exists b, is_fixed_value c = Ok b) \/ is_fixed_value c = AssertionFailed 564.
Proof.
  unfold is_fixed_value.
  destruct (Ascii.eqb c "#"); [left; eexists; reflexivity |].
  destruct (isalpha c); [left; eexists; reflexivity |].
  destruct (_ || _); [left; eexists; reflexivity | right; reflexivity].
Qed.

Lemma count_unknown_illegal (info : xword_info) (cells : list Z) :
  forall unknown,
    (exists i, In i cells /\ ~ legal_cell (at_ (info_grid info) i)) ->
    count_unknown info cells unknown = AssertionFailed 564.
Proof.
  induction cells as [| c cells IH]; intros unknown [i [Hi Hn]];
    [destruct Hi |].
  cbn [count_unknown].
  destruct (is_fixed_value_cases (at_ (info_grid info) c)) as [[b E] | E];
    rewrite E; [| reflexivity].
  cbn [bind]. apply IH. destruct Hi as [-> | Hi].
  - rewrite is_fixed_value_illegal in E by assumption. discriminate E.
  - exists i. split; assumption.
Qed.

(** X3: in compressed mode a grid that holds, among its [w*h] cells, a
    character other than [#], a letter, [.], [0] or [1] stops
    [xword_solve] at the assertion of [is_fixed_value] (line 564), before
    any row is built, whatever the dictionary. *)
Theorem illegal_cell_stops_solver (malloc_ok : nat -> bool) (opts : options)
        (grid : list ascii) (w h : Z) (dict : xdict) (st : counters) :
  UseNaiveMethod opts = false ->
  (exists i, 0 <= i < w * h /\ ~ legal_cell (at_ grid i)) ->
  xword_solve malloc_ok opts grid w h dict st = AssertionFailed 564.
Proof.
  intros N [i [Hi Hn]].
  unfold xword_solve, build_matrix, NUMBER_OF_SLICES. rewrite N.
  cbn [info_w info_h info_grid].
  rewrite count_unknown_illegal; [reflexivity |].
  exists i. split; [apply in_upto; exact Hi | exact Hn].
Qed.

Lemma illegal_cell_stops_solver_witness :
  xword_solve always_ok default_options (str ".a@") 3 1 [] initial_counters
  = AssertionFailed 564.
Proof.
  apply (illegal_cell_stops_solver always_ok default_options (str ".a@") 3 1
                                   [] initial_counters).
  - reflexivity.
  - exists 2. split; [lia |].
    intros [H | [H | [H | [H | H]]]]; vm_compute in H; discriminate H.
Defined.

(** ** Rows *)

Lemma placement_row_cells (opts : options) (info : xword_info)
      (o : orientation) (i j : Z) (word : list ascii) (L : Z) :
  legal_grid (info_grid info) (info_w info) (info_h info) ->
  0 <= i < info_w info -> 0 <= j < info_h info -> 0 <= L ->
  within_grid o (info_w info) (info_h info) i j L ->
  placement_row o opts info i j word L
  = Ok (flat_map (cell_columns opts info o i j word) (upto L)).
Proof.
  intros Hg Hi Hj HL Hw.
  assert (Hcells : forall k, In k (upto L) ->
             0 <= run_cell o (info_w info) i j k < info_w info * info_h info).
  { intros k Hk. apply in_upto in Hk.
    apply (run_cell_in_grid o _ _ i j L); assumption. }
  assert (Hlen : UseNaiveMethod opts = true ->
                 (Z.of_nat (List.length
                              (flat_map (cell_columns opts info o i j word)
                                        (upto L)))
                  =? L * 27) = true).
  { intros N. apply Z.eqb_eq.
    rewrite (flat_map_const_length _ 27).
    - rewrite upto_length. lia.
    - intros k _. unfold cell_columns. rewrite N. cbn [orb].
      destruct o; apply slice_columns_length. }
  destruct o; cbn [placement_row]; unfold row_across, row_down;
    cbn [run_cell] in Hcells;
    rewrite for_each_add_row_step by assumption;
    cbn [bind app].
  - change (flat_map _ (upto L))
      with (flat_map (cell_columns opts info Across i j word) (upto L)).
    destruct (UseNaiveMethod opts); [rewrite Hlen by reflexivity |];
      reflexivity.
  - change (flat_map _ (upto L))
      with (flat_map (cell_columns opts info Down i j word) (upto L)).
    destruct (UseNaiveMethod opts); [rewrite Hlen by reflexivity |];
      reflexivity.
Qed.

Lemma in_cell_columns_slice (opts : options) (info : xword_info)
      (o : orientation) (i j : Z) (word : list ascii) (k c : Z) :
  In c (cell_columns opts info o i j word k) ->
  let cell := run_cell o (info_w info) i j k in
  let s := slice_index (UseNaiveMethod opts) (info_grid info) cell in
  (UseNaiveMethod opts = true \/ open_cell (at_ (info_grid info) cell))
  /\ 54 * s <= c < 54 * s + 54.
Proof.
  unfold cell_columns. intros H.
  destruct (UseNaiveMethod opts
            || openb (at_ (info_grid info) (run_cell o (info_w info) i j k)))
           eqn:U; [| destruct H].
  split.
  { apply orb_true_iff in U. destruct U as [U | U];
      [left; exact U | right; apply open_cell_openb; exact U]. }
  destruct o; apply in_slice_columns in H;
    destruct H as [[m [Hm ->]] | ->]; try lia;
    destruct (_ =? m); lia.
Qed.

Lemma slice_index_bound (opts : options) (info : xword_info) (cell : Z) :
  has_slice opts info cell ->
  0 <= slice_index (UseNaiveMethod opts) (info_grid info) cell
  /\ slice_index (UseNaiveMethod opts) (info_grid info) cell
     < (if UseNaiveMethod opts then info_w info * info_h info
        else Z.of_nat (List.length
                         (open_cells (info_grid info)
                                     (info_w info * info_h info)))).
Proof.
  intros [Hc Hu]. unfold slice_index.
  destruct (UseNaiveMethod opts); [lia |].
  destruct Hu as [Hu | Hu]; [discriminate Hu |].
  apply open_cell_openb in Hu.
  pose proof (open_cells_prefix_length _ _ _ Hc Hu) as Hlt.
  unfold open_cells in *. lia.
Qed.

Lemma slice_index_inj (opts : options) (info : xword_info) (c1 c2 : Z) :
  has_slice opts info c1 -> has_slice opts info c2 ->
  slice_index (UseNaiveMethod opts) (info_grid info) c1
  = slice_index (UseNaiveMethod opts) (info_grid info) c2 ->
  c1 = c2.
Proof.
  intros [H1 U1] [H2 U2]. unfold slice_index.
  destruct (UseNaiveMethod opts); [auto |].
  destruct U1 as [U1 | U1]; [discriminate U1 |].
  destruct U2 as [U2 | U2]; [discriminate U2 |].
  apply open_cell_openb in U1. apply open_cell_openb in U2.
  fold (open_cells (info_grid info) c1) (open_cells (info_grid info) c2).
  intros E. apply Nat2Z.inj in E.
  destruct (Z.lt_trichotomy c1 c2) as [Lt | [Eq | Gt]]; [| exact Eq |].
  - pose proof (open_cells_prefix_length (info_grid info) c2 c1
                  ltac:(lia) U1). lia.
  - pose proof (open_cells_prefix_length (info_grid info) c1 c2
                  ltac:(lia) U2). lia.
Qed.

Lemma NoDup_slice_columns (slice i hit miss ad : Z) :
  -1 <= hit - miss <= 1 -> 0 <= hit <= 1 -> 0 <= miss <= 1 -> 0 <= ad <= 1 ->
  NoDup (slice_columns slice i hit miss ad).
Proof.
  intros H1 H2 H3 H4. unfold slice_columns.
  apply NoDup_app.
  - apply NoDup_map_in; [| apply NoDup_upto].
    intros x y Hx Hy. apply in_upto in Hx, Hy.
    destruct (i =? x), (i =? y); lia.
  - repeat constructor; intros [].
  - intros c Hc [<- | []]. apply in_map_iff in Hc.
    destruct Hc as [m [E Hm]]. apply in_upto in Hm.
    destruct (i =? m); lia.
Qed.

Lemma NoDup_flat_map {A B : Type} (f : A -> list B) (l : list A) :
  NoDup l ->
  (forall x, In x l -> NoDup (f x)) ->
  (forall x y c, In x l -> In y l -> In c (f x) -> In c (f y) -> x = y) ->
  NoDup (flat_map f l).
Proof.
  induction l as [| a l IH]; intros ND Hf Hd; [constructor |].
  cbn [flat_map]. inversion ND as [| ? ? Ha ND']; subst.
  apply NoDup_app.
  - apply Hf. now left.
  - apply IH; auto.
    + intros x Hx. apply Hf. now right.
    + intros x y c Hx Hy. apply Hd; now right.
  - intros c Hc Hc'. apply in_flat_map in Hc'. destruct Hc' as [y [Hy Hcy]].
    assert (a = y) by (apply (Hd a y c); auto; [now left | now right]).
    subst. contradiction.
Qed.
Lemma in_placement_row (opts : options) (info : xword_info)
      (o : orientation) (i j : Z) (word : list ascii) (L c : Z) :
  In c (flat_map (cell_columns opts info o i j word) (upto L))
  <-> exists k, 0 <= k < L /\ In c (cell_columns opts info o i j word k).
Proof.
  rewrite in_flat_map. split; intros [k [Hk Hc]]; exists k;
    (split; [apply in_upto; exact Hk | exact Hc]).
Qed.

Lemma cell_coords (w x y x' y' : Z) :
  0 <= x < w -> 0 <= x' < w -> y * w + x = y' * w + x' -> y = y' /\ x = x'.
Proof.
  intros Hx Hx' E.
  assert (y = y') by nia. subst. lia.
Qed.

Lemma run_cell_inj (o : orientation) (w h i j L k k' : Z) :
  0 <= i < w -> 0 <= j < h -> within_grid o w h i j L ->
  0 <= k < L -> 0 <= k' < L ->
  run_cell o w i j k = run_cell o w i j k' -> k = k'.
Proof.
  intros Hi Hj Hw Hk Hk'. destruct o; cbn [run_cell within_grid] in *; nia.
Qed.

Lemma cell_columns_has_slice (opts : options) (info : xword_info)
      (o : orientation) (i j : Z) (word : list ascii) (L k c : Z) :
  0 <= i < info_w info -> 0 <= j < info_h info ->
  within_grid o (info_w info) (info_h info) i j L -> 0 <= k < L ->
  In c (cell_columns opts info o i j word k) ->
  has_slice opts info (run_cell o (info_w info) i j k)
  /\ 54 * slice_index (UseNaiveMethod opts) (info_grid info)
                      (run_cell o (info_w info) i j k) <= c
     < 54 * slice_index (UseNaiveMethod opts) (info_grid info)
                        (run_cell o (info_w info) i j k) + 54.
Proof.
  intros Hi Hj Hw Hk Hc.
  destruct (in_cell_columns_slice _ _ _ _ _ _ _ _ Hc) as [U B].
  split; [split; [| exact U] | exact B].
  apply (run_cell_in_grid o _ _ i j L); assumption.
Qed.

(** X4: the row emitted for a placement of at most [MAX_WORDLEN] cells
    that the run-fit test accepts, on a grid of legal cells, fits the
    matrix and the [constraint] array: every column lies in
    [0 .. 54 * NUMBER_OF_SLICES - 1], no column occurs twice, and the
    row has at most [27 * wlen] entries (exactly that many in naive
    mode), which is at most the [MAX_WORDLEN * 27] entries that the
    array holds. *)
Theorem placement_row_fits_matrix (opts : options) (info : xword_info)
        (o : orientation) (i j : Z) (word : list ascii) (L : Z) :
  legal_grid (info_grid info) (info_w info) (info_h info) ->
  0 <= i < info_w info -> 0 <= j < info_h info ->
  0 <= L <= MAX_WORDLEN ->
  entry_fits o (info_grid info) (info_w info) (info_h info) i j word L
  <> 0 ->
  exists row ns,
    placement_row o opts info i j word L = Ok row
    /\ NUMBER_OF_SLICES opts info = Ok ns
    /\ (forall c, In c row -> 0 <= c < 27*2*ns)
    /\ NoDup row
    /\ Z.of_nat (List.length row) <= L * 27
    /\ Z.of_nat (List.length row) <= MAX_WORDLEN * 27
    /\ (UseNaiveMethod opts = true -> Z.of_nat (List.length row) = L * 27).
Proof.
  intros Hg Hi Hj [HL HM] Hfit.
  pose proof (entry_fits_within_grid _ _ _ _ _ _ _ _ Hi Hj Hfit) as Hw.
  assert (Hlen : forall l,
             (List.length (flat_map (cell_columns opts info o i j word) l)
              <= List.length l * 27)%nat).
  { induction l as [| k l IH]; [cbn; lia |].
    cbn [flat_map List.length]. rewrite length_app.
    assert (List.length (cell_columns opts info o i j word k) <= 27)%nat.
    { unfold cell_columns. destruct (_ || _); [| cbn; lia].
      destruct o; rewrite slice_columns_length; lia. }
    lia. }
  specialize (Hlen (upto L)). rewrite upto_length in Hlen.
  eexists. eexists.
  split; [apply placement_row_cells; assumption |].
  split; [apply NUMBER_OF_SLICES_legal; assumption |].
  split; [| split; [| split; [lia | split; [lia |]]]].
  - intros c Hc. apply in_placement_row in Hc. destruct Hc as [k [Hk Hc]].
    destruct (cell_columns_has_slice _ _ _ _ _ _ _ _ _ Hi Hj Hw Hk Hc)
      as [Hs B].
    pose proof (slice_index_bound opts info _ Hs) as SB. lia.
  - apply NoDup_flat_map; [apply NoDup_upto | |].
    + intros k _. unfold cell_columns.
      destruct (_ || _); [| constructor].
      destruct o; apply NoDup_slice_columns; lia.
    + intros k k' c Hk Hk' Hc Hc'. apply in_upto in Hk, Hk'.
      destruct (cell_columns_has_slice _ _ _ _ _ _ _ _ _ Hi Hj Hw Hk Hc)
        as [Hs B].
      destruct (cell_columns_has_slice _ _ _ _ _ _ _ _ _ Hi Hj Hw Hk' Hc')
        as [Hs' B'].
      apply (run_cell_inj o (info_w info) (info_h info) i j L); try assumption.
      apply (slice_index_inj opts info); try assumption. lia.
  - intros N. rewrite (flat_map_const_length _ 27).
    + rewrite upto_length. lia.
    + intros k _. unfold cell_columns. rewrite N. cbn [orb].
      destruct o; apply slice_columns_length.
Qed.

Lemma placement_row_fits_matrix_witness :
  exists row ns,
    placement_row Down default_options scenario1_info 0 0 (str "hie") 3
    = Ok row
    /\ NUMBER_OF_SLICES default_options scenario1_info = Ok ns
    /\ (forall c, In c row -> 0 <= c < 27*2*ns)
    /\ NoDup row
    /\ Z.of_nat (List.length row) <= 3 * 27
    /\ Z.of_nat (List.length row) <= MAX_WORDLEN * 27
    /\ (UseNaiveMethod default_options = true ->
        Z.of_nat (List.length row) = 3 * 27).
Proof.
  apply (placement_row_fits_matrix default_options scenario1_info Down 0 0
                                   (str "hie") 3).
  - apply legal_grid_dec_true. reflexivity.
  - simpl. lia.
  - simpl. lia.
  - unfold MAX_WORDLEN. lia.
  - vm_compute. discriminate.
Defined.

(** X5: the column-pair interlock.  Take an Across and a Down placement
    whose runs cross in a cell that has a slice [s].  Their rows have a
    column in common exactly when the two words put different letters
    into that cell; and when they put the same letter there, the two rows
    together hold every one of the 54 columns of slice [s]. *)
Theorem across_down_interlock (opts : options) (info : xword_info)
        (iA jA LA : Z) (wordA : list ascii)
        (iD jD LD : Z) (wordD : list ascii) (kA kD : Z) :
  legal_grid (info_grid info) (info_w info) (info_h info) ->
  0 <= iA < info_w info -> 0 <= jA < info_h info ->
  within_grid Across (info_w info) (info_h info) iA jA LA ->
  0 <= iD < info_w info -> 0 <= jD < info_h info ->
  within_grid Down (info_w info) (info_h info) iD jD LD ->
  0 <= kA < LA -> 0 <= kD < LD ->
  run_cell Across (info_w info) iA jA kA = run_cell Down (info_w info) iD jD kD ->
  has_slice opts info (run_cell Across (info_w info) iA jA kA) ->
  exists rowA rowD,
    placement_row Across opts info iA jA wordA LA = Ok rowA
    /\ placement_row Down opts info iD jD wordD LD = Ok rowD
    /\ ((exists c, In c rowA /\ In c rowD)
        <-> ch2idx (at_ wordA kA) <> ch2idx (at_ wordD kD))
    /\ (ch2idx (at_ wordA kA) = ch2idx (at_ wordD kD) ->
        forall c,
          let s := slice_index (UseNaiveMethod opts) (info_grid info)
                               (run_cell Across (info_w info) iA jA kA) in
          54 * s <= c < 54 * s + 54 -> In c rowA \/ In c rowD).
Proof.
  intros Hg HiA HjA HwA HiD HjD HwD HkA HkD Hp Hs.
  assert (HLA : 0 <= LA) by lia. assert (HLD : 0 <= LD) by lia.
  eexists. eexists.
  split; [apply placement_row_cells; assumption |].
  split; [apply placement_row_cells; assumption |].
  set (p := run_cell Across (info_w info) iA jA kA) in *.
  set (s := slice_index (UseNaiveMethod opts) (info_grid info) p).
  set (a := ch2idx (at_ wordA kA)). set (d := ch2idx (at_ wordD kD)).
  pose proof (ch2idx_range (at_ wordA kA)) as Ha. fold a in Ha.
  pose proof (ch2idx_range (at_ wordD kD)) as Hd. fold d in Hd.
  assert (U : UseNaiveMethod opts || openb (at_ (info_grid info) p) = true).
  { destruct Hs as [_ [U | U]]; apply orb_true_iff;
      [left; exact U | right; apply open_cell_openb; exact U]. }
  assert (CA : cell_columns opts info Across iA jA wordA kA
               = slice_columns (27*2*s) a 0 1 0).
  { unfold cell_columns. fold p. rewrite U. reflexivity. }
  assert (CD : cell_columns opts info Down iD jD wordD kD
               = slice_columns (27*2*s) d 1 0 1).
  { unfold cell_columns. rewrite <- Hp. fold p. rewrite U. reflexivity. }
  split; [split |].
  - intros [c [HcA HcD]] Heq.
    apply in_placement_row in HcA, HcD.
    destruct HcA as [k [Hk HcA]]. destruct HcD as [k' [Hk' HcD]].
    destruct (cell_columns_has_slice _ _ _ _ _ _ _ _ _ HiA HjA HwA Hk HcA)
      as [S1 B1].
    destruct (cell_columns_has_slice _ _ _ _ _ _ _ _ _ HiD HjD HwD Hk' HcD)
      as [S2 B2].
    assert (Hq : run_cell Across (info_w info) iA jA k
                 = run_cell Down (info_w info) iD jD k').
    { apply (slice_index_inj opts info); try assumption. lia. }
    assert (k = kA /\ k' = kD) as [-> ->].
    { unfold p in Hp. cbn [run_cell within_grid] in *.
      destruct (cell_coords (info_w info) (iA + k) jA iD (jD + k'))
        as [E1 E2]; [lia | lia | lia |].
      destruct (cell_coords (info_w info) (iA + kA) jA iD (jD + kD))
        as [E3 E4]; [lia | lia | lia |].
      lia. }
    rewrite CA in HcA. rewrite CD in HcD.
    apply in_slice_columns in HcA, HcD. rewrite <- Heq in HcD.
    clearbody a d s.
    destruct HcA as [[m [Hm HcA]] | HcA];
      destruct HcD as [[m' [Hm' HcD]] | HcD];
      try (destruct (Z.eqb_spec a m)); try (destruct (Z.eqb_spec a m'));
      lia.
  - intros Hne. exists (27*2*s + 2*d + 1). split; apply in_placement_row.
    + exists kA. split; [exact HkA |]. rewrite CA. apply in_slice_columns.
      left. exists d. split; [exact Hd |].
      replace (a =? d) with false by (symmetry; apply Z.eqb_neq; exact Hne).
      reflexivity.
    + exists kD. split; [exact HkD |]. rewrite CD. apply in_slice_columns.
      left. exists d. split; [exact Hd |]. rewrite Z.eqb_refl. reflexivity.
  - intros Heq c s0 Hc. subst s0. fold p s in Hc |- *.
    assert (InA : forall x, In x (slice_columns (27*2*s) a 0 1 0) ->
                            In x (flat_map
                                    (cell_columns opts info Across iA jA wordA)
                                    (upto LA))).
    { intros x Hx. apply in_placement_row. exists kA. rewrite CA. auto. }
    assert (InD : forall x, In x (slice_columns (27*2*s) d 1 0 1) ->
                            In x (flat_map
                                    (cell_columns opts info Down iD jD wordD)
                                    (upto LD))).
    { intros x Hx. apply in_placement_row. exists kD. rewrite CD. auto. }
    destruct (Z.eq_dec c (54*s + 52)) as [-> | N52].
    { left. apply InA, in_slice_columns. right. lia. }
    destruct (Z.eq_dec c (54*s + 53)) as [-> | N53].
    { right. apply InD, in_slice_columns. right. lia. }
    set (r := c - 54*s). set (m := r / 2).
    assert (Hr : r = 2*m + r mod 2) by (apply Z.div_mod; lia).
    assert (Hm2 : 0 <= r mod 2 < 2) by (apply Z.mod_pos_bound; lia).
    assert (Hm : 0 <= m < 26) by (unfold r in *; lia).
    destruct (Z.eq_dec (r mod 2) 0) as [Z0 | Z1].
    + destruct (Z.eq_dec a m) as [Eam | Nam].
      * left. apply InA, in_slice_columns. left. exists m.
        split; [exact Hm |].
        replace (a =? m) with true by (symmetry; apply Z.eqb_eq; exact Eam).
        unfold r in *. lia.
      * right. apply InD, in_slice_columns. left. exists m.
        split; [exact Hm |].
        replace (d =? m) with false by (symmetry; apply Z.eqb_neq; lia).
        unfold r in *. lia.
    + destruct (Z.eq_dec a m) as [Eam | Nam].
      * right. apply InD, in_slice_columns. left. exists m.
        split; [exact Hm |].
        replace (d =? m) with true by (symmetry; apply Z.eqb_eq; lia).
        unfold r in *. lia.
      * left. apply InA, in_slice_columns. left. exists m.
        split; [exact Hm |].
        replace (a =? m) with false by (symmetry; apply Z.eqb_neq; exact Nam).
        unfold r in *. lia.
Qed.
Lemma across_down_interlock_witness :
  exists rowA rowD,
    placement_row Across default_options scenario1_info 0 0 (str "has") 3
    = Ok rowA
    /\ placement_row Down default_options scenario1_info 0 0 (str "hie") 3
       = Ok rowD
    /\ ((exists c, In c rowA /\ In c rowD)
        <-> ch2idx (at_ (str "has") 0) <> ch2idx (at_ (str "hie") 0))
    /\ (ch2idx (at_ (str "has") 0) = ch2idx (at_ (str "hie") 0) ->
        forall c,
          let s := slice_index (UseNaiveMethod default_options)
                               (info_grid scenario1_info)
                               (run_cell Across (info_w scenario1_info) 0 0 0)
          in
          54 * s <= c < 54 * s + 54 -> In c rowA \/ In c rowD).
Proof.
  apply (across_down_interlock default_options scenario1_info
                               0 0 3 (str "has") 0 0 3 (str "hie") 0 0).
  - apply legal_grid_dec_true. reflexivity.
  - simpl. lia.
  - simpl. lia.
  - simpl. lia.
  - simpl. lia.
  - simpl. lia.
  - simpl. lia.
  - lia.
  - lia.
  - reflexivity.
  - split; [simpl; lia | right; left; reflexivity].
Defined.

Lemma row_naive (opts : options) (info : xword_info) (o : orientation)
      (i j : Z) (word : list ascii) (L : Z) :
  UseNaiveMethod opts = true -> 0 <= L ->
  placement_row o opts info i j word L
  = Ok (flat_map (cell_columns opts info o i j word) (upto L)).
Proof.
  intros N HL.
  assert (Step : forall cellof hit miss ad ks constraint,
             for_each ks (add_row_step opts info cellof hit miss ad word)
                      constraint
             = Ok (constraint
                   ++ flat_map (fun k => slice_columns (27*2*cellof k)
                                           (ch2idx (at_ word k)) hit miss ad)
                               ks)).
  { intros cellof hit miss ad. induction ks as [| k ks IH]; intros c.
    - cbn. now rewrite app_nil_r.
    - cbn [for_each flat_map]. unfold add_row_step at 1, CELL_TO_SLICE.
      rewrite N. cbn [bind]. rewrite IH. now rewrite <- app_assoc. }
  assert (Hlen : forall f : Z -> list Z,
             (forall k, List.length (f k) = 27%nat) ->
             (Z.of_nat (List.length (flat_map f (upto L))) =? L * 27) = true).
  { intros f Hf. apply Z.eqb_eq. rewrite (flat_map_const_length f 27).
    - rewrite upto_length. lia.
    - intros k _. apply Hf. }
  destruct o; cbn [placement_row]; unfold row_across, row_down;
    rewrite Step; cbn [bind app]; rewrite N;
    rewrite Hlen by (intros; apply slice_columns_length);
    cbn [assert bind]; f_equal; apply flat_map_ext; intros k;
    unfold cell_columns, slice_index; rewrite N; reflexivity.
Qed.

Lemma flat_map_map {A B C : Type} (f : B -> list C) (g : A -> B)
      (l : list A) :
  flat_map f (map g l) = flat_map (fun x => f (g x)) l.
Proof.
  induction l as [| x l IH]; [reflexivity |].
  cbn [map flat_map]. now rewrite IH.
Qed.

Lemma flat_map_ext_in' {A B : Type} (f g : A -> list B) (l : list A) :
  (forall x, In x l -> f x = g x) -> flat_map f l = flat_map g l.
Proof.
  induction l as [| x l IH]; intros H; [reflexivity |].
  cbn [flat_map]. rewrite (H x (or_introl eq_refl)), IH; auto.
  intros y Hy. apply H. now right.
Qed.

Lemma forced_loop_columns (info : xword_info) (cellof : Z -> Z)
      (hit miss ad line : Z) (m : nat) :
  forall (k n : Z) (constraint : list Z),
    0 <= n ->
    (forall x, k <= x < k + n ->
               isalpha (at_ (info_grid info) (cellof x)) = true) ->
    Z.of_nat m = n
    \/ (n < Z.of_nat m /\ at_ (info_grid info) (cellof (k + n)) = "#") ->
    forced_loop info cellof hit miss ad line m k constraint
    = Ok (k + n,
          constraint
          ++ flat_map (fun x => slice_columns
                                  (27*2*cellof (k + x))
                                  (ch2idx (at_ (info_grid info)
                                               (cellof (k + x))))
                                  hit miss ad)
                      (upto n)).
Proof.
  induction m as [| m IH]; intros k n constraint Hn Halpha Hstop.
  - assert (n = 0) by lia. subst n.
    cbn [forced_loop]. rewrite Z.add_0_r. cbn. now rewrite app_nil_r.
  - cbn [forced_loop].
    destruct (Ascii.eqb (at_ (info_grid info) (cellof k)) "#") eqn:E;
      [apply ascii_eqb_eq in E | apply ascii_eqb_neq in E].
    + assert (n = 0).
      { destruct (Z.eq_dec n 0) as [-> | Hne]; [reflexivity |].
        exfalso. apply (alpha_not_black _ (Halpha k ltac:(lia))). exact E. }
      subst n. rewrite Z.add_0_r. cbn. now rewrite app_nil_r.
    + assert (Hpos : 0 < n).
      { destruct (Z.eq_dec n 0) as [-> | Hne]; [| lia].
        exfalso. rewrite Z.add_0_r in Hstop.
        destruct Hstop as [H | [_ H]]; [lia | contradiction]. }
      rewrite (Halpha k ltac:(lia)). cbn [assert bind].
      rewrite (IH (k + 1) (n - 1)); try lia.
      * replace (k + 1 + (n - 1)) with (k + n) by lia.
        f_equal. f_equal. rewrite <- app_assoc. f_equal.
        rewrite (upto_split n 0) by lia. cbn [upto Z.to_nat seq map app flat_map].
        rewrite Z.add_0_r. f_equal.
        replace (n - 0 - 1) with (n - 1) by lia.
        rewrite flat_map_map.
        apply flat_map_ext. intros x.
        now replace (k + (0 + 1 + x)) with (k + 1 + x) by lia.
      * intros x Hx. apply Halpha. lia.
      * replace (k + 1 + (n - 1)) with (k + n) by lia.
        destruct Hstop as [H | [H1 H2]];
          [left; lia | right; split; [lia | exact H2]].
Qed.

Lemma at_letters_in_line (cell : Z -> ascii) (a b k : Z) :
  0 <= k < b - a -> at_ (letters_in_line cell a b) k = cell (a + k).
Proof.
  intros Hk. unfold at_, letters_in_line, upto.
  rewrite nth_indep with (d' := cell (a + Z.of_nat (Z.to_nat (b - a))))
    by (rewrite !length_map, length_seq; lia).
  rewrite map_map.
  rewrite (map_nth (fun x => cell (a + Z.of_nat x))).
  rewrite seq_nth by lia. f_equal. lia.
Qed.

(** X6: in naive mode the forced row of a maximal run that holds only
    letters, fewer than [MAX_WORDLEN] of them, is emitted and is the very
    row that [add_row_across] (or [add_row_down]) builds for placing the
    run's own letters as a word on the run. *)
Theorem forced_row_is_placement_row (opts : options) (info : xword_info)
        (o : orientation) (l s e : Z) :
  UseNaiveMethod opts = true ->
  maximal_in_line (line_cell o (info_grid info) (info_w info) l)
                  (line_length o (info_w info) (info_h info)) s e ->
  fixed_in_line (line_cell o (info_grid info) (info_w info) l) s e ->
  e - s < MAX_WORDLEN ->
  exists row,
    row_forced o opts info l s = Ok row
    /\ placement_row_in_line
         o opts info l s
         (letters_in_line (line_cell o (info_grid info) (info_w info) l) s e)
         (e - s)
       = Ok row.
Proof.
  intros HN [M1 [M2 [_ [_ M5]]]] Hfix Hshort.
  set (word := letters_in_line
                 (line_cell o (info_grid info) (info_w info) l) s e).
  assert (Hword : forall k, 0 <= k < e - s ->
             at_ word k = line_cell o (info_grid info) (info_w info) l (s + k)).
  { intros k Hk. unfold word. now rewrite at_letters_in_line. }
  clearbody word.
  destruct o; cbn [row_forced placement_row_in_line line_length line_cell] in *;
    rewrite row_naive by (auto; lia);
    unfold row_forced_across, row_forced_down;
    rewrite HN; cbn [assert bind].
  - rewrite (forced_loop_columns info
               (fun k => l * info_w info + (s + k)) 0 1 0 655
               (Z.to_nat (info_w info - s)) 0 (e - s) []); try lia.
    + cbn [bind fst snd app].
      replace (0 + (e - s) <? MAX_WORDLEN) with true
        by (symmetry; apply Z.ltb_lt; lia).
      cbn [assert bind].
      rewrite (flat_map_const_length _ 27)
        by (intros; apply slice_columns_length).
      rewrite upto_length.
      replace (Z.of_nat (Z.to_nat (e - s) * 27) =? (0 + (e - s)) * 27)
        with true by (symmetry; apply Z.eqb_eq; lia).
      cbn [assert bind]. eexists. split; [reflexivity |].
      f_equal. apply flat_map_ext_in'. intros k Hk. apply in_upto in Hk.
      unfold cell_columns, slice_index. rewrite HN. cbn [orb run_cell].
      rewrite (Hword k Hk). reflexivity.
    + intros x Hx. apply (Hfix (s + x)). lia.
    + destruct (Z.eq_dec e (info_w info)) as [He | He]; [left; lia |].
      destruct M5 as [M5 | M5]; [contradiction | right; split; [lia |]].
      now replace (s + (0 + (e - s))) with e by lia.
  - rewrite (forced_loop_columns info
               (fun k => (s + k) * info_w info + l) 1 0 1 683
               (Z.to_nat (info_h info - s)) 0 (e - s) []); try lia.
    + cbn [bind fst snd app].
      replace (0 + (e - s) <? MAX_WORDLEN) with true
        by (symmetry; apply Z.ltb_lt; lia).
      cbn [assert bind].
      rewrite (flat_map_const_length _ 27)
        by (intros; apply slice_columns_length).
      rewrite upto_length.
      replace (Z.of_nat (Z.to_nat (e - s) * 27) =? (0 + (e - s)) * 27)
        with true by (symmetry; apply Z.eqb_eq; lia).
      cbn [assert bind]. eexists. split; [reflexivity |].
      f_equal. apply flat_map_ext_in'. intros k Hk. apply in_upto in Hk.
      unfold cell_columns, slice_index. rewrite HN. cbn [orb run_cell].
      rewrite (Hword k Hk). reflexivity.
    + intros x Hx. apply (Hfix (s + x)). lia.
    + destruct (Z.eq_dec e (info_h info)) as [He | He]; [left; lia |].
      destruct M5 as [M5 | M5]; [contradiction | right; split; [lia |]].
      now replace (s + (0 + (e - s))) with e by lia.
Qed.
Lemma forced_row_is_placement_row_witness :
  exists row,
    row_forced Across naive_options scenario1_info 2 0 = Ok row
    /\ placement_row_in_line
         Across naive_options scenario1_info 2 0
         (letters_in_line
            (line_cell Across (info_grid scenario1_info)
                       (info_w scenario1_info) 2) 0 3)
         (3 - 0)
       = Ok row.
Proof.
  apply (forced_row_is_placement_row naive_options scenario1_info Across
                                     2 0 3).
  - reflexivity.
  - split; [lia |]. split; [simpl; lia |]. split.
    + intros x Hx.
      assert (C : x = 0 \/ x = 1 \/ x = 2) by lia.
      destruct C as [-> | [-> | ->]]; vm_compute; discriminate.
    + split; [left; reflexivity | left; reflexivity].
  - intros x Hx.
    assert (C : x = 0 \/ x = 1 \/ x = 2) by lia.
    destruct C as [-> | [-> | ->]]; reflexivity.
  - vm_compute. reflexivity.
Defined.

(** ** Decoding a row *)

Lemma idx2ch_ch2idx (c : ascii) :
  idx2ch (ch2idx c) = if isalpha c then tolower c else "x".
Proof.
  destruct c as [[] [] [] [] [] [] [] []]; reflexivity.
Qed.

Lemma set_at_length (grid : list ascii) (cell : Z) (ch : ascii) :
  0 <= cell < Z.of_nat (List.length grid) ->
  List.length (set_at grid cell ch) = List.length grid.
Proof.
  intros H. unfold set_at.
  rewrite length_app, length_firstn. cbn [List.length].
  rewrite length_skipn. lia.
Qed.

Lemma at_set_at_same (grid : list ascii) (cell : Z) (ch : ascii) :
  0 <= cell < Z.of_nat (List.length grid) ->
  at_ (set_at grid cell ch) cell = ch.
Proof.
  intros H. unfold at_, set_at.
  rewrite app_nth2 by (rewrite length_firstn; lia).
  rewrite length_firstn.
  replace (Z.to_nat cell - Nat.min (Z.to_nat cell) (List.length grid))%nat
    with 0%nat by lia.
  reflexivity.
Qed.

Lemma at_set_at_other (grid : list ascii) (cell p : Z) (ch : ascii) :
  0 <= cell < Z.of_nat (List.length grid) -> 0 <= p -> p <> cell ->
  at_ (set_at grid cell ch) p = at_ grid p.
Proof.
  intros H Hp Hne. unfold at_, set_at.
  destruct (Z.lt_ge_cases p cell) as [Lt | Ge].
  - rewrite app_nth1 by (rewrite length_firstn; lia).
    rewrite nth_firstn.
    replace (Z.to_nat p <? Z.to_nat cell)%nat with true
      by (symmetry; apply Nat.ltb_lt; lia).
    reflexivity.
  - rewrite app_nth2 by (rewrite length_firstn; lia).
    rewrite length_firstn.
    replace (Z.to_nat p - Nat.min (Z.to_nat cell) (List.length grid))%nat
      with (S (Z.to_nat p - S (Z.to_nat cell))) by lia.
    cbn [nth]. rewrite nth_skipn. f_equal. lia.
Qed.

Lemma for_each_app {A S : Type} (body : A -> S -> result S)
      (l1 l2 : list A) (s : S) :
  for_each (l1 ++ l2) body s
  = (s' <- for_each l1 body s ;; for_each l2 body s').
Proof.
  revert s. induction l1 as [| x l1 IH]; intros s; [reflexivity |].
  cbn [app for_each]. destruct (body x s); cbn [bind]; auto.
Qed.

Lemma for_each_noop {A S : Type} (body : A -> S -> result S)
      (l : list A) (s : S) :
  (forall x, In x l -> body x s = Ok s) -> for_each l body s = Ok s.
Proof.
  induction l as [| x l IH]; intros H; [reflexivity |].
  cbn [for_each]. rewrite (H x (or_introl eq_refl)). cbn [bind].
  apply IH. intros y Hy. apply H. now right.
Qed.

Lemma decode_row_unfold (opts : options) (info : xword_info)
      (row : list Z) (grid : list ascii) :
  decode_row opts info row grid
  = let this_is_an_across_word :=
      existsb (fun colx => Z.rem colx 54 =? 52) row in
    let this_is_a_down_word :=
      existsb (fun colx => Z.rem colx 54 =? 53) row in
    _ <- assert (this_is_an_across_word || this_is_a_down_word) 744 ;;
    if this_is_an_across_word && this_is_a_down_word then
      _ <- assert (UseNaiveMethod opts) 747 ;; Ok grid
    else if this_is_a_down_word then Ok grid
    else for_each row (decode_column opts info) grid.
Proof. reflexivity. Qed.

Lemma SLICE_TO_CELL_slice_index (opts : options) (info : xword_info)
      (cell : Z) :
  legal_grid (info_grid info) (info_w info) (info_h info) ->
  has_slice opts info cell ->
  SLICE_TO_CELL opts info
                (slice_index (UseNaiveMethod opts) (info_grid info) cell)
  = Ok cell.
Proof.
  intros Hg Hs. pose proof (slice_index_bound opts info cell Hs) as B.
  destruct Hs as [Hc Hu].
  pose proof (filter_length_le (fun i => openb (at_ (info_grid info) i))
                               (upto (info_w info * info_h info))) as Hle.
  rewrite upto_length in Hle.
  fold (open_cells (info_grid info) (info_w info * info_h info)) in Hle.
  rewrite SLICE_TO_CELL_legal
    by (try assumption; destruct (UseNaiveMethod opts); lia).
  unfold slice_index in *.
  destruct (UseNaiveMethod opts); [reflexivity |].
  destruct Hu as [Hu | Hu]; [discriminate Hu |].
  apply open_cell_openb in Hu.
  fold (open_cells (info_grid info) cell).
  rewrite Nat2Z.id.
  now rewrite (open_cells_nth _ _ cell Hc Hu).
Qed.

(** Decoding the 27 columns that an Across row holds for one cell. *)
Lemma decode_slice_columns (opts : options) (info : xword_info)
      (cell a : Z) (grid : list ascii) :
  legal_grid (info_grid info) (info_w info) (info_h info) ->
  has_slice opts info cell -> 0 <= a < 26 ->
  for_each (slice_columns
              (27*2*slice_index (UseNaiveMethod opts) (info_grid info) cell)
              a 0 1 0)
           (decode_column opts info) grid
  = Ok (set_at grid cell (idx2ch a)).
Proof.
  intros Hg Hs Ha.
  set (s := slice_index (UseNaiveMethod opts) (info_grid info) cell).
  assert (Hs0 : 0 <= s) by (apply (slice_index_bound opts info cell Hs)).
  assert (ST : SLICE_TO_CELL opts info s = Ok cell).
  { apply SLICE_TO_CELL_slice_index; assumption. }
  assert (Col : forall x g, 0 <= x < 54 ->
            decode_column opts info (27*2*s + x) g
            = if x mod 2 =? 0
              then if x / 2 =? 26 then Ok g
                   else Ok (set_at g cell (idx2ch (x / 2)))
              else Ok g).
  { intros x g Hx. unfold decode_column.
    assert (Q : Z.quot (27*2*s + x) 54 = s).
    { rewrite Z.quot_div_nonneg by lia. Z.div_mod_to_equations. lia. }
    assert (R54 : Z.rem (27*2*s + x) 54 = x).
    { rewrite Z.rem_mod_nonneg by lia. Z.div_mod_to_equations. lia. }
    assert (R2 : Z.rem (27*2*s + x) 2 = x mod 2).
    { rewrite Z.rem_mod_nonneg by lia. Z.div_mod_to_equations. lia. }
    rewrite Q, ST, R54, R2. cbn [bind].
    destruct Hs as [Hc _].
    replace ((0 <=? cell) && (cell <? info_w info * info_h info)) with true
      by (symmetry; apply andb_true_iff; split;
          [apply Z.leb_le | apply Z.ltb_lt]; lia).
    cbn [assert bind].
    destruct (x mod 2 =? 0); [| reflexivity].
    rewrite Z.quot_div_nonneg by lia.
    destruct (x / 2 =? 26) eqn:E26; [reflexivity |].
    apply Z.eqb_neq in E26.
    assert (0 <= x / 2 < 27) by (Z.div_mod_to_equations; lia).
    replace ((0 <=? x / 2) && (x / 2 <? 26)) with true
      by (symmetry; apply andb_true_iff; split;
          [apply Z.leb_le | apply Z.ltb_lt]; lia).
    reflexivity. }
  unfold slice_columns. fold s.
  rewrite (upto_split 26 a Ha), map_app. cbn [map].
  rewrite <- app_assoc. cbn [app].
  rewrite for_each_app.
  rewrite for_each_noop.
  2:{ intros c Hc. apply in_map_iff in Hc. destruct Hc as [m [<- Hm]].
      apply in_upto in Hm.
      replace (a =? m) with false by (symmetry; apply Z.eqb_neq; lia).
      replace (27*2*s + 2*m + 1) with (27*2*s + (2*m + 1)) by lia.
      rewrite Col by lia.
      replace ((2*m + 1) mod 2) with 1
        by (Z.div_mod_to_equations; lia).
      reflexivity. }
  cbn [bind for_each]. rewrite Z.eqb_refl.
  replace (27*2*s + 2*a + 0) with (27*2*s + 2*a) by lia.
  rewrite Col by lia.
  replace ((2*a) mod 2) with 0 by (Z.div_mod_to_equations; lia).
  replace (2*a/2) with a by (Z.div_mod_to_equations; lia).
  rewrite Z.eqb_refl.
  replace (a =? 26) with false by (symmetry; apply Z.eqb_neq; lia).
  cbn [bind]. rewrite for_each_app.
  rewrite for_each_noop.
  2:{ intros c Hc. apply in_map_iff in Hc. destruct Hc as [m' [<- Hm]].
      apply in_map_iff in Hm. destruct Hm as [m [<- Hm]].
      apply in_upto in Hm.
      replace (a =? a + 1 + m) with false by (symmetry; apply Z.eqb_neq; lia).
      replace (27*2*s + 2*(a + 1 + m) + 1)
        with (27*2*s + (2*(a + 1 + m) + 1)) by lia.
      rewrite Col by lia.
      replace ((2*(a + 1 + m) + 1) mod 2) with 1
        by (Z.div_mod_to_equations; lia).
      reflexivity. }
  cbn [bind for_each].
  replace (27*2*s + 2*26 + 0) with (27*2*s + 52) by lia.
  rewrite Col by lia. reflexivity.
Qed.
Lemma cell_columns_contributes (opts : options) (info : xword_info)
      (o : orientation) (i j L : Z) (word : list ascii) (k : Z) :
  0 <= k < L ->
  (contributes opts info o i j L k /\
   cell_columns opts info o i j word k
   = match o with
     | Across =>
         slice_columns
           (27*2*slice_index (UseNaiveMethod opts) (info_grid info)
                             (run_cell o (info_w info) i j k))
           (ch2idx (at_ word k)) 0 1 0
     | Down =>
         slice_columns
           (27*2*slice_index (UseNaiveMethod opts) (info_grid info)
                             (run_cell o (info_w info) i j k))
           (ch2idx (at_ word k)) 1 0 1
     end)
  \/ (~ contributes opts info o i j L k
      /\ cell_columns opts info o i j word k = []).
Proof.
  intros Hk. unfold cell_columns, contributes.
  destruct (UseNaiveMethod opts) eqn:N; cbn [orb].
  - left. split; [split; [exact Hk | left; reflexivity] | reflexivity].
  - destruct (openb (at_ (info_grid info) (run_cell o (info_w info) i j k)))
             eqn:O.
    + left. split; [| reflexivity].
      split; [exact Hk | right; apply open_cell_openb; exact O].
    + right. split; [| reflexivity].
      intros [_ [H | H]]; [discriminate H |].
      apply open_cell_openb in H. congruence.
Qed.

Lemma contributes_has_slice (opts : options) (info : xword_info)
      (o : orientation) (i j L k : Z) :
  0 <= i < info_w info -> 0 <= j < info_h info ->
  within_grid o (info_w info) (info_h info) i j L ->
  contributes opts info o i j L k ->
  has_slice opts info (run_cell o (info_w info) i j k).
Proof.
  intros Hi Hj Hw [Hk U]. split; [| exact U].
  apply (run_cell_in_grid o _ _ i j L); assumption.
Qed.

Lemma placement_row_flags (opts : options) (info : xword_info)
      (o : orientation) (i j L : Z) (word : list ascii) :
  0 <= i < info_w info -> 0 <= j < info_h info ->
  within_grid o (info_w info) (info_h info) i j L ->
  (exists k, contributes opts info o i j L k) ->
  let row := flat_map (cell_columns opts info o i j word) (upto L) in
  existsb (fun colx => Z.rem colx 54 =? 52) row
  = match o with Across => true | Down => false end
  /\ existsb (fun colx => Z.rem colx 54 =? 53) row
     = match o with Across => false | Down => true end.
Proof.
  intros Hi Hj Hw [k0 Hk0] row.
  assert (Res : forall c, In c row ->
            exists s x, 0 <= s /\ c = 54 * s + x
                        /\ (0 <= x < 52
                            \/ x = match o with Across => 52 | Down => 53 end)).
  { intros c Hc. apply in_placement_row in Hc. destruct Hc as [k [Hk Hc]].
    destruct (cell_columns_has_slice _ _ _ _ _ _ _ _ _ Hi Hj Hw Hk Hc)
      as [Hs _].
    pose proof (slice_index_bound opts info _ Hs) as [B _].
    destruct (cell_columns_contributes opts info o i j L word k Hk)
      as [[_ E] | [_ E]]; rewrite E in Hc; [| destruct Hc].
    exists (slice_index (UseNaiveMethod opts) (info_grid info)
                        (run_cell o (info_w info) i j k)).
    exists (c - 54 * slice_index (UseNaiveMethod opts) (info_grid info)
                                 (run_cell o (info_w info) i j k)).
    split; [exact B |]. split; [lia |].
    destruct o; apply in_slice_columns in Hc;
      destruct Hc as [[m [Hm ->]] | ->];
      try (destruct (_ =? m)); lia. }
  assert (Has : In (27*2*slice_index (UseNaiveMethod opts) (info_grid info)
                                     (run_cell o (info_w info) i j k0)
                    + 2*26 + match o with Across => 0 | Down => 1 end) row).
  { apply in_placement_row. exists k0. destruct Hk0 as [Hk0 U].
    split; [exact Hk0 |].
    destruct (cell_columns_contributes opts info o i j L word k0 Hk0)
      as [[_ E] | [N _]]; [| exfalso; apply N; split; assumption].
    rewrite E. destruct o; apply in_slice_columns; right; reflexivity. }
  pose proof (slice_index_bound opts info _
                (contributes_has_slice _ _ _ _ _ _ _ Hi Hj Hw Hk0)) as [B0 _].
  assert (Rem : forall s x, 0 <= s -> 0 <= x < 54 ->
                            Z.rem (54 * s + x) 54 = x).
  { intros s x Hs Hx. rewrite Z.rem_mod_nonneg by lia.
    Z.div_mod_to_equations. lia. }
  split.
  - destruct o.
    + apply existsb_exists. eexists. split; [exact Has |].
      replace (27*2*slice_index (UseNaiveMethod opts) (info_grid info)
                                (run_cell Across (info_w info) i j k0)
               + 2*26 + 0)
        with (54 * slice_index (UseNaiveMethod opts) (info_grid info)
                               (run_cell Across (info_w info) i j k0) + 52)
        by lia.
      rewrite Rem by lia. reflexivity.
    + apply not_true_is_false. intros H. apply existsb_exists in H.
      destruct H as [c [Hc E]]. apply Z.eqb_eq in E.
      destruct (Res c Hc) as [s [x [Hs [-> Hx]]]].
      rewrite Rem in E by lia. lia.
  - destruct o.
    + apply not_true_is_false. intros H. apply existsb_exists in H.
      destruct H as [c [Hc E]]. apply Z.eqb_eq in E.
      destruct (Res c Hc) as [s [x [Hs [-> Hx]]]].
      rewrite Rem in E by lia. lia.
    + apply existsb_exists. eexists. split; [exact Has |].
      replace (27*2*slice_index (UseNaiveMethod opts) (info_grid info)
                                (run_cell Down (info_w info) i j k0)
               + 2*26 + 1)
        with (54 * slice_index (UseNaiveMethod opts) (info_grid info)
                               (run_cell Down (info_w info) i j k0) + 53)
        by lia.
      rewrite Rem by lia. reflexivity.
Qed.

(** Decoding the columns of the cells [ks] of an Across placement. *)
Lemma decode_across_cells (opts : options) (info : xword_info)
      (i j L : Z) (word : list ascii) :
  legal_grid (info_grid info) (info_w info) (info_h info) ->
  0 <= i < info_w info -> 0 <= j < info_h info ->
  within_grid Across (info_w info) (info_h info) i j L ->
  forall (ks : list Z) (g : list ascii),
    (forall k, In k ks -> 0 <= k < L) ->
    Z.of_nat (List.length g) = info_w info * info_h info ->
    exists g',
      for_each (flat_map (cell_columns opts info Across i j word) ks)
               (decode_column opts info) g = Ok g'
      /\ List.length g' = List.length g
      /\ (forall k, In k ks -> contributes opts info Across i j L k ->
                    at_ g' (run_cell Across (info_w info) i j k)
                    = idx2ch (ch2idx (at_ word k)))
      /\ (forall p, 0 <= p ->
                    (forall k, In k ks ->
                               contributes opts info Across i j L k ->
                               p <> run_cell Across (info_w info) i j k) ->
                    at_ g' p = at_ g p).
Proof.
  intros Hg Hi Hj Hw.
  induction ks as [| k ks IH]; intros g Hks Hlen.
  - exists g. cbn. repeat split; auto. intros k [].
  - cbn [flat_map]. rewrite for_each_app.
    assert (Hk : 0 <= k < L) by (apply Hks; now left).
    assert (Hks' : forall k', In k' ks -> 0 <= k' < L)
      by (intros; apply Hks; now right).
    destruct (cell_columns_contributes opts info Across i j L word k Hk)
      as [[C E] | [NC E]]; rewrite E.
    + pose proof (contributes_has_slice _ _ _ _ _ _ _ Hi Hj Hw C) as Hs.
      rewrite decode_slice_columns
        by (try assumption; apply ch2idx_range).
      cbn [bind].
      set (cell := run_cell Across (info_w info) i j k) in *.
      assert (Hcell : 0 <= cell < Z.of_nat (List.length g))
        by (destruct Hs; lia).
      destruct (IH (set_at g cell (idx2ch (ch2idx (at_ word k)))) Hks')
        as [g' [R [Len [Hit Miss]]]].
      { rewrite set_at_length by exact Hcell. exact Hlen. }
      exists g'. split; [exact R |].
      split; [rewrite Len; apply set_at_length; exact Hcell |].
      split.
      * intros k' [<- | Hin] C'.
        -- destruct (in_dec Z.eq_dec k ks) as [I | NI]; [apply Hit; auto |].
           fold cell. rewrite Miss.
           ++ apply at_set_at_same. exact Hcell.
           ++ lia.
           ++ intros k' Hk' _ Eq. apply NI.
              assert (k = k'); [| subst; exact Hk'].
              apply (run_cell_inj Across (info_w info) (info_h info) i j L);
                auto.
        -- apply Hit; auto.
      * intros p Hp Hne. rewrite Miss.
        -- apply at_set_at_other; [exact Hcell | exact Hp |].
           apply Hne; [now left | exact C].
        -- exact Hp.
        -- intros k' Hk' C'. apply Hne; [now right | exact C'].
    + cbn [for_each bind].
      destruct (IH g Hks' Hlen) as [g' [R [Len [Hit Miss]]]].
      exists g'. split; [exact R |]. split; [exact Len |]. split.
      * intros k' [<- | Hin] C'; [contradiction | apply Hit; auto].
      * intros p Hp Hne. apply Miss; [exact Hp |].
        intros k' Hk' C'. apply Hne; [now right | exact C'].
Qed.

(** X7: decoding inverts encoding.  On a grid of legal cells, for a
    placement that lies within the grid and has a contributing cell,
    decoding the emitted row into a working copy [g] of the grid fails no
    assertion; for an Across row it writes into each contributing cell of
    the run the letter [idx2ch (ch2idx c)] of the word's character [c]
    there and changes no other cell; for a Down row it changes
    nothing. *)
Theorem decode_placement_row (opts : options) (info : xword_info)
        (o : orientation) (i j L : Z) (word g : list ascii) :
  legal_grid (info_grid info) (info_w info) (info_h info) ->
  0 <= i < info_w info -> 0 <= j < info_h info ->
  within_grid o (info_w info) (info_h info) i j L ->
  (exists k, contributes opts info o i j L k) ->
  Z.of_nat (List.length g) = info_w info * info_h info ->
  exists row g',
    placement_row o opts info i j word L = Ok row
    /\ decode_row opts info row g = Ok g'
    /\ match o with
       | Down => g' = g
       | Across =>
           List.length g' = List.length g
           /\ (forall k, contributes opts info Across i j L k ->
                         at_ g' (run_cell Across (info_w info) i j k)
                         = idx2ch (ch2idx (at_ word k)))
           /\ (forall p, 0 <= p ->
                         (forall k, contributes opts info Across i j L k ->
                                    p <> run_cell Across (info_w info) i j k) ->
                         at_ g' p = at_ g p)
       end.
Proof.
  intros Hg Hi Hj Hw Hc Hlen.
  assert (HL : 0 <= L) by (destruct Hc as [k [Hk _]]; lia).
  destruct (placement_row_flags opts info o i j L word Hi Hj Hw Hc)
    as [FA FD].
  eexists.
  destruct o.
  - destruct (decode_across_cells opts info i j L word Hg Hi Hj Hw
                                  (upto L) g) as [g' [R [Len [Hit Miss]]]];
      [intros k Hk; apply in_upto; exact Hk | exact Hlen |].
    exists g'. split; [apply placement_row_cells; assumption |].
    rewrite decode_row_unfold. cbv zeta. rewrite FA, FD.
    cbn [orb andb assert bind]. split; [exact R |].
    split; [exact Len |]. split.
    + intros k C. apply Hit; [apply in_upto; destruct C; assumption | exact C].
    + intros p Hp Hne. apply Miss; [exact Hp |].
      intros k _ C. apply Hne. exact C.
  - exists g. split; [apply placement_row_cells; assumption |].
    rewrite decode_row_unfold. cbv zeta. rewrite FA, FD.
    cbn [orb andb assert bind]. split; reflexivity.
Qed.

Lemma decode_placement_row_witness :
  exists row g',
    placement_row Across default_options scenario1_info 0 0 (str "has") 3
    = Ok row
    /\ decode_row default_options scenario1_info row (str ".as.r.eta") = Ok g'
    /\ (List.length g' = List.length (str ".as.r.eta")
        /\ (forall k, contributes default_options scenario1_info Across 0 0 3 k ->
                      at_ g' (run_cell Across (info_w scenario1_info) 0 0 k)
                      = idx2ch (ch2idx (at_ (str "has") k)))
        /\ (forall p, 0 <= p ->
                      (forall k,
                          contributes default_options scenario1_info
                                      Across 0 0 3 k ->
                          p <> run_cell Across (info_w scenario1_info) 0 0 k) ->
                      at_ g' p = at_ (str ".as.r.eta") p)).
Proof.
  apply (decode_placement_row default_options scenario1_info Across 0 0 3
                              (str "has") (str ".as.r.eta")).
  - apply legal_grid_dec_true. reflexivity.
  - simpl. lia.
  - simpl. lia.
  - simpl. lia.
  - exists 0. split; [lia | right; left; reflexivity].
  - reflexivity.
Defined.

(** ** The matrix that [xword_solve] builds *)

Lemma add_rows_nil (mat : dance_matrix) : add_rows mat [] = mat.
Proof. destruct mat. unfold add_rows. cbn. now rewrite app_nil_r. Qed.

Lemma add_rows_app (mat : dance_matrix) (r1 r2 : list (list Z)) :
  add_rows (add_rows mat r1) r2 = add_rows mat (r1 ++ r2).
Proof. unfold add_rows. cbn. now rewrite app_assoc. Qed.

Lemma dance_addrow_in_range (mat : dance_matrix) (row : list Z) :
  (forall c, In c row -> 0 <= c < ncolumns mat) ->
  dance_addrow mat row = add_rows mat [row].
Proof.
  intros H. unfold dance_addrow.
  replace (forallb _ row) with true; [reflexivity |].
  symmetry. apply forallb_forall. intros c Hc. specialize (H c Hc).
  apply andb_true_iff. split; [apply Z.leb_le | apply Z.ltb_lt]; lia.
Qed.

Lemma for_each_collect {A : Type} (f : A -> list (list Z))
      (body : A -> dance_matrix -> result dance_matrix) (xs : list A) :
  forall mat,
    (forall x m, In x xs -> ncolumns m = ncolumns mat ->
                 body x m = Ok (add_rows m (f x))) ->
    for_each xs body mat = Ok (add_rows mat (flat_map f xs)).
Proof.
  induction xs as [| x xs IH]; intros mat H.
  - cbn. now rewrite add_rows_nil.
  - cbn [for_each flat_map]. rewrite H by (auto; now left). cbn [bind].
    rewrite IH.
    + now rewrite add_rows_app.
    + intros y m Hy Hm. apply H; [now right | exact Hm].
Qed.

Lemma placement_row_range (opts : options) (info : xword_info)
      (o : orientation) (i j : Z) (word : list ascii) (L ns c : Z) :
  legal_grid (info_grid info) (info_w info) (info_h info) ->
  0 <= i < info_w info -> 0 <= j < info_h info ->
  within_grid o (info_w info) (info_h info) i j L ->
  NUMBER_OF_SLICES opts info = Ok ns ->
  In c (flat_map (cell_columns opts info o i j word) (upto L)) ->
  0 <= c < 27*2*ns.
Proof.
  intros Hg Hi Hj Hw Hns Hc.
  rewrite NUMBER_OF_SLICES_legal in Hns by assumption. injection Hns as <-.
  apply in_placement_row in Hc. destruct Hc as [k [Hk Hc]].
  destruct (cell_columns_has_slice _ _ _ _ _ _ _ _ _ Hi Hj Hw Hk Hc)
    as [Hs B].
  pose proof (slice_index_bound opts info _ Hs) as SB. lia.
Qed.

Lemma add_rows_for_word_eq (opts : options) (info : xword_info)
      (word : list ascii) (ns : Z) (mat : dance_matrix) :
  legal_grid (info_grid info) (info_w info) (info_h info) ->
  NUMBER_OF_SLICES opts info = Ok ns ->
  ncolumns mat = 27*2*ns ->
  add_rows_for_word opts info word mat
  = Ok (add_rows mat (word_rows opts info word)).
Proof.
  intros Hg Hns Hcols. unfold add_rows_for_word, word_rows.
  apply for_each_collect. intros j m Hj Hm. apply in_upto in Hj.
  apply for_each_collect. intros i m' Hi Hm'. apply in_upto in Hi.
  assert (Hc' : ncolumns m' = 27*2*ns) by congruence.
  set (wlen := Z.of_nat (List.length word)).
  assert (Hwl : 0 <= wlen) by (unfold wlen; lia).
  unfold rows_at. fold wlen.
  assert (Row : forall o m0,
             ncolumns m0 = 27*2*ns ->
             entry_fits o (info_grid info) (info_w info) (info_h info)
                        i j word wlen = 1 ->
             (placement_row o opts info i j word wlen
              = Ok (flat_map (cell_columns opts info o i j word) (upto wlen)))
             /\ dance_addrow m0 (flat_map (cell_columns opts info o i j word)
                                          (upto wlen))
                = add_rows m0 [flat_map (cell_columns opts info o i j word)
                                        (upto wlen)]).
  { intros o m0 Hm0 Hfit.
    assert (Hw : within_grid o (info_w info) (info_h info) i j wlen).
    { apply (entry_fits_within_grid o (info_grid info) _ _ _ _ word);
        try assumption. rewrite Hfit. discriminate. }
    split; [apply placement_row_cells; assumption |].
    apply dance_addrow_in_range. intros c Hc. rewrite Hm0.
    apply (placement_row_range opts info o i j word wlen); assumption. }
  destruct (entry_fits_across _ _ _ i j word wlen =? 1) eqn:EA;
    destruct (entry_fits_down _ _ _ i j word wlen =? 1) eqn:ED;
    try apply Z.eqb_eq in EA; try apply Z.eqb_eq in ED.
  - destruct (Row Across m' Hc' EA) as [R1 A1].
    unfold add_row_across. cbn [placement_row] in R1. rewrite R1.
    cbn [bind]. rewrite A1.
    destruct (Row Down (add_rows m' [flat_map (cell_columns opts info Across
                                                            i j word)
                                              (upto wlen)]) Hc' ED)
      as [R2 A2].
    unfold add_row_down. cbn [placement_row] in R2. rewrite R2.
    cbn [bind]. rewrite A2, add_rows_app. reflexivity.
  - destruct (Row Across m' Hc' EA) as [R1 A1].
    unfold add_row_across. cbn [placement_row] in R1. rewrite R1.
    cbn [bind]. rewrite A1. reflexivity.
  - destruct (Row Down m' Hc' ED) as [R2 A2].
    unfold add_row_down. cbn [placement_row] in R2. rewrite R2.
    cbn [bind app]. rewrite A2. reflexivity.
  - cbn [bind app]. now rewrite add_rows_nil.
Qed.

Lemma xdict_match_star (w : list ascii) : xdict_match w (str "*") = true.
Proof.
  induction w as [| x w IH]; [reflexivity |].
  change (xdict_match (x :: w) (str "*"))
    with (false || xdict_match w (str "*")).
  rewrite IH. reflexivity.
Qed.

Lemma xdict_find_star_all {S : Type} (d : xdict)
      (f : list ascii -> S -> result S) (s : S) :
  xdict_find_star d (str "*") f s = for_each (dict_words d) f s.
Proof.
  unfold xdict_find_star, dict_words. cbn [str list_ascii_of_string filter].
  change (negb (Ascii.eqb "*" "*")) with false. cbn [List.length skipn].
  f_equal. apply forallb_filter_id. apply forallb_forall.
  intros w _. apply xdict_match_star.
Qed.

Lemma build_matrix_eq (opts : options) (info : xword_info) (dict : xdict) :
  legal_grid (info_grid info) (info_w info) (info_h info) ->
  UseNaiveMethod opts = false ->
  build_matrix opts info dict
  = Ok {| ncolumns :=
            27*2*Z.of_nat (List.length
                             (open_cells (info_grid info)
                                         (info_w info * info_h info)));
          rows := flat_map (word_rows opts info) (dict_words dict) |}.
Proof.
  intros Hg N. unfold build_matrix.
  pose proof (NUMBER_OF_SLICES_legal opts info Hg) as Hns.
  rewrite N in Hns. rewrite Hns. cbn [bind]. rewrite N.
  rewrite xdict_find_star_all.
  rewrite (for_each_collect (word_rows opts info)).
  - reflexivity.
  - intros word m _ Hm.
    apply (add_rows_for_word_eq opts info word _ m Hg Hns).
    rewrite Hm. reflexivity.
Qed.
Lemma in_word_rows (opts : options) (info : xword_info) (word : list ascii)
      (r : list Z) :
  In r (word_rows opts info word) <->
  exists o i j,
    0 <= i < info_w info /\ 0 <= j < info_h info
    /\ entry_fits o (info_grid info) (info_w info) (info_h info) i j word
                  (Z.of_nat (List.length word)) = 1
    /\ r = flat_map (cell_columns opts info o i j word)
                    (upto (Z.of_nat (List.length word))).
Proof.
  unfold word_rows. rewrite in_flat_map. split.
  - intros [j [Hj H]]. apply in_flat_map in H. destruct H as [i [Hi H]].
    apply in_upto in Hi, Hj. unfold rows_at in H. apply in_app_iff in H.
    destruct H as [H | H].
    + destruct (entry_fits_across _ _ _ i j word _ =? 1) eqn:E;
        [| destruct H].
      apply Z.eqb_eq in E. destruct H as [<- | []].
      exists Across, i, j. auto.
    + destruct (entry_fits_down _ _ _ i j word _ =? 1) eqn:E;
        [| destruct H].
      apply Z.eqb_eq in E. destruct H as [<- | []].
      exists Down, i, j. auto.
  - intros [o [i [j [Hi [Hj [E ->]]]]]]. exists j.
    split; [apply in_upto; exact Hj |]. apply in_flat_map. exists i.
    split; [apply in_upto; exact Hi |]. unfold rows_at. apply in_app_iff.
    destruct o; cbn [entry_fits] in E; rewrite E; cbn [Z.eqb Pos.eqb];
      [left | right]; now left.
Qed.

(** X8: the rows of the matrix that [xword_solve] builds in compressed
    mode, on a grid of legal cells.  The construction fails no assertion,
    the matrix has [54 * NUMBER_OF_SLICES] columns, and its rows are
    exactly the rows emitted for the placements, Across or Down, of the
    words of the dictionary (of the buckets below [XDICT_MAXLENGTH]) that
    the run-fit test rates 1 (fits, loosely): none is missing and none is
    refused by the column-range check of [dance_addrow]. *)
Theorem build_matrix_rows (opts : options) (info : xword_info)
        (dict : xdict) :
  legal_grid (info_grid info) (info_w info) (info_h info) ->
  UseNaiveMethod opts = false ->
  exists mat ns,
    build_matrix opts info dict = Ok mat
    /\ NUMBER_OF_SLICES opts info = Ok ns
    /\ ncolumns mat = 27*2*ns
    /\ forall r,
        In r (rows mat) <->
        exists o i j word,
          In word (dict_words dict)
          /\ 0 <= i < info_w info /\ 0 <= j < info_h info
          /\ entry_fits o (info_grid info) (info_w info) (info_h info)
                        i j word (Z.of_nat (List.length word)) = 1
          /\ placement_row o opts info i j word
                           (Z.of_nat (List.length word)) = Ok r.
Proof.
  intros Hg N. eexists. eexists.
  split; [apply build_matrix_eq; assumption |].
  split; [rewrite NUMBER_OF_SLICES_legal, N by assumption; reflexivity |].
  split; [reflexivity |].
  intros r. cbn [rows]. rewrite in_flat_map.
  assert (Row : forall o i j word,
             0 <= i < info_w info -> 0 <= j < info_h info ->
             entry_fits o (info_grid info) (info_w info) (info_h info)
                        i j word (Z.of_nat (List.length word)) = 1 ->
             placement_row o opts info i j word (Z.of_nat (List.length word))
             = Ok (flat_map (cell_columns opts info o i j word)
                            (upto (Z.of_nat (List.length word))))).
  { intros o i j word Hi Hj E. apply placement_row_cells; try assumption;
      [lia |].
    apply (entry_fits_within_grid o (info_grid info) _ _ _ _ word);
      try assumption. rewrite E. discriminate. }
  split.
  - intros [word [Hw H]]. apply in_word_rows in H.
    destruct H as [o [i [j [Hi [Hj [E ->]]]]]].
    exists o, i, j, word. repeat split; try assumption; try lia.
    apply Row; assumption.
  - intros [o [i [j [word [Hw [Hi [Hj [E R]]]]]]]].
    exists word. split; [exact Hw |]. apply in_word_rows.
    exists o, i, j. repeat split; try assumption; try lia.
    rewrite Row in R by assumption. now injection R as <-.
Qed.

Lemma build_matrix_rows_witness :
  exists mat ns,
    build_matrix default_options scenario1_info scenario1_dict = Ok mat
    /\ NUMBER_OF_SLICES default_options scenario1_info = Ok ns
    /\ ncolumns mat = 27*2*ns
    /\ forall r,
        In r (rows mat) <->
        exists o i j word,
          In word (dict_words scenario1_dict)
          /\ 0 <= i < info_w scenario1_info /\ 0 <= j < info_h scenario1_info
          /\ entry_fits o (info_grid scenario1_info) (info_w scenario1_info)
                        (info_h scenario1_info)
                        i j word (Z.of_nat (List.length word)) = 1
          /\ placement_row o default_options scenario1_info i j word
                           (Z.of_nat (List.length word)) = Ok r.
Proof.
  apply (build_matrix_rows default_options scenario1_info scenario1_dict).
  - apply legal_grid_dec_true. reflexivity.
  - reflexivity.
Defined.

Lemma add_rows_for_word_ok (opts : options) (info : xword_info) (ns : Z) :
  legal_grid (info_grid info) (info_w info) (info_h info) ->
  NUMBER_OF_SLICES opts info = Ok ns ->
  forall (ws : list (list ascii)) (mat : dance_matrix),
    ncolumns mat = 27*2*ns ->
    exists mat', for_each ws (add_rows_for_word opts info) mat = Ok mat'.
Proof.
  intros Hg Hns ws mat Hc. eexists.
  apply (for_each_collect (word_rows opts info)).
  intros word m _ Hm. apply (add_rows_for_word_eq opts info word ns);
    try assumption. congruence.
Qed.

(** X9: building the matrix fails no assertion.  On a grid of legal cells,
    [xword_solve] reaches the call of [dance_solve] for every dictionary:
    always in compressed mode, and in naive mode whenever every maximal
    run that holds only letters has fewer than [MAX_WORDLEN] cells. *)
Theorem build_matrix_succeeds (opts : options) (info : xword_info)
        (dict : xdict) :
  legal_grid (info_grid info) (info_w info) (info_h info) ->
  (UseNaiveMethod opts = true ->
   fixed_runs_below MAX_WORDLEN (info_grid info) (info_w info) (info_h info)) ->
  exists mat, build_matrix opts info dict = Ok mat.
Proof.
  intros Hg Hruns. unfold build_matrix.
  pose proof (NUMBER_OF_SLICES_legal opts info Hg) as Hns.
  rewrite Hns. cbn [bind]. rewrite xdict_find_star_all.
  destruct (add_rows_for_word_ok opts info _ Hg Hns (dict_words dict)
              (dance_init
                 (27*2*(if UseNaiveMethod opts
                        then info_w info * info_h info
                        else Z.of_nat
                               (List.length
                                  (open_cells (info_grid info)
                                              (info_w info * info_h info))))))
              eq_refl) as [mat1 E].
  rewrite E. cbn [bind].
  destruct (UseNaiveMethod opts) eqn:N; [| eexists; reflexivity].
  destruct Hg as [Hw [Hh _]].
  destruct (naive_rows_emitted opts info mat1 N Hw Hh (Hruns eq_refl))
    as [m1 [m2 [B F]]].
  rewrite B. cbn [bind]. rewrite F. eexists; reflexivity.
Qed.
Lemma build_matrix_succeeds_witness :
  exists mat, build_matrix naive_options scenario1_info scenario1_dict = Ok mat.
Proof.
  apply (build_matrix_succeeds naive_options scenario1_info scenario1_dict).
  - apply legal_grid_dec_true. reflexivity.
  - intros _ r [_ [M1 [M2 _]]] _. unfold run_length, MAX_WORDLEN.
    destruct (run_o r); simpl in M2; lia.
Defined.

(** ** From an exact cover to a filled grid *)

Lemma in_pl_row (opts : options) (info : xword_info) (P : placement)
      (c : Z) :
  In c (pl_row opts info P) <->
  exists k,
    contributes opts info (pl_o P) (pl_i P) (pl_j P) (pl_len P) k
    /\ placement_columns
         (pl_o P)
         (slice_index (UseNaiveMethod opts) (info_grid info)
                      (run_cell (pl_o P) (info_w info) (pl_i P) (pl_j P) k))
         (pl_letter P k) c.
Proof.
  unfold pl_row. rewrite in_placement_row. split.
  - intros [k [Hk Hc]].
    destruct (cell_columns_contributes opts info (pl_o P) (pl_i P) (pl_j P)
                (pl_len P) (pl_word P) k Hk) as [[C E] | [_ E]];
      rewrite E in Hc; [| destruct Hc].
    exists k. split; [exact C |].
    apply slice_columns_placement; [apply ch2idx_range |].
    destruct (pl_o P); exact Hc.
  - intros [k [C Hc]]. exists k. destruct C as [Hk U].
    split; [exact Hk |].
    destruct (cell_columns_contributes opts info (pl_o P) (pl_i P) (pl_j P)
                (pl_len P) (pl_word P) k Hk) as [[_ E] | [N _]];
      [| exfalso; apply N; split; assumption].
    rewrite E.
    apply slice_columns_placement in Hc; [| apply ch2idx_range].
    destruct (pl_o P); exact Hc.
Qed.

Lemma decode_column_eq (opts : options) (info : xword_info)
      (cell x : Z) (g : list ascii) :
  legal_grid (info_grid info) (info_w info) (info_h info) ->
  has_slice opts info cell -> 0 <= x < 54 ->
  decode_column opts info
    (54 * slice_index (UseNaiveMethod opts) (info_grid info) cell + x) g
  = if x mod 2 =? 0
    then if x / 2 =? 26 then Ok g
         else Ok (set_at g cell (idx2ch (x / 2)))
    else Ok g.
Proof.
  intros Hg Hs Hx.
  set (s := slice_index (UseNaiveMethod opts) (info_grid info) cell).
  assert (Hs0 : 0 <= s) by (apply (slice_index_bound opts info cell Hs)).
  assert (ST : SLICE_TO_CELL opts info s = Ok cell)
    by (apply SLICE_TO_CELL_slice_index; assumption).
  unfold decode_column.
  assert (Q : Z.quot (54*s + x) 54 = s).
  { rewrite Z.quot_div_nonneg by lia. Z.div_mod_to_equations. lia. }
  assert (R54 : Z.rem (54*s + x) 54 = x).
  { rewrite Z.rem_mod_nonneg by lia. Z.div_mod_to_equations. lia. }
  assert (R2 : Z.rem (54*s + x) 2 = x mod 2).
  { rewrite Z.rem_mod_nonneg by lia. Z.div_mod_to_equations. lia. }
  rewrite Q, ST, R54, R2. cbn [bind].
  destruct Hs as [Hc _].
  replace ((0 <=? cell) && (cell <? info_w info * info_h info)) with true
    by (symmetry; apply andb_true_iff; split;
        [apply Z.leb_le | apply Z.ltb_lt]; lia).
  cbn [assert bind].
  destruct (x mod 2 =? 0); [| reflexivity].
  rewrite Z.quot_div_nonneg by lia.
  destruct (x / 2 =? 26) eqn:E26; [reflexivity |].
  apply Z.eqb_neq in E26.
  assert (0 <= x / 2 < 27) by (Z.div_mod_to_equations; lia).
  replace ((0 <=? x / 2) && (x / 2 <? 26)) with true
    by (symmetry; apply andb_true_iff; split;
        [apply Z.leb_le | apply Z.ltb_lt]; lia).
  reflexivity.
Qed.

(** What decoding does with one column of an Across row. *)
Lemma decode_across_column (opts : options) (info : xword_info)
      (cell a c : Z) (g : list ascii) :
  legal_grid (info_grid info) (info_w info) (info_h info) ->
  has_slice opts info cell -> 0 <= a < 26 ->
  placement_columns
    Across (slice_index (UseNaiveMethod opts) (info_grid info) cell) a c ->
  decode_column opts info c g
  = Ok (if c =? 54 * slice_index (UseNaiveMethod opts) (info_grid info) cell
                + 2 * a
        then set_at g cell (idx2ch a) else g).
Proof.
  intros Hg Hs Ha Hc. cbn [placement_columns] in Hc.
  set (s := slice_index (UseNaiveMethod opts) (info_grid info) cell) in *.
  destruct Hc as [-> | [-> | [m [Hm [Hne ->]]]]].
  - rewrite Z.eqb_refl. unfold s. rewrite decode_column_eq by (auto; lia).
    replace ((2*a) mod 2) with 0 by (Z.div_mod_to_equations; lia).
    replace (2*a/2) with a by (Z.div_mod_to_equations; lia).
    rewrite Z.eqb_refl.
    replace (a =? 26) with false by (symmetry; apply Z.eqb_neq; lia).
    reflexivity.
  - replace (54*s + 52 =? 54*s + 2*a) with false
      by (symmetry; apply Z.eqb_neq; lia).
    unfold s. rewrite decode_column_eq by (auto; lia). reflexivity.
  - replace (54*s + 2*m + 1 =? 54*s + 2*a) with false
      by (symmetry; apply Z.eqb_neq; lia).
    replace (54*s + 2*m + 1) with (54*s + (2*m + 1)) by lia.
    unfold s. rewrite decode_column_eq by (auto; lia).
    replace ((2*m + 1) mod 2) with 1 by (Z.div_mod_to_equations; lia).
    reflexivity.
Qed.

Lemma pl_within_grid (info : xword_info) (dict : xdict) (P : placement) :
  pl_valid info dict P ->
  within_grid (pl_o P) (info_w info) (info_h info) (pl_i P) (pl_j P)
              (pl_len P).
Proof.
  intros [_ [Hi [Hj E]]].
  apply (entry_fits_within_grid (pl_o P) (info_grid info) _ _ _ _
                                (pl_word P)); try assumption.
  rewrite E. discriminate.
Qed.

Lemma touches_has_slice (opts : options) (info : xword_info) (dict : xdict)
      (P : placement) (p k : Z) :
  pl_valid info dict P -> touches opts info P p k -> has_slice opts info p.
Proof.
  intros V [C ->]. pose proof (pl_within_grid info dict P V) as Hw.
  destruct V as [_ [Hi [Hj _]]].
  apply (contributes_has_slice _ _ _ _ _ (pl_len P)); assumption.
Qed.

Lemma touches_inj (opts : options) (info : xword_info) (dict : xdict)
      (P : placement) (p k k' : Z) :
  pl_valid info dict P ->
  touches opts info P p k -> touches opts info P p k' -> k = k'.
Proof.
  intros V [[Hk _] E] [[Hk' _] E'].
  pose proof (pl_within_grid info dict P V) as Hw.
  destruct V as [_ [Hi [Hj _]]].
  apply (run_cell_inj (pl_o P) (info_w info) (info_h info) (pl_i P) (pl_j P)
                      (pl_len P)); try assumption.
  congruence.
Qed.

Lemma decode_across_columns (opts : options) (info : xword_info)
      (dict : xdict) (P : placement) :
  legal_grid (info_grid info) (info_w info) (info_h info) ->
  pl_valid info dict P -> pl_o P = Across ->
  forall (cols : list Z) (g : list ascii),
    (forall c, In c cols -> In c (pl_row opts info P)) ->
    Z.of_nat (List.length g) = info_w info * info_h info ->
    exists g',
      for_each cols (decode_column opts info) g = Ok g'
      /\ List.length g' = List.length g
      /\ (forall p k,
             touches opts info P p k ->
             In (54 * slice_index (UseNaiveMethod opts) (info_grid info) p
                 + 2 * pl_letter P k) cols ->
             at_ g' p = idx2ch (pl_letter P k))
      /\ (forall p,
             0 <= p ->
             (forall k,
                 touches opts info P p k ->
                 ~ In (54 * slice_index (UseNaiveMethod opts)
                                        (info_grid info) p
                       + 2 * pl_letter P k) cols) ->
             at_ g' p = at_ g p).
Proof.
  intros Hg V HA.
  induction cols as [| c cols IH]; intros g Hcols Hlen.
  - exists g. cbn. repeat split; auto. intros p k _ [].
  - cbn [for_each].
    assert (Hc : In c (pl_row opts info P)) by (apply Hcols; now left).
    apply in_pl_row in Hc. destruct Hc as [k0 [C0 PC]]. rewrite HA in PC.
    set (cell0 := run_cell (pl_o P) (info_w info) (pl_i P) (pl_j P) k0).
    assert (T0 : touches opts info P cell0 k0) by (split; [exact C0 | reflexivity]).
    pose proof (touches_has_slice opts info dict P cell0 k0 V T0) as Hs0.
    assert (Hcell0 : 0 <= cell0 < Z.of_nat (List.length g))
      by (destruct Hs0; lia).
    assert (PC' : placement_columns
                    Across
                    (slice_index (UseNaiveMethod opts) (info_grid info) cell0)
                    (pl_letter P k0) c)
      by (unfold cell0; rewrite HA; exact PC).
    clear PC. rename PC' into PC.
    rewrite (decode_across_column opts info cell0 (pl_letter P k0) c g Hg Hs0
                                  (ch2idx_range _) PC).
    cbn [bind].
    set (s0 := slice_index (UseNaiveMethod opts) (info_grid info) cell0) in *.
    set (g1 := if c =? 54 * s0 + 2 * pl_letter P k0
               then set_at g cell0 (idx2ch (pl_letter P k0)) else g).
    assert (Hlen1 : List.length g1 = List.length g).
    { unfold g1. destruct (c =? _); [apply set_at_length; exact Hcell0
                                    | reflexivity]. }
    destruct (IH g1) as [g' [R [Len [Hit Miss]]]].
    { intros c' Hc'. apply Hcols. now right. }
    { rewrite Hlen1. exact Hlen. }
    exists g'. split; [exact R |]. split; [congruence |].
    pose proof (slice_index_bound opts info cell0 Hs0) as [B0 _].
    fold s0 in B0.
    pose proof (ch2idx_range (at_ (pl_word P) k0)) as Ha0.
    fold (pl_letter P k0) in Ha0.
    split.
    + intros p k T [Ec | Hin].
      2:{ apply Hit; assumption. }
      destruct (in_dec Z.eq_dec
                       (54 * slice_index (UseNaiveMethod opts)
                                         (info_grid info) p
                        + 2 * pl_letter P k) cols) as [I | NI].
      { apply Hit; assumption. }
      pose proof (touches_has_slice opts info dict P p k V T) as Hsp.
      pose proof (slice_index_bound opts info p Hsp) as [Bp _].
      pose proof (ch2idx_range (at_ (pl_word P) k)) as Ha.
      fold (pl_letter P k) in Ha.
      rewrite Miss.
      * cbn [placement_columns] in PC.
        assert (E : slice_index (UseNaiveMethod opts) (info_grid info) p = s0
                    /\ pl_letter P k = pl_letter P k0).
        { destruct PC as [PC | [PC | [m [Hm [Hne PC]]]]]; lia. }
        destruct E as [Es Ea].
        assert (p = cell0)
          by (apply (slice_index_inj opts info); assumption).
        subst p. unfold g1. rewrite Ea in *.
        replace (c =? 54 * s0 + 2 * pl_letter P k0) with true
          by (symmetry; apply Z.eqb_eq; lia).
        apply at_set_at_same. exact Hcell0.
      * destruct Hsp; lia.
      * intros k' T'.
        assert (k' = k) by (apply (touches_inj opts info dict P p); assumption).
        subst k'. exact NI.
    + intros p Hp Hno. rewrite Miss.
      * unfold g1.
        destruct (c =? 54 * s0 + 2 * pl_letter P k0) eqn:E; [| reflexivity].
        apply Z.eqb_eq in E.
        apply at_set_at_other; [exact Hcell0 | exact Hp |].
        intros ->. apply (Hno k0 T0). left. fold s0. lia.
      * exact Hp.
      * intros k T Hin. apply (Hno k T). now right.
Qed.

Lemma existsb_perm {A : Type} (f : A -> bool) (l l' : list A) :
  Permutation l l' -> existsb f l = existsb f l'.
Proof.
  intros H. destruct (existsb f l') eqn:E.
  - apply existsb_exists in E. destruct E as [x [Hx Fx]].
    apply existsb_exists. exists x. split; [| exact Fx].
    apply (Permutation_in x (Permutation_sym H) Hx).
  - apply not_true_is_false. intros E'. apply existsb_exists in E'.
    destruct E' as [x [Hx Fx]].
    assert (existsb f l' = true); [| congruence].
    apply existsb_exists. exists x. split; [| exact Fx].
    apply (Permutation_in x H Hx).
Qed.

(** Decoding one entry of a solution stack: the row of a placement, its
    columns in any order. *)
Lemma decode_row_perm (opts : options) (info : xword_info) (dict : xdict)
      (P : placement) (r' : list Z) (g : list ascii) :
  legal_grid (info_grid info) (info_w info) (info_h info) ->
  pl_valid info dict P ->
  (exists k, contributes opts info (pl_o P) (pl_i P) (pl_j P) (pl_len P) k) ->
  Permutation r' (pl_row opts info P) ->
  Z.of_nat (List.length g) = info_w info * info_h info ->
  exists g',
    decode_row opts info r' g = Ok g'
    /\ List.length g' = List.length g
    /\ match pl_o P with
       | Down => g' = g
       | Across =>
           (forall p k, touches opts info P p k ->
                        at_ g' p = idx2ch (pl_letter P k))
           /\ (forall p, 0 <= p ->
                         (forall k, ~ touches opts info P p k) ->
                         at_ g' p = at_ g p)
       end.
Proof.
  intros Hg V Hc Hperm Hlen.
  pose proof (pl_within_grid info dict P V) as Hw.
  pose proof V as [Vw [Vi [Vj Vf]]].
  destruct (placement_row_flags opts info (pl_o P) (pl_i P) (pl_j P)
              (pl_len P) (pl_word P) Vi Vj Hw Hc) as [FA FD].
  fold (pl_row opts info P) in FA, FD.
  rewrite decode_row_unfold. cbv zeta.
  rewrite (existsb_perm _ _ _ Hperm), FA.
  rewrite (existsb_perm _ _ _ Hperm), FD.
  destruct (pl_o P) eqn:HO; cbn [orb andb assert bind].
  - destruct (decode_across_columns opts info dict P Hg V HO r' g)
      as [g' [R [Len [Hit Miss]]]].
    + intros c Hc'. apply (Permutation_in c Hperm Hc').
    + exact Hlen.
    + exists g'. split; [exact R |]. split; [exact Len |]. split.
      * intros p k T. apply Hit; [exact T |].
        apply (Permutation_in _ (Permutation_sym Hperm)).
        apply in_pl_row. destruct T as [C ->]. exists k.
        split; [exact C |]. rewrite HO. cbn [placement_columns]. left.
        reflexivity.
      * intros p Hp Hno. apply Miss; [exact Hp |].
        intros k T. exfalso. exact (Hno k T).
  - exists g. repeat split.
Qed.
Lemma across_touches_dec (opts : options) (info : xword_info)
      (P : placement) (p : Z) :
  pl_o P = Across ->
  (exists k, touches opts info P p k) \/ ~ (exists k, touches opts info P p k).
Proof.
  intros HO. unfold touches, contributes. rewrite HO. cbn [run_cell].
  set (k := p - (pl_j P * info_w info + pl_i P)).
  assert (Uniq : forall k', p = pl_j P * info_w info + (pl_i P + k') -> k' = k)
    by (intros; unfold k; lia).
  destruct (Z_le_dec 0 k) as [L1 | L1];
    [| right; intros [k' [[Hk _] E]]; apply Uniq in E; lia].
  destruct (Z_lt_dec k (pl_len P)) as [L2 | L2];
    [| right; intros [k' [[Hk _] E]]; apply Uniq in E; lia].
  destruct (UseNaiveMethod opts) eqn:N.
  { left. exists k. split; [split; [lia | left; reflexivity] | unfold k; lia]. }
  destruct (openb (at_ (info_grid info)
                       (pl_j P * info_w info + (pl_i P + k)))) eqn:O.
  - left. exists k.
    split; [split; [lia | right; apply open_cell_openb; exact O]
           | unfold k; lia].
  - right. intros [k' [[_ [U | U]] E]]; [discriminate U |].
    apply Uniq in E. subst k'. apply open_cell_openb in U. congruence.
Qed.

Lemma across_toucher_dec (opts : options) (info : xword_info)
      (es : list (list Z * placement)) (p : Z) :
  across_toucher opts info es p \/ ~ across_toucher opts info es p.
Proof.
  induction es as [| e es IH].
  - right. intros [e [k [[] _]]].
  - destruct IH as [[e' [k [Hin [HO T]]]] | IH].
    { left. exists e', k. split; [now right | split; assumption]. }
    destruct (pl_o (snd e)) eqn:HO.
    + destruct (across_touches_dec opts info (snd e) p HO) as [[k T] | NT].
      * left. exists e, k. split; [now left | split; assumption].
      * right. intros [e' [k [[<- | Hin] [HO' T]]]].
        -- apply NT. exists k. exact T.
        -- apply IH. exists e', k. split; [exact Hin | split; assumption].
    + right. intros [e' [k [[<- | Hin] [HO' T]]]].
      * congruence.
      * apply IH. exists e', k. split; [exact Hin | split; assumption].
Qed.

(** Decoding a whole stack. *)
Lemma decode_entries (opts : options) (info : xword_info) (dict : xdict) :
  legal_grid (info_grid info) (info_w info) (info_h info) ->
  forall (es : list (list Z * placement)) (g : list ascii),
    Forall (stack_entry opts info dict) es ->
    Z.of_nat (List.length g) = info_w info * info_h info ->
    exists g',
      for_each (map fst es) (decode_row opts info) g = Ok g'
      /\ List.length g' = List.length g
      /\ (forall p ch,
             across_toucher opts info es p ->
             (forall e k, In e es -> pl_o (snd e) = Across ->
                          touches opts info (snd e) p k ->
                          idx2ch (pl_letter (snd e) k) = ch) ->
             at_ g' p = ch)
      /\ (forall p, 0 <= p -> ~ across_toucher opts info es p ->
                    at_ g' p = at_ g p).
Proof.
  intros Hg. induction es as [| e es IH]; intros g Hes Hlen.
  - exists g. cbn. repeat split; auto.
    intros p ch [e [k [[] _]]].
  - inversion Hes as [| ? ? He Hes']; subst.
    destruct He as [V [Hc Hperm]].
    cbn [map for_each].
    destruct (decode_row_perm opts info dict (snd e) (fst e) g Hg V Hc Hperm
                              Hlen) as [g1 [R1 [Len1 Spec1]]].
    rewrite R1. cbn [bind].
    destruct (IH g1 Hes') as [g' [R [Len [Hit Miss]]]]; [congruence |].
    exists g'. split; [exact R |]. split; [congruence |]. split.
    + intros p ch Tch Hall.
      destruct (across_toucher_dec opts info es p) as [Tr | NTr].
      { apply Hit; [exact Tr |].
        intros e' k Hin. apply Hall. now right. }
      destruct Tch as [e' [k [[<- | Hin] [HO T]]]].
      2:{ exfalso. apply NTr. exists e', k. auto. }
      rewrite Miss; [| | exact NTr].
      * rewrite HO in Spec1. destruct Spec1 as [H1 _].
        rewrite (H1 p k T). apply (Hall e k); auto. now left.
      * apply (touches_has_slice opts info dict (snd e) p k V) in T.
        destruct T; lia.
    + intros p Hp NT. rewrite Miss; [| exact Hp |].
      * destruct (pl_o (snd e)) eqn:HO; [| congruence].
        destruct Spec1 as [_ H2]. apply H2; [exact Hp |].
        intros k T. apply NT. exists e, k. split; [now left | auto].
      * intros [e' [k [Hin [HO T]]]]. apply NT. exists e', k.
        split; [now right | auto].
Qed.
Lemma count_occ_concat_split (l1 l2 : list (list Z * placement))
      (e e' : list Z * placement) (c : Z) :
  In e' (l1 ++ l2) -> In c (fst e) -> In c (fst e') ->
  (2 <= count_occ Z.eq_dec (concat (map fst (l1 ++ e :: l2))) c)%nat.
Proof.
  intros He' Hc Hc'.
  rewrite map_app, concat_app. cbn [map concat].
  rewrite !count_occ_app.
  assert (C1 : (1 <= count_occ Z.eq_dec (fst e) c)%nat)
    by (apply count_occ_In; exact Hc).
  assert (C2 : forall l, In e' l ->
                         (1 <= count_occ Z.eq_dec (concat (map fst l)) c)%nat).
  { intros l Hl. apply count_occ_In. apply in_concat. exists (fst e').
    split; [apply in_map; exact Hl | exact Hc']. }
  apply in_app_or in He'. destruct He' as [H | H]; specialize (C2 _ H); lia.
Qed.

Section CoverFacts.
Variables (opts : options) (info : xword_info) (dict : xdict).
Variable es : list (list Z * placement).
Hypothesis legal : legal_grid (info_grid info) (info_w info) (info_h info).
Hypothesis entries : Forall (stack_entry opts info dict) es.
Hypothesis covered :
  forall p x, has_slice opts info p -> 0 <= x < 54 ->
              count_occ Z.eq_dec (concat (map fst es))
                        (54 * slice_index (UseNaiveMethod opts)
                                          (info_grid info) p + x) = 1%nat.

Lemma entry_in (e : list Z * placement) :
  In e es -> stack_entry opts info dict e.
Proof. intros H. rewrite Forall_forall in entries. exact (entries e H). Qed.

(** Two entries that hold the same column of a slice are one entry. *)
Lemma cover_entry_unique (e1 e2 : list Z * placement) (p x : Z) :
  has_slice opts info p -> 0 <= x < 54 ->
  In e1 es -> In e2 es ->
  In (54 * slice_index (UseNaiveMethod opts) (info_grid info) p + x)
     (fst e1) ->
  In (54 * slice_index (UseNaiveMethod opts) (info_grid info) p + x)
     (fst e2) ->
  e1 = e2.
Proof.
  intros Hs Hx H1 H2 C1 C2.
  destruct (in_split _ _ H1) as [l1 [l2 E]].
  pose proof (covered p x Hs Hx) as Hcount.
  rewrite E in H2, Hcount.
  apply in_app_or in H2. destruct H2 as [H2 | [H2 | H2]].
  - pose proof (count_occ_concat_split l1 l2 e1 e2 _
                  (in_or_app _ _ _ (or_introl H2)) C1 C2). lia.
  - auto.
  - pose proof (count_occ_concat_split l1 l2 e1 e2 _
                  (in_or_app _ _ _ (or_intror H2)) C1 C2). lia.
Qed.

Lemma entry_column (e : list Z * placement) (p k c : Z) :
  In e es -> touches opts info (snd e) p k ->
  placement_columns (pl_o (snd e))
                    (slice_index (UseNaiveMethod opts) (info_grid info) p)
                    (pl_letter (snd e) k) c ->
  In c (fst e).
Proof.
  intros He [C ->] PC. destruct (entry_in e He) as [_ [_ Hperm]].
  apply (Permutation_in _ (Permutation_sym Hperm)).
  apply in_pl_row. exists k. split; assumption.
Qed.

(** Every cell that has a slice lies on an entry of each direction. *)
Lemma cover_toucher (p : Z) (o : orientation) :
  has_slice opts info p ->
  exists e k, In e es /\ pl_o (snd e) = o /\ touches opts info (snd e) p k.
Proof.
  intros Hs.
  set (s := slice_index (UseNaiveMethod opts) (info_grid info) p).
  set (x := match o with Across => 52 | Down => 53 end).
  assert (Hx : 0 <= x < 54) by (destruct o; unfold x; lia).
  pose proof (covered p x Hs Hx) as Hcount. fold s in Hcount.
  assert (Hin : In (54 * s + x) (concat (map fst es))).
  { apply (count_occ_In Z.eq_dec). lia. }
  apply in_concat in Hin. destruct Hin as [r [Hr Hc]].
  apply in_map_iff in Hr. destruct Hr as [e [<- He]].
  destruct (entry_in e He) as [V [_ Hperm]].
  apply (Permutation_in _ Hperm) in Hc. apply in_pl_row in Hc.
  destruct Hc as [k [C PC]].
  set (q := run_cell (pl_o (snd e)) (info_w info) (pl_i (snd e))
                     (pl_j (snd e)) k) in *.
  assert (T : touches opts info (snd e) q k) by (split; [exact C | reflexivity]).
  pose proof (touches_has_slice opts info dict (snd e) q k V T) as Hq.
  pose proof (slice_index_bound opts info q Hq) as [Bq _].
  pose proof (slice_index_bound opts info p Hs) as [Bp _]. fold s in Bp.
  pose proof (ch2idx_range (at_ (pl_word (snd e)) k)) as Ha.
  fold (pl_letter (snd e) k) in Ha.
  assert (E : pl_o (snd e) = o
              /\ slice_index (UseNaiveMethod opts) (info_grid info) q = s).
  { destruct (pl_o (snd e)); cbn [placement_columns] in PC;
      destruct o; unfold x in *;
      destruct PC as [PC | [PC | [m [Hm [Hne PC]]]]];
      try lia; (split; [reflexivity | lia]). }
  destruct E as [EO ES].
  exists e, k. split; [exact He |]. split; [exact EO |].
  assert (q = p) by (apply (slice_index_inj opts info); assumption).
  subst p. exact T.
Qed.

(** All the entries that touch a cell put the same letter there. *)
Lemma cover_letters_agree (e1 e2 : list Z * placement) (p k1 k2 : Z) :
  In e1 es -> In e2 es ->
  touches opts info (snd e1) p k1 -> touches opts info (snd e2) p k2 ->
  pl_letter (snd e1) k1 = pl_letter (snd e2) k2.
Proof.
  intros H1 H2 T1 T2.
  destruct (entry_in e1 H1) as [V1 _].
  pose proof (touches_has_slice opts info dict (snd e1) p k1 V1 T1) as Hs.
  set (s := slice_index (UseNaiveMethod opts) (info_grid info) p).
  set (a1 := pl_letter (snd e1) k1). set (a2 := pl_letter (snd e2) k2).
  assert (Ha1 : 0 <= a1 < 26) by apply ch2idx_range.
  assert (Ha2 : 0 <= a2 < 26) by apply ch2idx_range.
  destruct (Z.eq_dec a1 a2) as [E | NE]; [exact E | exfalso].
  assert (Same : e1 = e2).
  { destruct (pl_o (snd e1)) eqn:O1; destruct (pl_o (snd e2)) eqn:O2.
    - apply (cover_entry_unique e1 e2 p 52); auto; try lia.
      + apply (entry_column e1 p k1); auto. rewrite O1.
        cbn [placement_columns]. right; left. reflexivity.
      + apply (entry_column e2 p k2); auto. rewrite O2.
        cbn [placement_columns]. right; left. reflexivity.
    - apply (cover_entry_unique e1 e2 p (2 * a2 + 1)); auto; try lia.
      + apply (entry_column e1 p k1); auto. rewrite O1.
        cbn [placement_columns]. right; right. exists a2. fold a1.
        repeat split; try lia.
      + apply (entry_column e2 p k2); auto. rewrite O2.
        cbn [placement_columns]. left. fold a2. lia.
    - apply (cover_entry_unique e1 e2 p (2 * a1 + 1)); auto; try lia.
      + apply (entry_column e1 p k1); auto. rewrite O1.
        cbn [placement_columns]. left. fold a1. lia.
      + apply (entry_column e2 p k2); auto. rewrite O2.
        cbn [placement_columns]. right; right. exists a1. fold a2.
        repeat split; try lia.
    - apply (cover_entry_unique e1 e2 p 53); auto; try lia.
      + apply (entry_column e1 p k1); auto. rewrite O1.
        cbn [placement_columns]. right; left. reflexivity.
      + apply (entry_column e2 p k2); auto. rewrite O2.
        cbn [placement_columns]. right; left. reflexivity. }
  subst e2.
  assert (k1 = k2) by (apply (touches_inj opts info dict (snd e1) p); assumption).
  subst k2. apply NE. reflexivity.
Qed.
End CoverFacts.
Lemma alpha_not_special (c : ascii) :
  isalpha c = true ->
  Ascii.eqb c "#" = false /\ Ascii.eqb c "." = false
  /\ Ascii.eqb c "0" = false /\ Ascii.eqb c "1" = false.
Proof.
  destruct c as [[] [] [] [] [] [] [] []]; intros H;
    try discriminate H; repeat split; reflexivity.
Qed.

Lemma tolower_idem (c : ascii) : tolower (tolower c) = tolower c.
Proof. destruct c as [[] [] [] [] [] [] [] []]; reflexivity. Qed.

(** A loose match against a letter of the word happens on an open cell
    only. *)
Lemma matches_loose_alpha (a b : ascii) :
  isalpha b = true -> matches a b = 1 -> open_cell a.
Proof.
  intros Hb. destruct (alpha_not_special b Hb) as [B1 [B2 [B3 B4]]].
  unfold matches, open_cell. rewrite B1, B2, B3, B4.
  rewrite !orb_false_r, !andb_false_r.
  destruct (Ascii.eqb a "#"); [discriminate |].
  destruct (Ascii.eqb a ".") eqn:E1;
    [apply ascii_eqb_eq in E1; auto |].
  destruct (Ascii.eqb a "0") eqn:E2;
    [apply ascii_eqb_eq in E2; auto |].
  destruct (Ascii.eqb a "1") eqn:E3;
    [apply ascii_eqb_eq in E3; auto |].
  rewrite !andb_false_r.
  destruct (Ascii.eqb (tolower a) (tolower b)); discriminate.
Qed.

(** Two letters match only when they are equal up to case. *)
Lemma matches_alpha (a b : ascii) :
  isalpha a = true -> isalpha b = true -> matches a b <> 0 ->
  tolower a = tolower b.
Proof.
  intros Ha Hb.
  destruct (alpha_not_special a Ha) as [A1 [A2 [A3 A4]]].
  destruct (alpha_not_special b Hb) as [B1 [B2 [B3 B4]]].
  unfold matches. rewrite A1, A2, A3, A4, B1, B2, B3, B4.
  rewrite !andb_false_r. cbn [orb].
  destruct (Ascii.eqb (tolower a) (tolower b)) eqn:E;
    [intros _; apply ascii_eqb_eq; exact E | intros H; exfalso; apply H;
                                               reflexivity].
Qed.

Lemma matches_black (a b : ascii) : matches a b <> 0 -> a <> "#".
Proof. intros H ->. apply H. reflexivity. Qed.

Lemma fits_loop_one (grid : list ascii) (cellof : Z -> Z)
      (word : list ascii) (n : nat) :
  forall (k : Z) (e : bool),
    fits_loop grid cellof word n k e = 1 ->
    e = false
    \/ exists x, k <= x < k + Z.of_nat n
                 /\ matches (at_ grid (cellof x)) (at_ word x) = 1.
Proof.
  induction n as [| n IH]; intros k e H; cbn [fits_loop] in H.
  - destruct e; [discriminate H | left; reflexivity].
  - destruct (matches (at_ grid (cellof k)) (at_ word k) =? 0) eqn:E0;
      [discriminate H |].
    apply IH in H. destruct H as [H | [x [Hx Hm]]].
    + destruct (matches (at_ grid (cellof k)) (at_ word k) =? 1) eqn:E1.
      * apply Z.eqb_eq in E1. right. exists k. split; [lia | exact E1].
      * left. exact H.
    + right. exists x. split; [lia | exact Hm].
Qed.

(** What a run-fit value of 1 means. *)
Lemma entry_fits_one (o : orientation) (grid : list ascii) (w h i j : Z)
      (word : list ascii) (L : Z) :
  0 <= i < w -> 0 <= j < h -> 0 <= L ->
  entry_fits o grid w h i j word L = 1 ->
  admissible o grid w h i j word L
  /\ exists k, 0 <= k < L
               /\ matches (at_ grid (run_cell o w i j k)) (at_ word k) = 1.
Proof.
  intros Hi Hj HL E.
  assert (Hw : within_grid o w h i j L).
  { apply (entry_fits_within_grid o grid w h i j word L); try assumption.
    rewrite E. discriminate. }
  rewrite entry_fits_unfold in E. cbn zeta in E.
  set (pos := match o with Across => i | Down => j end) in *.
  set (lim := match o with Across => w | Down => h end) in *.
  destruct (pos + L >? lim); [discriminate E |].
  destruct (pos >? 0) eqn:E2;
    destruct (Ascii.eqb (at_ grid (run_cell o w i j (-1))) "#") eqn:E3;
    cbn [andb negb] in E; try discriminate E;
    destruct (pos + L <? lim) eqn:E4;
    destruct (Ascii.eqb (at_ grid (run_cell o w i j L)) "#") eqn:E5;
    cbn [andb negb] in E; try discriminate E.
  all: pose proof (fits_loop_spec grid (run_cell o w i j) word (Z.to_nat L)
                                  0 true) as F;
    cbn zeta in F; rewrite Z2Nat.id in F by assumption;
    destruct F as [_ [F2 _]];
    assert (LM : letters_match o grid w i j word L)
      by (unfold letters_match; intros k Hk; apply F2;
          [rewrite E; discriminate | lia]);
    apply fits_loop_one in E; rewrite Z2Nat.id in E by assumption;
    destruct E as [E | [x [Hx Hm]]]; [discriminate E |];
    (split; [| exists x; split; [lia | exact Hm]]);
    unfold admissible; (split; [exact Hw |]);
    (split; [| split; [| exact LM]]).
  all: try apply ascii_eqb_eq in E3; try apply ascii_eqb_eq in E5;
    try apply Zgtb_false in E2; try apply Z.ltb_ge in E4;
    destruct o; cbn [bounded_before bounded_after within_grid] in *;
    unfold pos, lim in *; auto; try (left; lia).
Qed.

Lemma valid_entry (opts : options) (info : xword_info) (dict : xdict)
      (P : placement) :
  legal_grid (info_grid info) (info_w info) (info_h info) ->
  UseNaiveMethod opts = false ->
  pl_valid info dict P -> alphabetic (pl_word P) ->
  stack_entry opts info dict (pl_row opts info P, P).
Proof.
  intros Hg N V Al. split; [exact V |]. split; [| apply Permutation_refl].
  cbn [snd]. destruct V as [_ [Hi [Hj E]]].
  assert (HL : 0 <= pl_len P) by (unfold pl_len; lia).
  destruct (entry_fits_one _ _ _ _ _ _ _ _ Hi Hj HL E) as [_ [k [Hk Hm]]].
  exists k. split; [exact Hk |]. right.
  apply (matches_loose_alpha _ (at_ (pl_word P) k)); [| exact Hm].
  unfold alphabetic in Al. rewrite Forall_forall in Al.
  apply Al. unfold at_. apply nth_In. unfold pl_len in Hk. lia.
Qed.
Lemma Ok_inj {A : Type} (a b : A) : Ok a = Ok b -> a = b.
Proof. intros H. now injection H. Qed.

Lemma stack_entries (opts : options) (info : xword_info) (dict : xdict)
      (sol : list (list Z)) :
  legal_grid (info_grid info) (info_w info) (info_h info) ->
  UseNaiveMethod opts = false ->
  Forall alphabetic (dict_words dict) ->
  Forall (fun r' => exists r,
              In r (flat_map (word_rows opts info) (dict_words dict))
              /\ Permutation r' r) sol ->
  exists es, map fst es = sol /\ Forall (stack_entry opts info dict) es.
Proof.
  intros Hg N Al. induction sol as [| r' sol IH]; intros H.
  - exists []. split; [reflexivity | constructor].
  - inversion H as [| ? ? [r [Hr Hperm]] H']; subst.
    destruct (IH H') as [es [E F]].
    apply in_flat_map in Hr. destruct Hr as [word [Hw Hr]].
    apply in_word_rows in Hr. destruct Hr as [o [i [j [Hi [Hj [Fit ->]]]]]].
    set (P := {| pl_o := o; pl_i := i; pl_j := j; pl_word := word |}).
    assert (V : pl_valid info dict P)
      by (split; [exact Hw | split; [exact Hi | split; [exact Hj | exact Fit]]]).
    assert (A : alphabetic (pl_word P)).
    { rewrite Forall_forall in Al. apply Al. exact Hw. }
    destruct (valid_entry opts info dict P Hg N V A) as [_ [C _]].
    exists ((r', P) :: es). split; [cbn; now rewrite E |].
    constructor; [| exact F].
    split; [exact V |]. split; [exact C | exact Hperm].
Qed.

(** X10: every exact cover decodes to a filled grid.  In compressed mode,
    for a grid of legal cells and a dictionary of alphabetic words, let
    the callback receive a solution stack whose entries are rows of the
    built matrix (their columns in any order) that together hold each
    column exactly once.  Then decoding fails no assertion; the decoded
    grid keeps every fixed cell; and every open cell lies, in each
    direction, on a run between black cells or edges in which the
    decoded grid spells, up to case, a word of the dictionary that the
    run-fit test admits there. *)
Theorem cover_decodes_to_fill (opts : options) (info : xword_info)
        (dict : xdict) (mat : dance_matrix) (sol : list (list Z)) :
  legal_grid (info_grid info) (info_w info) (info_h info) ->
  UseNaiveMethod opts = false ->
  Forall alphabetic (dict_words dict) ->
  build_matrix opts info dict = Ok mat ->
  cover_stack mat sol ->
  exists g,
    decode_solution opts info sol = Ok g
    /\ Z.of_nat (List.length g) = info_w info * info_h info
    /\ (forall p, 0 <= p < info_w info * info_h info ->
                  ~ open_cell (at_ (info_grid info) p) ->
                  at_ g p = at_ (info_grid info) p)
    /\ (forall p o,
           0 <= p < info_w info * info_h info ->
           open_cell (at_ (info_grid info) p) ->
           exists word i j k,
             In word (dict_words dict)
             /\ 0 <= i < info_w info /\ 0 <= j < info_h info
             /\ admissible o (info_grid info) (info_w info) (info_h info)
                           i j word (Z.of_nat (List.length word))
             /\ 0 <= k < Z.of_nat (List.length word)
             /\ p = run_cell o (info_w info) i j k
             /\ forall k', 0 <= k' < Z.of_nat (List.length word) ->
                           tolower (at_ g (run_cell o (info_w info) i j k'))
                           = tolower (at_ word k')).
Proof.
  intros Hg N Al Hb [Hrows Hcount].
  rewrite build_matrix_eq in Hb by assumption.
  apply Ok_inj in Hb. subst mat.
  cbv [rows ncolumns] in Hrows, Hcount.
  destruct (stack_entries opts info dict sol Hg N Al Hrows) as [es [Es Fs]].
  subst sol.
  assert (Hlen0 : Z.of_nat (List.length (info_grid info))
                  = info_w info * info_h info) by (apply Hg).
  destruct (decode_entries opts info dict Hg es (info_grid info) Fs Hlen0)
    as [g [R [Len [Hit Miss]]]].
  assert (Open : forall p, has_slice opts info p ->
                           open_cell (at_ (info_grid info) p)).
  { intros p [_ [U | U]]; [congruence | exact U]. }
  assert (Cov : forall p x,
             has_slice opts info p -> 0 <= x < 54 ->
             count_occ Z.eq_dec (concat (map fst es))
                       (54 * slice_index (UseNaiveMethod opts)
                                         (info_grid info) p + x) = 1%nat).
  { intros p x Hs Hx. apply Hcount.
    pose proof (slice_index_bound opts info p Hs) as B.
    destruct (UseNaiveMethod opts); [discriminate N | lia]. }
  exists g. split.
  { unfold decode_solution. rewrite firstn_all2 by lia. exact R. }
  split; [lia |]. split.
  - intros p Hp Hfix. apply Miss; [lia |].
    intros [e [k [He [_ T]]]].
    rewrite Forall_forall in Fs. destruct (Fs e He) as [V _].
    apply Hfix, Open.
    apply (touches_has_slice opts info dict (snd e) p k V T).
  - intros p o Hp Ho.
    assert (Hs : has_slice opts info p) by (split; [exact Hp | right; exact Ho]).
    destruct (cover_toucher opts info dict es Fs Cov p o Hs)
      as [e [k [He [HO T]]]].
    rewrite Forall_forall in Fs. destruct (Fs e He) as [V _].
    pose proof V as [Vw [Vi [Vj Vf]]].
    pose proof (pl_within_grid info dict (snd e) V) as Hw.
    rewrite HO in Vf, Hw.
    assert (HL : 0 <= pl_len (snd e)) by (unfold pl_len; lia).
    destruct (entry_fits_one _ _ _ _ _ _ _ _ Vi Vj HL Vf) as [Adm _].
    exists (pl_word (snd e)), (pl_i (snd e)), (pl_j (snd e)), k.
    fold (pl_len (snd e)).
    split; [exact Vw |]. split; [exact Vi |]. split; [exact Vj |].
    split; [exact Adm |].
    destruct T as [[Hk U] Ep]. rewrite HO in Ep, U.
    split; [exact Hk |]. split; [exact Ep |].
    intros k' Hk'.
    set (q := run_cell o (info_w info) (pl_i (snd e)) (pl_j (snd e)) k').
    assert (Hq : 0 <= q < info_w info * info_h info)
      by (apply (run_cell_in_grid o _ _ _ _ (pl_len (snd e))); assumption).
    assert (Alw : isalpha (at_ (pl_word (snd e)) k') = true).
    { rewrite Forall_forall in Al. specialize (Al _ Vw).
      unfold alphabetic in Al. rewrite Forall_forall in Al. apply Al.
      unfold at_. apply nth_In. unfold pl_len in Hk'. lia. }
    destruct (openb (at_ (info_grid info) q)) eqn:Oq.
    + apply open_cell_openb in Oq.
      assert (Tq : touches opts info (snd e) q k').
      { split; [split; [exact Hk' | right; rewrite HO; exact Oq] |].
        rewrite HO. reflexivity. }
      assert (Hsq : has_slice opts info q)
        by (split; [exact Hq | right; exact Oq]).
      rewrite (Hit q (idx2ch (pl_letter (snd e) k'))).
      * unfold pl_letter. rewrite idx2ch_ch2idx, Alw. apply tolower_idem.
      * destruct (cover_toucher opts info dict es
                    ltac:(apply Forall_forall; exact Fs) Cov q Across Hsq)
          as [e' [k'' [He' [HO' T']]]].
        exists e', k''. auto.
      * intros e' k'' He' _ T'. f_equal.
        apply (cover_letters_agree opts info dict es
                 ltac:(apply Forall_forall; exact Fs) Cov e' e q k'' k');
          assumption.
    + assert (Fix : ~ open_cell (at_ (info_grid info) q)).
      { intros H. apply open_cell_openb in H. congruence. }
      rewrite Miss.
      2: lia.
      2:{ intros [e' [k'' [He' [_ T']]]]. destruct (Fs e' He') as [V' _].
          apply Fix, Open.
          apply (touches_has_slice opts info dict (snd e') q k'' V' T'). }
      destruct Adm as [_ [_ [_ LM]]]. specialize (LM k' Hk'). fold q in LM.
      apply matches_alpha; [| exact Alw | exact LM].
      pose proof (at_legal _ _ _ q Hg Hq) as [Hb | [Ha | Ho']].
      * exfalso. exact (matches_black _ _ LM Hb).
      * exact Ha.
      * contradiction.
Qed.
Lemma alphabetic_dec_true (ws : list (list ascii)) :
  forallb (forallb isalpha) ws = true -> Forall alphabetic ws.
Proof.
  intros H. rewrite forallb_forall in H. apply Forall_forall.
  intros w Hw. specialize (H w Hw). rewrite forallb_forall in H.
  apply Forall_forall. exact H.
Qed.

Lemma count_range_dec_true (l : list Z) (n : Z) :
  forallb (fun c => (count_occ Z.eq_dec l c =? 1)%nat) (upto n) = true ->
  forall c, 0 <= c < n -> count_occ Z.eq_dec l c = 1%nat.
Proof.
  intros H c Hc. rewrite forallb_forall in H.
  apply Nat.eqb_eq. apply H. apply in_upto. exact Hc.
Qed.

Lemma cover_decodes_to_fill_witness :
  exists g,
    decode_solution default_options scenario1_info scenario1_cover = Ok g
    /\ Z.of_nat (List.length g)
       = info_w scenario1_info * info_h scenario1_info
    /\ (forall p, 0 <= p < info_w scenario1_info * info_h scenario1_info ->
                  ~ open_cell (at_ (info_grid scenario1_info) p) ->
                  at_ g p = at_ (info_grid scenario1_info) p)
    /\ (forall p o,
           0 <= p < info_w scenario1_info * info_h scenario1_info ->
           open_cell (at_ (info_grid scenario1_info) p) ->
           exists word i j k,
             In word (dict_words scenario1_dict)
             /\ 0 <= i < info_w scenario1_info
             /\ 0 <= j < info_h scenario1_info
             /\ admissible o (info_grid scenario1_info)
                           (info_w scenario1_info) (info_h scenario1_info)
                           i j word (Z.of_nat (List.length word))
             /\ 0 <= k < Z.of_nat (List.length word)
             /\ p = run_cell o (info_w scenario1_info) i j k
             /\ forall k', 0 <= k' < Z.of_nat (List.length word) ->
                           tolower (at_ g (run_cell o (info_w scenario1_info)
                                                    i j k'))
                           = tolower (at_ word k')).
Proof.
  apply (cover_decodes_to_fill default_options scenario1_info scenario1_dict
                               scenario1_matrix scenario1_cover).
  - apply legal_grid_dec_true. reflexivity.
  - reflexivity.
  - apply alphabetic_dec_true. reflexivity.
  - vm_compute. reflexivity.
  - split.
    + apply Forall_forall. intros r Hr. exists r.
      split; [| apply Permutation_refl].
      apply (select_incl [false; true; true; false; true; true]). exact Hr.
    + apply count_range_dec_true. vm_compute. reflexivity.
Defined.

(** ** Pruning the dictionary *)

Lemma entry_fits_range (o : orientation) (grid : list ascii) (w h i j : Z)
      (word : list ascii) (L : Z) :
  entry_fits o grid w h i j word L = 0
  \/ entry_fits o grid w h i j word L = 1
  \/ entry_fits o grid w h i j word L = 2.
Proof.
  rewrite entry_fits_unfold. cbn zeta.
  destruct (_ >? _); [auto |].
  destruct (_ && _); [auto |].
  destruct (_ && _); [auto |].
  apply (fits_loop_spec grid (run_cell o w i j) word (Z.to_nat L) 0 true).
Qed.

Lemma strip_scan_reject (opts : options) (grid : list ascii) (w h : Z)
      (word : list ascii) (k : Z) (ps : list (orientation * Z * Z)) :
  RejectDuplicateWords opts = true ->
  forall f,
    strip_scan opts grid w h word k ps f = true <->
    (exists o i j, In (o, i, j) ps /\ entry_fits o grid w h i j word k = 2)
    \/ (f = false
        /\ forall o i j, In (o, i, j) ps ->
                         entry_fits o grid w h i j word k <> 1).
Proof.
  intros R. induction ps as [| [[o i] j] ps IH]; intros f.
  - cbn [strip_scan]. split.
    + intros H. right. split; [now destruct f | intros ? ? ? []].
    + intros [[o [i [j [[] _]]]] | [-> _]]. reflexivity.
  - cbn [strip_scan]. rewrite R. cbn [negb].
    destruct (entry_fits o grid w h i j word k =? 2) eqn:E2;
      [apply Z.eqb_eq in E2 | apply Z.eqb_neq in E2].
    { split; [intros _ | reflexivity]. left. exists o, i, j.
      split; [now left | exact E2]. }
    destruct (entry_fits o grid w h i j word k =? 1) eqn:E1;
      [apply Z.eqb_eq in E1 | apply Z.eqb_neq in E1]; rewrite IH; split.
    + intros [[o' [i' [j' [Hin H2]]]] | [H _]]; [| discriminate H].
      left. exists o', i', j'. split; [now right | exact H2].
    + intros [[o' [i' [j' [[Heq | Hin] H2]]]] | [_ Hall]].
      * injection Heq as <- <- <-. congruence.
      * left. exists o', i', j'. auto.
      * exfalso. apply (Hall o i j); [now left | exact E1].
    + intros [[o' [i' [j' [Hin H2]]]] | [Hf Hall]].
      * left. exists o', i', j'. split; [now right | exact H2].
      * right. split; [exact Hf |].
        intros o' i' j' [Heq | Hin]; [injection Heq as <- <- <-; exact E1 |].
        apply Hall. exact Hin.
    + intros [[o' [i' [j' [[Heq | Hin] H2]]]] | [Hf Hall]].
      * injection Heq as <- <- <-. congruence.
      * left. exists o', i', j'. auto.
      * right. split; [exact Hf |]. intros o' i' j' Hin.
        apply Hall. now right.
Qed.

Lemma strip_scan_allow (opts : options) (grid : list ascii) (w h : Z)
      (word : list ascii) (k : Z) (ps : list (orientation * Z * Z)) :
  RejectDuplicateWords opts = false ->
  forall f,
    strip_scan opts grid w h word k ps f = true <->
    f = false
    /\ forall o i j, In (o, i, j) ps ->
                     entry_fits o grid w h i j word k = 0.
Proof.
  intros R. induction ps as [| [[o i] j] ps IH]; intros f.
  - cbn [strip_scan]. split.
    + intros H. split; [now destruct f | intros ? ? ? []].
    + intros [-> _]. reflexivity.
  - cbn [strip_scan]. rewrite R. cbn [negb].
    destruct (entry_fits_range o grid w h i j word k) as [E | [E | E]];
      rewrite E; cbn [Z.eqb Pos.eqb].
    + rewrite IH. split.
      * intros [Hf Hall]. split; [exact Hf |].
        intros o' i' j' [Heq | Hin]; [injection Heq as <- <- <-; exact E |].
        apply Hall. exact Hin.
      * intros [Hf Hall]. split; [exact Hf |].
        intros o' i' j' Hin. apply Hall. now right.
    + split; [discriminate |]. intros [_ Hall].
      specialize (Hall o i j (or_introl eq_refl)). congruence.
    + split; [discriminate |]. intros [_ Hall].
      specialize (Hall o i j (or_introl eq_refl)). congruence.
Qed.

Lemma in_strip_positions (w h k : Z) (o : orientation) (i j : Z) :
  In (o, i, j) (strip_positions w h k) <->
  match o with
  | Across => 0 <= i < w - k + 1 /\ 0 <= j < h
  | Down => 0 <= i < w /\ 0 <= j < h - k + 1
  end.
Proof.
  unfold strip_positions. rewrite in_app_iff, !in_flat_map. split.
  - intros [[j' [Hj H]] | [j' [Hj H]]]; apply in_map_iff in H;
      destruct H as [i' [Heq Hi]]; injection Heq as <- <- <-;
      apply in_upto in Hi, Hj; auto.
  - destruct o; intros [Hi Hj]; [left | right]; exists j;
      (split; [apply in_upto; exact Hj |]); apply in_map_iff; exists i;
      (split; [reflexivity | apply in_upto; exact Hi]).
Qed.

(** A placement inside the grid that fits is among the positions that
    [strip_dict] tries, and those are all inside the grid. *)
Lemma strip_positions_fit (grid : list ascii) (w h : Z) (word : list ascii)
      (k : Z) (o : orientation) (i j : Z) (v : Z) :
  1 <= k -> v <> 0 ->
  (In (o, i, j) (strip_positions w h k)
   /\ entry_fits o grid w h i j word k = v)
  <-> (0 <= i < w /\ 0 <= j < h /\ entry_fits o grid w h i j word k = v).
Proof.
  intros Hk Hv. rewrite in_strip_positions. split.
  - intros [Hp E]. split; [destruct o; lia |]. split; [destruct o; lia |].
    exact E.
  - intros [Hi [Hj E]]. split; [| exact E].
    assert (Hw : within_grid o w h i j k).
    { apply (entry_fits_within_grid o grid w h i j word k); try assumption.
      rewrite E. exact Hv. }
    destruct o; cbn [within_grid] in Hw; lia.
Qed.

(** X11: the decision that [strip_dict] takes for one word (of at least
    one letter).  The word is kept exactly when some placement in the
    grid fits it and, under duplicate rejection, no placement fits it
    exactly (with no loose match). *)
Theorem strip_removes_decision (opts : options) (grid : list ascii)
        (w h : Z) (word : list ascii) :
  (1 <= List.length word)%nat ->
  strip_removes opts grid w h word (Z.of_nat (List.length word)) = false
  <-> placeable grid w h word
      /\ (RejectDuplicateWords opts = true ->
          ~ already_in_grid grid w h word).
Proof.
  intros Hlen. set (k := Z.of_nat (List.length word)).
  assert (Hk : 1 <= k) by (unfold k; lia).
  unfold strip_removes, placeable, already_in_grid. fold k.
  rewrite <- not_true_iff_false.
  destruct (RejectDuplicateWords opts) eqn:R.
  - rewrite (strip_scan_reject opts grid w h word k _ R). split.
    + intros H. split.
      * destruct (existsb (fun p => match p with
                                    | (o, i, j) =>
                                        entry_fits o grid w h i j word k =? 1
                                    end) (strip_positions w h k)) eqn:Ex.
        -- apply existsb_exists in Ex. destruct Ex as [[[o i] j] [Hin E]].
           apply Z.eqb_eq in E.
           destruct (proj1 (strip_positions_fit grid w h word k o i j 1 Hk
                              ltac:(lia)) (conj Hin E)) as [Hi [Hj E']].
           exists o, i, j. split; [exact Hi |]. split; [exact Hj |].
           rewrite E'. discriminate.
        -- exfalso. apply H. right. split; [reflexivity |].
           intros o i j Hin E.
           assert (existsb (fun p => match p with
                                     | (o, i, j) =>
                                         entry_fits o grid w h i j word k =? 1
                                     end) (strip_positions w h k) = true);
             [| congruence].
           apply existsb_exists. exists (o, i, j).
           split; [exact Hin | apply Z.eqb_eq; exact E].
      * intros _ [o [i [j [Hi [Hj E]]]]]. apply H. left. exists o, i, j.
        apply (strip_positions_fit grid w h word k o i j 2 Hk ltac:(lia)).
        auto.
    + intros [[o [i [j [Hi [Hj E]]]]] Hno] [[o' [i' [j' [Hin E2]]]] | [_ Hall]].
      * apply (Hno eq_refl). exists o', i', j'.
        apply (strip_positions_fit grid w h word k o' i' j' 2 Hk ltac:(lia)).
        auto.
      * destruct (entry_fits_range o grid w h i j word k) as [E0 | [E1 | E2]];
          [contradiction | |].
        -- apply (Hall o i j); [| exact E1].
           apply (strip_positions_fit grid w h word k o i j 1 Hk ltac:(lia)).
           auto.
        -- apply (Hno eq_refl). exists o, i, j. auto.
  - rewrite (strip_scan_allow opts grid w h word k _ R). split.
    + intros H. split; [| discriminate].
      destruct (existsb (fun p => match p with
                                  | (o, i, j) =>
                                      negb (entry_fits o grid w h i j word k
                                            =? 0)
                                  end) (strip_positions w h k)) eqn:Ex.
      * apply existsb_exists in Ex. destruct Ex as [[[o i] j] [Hin E]].
        apply negb_true_iff, Z.eqb_neq in E.
        destruct (proj1 (strip_positions_fit grid w h word k o i j
                           (entry_fits o grid w h i j word k) Hk E)
                        (conj Hin eq_refl)) as [Hi [Hj _]].
        exists o, i, j. auto.
      * exfalso. apply H. split; [reflexivity |].
        intros o i j Hin.
        destruct (Z.eq_dec (entry_fits o grid w h i j word k) 0) as [E | E];
          [exact E | exfalso].
        assert (existsb (fun p => match p with
                                  | (o, i, j) =>
                                      negb (entry_fits o grid w h i j word k
                                            =? 0)
                                  end) (strip_positions w h k) = true);
          [| congruence].
        apply existsb_exists. exists (o, i, j).
        split; [exact Hin | apply negb_true_iff, Z.eqb_neq; exact E].
    + intros [[o [i [j [Hi [Hj E]]]]] _] [_ Hall].
      apply E. apply Hall.
      apply (strip_positions_fit grid w h word k o i j
               (entry_fits o grid w h i j word k) Hk E).
      auto.
Qed.

Lemma strip_removes_decision_witness :
  strip_removes default_options (str "b0g") 3 1 (str "bag")
                (Z.of_nat (List.length (str "bag"))) = false
  <-> placeable (str "b0g") 3 1 (str "bag")
      /\ (RejectDuplicateWords default_options = true ->
          ~ already_in_grid (str "b0g") 3 1 (str "bag")).
Proof.
  apply (strip_removes_decision default_options (str "b0g") 3 1 (str "bag")).
  simpl. lia.
Defined.
Lemma last_app_nonempty {A : Type} (l l' : list A) (d : A) :
  l' <> [] -> last (l ++ l') d = last l' d.
Proof.
  intros H. induction l as [| x l IH]; [reflexivity |].
  cbn [app last]. rewrite IH.
  destruct (l ++ l') eqn:E; [| reflexivity].
  apply app_eq_nil in E. destruct E as [_ E]. contradiction.
Qed.

Lemma skipn_nth_cons {A : Type} (l : list A) (d : A) :
  forall n, (n < List.length l)%nat ->
            skipn n l = nth n l d :: skipn (S n) l.
Proof.
  induction l as [| x l IH]; intros n H; [cbn in H; lia |].
  destruct n as [| n]; [reflexivity |].
  cbn [skipn nth]. apply IH. cbn in H. lia.
Qed.

Lemma swap_remove_parts (a b : list (list ascii)) (x0 : list ascii) :
  swap_remove (a ++ x0 :: b) (List.length a)
  = match b with
    | [] => a
    | _ :: _ => a ++ last b [] :: removelast b
    end.
Proof.
  unfold swap_remove.
  rewrite firstn_app, firstn_all, Nat.sub_diag. cbn [firstn].
  rewrite app_nil_r.
  replace (skipn (S (List.length a)) (a ++ x0 :: b)) with b.
  2:{ rewrite skipn_app, skipn_all2 by lia.
      replace (S (List.length a) - List.length a)%nat with 1%nat by lia.
      reflexivity. }
  destruct b as [| y b].
  - rewrite last_app_nonempty by discriminate. cbn [last].
    apply removelast_last.
  - rewrite last_app_nonempty by discriminate.
    change (last (x0 :: y :: b) []) with (last (y :: b) []).
    rewrite removelast_app by discriminate.
    reflexivity.
Qed.

(** Removing the word at [widx] by moving the last word into its place
    takes one occurrence of that word out of the bucket and leaves the
    others. *)
Lemma swap_remove_occurrences (ws : list (list ascii)) (widx : nat)
      (x : list ascii) :
  (widx < List.length ws)%nat ->
  (occurrences (swap_remove ws widx) x
   + (if list_eq_dec ascii_dec (nth widx ws []) x then 1 else 0)
   = occurrences ws x)%nat
  /\ S (List.length (swap_remove ws widx)) = List.length ws.
Proof.
  intros H.
  assert (Split : ws = firstn widx ws ++ nth widx ws [] :: skipn (S widx) ws).
  { rewrite <- (firstn_skipn widx ws) at 1. f_equal.
    apply skipn_nth_cons. exact H. }
  set (a := firstn widx ws) in *. set (x0 := nth widx ws []) in *.
  set (b := skipn (S widx) ws) in *.
  assert (La : List.length a = widx)
    by (unfold a; rewrite length_firstn; lia).
  clearbody a x0 b. subst ws. rewrite <- La.
  rewrite swap_remove_parts. unfold occurrences.
  destruct b as [| y b].
  - split.
    + rewrite count_occ_app. cbn [count_occ].
      destruct (list_eq_dec ascii_dec x0 x); lia.
    + rewrite List.length_app. cbn [List.length]. lia.
  - assert (Hb : y :: b = removelast (y :: b) ++ [last (y :: b) []])
      by (apply app_removelast_last; discriminate).
    set (rb := removelast (y :: b)) in *. set (lb := last (y :: b) []) in *.
    clearbody rb lb. rewrite Hb. split.
    + rewrite !count_occ_app. cbn [count_occ]. rewrite !count_occ_app.
      cbn [count_occ].
      destruct (list_eq_dec ascii_dec x0 x);
        destruct (list_eq_dec ascii_dec lb x); lia.
    + rewrite !List.length_app. cbn [List.length]. rewrite !List.length_app.
      cbn [List.length]. lia.
Qed.

(** The loop over one bucket. *)
Lemma strip_bucket_occurrences (opts : options) (grid : list ascii)
      (w h k : Z) (n : nat) :
  forall (widx : nat) (ws : list (list ascii)) (x : list ascii),
    (occurrences (strip_bucket opts grid w h k n widx ws) x
     <= occurrences ws x)%nat
    /\ (strip_removes opts grid w h x k = false ->
        occurrences (strip_bucket opts grid w h k n widx ws) x
        = occurrences ws x)
    /\ (List.length (strip_bucket opts grid w h k n widx ws)
        <= List.length ws)%nat.
Proof.
  induction n as [| n IH]; intros widx ws x; cbn [strip_bucket].
  - repeat split; lia.
  - destruct (widx <? List.length ws)%nat eqn:E; [| repeat split; lia].
    apply Nat.ltb_lt in E.
    destruct (strip_removes opts grid w h (nth widx ws []) k) eqn:Rm;
      [| apply IH].
    destruct (IH (S widx) (swap_remove ws widx) x) as [I1 [I2 I3]].
    destruct (swap_remove_occurrences ws widx x E) as [S1 S2].
    split; [lia |]. split; [| lia].
    intros Hx. rewrite (I2 Hx).
    destruct (list_eq_dec ascii_dec (nth widx ws []) x) as [Eq | Ne];
      [| lia].
    rewrite Eq in Rm. congruence.
Qed.

Lemma combine_nth_lt {A B : Type} (l1 : list A) (l2 : list B) (d1 : A)
      (d2 : B) :
  forall k, (k < List.length l1)%nat -> (k < List.length l2)%nat ->
            nth k (combine l1 l2) (d1, d2) = (nth k l1 d1, nth k l2 d2).
Proof.
  revert l2. induction l1 as [| x l1 IH]; intros l2 k H1 H2;
    [cbn in H1; lia |].
  destruct l2 as [| y l2]; [cbn in H2; lia |].
  destruct k as [| k]; [reflexivity |].
  cbn [combine nth]. apply IH; cbn in H1, H2; lia.
Qed.

Lemma nth_upto (n : Z) (k : nat) :
  (k < Z.to_nat n)%nat -> nth k (upto n) 0 = Z.of_nat k.
Proof.
  intros H. unfold upto.
  change 0 with (Z.of_nat 0). rewrite map_nth, seq_nth by exact H.
  reflexivity.
Qed.

Lemma strip_dict_bucket (opts : options) (grid : list ascii) (w h : Z)
      (dict : xdict) (k : nat) :
  bucket (strip_dict opts grid w h dict) k
  = if (k <? Z.to_nat XDICT_MAXLENGTH)%nat
    then strip_bucket opts grid w h (Z.of_nat k)
                      (List.length (bucket dict k)) 0 (bucket dict k)
    else bucket dict k.
Proof.
  unfold bucket, strip_dict.
  set (m := Z.to_nat XDICT_MAXLENGTH).
  set (f := fun kws : Z * list (list ascii) =>
              strip_bucket opts grid w h (fst kws)
                           (List.length (snd kws)) 0 (snd kws)).
  assert (Lc : List.length (combine (upto XDICT_MAXLENGTH) dict)
               = Nat.min m (List.length dict)).
  { rewrite length_combine, upto_length. reflexivity. }
  destruct (k <? m)%nat eqn:E;
    [apply Nat.ltb_lt in E | apply Nat.ltb_ge in E].
  - destruct (Nat.lt_ge_cases k (List.length dict)) as [Lt | Ge].
    + rewrite app_nth1 by (rewrite length_map, Lc; lia).
      rewrite nth_indep with (d' := f (0, []))
        by (rewrite length_map, Lc; lia).
      rewrite map_nth. unfold f at 1.
      rewrite combine_nth_lt by (try rewrite upto_length; fold m; lia).
      cbn [fst snd]. rewrite nth_upto by (fold m; lia). reflexivity.
    + rewrite (nth_overflow dict) by lia.
      rewrite nth_overflow; [destruct (List.length []); reflexivity |].
      rewrite length_app, length_map, Lc, length_skipn. lia.
  - rewrite app_nth2 by (rewrite length_map, Lc; lia).
    rewrite length_map, Lc, nth_skipn.
    destruct (Nat.le_ge_cases m (List.length dict)); [f_equal; lia |].
    rewrite !nth_overflow; try reflexivity; lia.
Qed.
Lemma strip_dict_length (opts : options) (grid : list ascii) (w h : Z)
      (dict : xdict) :
  List.length (strip_dict opts grid w h dict) = List.length dict.
Proof.
  unfold strip_dict.
  rewrite length_app, length_map, length_combine, upto_length, length_skipn.
  lia.
Qed.

Lemma dict_len_le_gen (n : nat) :
  forall (d d' : xdict) (acc acc' : Z),
    acc' <= acc ->
    List.length d' = List.length d ->
    (forall k, (List.length (bucket d' k) <= List.length (bucket d k))%nat) ->
    fold_left (fun count ws => count + Z.of_nat (List.length ws))
              (firstn n d') acc'
    <= fold_left (fun count ws => count + Z.of_nat (List.length ws))
                 (firstn n d) acc.
Proof.
  induction n as [| n IH]; intros d d' acc acc' Ha Hl Hb; [exact Ha |].
  destruct d as [| ws d]; destruct d' as [| ws' d']; try discriminate Hl.
  - exact Ha.
  - cbn [firstn fold_left]. apply IH.
    + specialize (Hb 0%nat). cbn in Hb. lia.
    + cbn in Hl. lia.
    + intros k. exact (Hb (S k)).
Qed.

(** X12: what [strip_dict] does to the dictionary as a whole.  It adds no
    word: in every bucket each word occurs at most as often as before,
    and [dict_len] does not grow.  And it loses no word that its own
    decision keeps: a word for which the scan of the grid does not reach
    [remove_it] occurs in its bucket exactly as often as before. *)
Theorem strip_dict_keeps_fitting_words (opts : options) (grid : list ascii)
        (w h : Z) (dict : xdict) :
  List.length (strip_dict opts grid w h dict) = List.length dict
  /\ dict_len (strip_dict opts grid w h dict) <= dict_len dict
  /\ forall (k : nat) (word : list ascii),
      (occurrences (bucket (strip_dict opts grid w h dict) k) word
       <= occurrences (bucket dict k) word)%nat
      /\ (strip_removes opts grid w h word (Z.of_nat k) = false ->
          occurrences (bucket (strip_dict opts grid w h dict) k) word
          = occurrences (bucket dict k) word).
Proof.
  split; [apply strip_dict_length |]. split.
  - unfold dict_len. apply dict_len_le_gen; [lia | apply strip_dict_length |].
    intros k. rewrite strip_dict_bucket.
    destruct (k <? Z.to_nat XDICT_MAXLENGTH)%nat; [| lia].
    apply (strip_bucket_occurrences opts grid w h (Z.of_nat k) _ 0
                                    (bucket dict k) []).
  - intros k word. rewrite strip_dict_bucket.
    destruct (k <? Z.to_nat XDICT_MAXLENGTH)%nat; [| split; [lia | auto]].
    destruct (strip_bucket_occurrences opts grid w h (Z.of_nat k)
                (List.length (bucket dict k)) 0 (bucket dict k) word)
      as [H1 [H2 _]].
    split; assumption.
Qed.

(** ** The dictionary library *)

(** X13: on a pattern without [*], the two matchers of [xdictlib.c]
    agree: [xdict_match_simple] may stand in for [xdict_match], as
    [xdict_find] has it. *)
Theorem xdict_match_simple_agrees (w p : list ascii) :
  star_free p -> xdict_match_simple w p = xdict_match w p.
Proof.
  unfold star_free. revert w. induction p as [| c p IH]; intros w H.
  - reflexivity.
  - cbn [xdict_match_simple xdict_match].
    destruct (Ascii.eqb c "*") eqn:E.
    { apply ascii_eqb_eq in E. subst c. exfalso. apply H. now left. }
    destruct w as [| x w]; [reflexivity |].
    rewrite IH; [reflexivity |]. intros Hin. apply H. now right.
Qed.

Lemma xdict_match_simple_agrees_witness :
  xdict_match_simple (str "cat") (str "c0t") = xdict_match (str "cat") (str "c0t").
Proof.
  apply (xdict_match_simple_agrees (str "cat") (str "c0t")).
  unfold star_free. simpl. intros [H | [H | [H | []]]]; discriminate H.
Defined.

Lemma alpha_not_pattern (c : ascii) :
  isalpha c = true ->
  Ascii.eqb c "1" = false /\ Ascii.eqb c "0" = false
  /\ Ascii.eqb c "?" = false /\ Ascii.eqb c "*" = false.
Proof.
  destruct c as [[] [] [] [] [] [] [] []]; intros H;
    try discriminate H; repeat split; reflexivity.
Qed.

(** Against a pattern of letters only, a word matches when it is the
    pattern. *)
Lemma xdict_match_simple_word (p : list ascii) :
  is_purely_alphabetic p = true ->
  forall w, xdict_match_simple w p = true <-> w = p.
Proof.
  unfold is_purely_alphabetic. induction p as [| c p IH]; intros H w.
  - destruct w; cbn; split; congruence.
  - cbn [forallb] in H. apply andb_true_iff in H. destruct H as [Hc Hp].
    destruct (alpha_not_pattern c Hc) as [E1 [E0 [Eq _]]].
    cbn [xdict_match_simple]. rewrite E1, E0, Eq.
    destruct w as [| x w]; [split; discriminate |].
    rewrite andb_true_iff, ascii_eqb_eq, (IH Hp). split.
    + intros [-> ->]. reflexivity.
    + intros E. injection E as -> ->. auto.
Qed.

Lemma alphabetic_star_free (p : list ascii) :
  is_purely_alphabetic p = true -> existsb (Ascii.eqb "*") p = false.
Proof.
  unfold is_purely_alphabetic. intros H.
  apply not_true_is_false. intros E. apply existsb_exists in E.
  destruct E as [c [Hc E]]. apply ascii_eqb_eq in E. subst c.
  rewrite forallb_forall in H. specialize (H _ Hc). discriminate H.
Qed.

Lemma filter_eq_occurrences (ws : list (list ascii)) (p : list ascii)
      (f : list ascii -> bool) :
  (forall w, f w = true <-> w = p) ->
  List.length (filter f ws) = occurrences ws p.
Proof.
  intros Hf. unfold occurrences. induction ws as [| w ws IH]; [reflexivity |].
  cbn [filter count_occ].
  destruct (list_eq_dec ascii_dec w p) as [E | NE].
  - rewrite (proj2 (Hf w) E). cbn [List.length]. now rewrite IH.
  - destruct (f w) eqn:F; [apply Hf in F; contradiction | exact IH].
Qed.

Lemma sorted_nth (ws : list (list ascii)) :
  StronglySorted (fun a b => strcmp a b <= 0) ws ->
  forall i j, (i < j < List.length ws)%nat ->
              strcmp (nth i ws []) (nth j ws []) <= 0.
Proof.
  induction 1 as [| x ws S IH F]; intros i j Hij; [cbn in Hij; lia |].
  destruct j as [| j]; [lia |]. cbn [nth].
  destruct i as [| i].
  - rewrite Forall_forall in F. apply F. apply nth_In. cbn in Hij. lia.
  - apply IH. cbn in Hij. lia.
Qed.

Lemma bsearch_spec (ws : list (list ascii)) (p : list ascii) :
  StronglySorted (fun a b => strcmp a b <= 0) ws ->
  forall (fuel low high : nat),
    (high - low < fuel)%nat -> (high <= List.length ws)%nat ->
    (forall i, (i < low)%nat -> strcmp (nth i ws []) p < 0) ->
    (forall i, (high <= i < List.length ws)%nat ->
               0 < strcmp (nth i ws []) p) ->
    bsearch ws p fuel low high = Ok (if in_dec (list_eq_dec ascii_dec) p ws
                                     then 1 else 0).
Proof.
  intros S. induction fuel as [| fuel IH]; intros low high Hf Hh Hlo Hhi;
    [lia |].
  cbn [bsearch].
  destruct (low <? high)%nat eqn:E;
    [apply Nat.ltb_lt in E | apply Nat.ltb_ge in E].
  - set (i := (low + (high - low) / 2)%nat).
    assert (Hi : (low <= i < high)%nat).
    { unfold i. pose proof (Nat.div_lt (high - low) 2). lia. }
    destruct (strcmp (nth i ws []) p =? 0) eqn:E0.
    + apply Z.eqb_eq, strcmp_eq in E0.
      destruct (in_dec (list_eq_dec ascii_dec) p ws) as [_ | N];
        [reflexivity |].
      exfalso. apply N. rewrite <- E0. apply nth_In. lia.
    + apply Z.eqb_neq in E0.
      destruct (strcmp (nth i ws []) p >? 0) eqn:E1;
        [apply Zgtb_true in E1 | apply Zgtb_false in E1].
      * apply IH; try lia; [exact Hlo |].
        intros j Hj. destruct (Nat.eq_dec j i) as [-> | Hne]; [exact E1 |].
        destruct (Nat.lt_ge_cases j high) as [Lt | Ge]; [| apply Hhi; lia].
        pose proof (sorted_nth ws S i j ltac:(lia)) as Hs.
        destruct (Z.lt_ge_cases 0 (strcmp (nth j ws []) p)) as [G | G];
          [exact G | exfalso].
        assert (T : strcmp (nth i ws []) p <= 0)
          by (apply (strcmp_trans _ (nth j ws [])); lia).
        lia.
      * apply IH; try lia; [| exact Hhi].
        intros j Hj. destruct (Nat.eq_dec j i) as [-> | Hne]; [lia |].
        destruct (Nat.lt_ge_cases j low) as [Lt | Ge]; [apply Hlo; lia |].
        pose proof (sorted_nth ws S j i ltac:(lia)) as Hs.
        assert (T : strcmp (nth j ws []) p <= 0)
          by (apply (strcmp_trans _ (nth i ws [])); lia).
        destruct (Z.eq_dec (strcmp (nth j ws []) p) 0) as [Z0 | NZ]; [| lia].
        apply strcmp_eq in Z0. exfalso.
        pose proof (strcmp_antisym (nth j ws []) (nth i ws [])) as An.
        rewrite Z0 in Hs, An. lia.
  - destruct (in_dec (list_eq_dec ascii_dec) p ws) as [I | _];
      [| reflexivity].
    exfalso. apply (In_nth _ _ []) in I. destruct I as [j [Hj Ej]].
    destruct (Nat.lt_ge_cases j low) as [Lt | Ge].
    + specialize (Hlo j Lt). rewrite Ej in Hlo.
      rewrite (proj2 (strcmp_eq p p) eq_refl) in Hlo. lia.
    + specialize (Hhi j ltac:(lia)). rewrite Ej in Hhi.
      rewrite (proj2 (strcmp_eq p p) eq_refl) in Hhi. lia.
Qed.
Lemma xdict_find_unsorted (d : xdict_t) (p : list ascii) :
  is_purely_alphabetic p = true ->
  2 <= Z.of_nat (List.length p) < XDICT_MAXLENGTH ->
  xd_sorted d = false ->
  xdict_find d p
  = Ok (Z.of_nat (occurrences (bucket (xd_words d) (List.length p)) p)).
Proof.
  intros Al H S. unfold xdict_find, bucket.
  rewrite (alphabetic_star_free p Al). cbn [negb].
  replace ((Z.of_nat (List.length p) <? 2)
           || (Z.of_nat (List.length p) >=? XDICT_MAXLENGTH)) with false.
  2:{ symmetry. apply orb_false_iff. split; [apply Z.ltb_ge; lia |].
      rewrite Z.geb_leb. apply Z.leb_gt. lia. }
  rewrite S. cbn [andb]. f_equal. f_equal.
  apply filter_eq_occurrences. apply xdict_match_simple_word. exact Al.
Qed.

(** X14: looking up a word of letters with [xdict_find] (no callback).
    A word of fewer than 2 or of [XDICT_MAXLENGTH] or more letters gives
    -1.  Otherwise, in a dictionary not flagged as sorted the linear
    search returns the number of occurrences of the word in its bucket;
    in a dictionary flagged as sorted whose bucket is in [strcmp] order,
    the binary search ends and returns 1 if the word is in the bucket and
    0 if not. *)
Theorem xdict_find_word (d : xdict_t) (p : list ascii) :
  is_purely_alphabetic p = true ->
  (Z.of_nat (List.length p) < 2 \/ XDICT_MAXLENGTH <= Z.of_nat (List.length p) ->
   xdict_find d p = Ok (-1))
  /\ (2 <= Z.of_nat (List.length p) < XDICT_MAXLENGTH ->
      (xd_sorted d = false ->
       xdict_find d p
       = Ok (Z.of_nat (occurrences (bucket (xd_words d) (List.length p)) p)))
      /\ (xd_sorted d = true ->
          StronglySorted (fun a b => strcmp a b <= 0)
                         (bucket (xd_words d) (List.length p)) ->
          xdict_find d p
          = Ok (if in_dec (list_eq_dec ascii_dec) p
                          (bucket (xd_words d) (List.length p))
                then 1 else 0))).
Proof.
  intros Al. split; [| intros H; split;
                        [apply xdict_find_unsorted; assumption |]];
    unfold xdict_find, bucket;
    rewrite (alphabetic_star_free p Al); cbn [negb].
  - intros H.
    replace ((Z.of_nat (List.length p) <? 2)
             || (Z.of_nat (List.length p) >=? XDICT_MAXLENGTH)) with true;
      [reflexivity |].
    symmetry. apply orb_true_iff.
    destruct H as [H | H]; [left; apply Z.ltb_lt; exact H
                           | right; apply Z.geb_le; exact H].
  - replace ((Z.of_nat (List.length p) <? 2)
             || (Z.of_nat (List.length p) >=? XDICT_MAXLENGTH)) with false.
    2:{ symmetry. apply orb_false_iff. split; [apply Z.ltb_ge; lia |].
        rewrite Z.geb_leb. apply Z.leb_gt. lia. }
    rewrite Al. intros -> S. cbn [andb].
    apply bsearch_spec; try assumption; lia.
Qed.

Lemma xdict_find_word_witness :
  (Z.of_nat (List.length (str "big")) < 2
   \/ XDICT_MAXLENGTH <= Z.of_nat (List.length (str "big")) ->
   xdict_find {| xd_words := b0g_dict_sorted; xd_cap := [];
                 xd_sorted := true |} (str "big") = Ok (-1))
  /\ (2 <= Z.of_nat (List.length (str "big")) < XDICT_MAXLENGTH ->
      (xd_sorted {| xd_words := b0g_dict_sorted; xd_cap := [];
                    xd_sorted := true |} = false ->
       xdict_find {| xd_words := b0g_dict_sorted; xd_cap := [];
                     xd_sorted := true |} (str "big")
       = Ok (Z.of_nat
               (occurrences
                  (bucket (xd_words {| xd_words := b0g_dict_sorted;
                                       xd_cap := []; xd_sorted := true |})
                          (List.length (str "big"))) (str "big"))))
      /\ (xd_sorted {| xd_words := b0g_dict_sorted; xd_cap := [];
                       xd_sorted := true |} = true ->
          StronglySorted (fun a b => strcmp a b <= 0)
                         (bucket (xd_words {| xd_words := b0g_dict_sorted;
                                              xd_cap := [];
                                              xd_sorted := true |})
                                 (List.length (str "big"))) ->
          xdict_find {| xd_words := b0g_dict_sorted; xd_cap := [];
                        xd_sorted := true |} (str "big")
          = Ok (if in_dec (list_eq_dec ascii_dec) (str "big")
                          (bucket (xd_words {| xd_words := b0g_dict_sorted;
                                               xd_cap := [];
                                               xd_sorted := true |})
                                  (List.length (str "big")))
                then 1 else 0))).
Proof.
  apply (xdict_find_word {| xd_words := b0g_dict_sorted; xd_cap := [];
                            xd_sorted := true |} (str "big")).
  reflexivity.
Defined.
Lemma set_nth_length {A : Type} (l : list A) (k : nat) (x : A) :
  (k < List.length l)%nat -> List.length (set_nth l k x) = List.length l.
Proof.
  intros H. unfold set_nth.
  rewrite length_app, length_firstn. cbn [List.length].
  rewrite length_skipn. lia.
Qed.

Lemma nth_set_nth {A : Type} (l : list A) (k j : nat) (x d : A) :
  (k < List.length l)%nat ->
  nth j (set_nth l k x) d = if Nat.eqb j k then x else nth j l d.
Proof.
  intros H. unfold set_nth.
  destruct (Nat.eqb_spec j k) as [-> | Ne].
  - rewrite app_nth2 by (rewrite length_firstn; lia).
    rewrite length_firstn.
    replace (k - Nat.min k (List.length l))%nat with 0%nat by lia.
    reflexivity.
  - destruct (Nat.lt_ge_cases j k) as [Lt | Ge].
    + rewrite app_nth1 by (rewrite length_firstn; lia).
      rewrite nth_firstn.
      replace (j <? k)%nat with true by (symmetry; apply Nat.ltb_lt; lia).
      reflexivity.
    + rewrite app_nth2 by (rewrite length_firstn; lia).
      rewrite length_firstn.
      replace (j - Nat.min k (List.length l))%nat with (S (j - S k)) by lia.
      cbn [nth]. rewrite nth_skipn. f_equal. lia.
Qed.

Lemma occurrences_app (l1 l2 : list (list ascii)) (x : list ascii) :
  occurrences (l1 ++ l2) x = (occurrences l1 x + occurrences l2 x)%nat.
Proof. apply count_occ_app. Qed.

(** X15: inserting a word and looking it up.  [xdict_addword] (with
    [k = 0]: the whole word) refuses a word of at most 2 or of
    [XDICT_MAXLENGTH] or more characters with -1 and leaves the
    dictionary as it is.  For the other lengths it returns 0, -3 or -4;
    0 whenever the allocations succeed; when the value is not 0 the
    words and the [sorted] flag are unchanged; when it is 0 the word has
    been appended to the bucket of its length, no other bucket has
    changed, the [sorted] flag is cleared, and [xdict_find] then
    counts, for a word of letters, one occurrence more than the bucket
    held before. *)
Theorem xdict_addword_find (realloc_ok malloc_ok : bool) (d : xdict_t)
        (word : list ascii) :
  xdict_wf d ->
  (Z.of_nat (List.length word) <= 2
   \/ XDICT_MAXLENGTH <= Z.of_nat (List.length word) ->
   xdict_addword realloc_ok malloc_ok d word 0 = (-1, d))
  /\ (2 < Z.of_nat (List.length word) < XDICT_MAXLENGTH ->
      let rc := fst (xdict_addword realloc_ok malloc_ok d word 0) in
      let d' := snd (xdict_addword realloc_ok malloc_ok d word 0) in
      xdict_wf d'
      /\ (rc = 0 \/ rc = -3 \/ rc = -4)
      /\ (rc <> 0 ->
          xd_words d' = xd_words d /\ xd_sorted d' = xd_sorted d)
      /\ (realloc_ok = true -> malloc_ok = true -> rc = 0)
      /\ (rc = 0 ->
          xd_sorted d' = false
          /\ (forall j,
                 bucket (xd_words d') j
                 = if Nat.eqb j (List.length word)
                   then bucket (xd_words d) j ++ [word]
                   else bucket (xd_words d) j)
          /\ (is_purely_alphabetic word = true ->
              xdict_find d' word
              = Ok (Z.of_nat
                      (S (occurrences
                            (bucket (xd_words d) (List.length word))
                            word)))))).
Proof.
  intros [Wl Cl]. unfold xdict_addword.
  replace (0 =? 0) with true by reflexivity.
  set (k := Z.of_nat (List.length word)).
  split.
  - intros [H | H].
    + destruct (k >=? XDICT_MAXLENGTH); [reflexivity |].
      replace (k <=? 2) with true by (symmetry; apply Z.leb_le; exact H).
      reflexivity.
    + replace (k >=? XDICT_MAXLENGTH) with true
        by (symmetry; apply Z.geb_le; exact H).
      reflexivity.
  - intros H.
    replace (k >=? XDICT_MAXLENGTH) with false
      by (symmetry; rewrite Z.geb_leb; apply Z.leb_gt; lia).
    replace (k <=? 2) with false by (symmetry; apply Z.leb_gt; lia).
    unfold k. rewrite Nat2Z.id. fold k.
    set (ws := nth (List.length word) (xd_words d) []).
    set (cap := nth (List.length word) (xd_cap d) 0).
    set (grow := Z.of_nat (List.length ws) >=? cap).
    assert (Hk : (List.length word < Z.to_nat XDICT_MAXLENGTH)%nat)
      by (unfold k in H; lia).
    set (caps := if grow then set_nth (xd_cap d) (List.length word)
                                      (cap * 2 + 15)
                 else xd_cap d).
    assert (Hcaps : List.length caps = Z.to_nat XDICT_MAXLENGTH).
    { unfold caps. destruct grow; [| exact Cl].
      rewrite set_nth_length; [exact Cl | lia]. }
    destruct (grow && negb realloc_ok) eqn:A; cbn [fst snd].
    { split; [split; assumption |]. split; [auto |].
      split; [intros _; auto |]. split; [| intros E; discriminate E].
      intros -> _. rewrite andb_false_r in A. discriminate A. }
    destruct malloc_ok; cbn [negb fst snd].
    2:{ split; [split; assumption |]. split; [auto |].
        split; [intros _; auto |].
        split; [intros _ E; discriminate E | intros E; discriminate E]. }
    split; [split; [cbn [xd_words]; rewrite set_nth_length; [exact Wl | lia]
                   | exact Hcaps] |].
    split; [auto |]. split; [intros E; exfalso; apply E; reflexivity |].
    split; [intros; reflexivity |]. intros _. split; [reflexivity |].
    assert (B : forall j,
               bucket (set_nth (xd_words d) (List.length word)
                               (ws ++ [firstn (List.length word) word])) j
               = if Nat.eqb j (List.length word)
                 then bucket (xd_words d) j ++ [word]
                 else bucket (xd_words d) j).
    { intros j. unfold bucket. rewrite nth_set_nth by lia.
      destruct (Nat.eqb_spec j (List.length word)) as [-> | _];
        [rewrite firstn_all; reflexivity | reflexivity]. }
    split; [exact B |]. intros Al.
    rewrite xdict_find_unsorted; [| exact Al | fold k; lia | reflexivity].
    cbn [xd_words]. rewrite B, Nat.eqb_refl, occurrences_app.
    unfold occurrences at 2. cbn [count_occ].
    destruct (list_eq_dec ascii_dec word word) as [_ | N];
      [f_equal; lia | contradiction].
Qed.

Lemma xdict_init_wf : xdict_wf xdict_init.
Proof. split; reflexivity. Qed.

Lemma xdict_addword_find_witness :
  (Z.of_nat (List.length (str "cat")) <= 2
   \/ XDICT_MAXLENGTH <= Z.of_nat (List.length (str "cat")) ->
   xdict_addword true true xdict_init (str "cat") 0 = (-1, xdict_init))
  /\ (2 < Z.of_nat (List.length (str "cat")) < XDICT_MAXLENGTH ->
      let rc := fst (xdict_addword true true xdict_init (str "cat") 0) in
      let d' := snd (xdict_addword true true xdict_init (str "cat") 0) in
      xdict_wf d'
      /\ (rc = 0 \/ rc = -3 \/ rc = -4)
      /\ (rc <> 0 ->
          xd_words d' = xd_words xdict_init
          /\ xd_sorted d' = xd_sorted xdict_init)
      /\ (true = true -> true = true -> rc = 0)
      /\ (rc = 0 ->
          xd_sorted d' = false
          /\ (forall j,
                 bucket (xd_words d') j
                 = if Nat.eqb j (List.length (str "cat"))
                   then bucket (xd_words xdict_init) j ++ [str "cat"]
                   else bucket (xd_words xdict_init) j)
          /\ (is_purely_alphabetic (str "cat") = true ->
              xdict_find d' (str "cat")
              = Ok (Z.of_nat
                      (S (occurrences
                            (bucket (xd_words xdict_init)
                                    (List.length (str "cat")))
                            (str "cat"))))))).
Proof.
  apply (xdict_addword_find true true xdict_init (str "cat")).
  split; reflexivity.
Defined.
Lemma qsort_strcmp (l : list (list ascii)) :
  qsort strcmp l = qsort ptr_str_cmp l.
Proof.
  unfold qsort. induction l as [| x l IH]; [reflexivity |].
  cbn [fold_right]. rewrite IH.
  generalize (fold_right (qsort_insert ptr_str_cmp) [] l) as s.
  induction s as [| y s IHs]; [reflexivity |].
  cbn [qsort_insert].
  replace (ptr_str_cmp x y <=? 0) with (strcmp x y <=? 0).
  - now rewrite IHs.
  - destruct (strcmp x y <=? 0) eqn:E; symmetry.
    + apply Z.leb_le. apply ptr_str_cmp_le. apply Z.leb_le. exact E.
    + apply Z.leb_gt. apply Z.leb_gt in E.
      destruct (Z.le_gt_cases (ptr_str_cmp x y) 0) as [L | G]; [| lia].
      apply ptr_str_cmp_le in L. lia.
Qed.

Lemma qsort_sorted_id (l : list (list ascii)) :
  StronglySorted (fun a b => strcmp a b <= 0) l -> qsort strcmp l = l.
Proof.
  induction 1 as [| x l S IH F]; [reflexivity |].
  unfold qsort in *. cbn [fold_right]. rewrite IH.
  destruct l as [| y l]; [reflexivity |].
  cbn [qsort_insert]. inversion F as [| ? ? Hxy _]; subst.
  replace (strcmp x y <=? 0) with true by (symmetry; apply Z.leb_le; exact Hxy).
  reflexivity.
Qed.

(** What the duplicate-removing loop keeps. *)
Lemma dedup_loop_spec (i : nat) :
  forall (w : list (list ascii)) (n : nat),
    (i <= n)%nat -> (n <= List.length w)%nat ->
    let r := dedup_loop i w n in
    List.length (fst r) = List.length w
    /\ (snd r <= n)%nat
    /\ (n - snd r <= i - 1)%nat
    /\ (forall x, In x (fst r) -> In x w)
    /\ (snd r = n -> fst r = w).
Proof.
  induction i as [| i' IH]; intros w n Hi Hn; cbn zeta.
  - cbn. repeat split; auto; lia.
  - cbn [dedup_loop]. destruct i' as [| i''].
    { cbn. repeat split; auto; lia. }
    destruct (strcmp (nth (S i'') w []) (nth i'' w []) =? 0).
    + destruct (S (S i'') <? n - 1)%nat eqn:E;
        [apply Nat.ltb_lt in E | apply Nat.ltb_ge in E].
      * destruct (IH (set_nth w (S i'') (nth (n - 1) w [])) (n - 1)%nat)
          as [L [N1 [N2 [I _]]]]; [lia | rewrite set_nth_length; lia |].
        rewrite set_nth_length in L by lia.
        split; [exact L |]. split; [lia |]. split; [lia |].
        split; [| intros; lia].
        intros x Hx. apply I in Hx. unfold set_nth in Hx.
        apply in_app_or in Hx. destruct Hx as [Hx | [<- | Hx]].
        -- rewrite <- (firstn_skipn (S i'') w). apply in_or_app. now left.
        -- apply nth_In. lia.
        -- rewrite <- (firstn_skipn (S (S i'')) w). apply in_or_app.
           now right.
      * destruct (IH w (n - 1)%nat) as [L [N1 [N2 [I _]]]]; [lia | lia |].
        split; [exact L |]. split; [lia |]. split; [lia |].
        split; [exact I | intros; lia].
    + destruct (IH w n) as [L [N1 [N2 [I Eq]]]]; [lia | lia |].
      split; [exact L |]. split; [lia |]. split; [lia |].
      split; [exact I | exact Eq].
Qed.

Lemma dedup_loop_distinct (i : nat) :
  forall (w : list (list ascii)) (n : nat),
    (forall j, (1 <= j < i)%nat ->
               strcmp (nth j w []) (nth (j - 1) w []) <> 0) ->
    dedup_loop i w n = (w, n).
Proof.
  induction i as [| i' IH]; intros w n H; [reflexivity |].
  cbn [dedup_loop]. destruct i' as [| i'']; [reflexivity |].
  replace (strcmp (nth (S i'') w []) (nth i'' w []) =? 0) with false.
  - apply IH. intros j Hj. apply H. lia.
  - symmetry. apply Z.eqb_neq.
    specialize (H (S i'') ltac:(lia)).
    now replace (S i'' - 1)%nat with i'' in H by lia.
Qed.

Lemma sorted_NoDup_adjacent (w : list (list ascii)) :
  StronglySorted (fun a b => strcmp a b <= 0) w -> NoDup w ->
  forall j, (1 <= j < List.length w)%nat ->
            strcmp (nth j w []) (nth (j - 1) w []) <> 0.
Proof.
  intros S ND j Hj E. apply strcmp_eq in E.
  rewrite (NoDup_nth w []) in ND.
  assert (j = (j - 1)%nat); [apply ND; [lia | lia | exact E] | lia].
Qed.

Lemma xdict_sort_bucket_spec (ws : list (list ascii)) :
  StronglySorted (fun a b => strcmp a b <= 0) (xdict_sort_bucket ws)
  /\ (forall x, In x (xdict_sort_bucket ws) -> In x ws)
  /\ (NoDup ws -> Permutation (xdict_sort_bucket ws) ws).
Proof.
  unfold xdict_sort_bucket.
  destruct (List.length ws <? 2)%nat eqn:E;
    [apply Nat.ltb_lt in E | apply Nat.ltb_ge in E].
  { split; [| split; [auto | intros; apply Permutation_refl]].
    destruct ws as [| x [| y ws]]; [constructor | | cbn in E; lia].
    constructor; constructor. }
  pose proof (qsort_sorted ws) as S. rewrite <- qsort_strcmp in S.
  pose proof (qsort_perm ws) as P. rewrite <- qsort_strcmp in P.
  assert (Lq : List.length (qsort strcmp ws) = List.length ws)
    by (apply Permutation_length; exact P).
  destruct (dedup_loop_spec (List.length ws) (qsort strcmp ws)
                            (List.length ws) ltac:(lia) ltac:(lia))
    as [L [N1 [_ [I Eq]]]].
  destruct (dedup_loop (List.length ws) (qsort strcmp ws) (List.length ws))
    as [w n] eqn:D.
  cbn [fst snd] in *.
  destruct (n <? List.length ws)%nat eqn:En;
    [apply Nat.ltb_lt in En | apply Nat.ltb_ge in En].
  - split; [rewrite qsort_strcmp; apply qsort_sorted |]. split.
    + intros x Hx. rewrite qsort_strcmp in Hx.
      apply (Permutation_in x (qsort_perm _)) in Hx.
      apply (Permutation_in x P). apply I.
      rewrite <- (firstn_skipn n w). apply in_or_app. now left.
    + intros ND. exfalso.
      assert (NDq : NoDup (qsort strcmp ws))
        by (apply (Permutation_NoDup (Permutation_sym P)); exact ND).
      rewrite dedup_loop_distinct in D.
      * injection D as _ <-. lia.
      * intros j Hj. apply sorted_NoDup_adjacent; [exact S | exact NDq | lia].
  - assert (n = List.length ws) by lia. rewrite (Eq H).
    split; [exact S |]. split.
    + intros x Hx. apply (Permutation_in x P Hx).
    + intros _. exact P.
Qed.

Lemma xdict_sort_bucket_nil : xdict_sort_bucket [] = [].
Proof. reflexivity. Qed.

Lemma xdict_sort_buckets (d : xdict_t) (k : nat) :
  bucket (xd_words (xdict_sort d)) k
  = if (k <? Z.to_nat XDICT_MAXLENGTH)%nat
    then xdict_sort_bucket (bucket (xd_words d) k)
    else bucket (xd_words d) k.
Proof.
  unfold bucket, xdict_sort. cbn [xd_words].
  set (m := Z.to_nat XDICT_MAXLENGTH). set (ws := xd_words d).
  destruct (k <? m)%nat eqn:E;
    [apply Nat.ltb_lt in E | apply Nat.ltb_ge in E].
  - destruct (Nat.lt_ge_cases k (List.length ws)) as [Lt | Ge].
    + rewrite app_nth1 by (rewrite length_map, length_firstn; lia).
      rewrite <- xdict_sort_bucket_nil at 1. rewrite map_nth.
      rewrite nth_firstn.
      replace (k <? m)%nat with true by (symmetry; apply Nat.ltb_lt; lia).
      reflexivity.
    + rewrite (nth_overflow ws) by lia.
      rewrite nth_overflow; [reflexivity |].
      rewrite length_app, length_map, length_firstn, length_skipn. lia.
  - rewrite app_nth2 by (rewrite length_map, length_firstn; lia).
    rewrite length_map, length_firstn, nth_skipn.
    destruct (Nat.le_ge_cases m (List.length ws)); [f_equal; lia |].
    rewrite !nth_overflow; try reflexivity; lia.
Qed.

(** X16: [xdict_sort] sets the [sorted] flag, keeps the number of
    buckets, leaves every bucket below [XDICT_MAXLENGTH] in [strcmp]
    order, puts no word into a bucket that was not there, and only
    reorders a bucket that holds no word twice. *)
Theorem xdict_sort_spec (d : xdict_t) :
  xd_sorted (xdict_sort d) = true
  /\ List.length (xd_words (xdict_sort d)) = List.length (xd_words d)
  /\ forall k,
      ((k < Z.to_nat XDICT_MAXLENGTH)%nat ->
       StronglySorted (fun a b => strcmp a b <= 0)
                      (bucket (xd_words (xdict_sort d)) k))
      /\ (forall x, In x (bucket (xd_words (xdict_sort d)) k) ->
                    In x (bucket (xd_words d) k))
      /\ (NoDup (bucket (xd_words d) k) ->
          Permutation (bucket (xd_words (xdict_sort d)) k)
                      (bucket (xd_words d) k)).
Proof.
  split; [reflexivity |]. split.
  { unfold xdict_sort. cbn [xd_words].
    rewrite length_app, length_map, length_firstn, length_skipn. lia. }
  intros k. rewrite xdict_sort_buckets.
  destruct (xdict_sort_bucket_spec (bucket (xd_words d) k)) as [S [I P]].
  destruct (k <? Z.to_nat XDICT_MAXLENGTH)%nat eqn:E.
  - split; [intros _; exact S |]. split; [exact I | exact P].
  - apply Nat.ltb_ge in E. split; [intros; lia |].
    split; [auto | intros; apply Permutation_refl].
Qed.
Lemma strict_sorted_parts (l : list (list ascii)) (a b : list ascii) :
  StronglySorted (fun x y => strcmp x y < 0) (l ++ [a; b]) ->
  StronglySorted (fun x y => strcmp x y <= 0) (l ++ [a; a; b])
  /\ StronglySorted (fun x y => strcmp x y <= 0) (l ++ [a; a])
  /\ StronglySorted (fun x y => strcmp x y <= 0) (l ++ [a])
  /\ NoDup (l ++ [a])
  /\ strcmp a b < 0.
Proof.
  assert (Refl : strcmp a a <= 0)
    by (rewrite (proj2 (strcmp_eq a a) eq_refl); lia).
  induction l as [| x l IH]; intros S; cbn [app] in *.
  - inversion S as [| ? ? _ F]; subst.
    inversion F as [| ? ? Hab _]; subst.
    split; [| split; [| split; [| split]]].
    + repeat constructor; lia.
    + repeat constructor; lia.
    + repeat constructor.
    + repeat constructor. intros [].
    + exact Hab.
  - inversion S as [| ? ? S' F]; subst.
    destruct (IH S') as [I1 [I2 [I3 [I4 I5]]]].
    rewrite Forall_forall in F.
    assert (Fa : forall y, In y (l ++ [a]) -> strcmp x y < 0).
    { intros y Hy. apply F. apply in_app_or in Hy. apply in_or_app.
      destruct Hy as [Hy | [<- | []]]; [now left | right; now left]. }
    assert (Fb : strcmp x b < 0).
    { apply F. apply in_or_app. right. right. now left. }
    split; [| split; [| split; [| split]]].
    + constructor; [exact I1 |]. apply Forall_forall. intros y Hy.
      apply in_app_or in Hy.
      destruct Hy as [Hy | [<- | [<- | [<- | []]]]];
        try (apply Z.lt_le_incl, Fa, in_or_app; auto; right; now left).
      lia.
    + constructor; [exact I2 |]. apply Forall_forall. intros y Hy.
      apply in_app_or in Hy.
      destruct Hy as [Hy | [<- | [<- | []]]];
        apply Z.lt_le_incl, Fa, in_or_app; auto; right; now left.
    + constructor; [exact I3 |]. apply Forall_forall. intros y Hy.
      apply Z.lt_le_incl, Fa, Hy.
    + constructor; [| exact I4]. intros Hin. specialize (Fa x Hin).
      rewrite (proj2 (strcmp_eq x x) eq_refl) in Fa. lia.
    + exact I5.
Qed.

Lemma nth_app_plus {A : Type} (l r : list A) (j : nat) (d : A) :
  nth (List.length l + j) (l ++ r) d = nth j r d.
Proof.
  rewrite app_nth2 by lia. f_equal. lia.
Qed.

Lemma dedup_loop_step (i'' : nat) (w : list (list ascii)) (n : nat) :
  dedup_loop (S (S i'')) w n
  = if strcmp (nth (S i'') w []) (nth i'' w []) =? 0 then
      if (S (S i'') <? n - 1)%nat
      then dedup_loop (S i'') (set_nth w (S i'') (nth (n - 1) w []))
                      (n - 1)
      else dedup_loop (S i'') w (n - 1)
    else dedup_loop (S i'') w n.
Proof. reflexivity. Qed.

(** X17: the duplicate removal of [xdict_sort] can lose a word and keep a
    duplicate.  When a bucket holds, in [strcmp] order, distinct words
    and then one word twice directly before its greatest word, sorting
    it drops that greatest word and keeps both copies of the doubled
    one: the test [i < --n] skips the copy when the doubled word stands
    next to the last slot. *)
Theorem xdict_sort_drops_word (l : list (list ascii)) (a b : list ascii) :
  StronglySorted (fun x y => strcmp x y < 0) (l ++ [a; b]) ->
  xdict_sort_bucket (l ++ [a; a; b]) = l ++ [a; a].
Proof.
  intros HS. destruct (strict_sorted_parts l a b HS) as [S1 [S2 [S3 [ND Hab]]]].
  unfold xdict_sort_bucket.
  assert (Len : List.length (l ++ [a; a; b]) = S (S (S (List.length l))))
    by (rewrite length_app; cbn; lia).
  rewrite Len. cbn [Nat.ltb Nat.leb].
  rewrite (qsort_sorted_id _ S1).
  set (n := List.length l) in *. set (s := l ++ [a; a; b]).
  assert (N0 : nth n s [] = a)
    by (unfold s, n; rewrite <- (Nat.add_0_r (List.length l));
        rewrite nth_app_plus; reflexivity).
  assert (N1 : nth (S n) s [] = a)
    by (unfold s, n; replace (S (List.length l)) with (List.length l + 1)%nat
          by lia; rewrite nth_app_plus; reflexivity).
  assert (N2 : nth (S (S n)) s [] = b)
    by (unfold s, n;
        replace (S (S (List.length l))) with (List.length l + 2)%nat by lia;
        rewrite nth_app_plus; reflexivity).
  assert (D : dedup_loop (S (S (S n))) s (S (S (S n))) = (s, S (S n))).
  { rewrite dedup_loop_step, N2, N1.
    replace (strcmp b a =? 0) with false.
    2:{ symmetry. apply Z.eqb_neq. rewrite strcmp_antisym. lia. }
    rewrite dedup_loop_step, N1, N0.
    replace (strcmp a a =? 0) with true
      by (symmetry; apply Z.eqb_eq, strcmp_eq; reflexivity).
    replace (S (S (S n)) - 1)%nat with (S (S n)) by lia.
    replace (S (S n) <? S (S n))%nat with false
      by (symmetry; apply Nat.ltb_irrefl).
    apply dedup_loop_distinct. intros j Hj.
    assert (E : forall x, (x < S n)%nat -> nth x s [] = nth x (l ++ [a]) []).
    { intros x Hx. unfold s.
      change (l ++ [a; a; b]) with (l ++ [a] ++ [a; b]).
      rewrite app_assoc. apply app_nth1. rewrite length_app. cbn [List.length]. unfold n. lia. }
    rewrite !E by lia.
    apply sorted_NoDup_adjacent; [exact S3 | exact ND |].
    rewrite length_app. cbn [List.length]. unfold n. lia. }
  rewrite D, Nat.leb_refl.
  assert (F : firstn (S (S n)) s = l ++ [a; a]).
  { assert (L2 : List.length (l ++ [a; a]) = S (S n))
      by (rewrite length_app; cbn [List.length]; unfold n; lia).
    unfold s. change (l ++ [a; a; b]) with (l ++ [a; a] ++ [b]).
    rewrite app_assoc, firstn_app, L2, Nat.sub_diag, firstn_O, app_nil_r.
    apply firstn_all2. lia. }
  rewrite F. apply qsort_sorted_id. exact S2.
Qed.

Lemma xdict_sort_drops_word_witness :
  xdict_sort_bucket ([str "ant"] ++ [str "bee"; str "bee"; str "cow"])
  = [str "ant"] ++ [str "bee"; str "bee"].
Proof.
  apply (xdict_sort_drops_word [str "ant"] (str "bee") (str "cow")).
  repeat constructor.
Defined.

(** ** Reading the grid file *)

Lemma leading_space_spec (buf : list ascii) :
  (leading_space buf <= List.length buf)%nat
  /\ forallb isspace (firstn (leading_space buf) buf) = true
  /\ isspace (nth (leading_space buf) buf NUL) = false.
Proof.
  induction buf as [| c buf IH];
    [split; [cbn; lia | split; reflexivity] |].
  cbn [leading_space]. destruct (isspace c) eqn:E.
  - destruct IH as [I1 [I2 I3]]. cbn [List.length firstn forallb nth].
    rewrite E, I2. split; [lia | split; [reflexivity | exact I3]].
  - cbn [List.length firstn forallb nth].
    split; [lia | split; [reflexivity | exact E]].
Qed.

Lemma trailing_space_spec (buf : list ascii) (i : nat) :
  (trailing_space buf i <= i)%nat
  /\ (forall x, (trailing_space buf i <= x < i)%nat ->
                isspace (nth x buf NUL) = true)
  /\ (trailing_space buf i = 0%nat
      \/ isspace (nth (trailing_space buf i - 1) buf NUL) = false).
Proof.
  induction i as [| i IH]; cbn [trailing_space].
  - split; [lia | split; [intros; lia | now left]].
  - destruct (isspace (nth i buf NUL)) eqn:E.
    + destruct IH as [I1 [I2 I3]]. split; [lia |]. split; [| exact I3].
      intros x Hx. destruct (Nat.eq_dec x i) as [-> | Ne]; [exact E |].
      apply I2. lia.
    + split; [lia |]. split; [intros; lia |]. right.
      now replace (S i - 1)%nat with i by lia.
Qed.

Lemma nth_hd_skipn (l : list ascii) :
  forall i, nth i l NUL = hd NUL (skipn i l).
Proof.
  induction l as [| c l IH]; intros i; destruct i; try reflexivity.
  cbn [nth skipn]. apply IH.
Qed.

(** X18: [strip_space] strips the white space from both ends of the
    line and nothing else: the line is some white space, the result,
    and some white space again, and the result neither begins nor ends
    with white space. *)
Theorem strip_space_spec (buf : list ascii) :
  exists pre post,
    buf = pre ++ strip_space buf ++ post
    /\ forallb isspace pre = true
    /\ forallb isspace post = true
    /\ (strip_space buf = []
        \/ (isspace (hd NUL (strip_space buf)) = false
            /\ isspace (last (strip_space buf) NUL) = false)).
Proof.
  unfold strip_space.
  destruct (leading_space_spec buf) as [L1 [L2 L3]].
  set (i := leading_space buf) in *.
  set (buf1 := if (0 <? i)%nat then skipn i buf else buf).
  assert (B1 : buf1 = skipn i buf).
  { unfold buf1. destruct i; reflexivity. }
  assert (N1 : (if (0 <? i)%nat then (List.length buf - i)%nat
                else List.length buf) = List.length buf1).
  { rewrite B1, length_skipn. destruct i; cbn; lia. }
  rewrite N1. clearbody buf1.
  destruct (trailing_space_spec buf1 (List.length buf1)) as [T1 [T2 T3]].
  set (j := trailing_space buf1 (List.length buf1)) in *.
  exists (firstn i buf), (skipn j buf1).
  split; [| split; [exact L2 | split]].
  - rewrite firstn_skipn, B1, firstn_skipn. reflexivity.
  - apply forallb_forall. intros c Hc.
    apply (In_nth _ _ NUL) in Hc. destruct Hc as [x [Hx <-]].
    rewrite length_skipn in Hx. rewrite nth_skipn. apply T2. lia.
  - destruct j as [| j'] eqn:Ej; [left; reflexivity | right].
    assert (Hne : buf1 <> []) by (intros ->; cbn in T1; lia).
    split.
    + assert (E : nth i buf NUL = hd NUL buf1)
        by (rewrite B1; apply nth_hd_skipn).
      destruct buf1 as [| c b]; [contradiction |]. cbn [firstn hd] in *.
      rewrite <- E. exact L3.
    + destruct T3 as [T3 | T3]; [discriminate T3 |].
      replace (S j' - 1)%nat with j' in T3 by lia.
      assert (E : last (firstn (S j') buf1) NUL = nth j' buf1 NUL).
      { rewrite <- (firstn_skipn (S j') buf1) at 2.
        rewrite app_nth1 by (rewrite length_firstn; lia).
        assert (Lf : List.length (firstn (S j') buf1) = S j')
          by (rewrite length_firstn; lia).
        generalize dependent (firstn (S j') buf1). intros l Ll.
        clear - Ll. revert j' Ll.
        induction l as [| x l IH]; intros j' Ll; [discriminate Ll |].
        destruct l as [| y l]; [cbn in Ll; injection Ll as <-; reflexivity |].
        destruct j' as [| j'']; [discriminate Ll |].
        change (last (x :: y :: l) NUL) with (last (y :: l) NUL).
        cbn [nth]. apply IH. cbn in Ll |- *. lia. }
      rewrite E. exact T3.
Qed.

Lemma fgets_chars_spec (k : nat) :
  forall rest,
    let r := fgets_chars k rest in
    rest = fst (fst r) ++ snd (fst r)
    /\ (List.length (fst (fst r)) <= k)%nat
    /\ (fst (fst r) = [] -> k = 0%nat \/ snd r = true).
Proof.
  induction k as [| k IH]; intros rest; cbn zeta; cbn [fgets_chars].
  - cbn. repeat split; auto.
  - destruct rest as [| c rest]; [cbn; repeat split; auto; lia |].
    destruct (Ascii.eqb c newline).
    + cbn. repeat split; auto; try lia; discriminate.
    + specialize (IH rest). cbn zeta in IH.
      destruct (fgets_chars k rest) as [[l r] e]. cbn [fst snd] in *.
      destruct IH as [I1 [I2 I3]].
      split; [cbn; now rewrite <- I1 |]. split; [cbn; lia | discriminate].
Qed.

(** A successful [fgets] into a buffer of 100 characters consumes at
    least one character of the stream and stores at most 99. *)
Lemma fgets_some (fp fp' : FILE) (l : list ascii) :
  fgets 100 fp = (Some l, fp') ->
  (List.length (f_rest fp') < List.length (f_rest fp))%nat
  /\ (1 <= List.length l <= 99)%nat.
Proof.
  unfold fgets. cbn [Nat.sub].
  pose proof (fgets_chars_spec 99 (f_rest fp)) as HS. cbn zeta in HS.
  destruct (fgets_chars 99 (f_rest fp)) as [[l0 r] e]. cbn [fst snd] in HS.
  destruct HS as [S1 [S2 S3]].
  destruct l0 as [| c l0].
  - destruct e; [discriminate |].
    destruct (S3 eq_refl) as [H | H]; discriminate H.
  - intros E. injection E as <- <-. cbn [f_rest]. rewrite S1.
    rewrite length_app. cbn [List.length] in *. lia.
Qed.

Lemma c_str_length (buf : list ascii) :
  (List.length (c_str buf) <= List.length buf)%nat.
Proof.
  induction buf as [| c buf IH]; cbn; [lia |].
  destruct (Ascii.eqb c NUL); cbn; lia.
Qed.

Lemma c_str_no_NUL (buf : list ascii) : ~ In NUL (c_str buf).
Proof.
  induction buf as [| c buf IH]; cbn; [tauto |].
  destruct (Ascii.eqb_spec c NUL) as [E | E]; cbn; [tauto |].
  intros [H | H]; [congruence | tauto].
Qed.

Lemma c_str_id (buf : list ascii) : ~ In NUL buf -> c_str buf = buf.
Proof.
  induction buf as [| c buf IH]; cbn; [reflexivity |].
  intros H. destruct (Ascii.eqb_spec c NUL) as [E | E]; [tauto |].
  f_equal. apply IH. tauto.
Qed.

Lemma strip_space_window (buf : list ascii) :
  exists i j, strip_space buf = firstn j (skipn i buf).
Proof.
  unfold strip_space. destruct (leading_space buf) as [| i].
  - exists 0%nat. eexists. reflexivity.
  - exists (S i). eexists. reflexivity.
Qed.

Lemma strip_space_sub (buf : list ascii) :
  (List.length (strip_space buf) <= List.length buf)%nat
  /\ forall c, In c (strip_space buf) -> In c buf.
Proof.
  destruct (strip_space_window buf) as [i [j E]]. rewrite E. split.
  - rewrite length_firstn, length_skipn. lia.
  - intros c H. rewrite <- (firstn_skipn i buf). apply in_or_app. right.
    rewrite <- (firstn_skipn j (skipn i buf)). apply in_or_app. now left.
Qed.

(** The line that [load_grid] works on after [fgets] and [strip_space]:
    at most 99 characters, none of them NUL. *)
Lemma line_bounds (fp fp' : FILE) (l : list ascii) :
  fgets 100 fp = (Some l, fp') ->
  (List.length (strip_space (c_str l)) <= 99)%nat
  /\ ~ In NUL (strip_space (c_str l)).
Proof.
  intros H. apply fgets_some in H. destruct H as [_ H].
  destruct (strip_space_sub (c_str l)) as [S1 S2].
  pose proof (c_str_length l). split; [lia |].
  intros HN. apply S2 in HN. exact (c_str_no_NUL _ HN).
Qed.

Lemma find_grid_total (fuel : nat) :
  forall fp,
    (List.length (f_rest fp) < fuel)%nat ->
    exists first fp1,
      find_grid fuel fp = Ok (first, fp1)
      /\ (List.length (f_rest fp1) <= List.length (f_rest fp))%nat
      /\ forall buf, first = Some buf ->
           (1 <= List.length buf <= 99)%nat /\ ~ In NUL buf.
Proof.
  induction fuel as [| fuel IH]; intros fp Hf; [lia |].
  cbn [find_grid].
  destruct (fgets 100 fp) as [[l |] fp'] eqn:E.
  - pose proof (line_bounds _ _ _ E) as [B1 B2].
    apply fgets_some in E. destruct E as [E1 E2].
    destruct (strip_space (c_str l)) as [| c b] eqn:Eb.
    + destruct (IH fp' ltac:(lia)) as [first [fp1 [R1 [R2 R3]]]].
      exists first, fp1. split; [exact R1 | split; [lia | exact R3]].
    + exists (Some (c :: b)), fp'. split; [reflexivity | split; [lia |]].
      intros buf Hb. injection Hb as <-. split; [cbn in *; lia | exact B2].
  - exists None, fp'. split; [reflexivity | split]; [| discriminate].
    unfold fgets in E. cbn [Nat.sub] in E.
    pose proof (fgets_chars_spec 99 (f_rest fp)) as HS. cbn zeta in HS.
    destruct (fgets_chars 99 (f_rest fp)) as [[l0 r] e]. cbn [fst snd] in HS.
    destruct HS as [S1 _].
    destruct l0; [| discriminate E]. destruct e; [| discriminate E].
    injection E as <-. cbn [f_rest]. rewrite S1. cbn. lia.
Qed.

Lemma grid_char_stored (c : ascii) : c <> NUL -> stored_cell (grid_char c).
Proof.
  destruct c as [[] [] [] [] [] [] [] []]; intros H; unfold stored_cell;
    vm_compute; repeat split; congruence.
Qed.

Lemma read_rows_total (malloc_ok : nat -> bool) (w : nat) (fuel : nat) :
  forall buf fp grid h gridcap nalloc,
    (List.length (f_rest fp) < fuel)%nat ->
    ~ In NUL buf ->
    Forall stored_cell grid ->
    exists rc grid' h',
      read_rows malloc_ok w fuel buf fp grid h gridcap nalloc
        = Ok (rc, grid', h')
      /\ (rc = 0 \/ rc = -3)
      /\ (rc = 0 ->
          (h <= h')%nat
          /\ (List.length buf = w -> (h < h')%nat)
          /\ List.length grid' = (List.length grid + w * (h' - h))%nat
          /\ Forall stored_cell grid').
Proof.
  induction fuel as [| fuel IH]; intros buf fp grid h gridcap nalloc Hf HN HG;
    [lia |].
  cbn [read_rows].
  destruct (List.length buf =? w)%nat eqn:EW; cbn [negb].
  2:{ exists 0, grid, h. split; [reflexivity | split; [now left |]].
      intros _. apply Nat.eqb_neq in EW.
      repeat split; [lia | intros; contradiction | | exact HG].
      rewrite Nat.sub_diag. lia. }
  apply Nat.eqb_eq in EW.
  destruct ((gridcap <=? w * h)%nat && negb (malloc_ok nalloc)).
  { exists (-3), grid, h. split; [reflexivity | split; [now right |]].
    intros H; discriminate H. }
  assert (HG' : Forall stored_cell (grid ++ map grid_char buf)).
  { apply Forall_app. split; [exact HG |]. apply Forall_forall.
    intros c Hc. apply in_map_iff in Hc. destruct Hc as [x [<- Hx]].
    apply grid_char_stored. intros ->. exact (HN Hx). }
  assert (LG : List.length (grid ++ map grid_char buf)
               = (List.length grid + w)%nat)
    by (rewrite length_app, length_map, EW; reflexivity).
  destruct (fgets 100 fp) as [[l |] fp'] eqn:E.
  - pose proof (line_bounds _ _ _ E) as [B1 B2].
    apply fgets_some in E. destruct E as [E1 E2].
    destruct (IH (strip_space (c_str l)) fp' (grid ++ map grid_char buf)
                 (S h)
                 (if (gridcap <=? w * h)%nat then (gridcap + 2 * w)%nat
                  else gridcap)
                 (if (gridcap <=? w * h)%nat then S nalloc else nalloc)
                 ltac:(lia) B2 HG')
      as [rc [grid' [h' [R1 [R2 R3]]]]].
    exists rc, grid', h'. split; [exact R1 | split; [exact R2 |]].
    intros Hrc. destruct (R3 Hrc) as [P1 [P2 [P3 P4]]].
    repeat split; [lia | intros; lia | | exact P4].
    rewrite P3, LG. nia.
  - exists 0, (grid ++ map grid_char buf), (S h).
    split; [reflexivity | split; [now left |]]. intros _.
    repeat split; [lia | intros; lia | | exact HG'].
    rewrite LG. replace (S h - h)%nat with 1%nat by lia. lia.
Qed.

(** X19: [load_grid] always returns, with 0, -2 or -3.  When it returns
    0 the grid is a rectangle of [w] times [h] stored cells with
    [1 <= w <= 99] and [1 <= h], and no cell holds an upper-case
    letter, a back quote, a question mark or NUL. *)
Theorem load_grid_returns (malloc_ok : nat -> bool) (fp : FILE) :
  exists rc grid w h,
    load_grid malloc_ok fp = Ok (rc, grid, w, h)
    /\ (rc = 0 \/ rc = -2 \/ rc = -3)
    /\ (rc = 0 ->
        1 <= w <= 99 /\ 1 <= h
        /\ Z.of_nat (List.length grid) = w * h
        /\ Forall stored_cell grid).
Proof.
  unfold load_grid.
  destruct (find_grid_total (S (List.length (f_rest fp))) fp ltac:(lia))
    as [first [fp1 [F1 [F2 F3]]]].
  rewrite F1. cbn [bind].
  destruct (f_eof fp1).
  { exists (-2), [], 0, 0. split; [reflexivity | split; [tauto |]].
    intros H; discriminate H. }
  destruct first as [buf |].
  2:{ exists (-2), [], 0, 0. split; [reflexivity | split; [tauto |]].
      intros H; discriminate H. }
  destruct (F3 buf eq_refl) as [B1 B2].
  destruct (read_rows_total malloc_ok (List.length buf)
              (S (List.length (f_rest fp1))) buf fp1 [] 0%nat 0%nat 0%nat
              ltac:(lia) B2 (Forall_nil _))
    as [rc [grid [h [R1 [R2 R3]]]]].
  rewrite R1. cbn [bind].
  destruct R2 as [-> | ->].
  - cbn [Z.eqb]. exists 0, grid, (Z.of_nat (List.length buf)), (Z.of_nat h).
    split; [reflexivity | split; [tauto |]]. intros _.
    destruct (R3 eq_refl) as [P1 [P2 [P3 P4]]]. specialize (P2 eq_refl).
    repeat split; [lia | lia | lia | | exact P4].
    rewrite P3. cbn [List.length]. nia.
  - exists (-3), [], 0, 0. split; [reflexivity | split; [tauto |]].
    intros H; discriminate H.
Qed.

Lemma fgets_chars_no_newline (k : nat) :
  forall content,
    ~ In newline content ->
    (List.length content < k)%nat ->
    fgets_chars k content = (content, [], true).
Proof.
  induction k as [| k IH]; intros content HN HL; [lia |].
  destruct content as [| c content]; [reflexivity |].
  cbn [fgets_chars].
  destruct (Ascii.eqb_spec c newline) as [E | E];
    [exfalso; apply HN; left; now symmetry |].
  rewrite IH; [reflexivity | intros H; apply HN; now right |].
  cbn in HL. lia.
Qed.

Lemma fgets_chars_line (k : nat) :
  forall row more,
    ~ In newline row ->
    (List.length row < k)%nat ->
    fgets_chars k (row ++ newline :: more) = (row ++ [newline], more, false).
Proof.
  induction k as [| k IH]; intros row more HN HL; [lia |].
  destruct row as [| c row]; [reflexivity |].
  cbn [fgets_chars app].
  destruct (Ascii.eqb_spec c newline) as [E | E];
    [exfalso; apply HN; left; now symmetry |].
  rewrite IH; [reflexivity | intros H; apply HN; now right |].
  cbn in HL. lia.
Qed.

Lemma plain_row_no_newline (w : nat) (row : list ascii) :
  plain_row w row -> ~ In newline row.
Proof.
  intros [_ H] HI. rewrite Forall_forall in H.
  destruct (H _ HI) as [H1 _]. discriminate H1.
Qed.

(** [fgets] reads one line of the file, newline included. *)
Lemma fgets_line (row more : list ascii) (e : bool) :
  ~ In newline row ->
  (List.length row <= 98)%nat ->
  fgets 100 {| f_rest := row ++ newline :: more; f_eof := e |}
  = (Some (row ++ [newline]), {| f_rest := more; f_eof := e |}).
Proof.
  intros HN HL. unfold fgets. cbn [Nat.sub f_rest f_eof].
  rewrite fgets_chars_line by (auto; lia). rewrite orb_false_r.
  destruct row; reflexivity.
Qed.

Lemma trailing_space_stop (buf : list ascii) (i : nat) :
  isspace (nth i buf NUL) = false -> trailing_space buf (S i) = S i.
Proof. intros H. cbn [trailing_space]. now rewrite H. Qed.

(** A line that holds a plain row gives that row back. *)
Lemma strip_plain_line (w : nat) (row : list ascii) :
  plain_row w row ->
  strip_space (c_str (row ++ [newline])) = row.
Proof.
  intros [_ HP]. rewrite c_str_id.
  2:{ intros H. apply in_app_or in H. destruct H as [H | [H | []]];
        [| discriminate H].
      rewrite Forall_forall in HP. destruct (HP _ H) as [_ HX]. now apply HX. }
  destruct row as [| c row]; [reflexivity |].
  unfold strip_space.
  assert (L0 : leading_space ((c :: row) ++ [newline]) = 0%nat).
  { cbn [app leading_space]. inversion HP as [| ? ? [Hc _] _]; subst.
    now rewrite Hc. }
  rewrite L0. cbn [Nat.ltb Nat.leb].
  rewrite length_app. cbn [List.length]. rewrite Nat.add_1_r.
  set (n := List.length row).
  assert (T1 : trailing_space ((c :: row) ++ [newline]) (S (S n))
               = trailing_space ((c :: row) ++ [newline]) (S n)).
  { cbn [trailing_space].
    replace (nth (S n) ((c :: row) ++ [newline]) NUL) with newline;
      [reflexivity |].
    rewrite app_nth2 by (cbn; unfold n; lia).
    cbn [List.length]. fold n. now rewrite Nat.sub_diag. }
  rewrite T1, trailing_space_stop.
  - change (S n) with (List.length (c :: row)).
    rewrite firstn_app, Nat.sub_diag, firstn_all. cbn [firstn].
    apply app_nil_r.
  - rewrite app_nth1 by (cbn; unfold n; lia).
    rewrite Forall_forall in HP.
    apply HP. apply nth_In. cbn. unfold n. lia.
Qed.

(** X20: a file that holds no newline and fewer than 99 characters is
    turned down with -2, whatever its only line holds: the end of the
    file is met while the first line is read. *)
Theorem load_grid_unterminated (malloc_ok : nat -> bool) (fp : FILE) :
  ~ In newline (f_rest fp) ->
  (List.length (f_rest fp) < 99)%nat ->
  load_grid malloc_ok fp = Ok (-2, [], 0, 0).
Proof.
  intros HN HL. unfold load_grid.
  assert (F : exists first fp1,
             find_grid (S (List.length (f_rest fp))) fp = Ok (first, fp1)
             /\ f_eof fp1 = true).
  { cbn [find_grid]. unfold fgets at 1. cbn [Nat.sub].
    rewrite fgets_chars_no_newline by assumption.
    rewrite orb_true_r.
    destruct (f_rest fp) as [| c l] eqn:ER.
    - eexists _, _. split; reflexivity.
    - destruct (strip_space (c_str (c :: l))) as [| x b].
      + cbn [List.length find_grid]. unfold fgets. cbn.
        eexists _, _. split; reflexivity.
      + eexists _, _. split; reflexivity. }
  destruct F as [first [fp1 [F1 F2]]]. rewrite F1. cbn [bind].
  now rewrite F2.
Qed.

Lemma load_grid_unterminated_witness :
  load_grid always_ok {| f_rest := str "cat"; f_eof := false |}
  = Ok (-2, [], 0, 0).
Proof.
  apply load_grid_unterminated.
  - vm_compute. intros [H | [H | [H | []]]]; discriminate H.
  - vm_compute. lia.
Defined.

Lemma read_rows_lines (malloc_ok : nat -> bool) (w : nat) (rest : list ascii) :
  (forall n, malloc_ok n = true) ->
  (1 <= w <= 98)%nat ->
  rest = [] \/ (exists more, rest = newline :: more) ->
  forall lines fuel buf grid h gridcap nalloc e,
    List.length buf = w ->
    Forall (plain_row w) lines ->
    (List.length (file_of_lines lines ++ rest) < fuel)%nat ->
    read_rows malloc_ok w fuel buf
              {| f_rest := file_of_lines lines ++ rest; f_eof := e |}
              grid h gridcap nalloc
    = Ok (0, grid ++ map grid_char buf ++ flat_map (map grid_char) lines,
          (S h + List.length lines)%nat).
Proof.
  intros HM HW HR lines.
  induction lines as [| row rows IH];
    intros fuel buf grid h gridcap nalloc e HB HP HF.
  - cbn [file_of_lines flat_map app List.length] in *.
    rewrite app_nil_r, Nat.add_0_r.
    destruct fuel as [| fuel]; [lia |]. cbn [read_rows].
    rewrite HB, Nat.eqb_refl, HM, andb_false_r. cbn [negb].
    destruct HR as [-> | [more ->]].
    + reflexivity.
    + pose proof (fgets_line [] more e ltac:(cbn; tauto) ltac:(cbn; lia))
        as FL.
      cbn [app] in FL. rewrite FL.
      cbn [List.length] in HF.
      destruct fuel as [| fuel]; [lia |].
      cbn [app]. change (strip_space (c_str [newline])) with (@nil ascii).
      cbn [read_rows List.length].
      destruct w; [lia | reflexivity].
  - cbn [file_of_lines flat_map] in *. fold (file_of_lines rows) in *.
    inversion HP as [| ? ? P1 P2]; subst.
    destruct fuel as [| fuel]; [lia |]. cbn [read_rows].
    rewrite Nat.eqb_refl, HM, andb_false_r. cbn [negb].
    rewrite <- !app_assoc. cbn [app].
    rewrite fgets_line;
      [| exact (plain_row_no_newline _ _ P1) | destruct P1 as [-> _]; lia].
    rewrite (strip_plain_line _ _ P1).
    rewrite IH; [| exact (proj1 P1) | exact P2 |].
    + rewrite <- !app_assoc. cbn [List.length]. do 2 f_equal; lia.
    + rewrite !length_app in HF. cbn [List.length] in HF.
      rewrite length_app. lia.
Qed.

(** X21: a file of one or more rows of the same width, from 1 to 98
    characters that are neither white space nor NUL, each ended by a
    newline, followed by nothing or by an empty line and anything, is
    loaded when memory suffices: [load_grid] returns 0 with that width,
    the number of rows, and the rows with every back quote, full stop
    and question mark stored as a full stop and every upper-case letter
    in lower case. *)
Theorem load_grid_rows (malloc_ok : nat -> bool) (w : nat)
        (rows : list (list ascii)) (rest : list ascii) :
  (forall n, malloc_ok n = true) ->
  (1 <= w <= 98)%nat ->
  rows <> [] ->
  Forall (plain_row w) rows ->
  rest = [] \/ (exists more, rest = newline :: more) ->
  load_grid malloc_ok {| f_rest := file_of_lines rows ++ rest;
                         f_eof := false |}
  = Ok (0, flat_map (map grid_char) rows, Z.of_nat w,
        Z.of_nat (List.length rows)).
Proof.
  intros HM HW HNE HP HR.
  destruct rows as [| row rows]; [contradiction |].
  inversion HP as [| ? ? P1 P2]; subst.
  unfold load_grid. cbn [f_rest file_of_lines flat_map].
  fold (file_of_lines rows).
  cbn [find_grid]. rewrite <- !app_assoc. cbn [app].
  rewrite fgets_line;
    [| exact (plain_row_no_newline _ _ P1) | destruct P1 as [-> _]; lia].
  rewrite (strip_plain_line _ _ P1).
  destruct row as [| c row]; [destruct P1 as [P1 _]; cbn in P1; lia |].
  cbn [bind f_eof f_rest].
  rewrite (read_rows_lines malloc_ok (List.length (c :: row)) rest HM
             ltac:(destruct P1 as [-> _]; exact HW) HR rows);
    [| reflexivity | destruct P1 as [<- _]; exact P2 | lia].
  cbn [bind Z.eqb app]. destruct P1 as [P1 _]. rewrite P1.
  cbn [List.length]. reflexivity.
Qed.

Lemma load_grid_rows_witness :
  load_grid always_ok
            {| f_rest := file_of_lines [str "c?T"; str "A`#"] ++ [];
               f_eof := false |}
  = Ok (0, flat_map (map grid_char) [str "c?T"; str "A`#"], Z.of_nat 3,
        Z.of_nat (List.length [str "c?T"; str "A`#"])).
Proof.
  apply load_grid_rows.
  - intros n. reflexivity.
  - lia.
  - discriminate.
  - repeat constructor; discriminate.
  - left. reflexivity.
Defined.

(** ** Removing words from the dictionary *)

Lemma memcmp_eq_word (w word : list ascii) :
  List.length w = List.length word ->
  memcmp_eq w word (List.length word) = true <-> w = word.
Proof.
  intros HL. unfold memcmp_eq.
  rewrite (firstn_all word). rewrite <- HL, firstn_all.
  destruct (list_eq_dec ascii_dec w word); split; congruence.
Qed.

(** What the loop over a bucket keeps: it removes [c' - count] words,
    never adds one, and removes no word that fails the test. *)
Lemma rem_loop_spec (test : list ascii -> bool) (fuel : nat) :
  forall (i : nat) (ws : list (list ascii)) (sorted : bool) (count : Z),
    let r := rem_loop test fuel i ws sorted count in
    (forall x, (occurrences (fst (fst r)) x <= occurrences ws x)%nat)
    /\ (forall x, test x = false ->
                  occurrences (fst (fst r)) x = occurrences ws x)
    /\ Z.of_nat (List.length (fst (fst r))) + (snd r - count)
       = Z.of_nat (List.length ws)
    /\ count <= snd r
    /\ (snd (fst r) = true -> sorted = true)
    /\ (snd r = count -> fst (fst r) = ws /\ snd (fst r) = sorted).
Proof.
  induction fuel as [| fuel IH]; intros i ws sorted count; cbn zeta;
    cbn [rem_loop].
  - cbn [fst snd]. repeat split; auto; lia.
  - destruct (i <? List.length ws)%nat eqn:Ei;
      [| cbn [fst snd]; repeat split; auto; lia].
    apply Nat.ltb_lt in Ei.
    destruct (test (nth i ws [])) eqn:Et.
    + specialize (IH (S i) (swap_remove ws i)
                     (if negb (i =? List.length ws - 1)%nat then false
                      else sorted) (count + 1)).
      cbn zeta in IH.
      destruct (rem_loop test fuel (S i) (swap_remove ws i) _ (count + 1))
        as [[ws' s'] c']. cbn [fst snd] in *.
      destruct IH as [I1 [I2 [I3 [I4 [I5 I6]]]]].
      assert (HS := fun x => swap_remove_occurrences ws i x Ei).
      split; [| split; [| split; [| split; [| split]]]].
      * intros x. specialize (I1 x). destruct (HS x) as [H1 _]. lia.
      * intros x Hx. rewrite (I2 x Hx). destruct (HS x) as [H1 _].
        destruct (list_eq_dec ascii_dec (nth i ws []) x) as [E | _]; [| lia].
        rewrite E in Et. congruence.
      * destruct (HS []) as [_ H2]. lia.
      * lia.
      * intros H. specialize (I5 H).
        destruct (negb (i =? List.length ws - 1)%nat);
          [discriminate I5 | exact I5].
      * intros H. lia.
    + apply IH.
Qed.

(** Nothing is removed from a bucket in which no word from position
    [i] on passes the test. *)
Lemma rem_loop_none (test : list ascii -> bool) (fuel : nat) :
  forall (i : nat) (ws : list (list ascii)) (sorted : bool) (count : Z),
    filter test (skipn i ws) = [] ->
    rem_loop test fuel i ws sorted count = (ws, sorted, count).
Proof.
  induction fuel as [| fuel IH]; intros i ws sorted count HF;
    cbn [rem_loop]; [reflexivity |].
  destruct (i <? List.length ws)%nat eqn:Ei; [| reflexivity].
  apply Nat.ltb_lt in Ei.
  rewrite (skipn_nth_cons ws [] i Ei) in HF. cbn [filter] in HF.
  destruct (test (nth i ws [])); [discriminate HF |].
  apply IH. exact HF.
Qed.

(** The loop passes over words that fail the test. *)
Lemma rem_loop_skip (test : list ascii -> bool) (a : list (list ascii)) :
  forall (pre rest : list (list ascii)) (fuel : nat) (sorted : bool)
         (count : Z),
    forallb (fun w => negb (test w)) a = true ->
    rem_loop test (List.length a + fuel) (List.length pre)
             (pre ++ a ++ rest) sorted count
    = rem_loop test fuel (List.length pre + List.length a)
               (pre ++ a ++ rest) sorted count.
Proof.
  induction a as [| x a IH]; intros pre rest fuel sorted count HA.
  - cbn [List.length]. now rewrite Nat.add_0_r.
  - cbn [forallb] in HA. apply andb_true_iff in HA. destruct HA as [Hx HA].
    apply negb_true_iff in Hx.
    cbn [List.length Nat.add rem_loop].
    replace (List.length pre <? List.length (pre ++ (x :: a) ++ rest))%nat
      with true
      by (symmetry; apply Nat.ltb_lt; rewrite !length_app;
          cbn [List.length]; lia).
    rewrite app_nth2, Nat.sub_diag by lia. cbn [app nth]. rewrite Hx.
    specialize (IH (pre ++ [x]) rest fuel sorted count HA).
    rewrite <- !app_assoc in IH. cbn [app] in IH.
    rewrite length_app in IH. cbn [List.length] in IH.
    rewrite Nat.add_1_r in IH. rewrite IH. f_equal. lia.
Qed.

Lemma filter_none_in (test : list ascii -> bool) (l : list (list ascii)) :
  filter test l = [] <-> forall x, In x l -> test x = false.
Proof.
  induction l as [| y l IH]; cbn [filter]; [split; [intros _ x [] | auto] |].
  destruct (test y) eqn:E.
  - split; [discriminate |]. intros H. specialize (H y (or_introl eq_refl)).
    congruence.
  - rewrite IH. split.
    + intros H x [<- | Hx]; auto.
    + intros H x Hx. apply H. now right.
Qed.

(** When at most one word from position [i] on passes the test, the
    loop removes it: no word from position [i] on passes the test
    afterwards. *)
Lemma rem_loop_single (test : list ascii -> bool) (fuel : nat) :
  forall (i : nat) (ws : list (list ascii)) (sorted : bool) (count : Z),
    (List.length (filter test (skipn i ws)) <= 1)%nat ->
    (List.length ws <= i + fuel)%nat ->
    let r := rem_loop test fuel i ws sorted count in
    filter test (skipn i (fst (fst r))) = []
    /\ firstn i (fst (fst r)) = firstn i ws.
Proof.
  induction fuel as [| fuel IH]; intros i ws sorted count H1 HL; cbn zeta;
    cbn [rem_loop].
  - cbn [fst]. rewrite skipn_all2 by lia. auto.
  - destruct (i <? List.length ws)%nat eqn:Ei;
      [| apply Nat.ltb_ge in Ei; cbn [fst]; rewrite skipn_all2 by lia; auto].
    apply Nat.ltb_lt in Ei.
    assert (Split : ws = firstn i ws ++ nth i ws [] :: skipn (S i) ws).
    { rewrite <- (firstn_skipn i ws) at 1. f_equal.
      apply skipn_nth_cons. exact Ei. }
    rewrite (skipn_nth_cons ws [] i Ei) in H1. cbn [filter] in H1.
    set (a := firstn i ws) in *. set (x0 := nth i ws []) in *.
    set (b := skipn (S i) ws) in *.
    assert (La : List.length a = i) by (unfold a; rewrite length_firstn; lia).
    destruct (test x0) eqn:Et.
    + cbn [List.length] in H1.
      assert (Hb : filter test b = [])
        by (destruct (filter test b); [reflexivity | cbn in H1; lia]).
      assert (HW : swap_remove ws i
                   = match b with
                     | [] => a
                     | _ :: _ => a ++ last b [] :: removelast b
                     end).
      { rewrite Split at 1. rewrite <- La at 1. apply swap_remove_parts. }
      assert (HN : filter test (skipn i (swap_remove ws i)) = []).
      { rewrite HW. destruct b as [| y b'].
        - rewrite skipn_all2 by lia. reflexivity.
        - rewrite skipn_app, skipn_all2 by lia. rewrite La, Nat.sub_diag.
          cbn [app skipn]. apply filter_none_in. intros x Hx.
          rewrite filter_none_in in Hb. apply Hb.
          rewrite (app_removelast_last [] (l := y :: b')) by discriminate.
          apply in_or_app. destruct Hx as [<- | Hx];
            [right; now left | now left]. }
      rewrite rem_loop_none.
      * cbn [fst]. split; [exact HN |].
        rewrite HW. destruct b as [| y b'].
        -- rewrite firstn_all2 by lia. reflexivity.
        -- rewrite firstn_app, firstn_all2 by lia.
           rewrite La, Nat.sub_diag. cbn [firstn]. apply app_nil_r.
      * apply filter_none_in. intros x Hx. rewrite filter_none_in in HN.
        apply HN. rewrite <- (firstn_skipn 1 (skipn i (swap_remove ws i))).
        apply in_or_app. right. rewrite skipn_skipn. exact Hx.
    + specialize (IH (S i) ws sorted count H1 ltac:(lia)). cbn zeta in IH.
      destruct (rem_loop test fuel (S i) ws sorted count) as [[ws' s'] c'].
      cbn [fst] in *. destruct IH as [I1 I2].
      assert (E : firstn (S i) ws = a ++ [x0]).
      { rewrite Split. rewrite firstn_app, firstn_all2 by lia.
        rewrite La. replace (S i - i)%nat with 1%nat by lia. reflexivity. }
      rewrite E in I2.
      assert (W : ws' = (a ++ [x0]) ++ skipn (S i) ws')
        by (rewrite <- I2; symmetry; apply firstn_skipn).
      split.
      * rewrite W. rewrite <- app_assoc. rewrite skipn_app, skipn_all2 by lia.
        rewrite La, Nat.sub_diag. cbn [app skipn filter]. rewrite Et.
        exact I1.
      * rewrite W. rewrite <- app_assoc. rewrite firstn_app, firstn_all2 by lia.
        rewrite La, Nat.sub_diag. cbn [firstn]. apply app_nil_r.
Qed.

Lemma swap_remove_filter (test : list ascii -> bool)
      (ws : list (list ascii)) (i : nat) :
  (i < List.length ws)%nat ->
  (List.length (filter test (swap_remove ws i))
   + (if test (nth i ws []) then 1 else 0)
   = List.length (filter test ws))%nat.
Proof.
  intros H.
  assert (Split : ws = firstn i ws ++ nth i ws [] :: skipn (S i) ws).
  { rewrite <- (firstn_skipn i ws) at 1. f_equal.
    apply skipn_nth_cons. exact H. }
  set (a := firstn i ws) in *. set (x0 := nth i ws []) in *.
  set (b := skipn (S i) ws) in *.
  assert (La : List.length a = i)
    by (unfold a; rewrite length_firstn; lia).
  clearbody a x0 b. subst ws. rewrite <- La.
  rewrite swap_remove_parts.
  destruct b as [| y b].
  - rewrite filter_app. cbn [filter]. rewrite length_app.
    destruct (test x0); cbn [List.length]; lia.
  - assert (Hb : y :: b = removelast (y :: b) ++ [last (y :: b) []])
      by (apply app_removelast_last; discriminate).
    set (rb := removelast (y :: b)) in *. set (lb := last (y :: b) []) in *.
    clearbody rb lb. rewrite Hb.
    rewrite !filter_app. cbn [filter]. rewrite !filter_app. cbn [filter].
    rewrite !length_app.
    destruct (test x0); destruct (test lb); cbn [List.length];
      rewrite ?length_app; cbn [List.length]; lia.
Qed.

(** Every word that the loop removes passes the test. *)
Lemma rem_loop_count (test : list ascii -> bool) (fuel : nat) :
  forall (i : nat) (ws : list (list ascii)) (sorted : bool) (count : Z),
    let r := rem_loop test fuel i ws sorted count in
    Z.of_nat (List.length (filter test (fst (fst r)))) + (snd r - count)
    = Z.of_nat (List.length (filter test ws)).
Proof.
  induction fuel as [| fuel IH]; intros i ws sorted count; cbn zeta;
    cbn [rem_loop]; [cbn [fst snd]; lia |].
  destruct (i <? List.length ws)%nat eqn:Ei; [| cbn [fst snd]; lia].
  apply Nat.ltb_lt in Ei.
  pose proof (swap_remove_filter test ws i Ei) as HS.
  destruct (test (nth i ws [])) eqn:Et; [| apply IH].
  specialize (IH (S i) (swap_remove ws i)
                 (if negb (i =? List.length ws - 1)%nat then false
                  else sorted) (count + 1)).
  cbn zeta in IH. lia.
Qed.

Lemma filter_occurrences_in (ws : list (list ascii)) (p : list ascii)
      (f : list ascii -> bool) :
  (forall w, In w ws -> (f w = true <-> w = p)) ->
  List.length (filter f ws) = occurrences ws p.
Proof.
  unfold occurrences. induction ws as [| w ws IH]; intros Hf;
    [reflexivity |].
  cbn [filter count_occ].
  assert (Hw := Hf w (or_introl eq_refl)).
  assert (IH' := IH (fun x Hx => Hf x (or_intror Hx))).
  destruct (list_eq_dec ascii_dec w p) as [E | NE].
  - rewrite (proj2 Hw E). cbn [List.length]. now rewrite IH'.
  - destruct (f w) eqn:F; [| exact IH'].
    exfalso. apply NE. apply Hw. reflexivity.
Qed.

Lemma occurrences_in (ws : list (list ascii)) (x : list ascii) :
  In x ws <-> (0 < occurrences ws x)%nat.
Proof. unfold occurrences. apply count_occ_In. Qed.

Lemma fold_len_acc (l : xdict) (acc : Z) :
  fold_left (fun count ws => count + Z.of_nat (List.length ws)) l acc
  = acc + fold_left (fun count ws => count + Z.of_nat (List.length ws)) l 0.
Proof.
  revert acc. induction l as [| ws l IH]; intros acc; cbn [fold_left];
    [lia |].
  rewrite IH, (IH (0 + _)). lia.
Qed.

Lemma set_nth_same {A : Type} (l : list A) (k : nat) (d : A) :
  (k < List.length l)%nat -> set_nth l k (nth k l d) = l.
Proof.
  intros H. unfold set_nth. rewrite <- (skipn_nth_cons l d k H).
  apply firstn_skipn.
Qed.

(** Replacing one bucket changes [dict_len] by the difference of the
    sizes. *)
Lemma dict_len_set_nth (words : xdict) (k : nat) (ws' : list (list ascii)) :
  List.length words = Z.to_nat XDICT_MAXLENGTH ->
  (k < List.length words)%nat ->
  dict_len (set_nth words k ws') + Z.of_nat (List.length (bucket words k))
  = dict_len words + Z.of_nat (List.length ws').
Proof.
  intros HL Hk. unfold dict_len, bucket.
  rewrite (firstn_all2 (set_nth words k ws'))
    by (rewrite set_nth_length; lia).
  rewrite (firstn_all2 words) by lia.
  pose proof (firstn_skipn k words) as E.
  rewrite (skipn_nth_cons words [] k Hk) in E.
  replace (fold_left (fun count ws => count + Z.of_nat (List.length ws))
                     words 0)
    with (fold_left (fun count ws => count + Z.of_nat (List.length ws))
                    (firstn k words ++ nth k words [] :: skipn (S k) words) 0)
    by (f_equal; exact E).
  unfold set_nth. rewrite !fold_left_app. cbn [fold_left].
  rewrite fold_len_acc.
  rewrite (fold_len_acc _ (_ + Z.of_nat (List.length (nth k words [])))).
  lia.
Qed.

(** The loop over the bucket [kn], seen from the dictionary. *)
Lemma rem_bucket_spec (test : list ascii -> bool) (kn : nat)
      (words : xdict) (sorted : bool) (count : Z) :
  List.length words = Z.to_nat XDICT_MAXLENGTH ->
  (kn < List.length words)%nat ->
  let r := rem_bucket test kn words sorted count in
  List.length (fst (fst r)) = List.length words
  /\ (forall j, j <> kn -> bucket (fst (fst r)) j = bucket words j)
  /\ bucket (fst (fst r)) kn
     = fst (fst (rem_loop test (List.length (bucket words kn)) 0
                          (bucket words kn) sorted count))
  /\ snd (fst r)
     = snd (fst (rem_loop test (List.length (bucket words kn)) 0
                          (bucket words kn) sorted count))
  /\ snd r
     = snd (rem_loop test (List.length (bucket words kn)) 0
                     (bucket words kn) sorted count)
  /\ dict_len (fst (fst r)) + (snd r - count) = dict_len words
  /\ (snd r = count -> fst (fst r) = words).
Proof.
  intros HL Hk. cbn zeta. unfold rem_bucket. fold (bucket words kn).
  pose proof (rem_loop_spec test (List.length (bucket words kn)) 0
                            (bucket words kn) sorted count) as HS.
  cbn zeta in HS.
  destruct (rem_loop test (List.length (bucket words kn)) 0
                     (bucket words kn) sorted count) as [[ws' s'] c'].
  cbn [fst snd] in *. destruct HS as [_ [_ [H3 [_ [_ H6]]]]].
  split; [apply set_nth_length; exact Hk |].
  split; [| split; [| split; [| split; [| split]]]]; try reflexivity.
  - intros j Hj. unfold bucket. rewrite nth_set_nth by exact Hk.
    destruct (Nat.eqb_spec j kn); [contradiction | reflexivity].
  - unfold bucket. rewrite nth_set_nth by exact Hk.
    now rewrite Nat.eqb_refl.
  - pose proof (dict_len_set_nth words kn ws' HL Hk). lia.
  - intros H. destruct (H6 H) as [-> _]. apply set_nth_same. exact Hk.
Qed.

Lemma xdict_eta (d : xdict_t) :
  {| xd_words := xd_words d; xd_cap := xd_cap d; xd_sorted := xd_sorted d |}
  = d.
Proof. destruct d; reflexivity. Qed.

(** X22: [xdict_remword] (with [k = 0]: the whole word) on a dictionary
    whose bucket for the word's length holds words of that length only.
    A word of at most 2 or of [XDICT_MAXLENGTH] or more characters gives
    -1 and leaves the dictionary as it is.  Otherwise the value returned
    is the number of copies of the word taken out of its bucket; no
    other word of that bucket and no other bucket changes; a word that
    stood at most once in the bucket is gone afterwards; the [sorted]
    flag is never set; and when 0 is returned the dictionary is
    unchanged. *)
Theorem xdict_remword_spec (d : xdict_t) (word : list ascii) :
  xdict_wf d ->
  Forall (fun w => List.length w = List.length word)
         (bucket (xd_words d) (List.length word)) ->
  let n := List.length word in
  let r := xdict_remword d word 0 in
  let before := occurrences (bucket (xd_words d) n) word in
  let after := occurrences (bucket (xd_words (snd r)) n) word in
  (Z.of_nat n <= 2 \/ XDICT_MAXLENGTH <= Z.of_nat n -> r = (-1, d))
  /\ (2 < Z.of_nat n < XDICT_MAXLENGTH ->
      0 <= fst r
      /\ Z.of_nat after + fst r = Z.of_nat before
      /\ ((before <= 1)%nat -> after = 0%nat)
      /\ (forall x, x <> word ->
            occurrences (bucket (xd_words (snd r)) n) x
            = occurrences (bucket (xd_words d) n) x)
      /\ (forall k, k <> n ->
            bucket (xd_words (snd r)) k = bucket (xd_words d) k)
      /\ xdict_wf (snd r)
      /\ (xd_sorted (snd r) = true -> xd_sorted d = true)
      /\ (fst r = 0 -> snd r = d)).
Proof.
  intros [W1 W2] HF. cbn zeta. unfold xdict_remword.
  change (0 =? 0) with true. cbn iota.
  split.
  - intros [H | H].
    + destruct (Z.of_nat (List.length word) >=? XDICT_MAXLENGTH);
        [reflexivity |].
      replace (Z.of_nat (List.length word) <=? 2) with true
        by (symmetry; apply Z.leb_le; lia).
      reflexivity.
    + replace (Z.of_nat (List.length word) >=? XDICT_MAXLENGTH) with true
        by (symmetry; rewrite Z.geb_leb; apply Z.leb_le; lia).
      reflexivity.
  - intros H.
    replace (Z.of_nat (List.length word) >=? XDICT_MAXLENGTH) with false
      by (symmetry; rewrite Z.geb_leb; apply Z.leb_gt; lia).
    replace (Z.of_nat (List.length word) <=? 2) with false
      by (symmetry; apply Z.leb_gt; lia).
    rewrite Nat2Z.id.
    set (n := List.length word) in *.
    set (test := fun w : list ascii => memcmp_eq w word n).
    assert (Hk : (n < List.length (xd_words d))%nat) by (rewrite W1; lia).
    pose proof (rem_bucket_spec test n (xd_words d) (xd_sorted d) 0 W1 Hk)
      as HB. cbn zeta in HB.
    set (ws := bucket (xd_words d) n) in *.
    pose proof (rem_loop_spec test (List.length ws) 0 ws (xd_sorted d) 0)
      as HS.
    pose proof (rem_loop_count test (List.length ws) 0 ws (xd_sorted d) 0)
      as HC.
    pose proof (rem_loop_single test (List.length ws) 0 ws (xd_sorted d) 0)
      as H1.
    cbn zeta in HS, HC, H1. cbn [skipn] in H1.
    destruct (rem_bucket test n (xd_words d) (xd_sorted d) 0)
      as [[words s] c].
    destruct (rem_loop test (List.length ws) 0 ws (xd_sorted d) 0)
      as [[ws' s'] c'].
    cbn [fst snd xd_words xd_sorted] in *.
    destruct HB as [B1 [B2 [B3 [B4 [B5 [B6 B7]]]]]]. subst s c.
    destruct HS as [S1 [S2 [S3 [S4 [S5 S6]]]]].
    assert (T : forall w, In w ws -> (test w = true <-> w = word)).
    { intros w Hw. unfold test. apply memcmp_eq_word.
      rewrite Forall_forall in HF. exact (HF w Hw). }
    assert (T' : forall w, In w ws' -> (test w = true <-> w = word)).
    { intros w Hw. apply T. apply occurrences_in.
      apply occurrences_in in Hw. specialize (S1 w). lia. }
    rewrite (filter_occurrences_in ws word test T) in HC, H1.
    rewrite (filter_occurrences_in ws' word test T') in HC.
    rewrite B3.
    split; [lia |]. split; [lia |].
    split.
    { intros Hb. destruct (H1 Hb ltac:(lia)) as [H1a _].
      rewrite <- (filter_occurrences_in ws' word test T'), H1a.
      reflexivity. }
    split.
    { intros x Hx. destruct (test x) eqn:Ex; [| exact (S2 x Ex)].
      assert (N : ~ In x ws).
      { intros Hin. apply Hx. apply (T x Hin). exact Ex. }
      assert (N0 : occurrences ws x = 0%nat).
      { destruct (occurrences ws x) eqn:E; [reflexivity |].
        exfalso. apply N. apply occurrences_in. lia. }
      specialize (S1 x). lia. }
    split; [exact B2 |].
    split; [split; [cbn [xd_words]; lia | exact W2] |].
    split; [exact S5 |].
    intros Hc. rewrite (B7 Hc). destruct (S6 Hc) as [_ ->].
    apply xdict_eta.
Qed.

Lemma xdict_remword_spec_witness :
  let d := snd (xdict_addword true true xdict_init (str "cat") 0) in
  let r := xdict_remword d (str "cat") 0 in
  fst r = 1 /\ occurrences (bucket (xd_words (snd r)) 3) (str "cat") = 0%nat.
Proof.
  cbn zeta.
  destruct (xdict_remword_spec
              (snd (xdict_addword true true xdict_init (str "cat") 0))
              (str "cat"))
    as [_ H].
  - split; reflexivity.
  - vm_compute. repeat constructor.
  - destruct H as [_ [H2 [H3 _]]]; [vm_compute; split; reflexivity |].
    split; [vm_compute; reflexivity |]. apply H3. vm_compute. lia.
Defined.

Lemma rem_loop_step (test : list ascii -> bool) (fuel i : nat)
      (ws : list (list ascii)) (sorted : bool) (count : Z) :
  rem_loop test (S fuel) i ws sorted count
  = if (i <? List.length ws)%nat then
      if test (nth i ws []) then
        rem_loop test fuel (S i) (swap_remove ws i)
                 (if negb (i =? List.length ws - 1)%nat then false
                  else sorted) (count + 1)
      else rem_loop test fuel (S i) ws sorted count
    else (ws, sorted, count).
Proof. reflexivity. Qed.

(** X23: [xdict_remword] can leave the word in the dictionary.  When the
    bucket holds the word twice, the second time as its last word, the
    first copy is overwritten with the last word, which is the word
    itself, and the index moves on: 1 is returned and the bucket still
    holds the word. *)
Theorem xdict_remword_leaves_copy (d : xdict_t) (word : list ascii)
        (a b : list (list ascii)) :
  xdict_wf d ->
  2 < Z.of_nat (List.length word) < XDICT_MAXLENGTH ->
  bucket (xd_words d) (List.length word) = a ++ word :: b ++ [word] ->
  Forall (fun w => List.length w = List.length word /\ w <> word) (a ++ b) ->
  fst (xdict_remword d word 0) = 1
  /\ bucket (xd_words (snd (xdict_remword d word 0))) (List.length word)
     = a ++ word :: b
  /\ xd_sorted (snd (xdict_remword d word 0)) = false.
Proof.
  intros [W1 W2] H HB HF. unfold xdict_remword.
  change (0 =? 0) with true. cbn iota.
  replace (Z.of_nat (List.length word) >=? XDICT_MAXLENGTH) with false
    by (symmetry; rewrite Z.geb_leb; apply Z.leb_gt; lia).
  replace (Z.of_nat (List.length word) <=? 2) with false
    by (symmetry; apply Z.leb_gt; lia).
  rewrite Nat2Z.id.
  set (n := List.length word) in *.
  set (test := fun w : list ascii => memcmp_eq w word n).
  assert (Hk : (n < List.length (xd_words d))%nat) by (rewrite W1; lia).
  pose proof (rem_bucket_spec test n (xd_words d) (xd_sorted d) 0 W1 Hk)
    as HR. cbn zeta in HR.
  destruct (rem_bucket test n (xd_words d) (xd_sorted d) 0) as [[words s] c].
  cbn [fst snd xd_words xd_sorted] in *.
  destruct HR as [_ [_ [B3 [B4 [B5 _]]]]].
  assert (Tw : test word = true)
    by (unfold test, n; now apply memcmp_eq_word).
  assert (Tn : forall l, Forall (fun w => List.length w = n /\ w <> word) l ->
                         forallb (fun w => negb (test w)) l = true).
  { intros l Hl. apply forallb_forall. intros x Hx.
    rewrite Forall_forall in Hl. destruct (Hl x Hx) as [L N].
    apply negb_true_iff. destruct (test x) eqn:E; [| reflexivity].
    exfalso. apply N. apply (memcmp_eq_word x word L). exact E. }
  apply Forall_app in HF. destruct HF as [Fa Fb].
  assert (E : rem_loop test (List.length (bucket (xd_words d) n)) 0
                       (bucket (xd_words d) n) (xd_sorted d) 0
              = (a ++ word :: b, false, 1)).
  { rewrite HB.
    replace (List.length (a ++ word :: b ++ [word]))
      with (List.length a + S (S (List.length b)))%nat
      by (rewrite length_app; cbn [List.length]; rewrite length_app;
          cbn [List.length]; lia).
    pose proof (rem_loop_skip test a [] (word :: b ++ [word])
                              (S (S (List.length b))) (xd_sorted d) 0
                              (Tn a Fa)) as HS.
    cbn [app List.length Nat.add] in HS. rewrite HS. clear HS.
    rewrite rem_loop_step. change (0 + 1) with 1.
    replace (List.length a <? List.length (a ++ word :: b ++ [word]))%nat
      with true
      by (symmetry; apply Nat.ltb_lt; rewrite length_app;
          cbn [List.length]; lia).
    rewrite app_nth2, Nat.sub_diag by lia. cbn [nth]. rewrite Tw.
    replace (List.length a =? List.length (a ++ word :: b ++ [word]) - 1)%nat
      with false
      by (symmetry; apply Nat.eqb_neq; rewrite length_app;
          cbn [List.length]; rewrite length_app; cbn [List.length]; lia).
    cbn [negb].
    rewrite swap_remove_parts.
    replace (match b ++ [word] with
             | [] => a
             | _ :: _ => a ++ last (b ++ [word]) [] :: removelast (b ++ [word])
             end) with (a ++ word :: b)
      by (rewrite last_last, removelast_last; destruct b; reflexivity).
    apply rem_loop_none.
    replace (S (List.length a)) with (List.length (a ++ [word]))
      by (rewrite length_app; cbn [List.length]; lia).
    replace (a ++ word :: b) with ((a ++ [word]) ++ b)
      by (rewrite <- app_assoc; reflexivity).
    rewrite skipn_app, skipn_all, Nat.sub_diag. cbn [app skipn].
    apply filter_none_in. intros x Hx.
    specialize (Tn b Fb). rewrite forallb_forall in Tn.
    apply negb_true_iff. exact (Tn x Hx). }
  rewrite E in B3, B4, B5. cbn [fst snd] in B3, B4, B5.
  split; [exact B5 | split; [exact B3 | exact B4]].
Qed.

Lemma xdict_remword_leaves_copy_witness :
  let d := {| xd_words := set_nth (xd_words xdict_init) 3
                                  [str "cat"; str "dog"; str "cat"];
              xd_cap := xd_cap xdict_init;
              xd_sorted := false |} in
  fst (xdict_remword d (str "cat") 0) = 1
  /\ bucket (xd_words (snd (xdict_remword d (str "cat") 0))) 3
     = [] ++ str "cat" :: [str "dog"]
  /\ xd_sorted (snd (xdict_remword d (str "cat") 0)) = false.
Proof.
  cbn zeta.
  apply (xdict_remword_leaves_copy _ (str "cat") [] [str "dog"]).
  - split; reflexivity.
  - vm_compute. split; reflexivity.
  - reflexivity.
  - repeat constructor. discriminate.
Defined.

Lemma remmatch_buckets_spec (pat : list ascii) (ks : list nat) :
  forall (words : xdict) (sorted : bool) (count : Z),
    List.length words = Z.to_nat XDICT_MAXLENGTH ->
    Forall (fun k => (k < List.length words)%nat) ks ->
    let r := remmatch_buckets pat ks words sorted count in
    List.length (fst (fst r)) = List.length words
    /\ count <= snd r
    /\ dict_len (fst (fst r)) + (snd r - count) = dict_len words
    /\ (forall j x, (occurrences (bucket (fst (fst r)) j) x
                     <= occurrences (bucket words j) x)%nat)
    /\ (forall j x, xdict_match x pat = false ->
                    occurrences (bucket (fst (fst r)) j) x
                    = occurrences (bucket words j) x)
    /\ (snd (fst r) = true -> sorted = true).
Proof.
  induction ks as [| kn ks IH]; intros words sorted count HL HK; cbn zeta;
    cbn [remmatch_buckets].
  - cbn [fst snd]. repeat split; auto; lia.
  - inversion HK as [| ? ? K1 K2]; subst.
    pose proof (rem_bucket_spec (fun w => xdict_match w pat) kn words sorted
                                count HL K1) as HB.
    pose proof (rem_loop_spec (fun w => xdict_match w pat)
                              (List.length (bucket words kn)) 0
                              (bucket words kn) sorted count) as HS.
    cbn zeta in HB, HS.
    destruct (rem_bucket (fun w => xdict_match w pat) kn words sorted count)
      as [[words1 s1] c1].
    destruct (rem_loop (fun w => xdict_match w pat)
                       (List.length (bucket words kn)) 0 (bucket words kn)
                       sorted count) as [[ws' s'] c'].
    cbn [fst snd] in *.
    destruct HB as [B1 [B2 [B3 [B4 [B5 [B6 _]]]]]]. subst s1 c1.
    destruct HS as [S1 [S2 [_ [S4 [S5 _]]]]].
    specialize (IH words1 s' c' ltac:(lia)
                   ltac:(rewrite B1; exact K2)).
    cbn zeta in IH.
    destruct (remmatch_buckets pat ks words1 s' c') as [[words2 s2] c2].
    cbn [fst snd] in *.
    destruct IH as [I1 [I2 [I3 [I4 [I5 I6]]]]].
    assert (Q : forall j x,
               (occurrences (bucket words1 j) x
                <= occurrences (bucket words j) x)%nat
               /\ (xdict_match x pat = false ->
                   occurrences (bucket words1 j) x
                   = occurrences (bucket words j) x)).
    { intros j x. destruct (Nat.eq_dec j kn) as [-> | Hj].
      - rewrite B3. split; [apply S1 | apply S2].
      - rewrite (B2 j Hj). split; [lia | reflexivity]. }
    split; [lia |]. split; [lia |]. split; [lia |].
    split; [| split].
    + intros j x. specialize (I4 j x). destruct (Q j x) as [Q1 _]. lia.
    + intros j x Hx. rewrite (I5 j x Hx). exact (proj2 (Q j x) Hx).
    + intros H. apply S5. apply I6. exact H.
Qed.

(** X24: [xdict_remmatch] either returns -1 and leaves the dictionary as
    it is, or returns the number of words it has taken out: [dict_len]
    falls by exactly that number, no bucket gains an occurrence of any
    word, and the [sorted] flag is never set.  With [k = 0], or with a
    [*] or a [?] in the pattern, every word that [xdict_match] does not
    match against the pattern stays as often as it was in every
    bucket. *)
Theorem xdict_remmatch_spec (d : xdict_t) (pat : list ascii) (k : Z) :
  xdict_wf d ->
  let r := xdict_remmatch d pat k in
  r = (-1, d)
  \/ (0 <= fst r
      /\ dict_len (xd_words (snd r)) + fst r = dict_len (xd_words d)
      /\ (forall j x, (occurrences (bucket (xd_words (snd r)) j) x
                       <= occurrences (bucket (xd_words d) j) x)%nat)
      /\ (k = 0 \/ In "*" pat \/ In "?" pat ->
          forall j x, xdict_match x pat = false ->
                      occurrences (bucket (xd_words (snd r)) j) x
                      = occurrences (bucket (xd_words d) j) x)
      /\ xdict_wf (snd r)
      /\ (xd_sorted (snd r) = true -> xd_sorted d = true)).
Proof.
  intros [W1 W2]. cbn zeta.
  assert (One : forall (test : list ascii -> bool) (kz : Z),
             2 < kz < XDICT_MAXLENGTH ->
             let r := rem_bucket test (Z.to_nat kz) (xd_words d)
                                 (xd_sorted d) 0 in
             0 <= snd r
             /\ dict_len (fst (fst r)) + snd r = dict_len (xd_words d)
             /\ (forall j x, (occurrences (bucket (fst (fst r)) j) x
                              <= occurrences (bucket (xd_words d) j) x)%nat)
             /\ (forall j x, test x = false ->
                             occurrences (bucket (fst (fst r)) j) x
                             = occurrences (bucket (xd_words d) j) x)
             /\ List.length (fst (fst r)) = List.length (xd_words d)
             /\ (snd (fst r) = true -> xd_sorted d = true)).
  { intros test kz Hkz. cbn zeta.
    assert (Hk : (Z.to_nat kz < List.length (xd_words d))%nat)
      by (rewrite W1; lia).
    pose proof (rem_bucket_spec test (Z.to_nat kz) (xd_words d) (xd_sorted d)
                                0 W1 Hk) as HB.
    pose proof (rem_loop_spec test
                  (List.length (bucket (xd_words d) (Z.to_nat kz))) 0
                  (bucket (xd_words d) (Z.to_nat kz)) (xd_sorted d) 0) as HS.
    cbn zeta in HB, HS.
    destruct (rem_bucket test (Z.to_nat kz) (xd_words d) (xd_sorted d) 0)
      as [[words1 s1] c1].
    destruct (rem_loop test (List.length (bucket (xd_words d) (Z.to_nat kz)))
                       0 (bucket (xd_words d) (Z.to_nat kz)) (xd_sorted d) 0)
      as [[ws' s'] c'].
    cbn [fst snd] in *.
    destruct HB as [B1 [B2 [B3 [B4 [B5 [B6 _]]]]]]. subst s1 c1.
    destruct HS as [S1 [S2 [_ [S4 [S5 _]]]]].
    split; [lia |]. split; [lia |].
    split; [| split; [| split; [exact B1 | exact S5]]].
    - intros j x. destruct (Nat.eq_dec j (Z.to_nat kz)) as [-> | Hj].
      + rewrite B3. apply S1.
      + rewrite (B2 j Hj). lia.
    - intros j x Hx. destruct (Nat.eq_dec j (Z.to_nat kz)) as [-> | Hj].
      + rewrite B3. apply S2. exact Hx.
      + rewrite (B2 j Hj). reflexivity. }
  unfold xdict_remmatch.
  destruct (negb (k =? 0) && negb (existsb (Ascii.eqb "*") pat)) eqn:E1.
  - apply andb_true_iff in E1. destruct E1 as [Ek Es].
    apply negb_true_iff in Ek, Es. apply Z.eqb_neq in Ek.
    assert (NoStar : ~ In "*" pat).
    { intros Hin. apply Bool.not_true_iff_false in Es. apply Es.
      apply existsb_exists. exists "*". split; [exact Hin | reflexivity]. }
    destruct (negb (existsb (Ascii.eqb "?") pat)) eqn:E2.
    + apply negb_true_iff in E2.
      assert (NoQ : ~ In "?" pat).
      { intros Hin. apply Bool.not_true_iff_false in E2. apply E2.
        apply existsb_exists. exists "?". split; [exact Hin | reflexivity]. }
      unfold xdict_remword.
      replace (k =? 0) with false by (symmetry; apply Z.eqb_neq; exact Ek).
      destruct (k >=? XDICT_MAXLENGTH) eqn:G; [left; reflexivity |].
      destruct (k <=? 2) eqn:L; [left; reflexivity |].
      right. rewrite Z.geb_leb in G. apply Z.leb_gt in G, L.
      specialize (One (fun w => memcmp_eq w pat (Z.to_nat k)) k
                      ltac:(lia)).
      cbn zeta in One.
      destruct (rem_bucket (fun w => memcmp_eq w pat (Z.to_nat k))
                           (Z.to_nat k) (xd_words d) (xd_sorted d) 0)
        as [[words1 s1] c1].
      cbn [fst snd xd_words xd_sorted] in *.
      destruct One as [O1 [O2 [O3 [_ [O5 O6]]]]].
      split; [exact O1 |]. split; [exact O2 |]. split; [exact O3 |].
      split; [intros [Hk | [Hs | Hq]]; [contradiction | tauto | tauto] |].
      split; [split; [cbn [xd_words]; lia | exact W2] | exact O6].
    + replace (k =? 0) with false by (symmetry; apply Z.eqb_neq; exact Ek).
      destruct (k >=? XDICT_MAXLENGTH) eqn:G; [left; reflexivity |].
      destruct (k <=? 2) eqn:L; [left; reflexivity |].
      right. rewrite Z.geb_leb in G. apply Z.leb_gt in G, L.
      specialize (One (fun w => xdict_match w pat) k ltac:(lia)).
      cbn zeta in One.
      destruct (rem_bucket (fun w => xdict_match w pat)
                           (Z.to_nat k) (xd_words d) (xd_sorted d) 0)
        as [[words1 s1] c1].
      cbn [fst snd xd_words xd_sorted] in *.
      destruct One as [O1 [O2 [O3 [O4 [O5 O6]]]]].
      split; [exact O1 |]. split; [exact O2 |]. split; [exact O3 |].
      split; [intros _; exact O4 |].
      split; [split; [cbn [xd_words]; lia | exact W2] | exact O6].
  - right.
    set (k0 := List.length (filter (fun c => negb (Ascii.eqb c "*")) pat)).
    pose proof (remmatch_buckets_spec pat
                  (seq k0 (Z.to_nat XDICT_MAXLENGTH - k0))
                  (xd_words d) (xd_sorted d) 0 W1) as HR.
    assert (HK : Forall (fun j => (j < List.length (xd_words d))%nat)
                        (seq k0 (Z.to_nat XDICT_MAXLENGTH - k0))).
    { apply Forall_forall. intros j Hj. apply in_seq in Hj.
      rewrite W1. lia. }
    specialize (HR HK). cbn zeta in HR.
    destruct (remmatch_buckets pat (seq k0 (Z.to_nat XDICT_MAXLENGTH - k0))
                               (xd_words d) (xd_sorted d) 0)
      as [[words1 s1] c1].
    cbn [fst snd xd_words xd_sorted] in *.
    destruct HR as [R1 [R2 [R3 [R4 [R5 R6]]]]].
    split; [lia |]. split; [lia |]. split; [exact R4 |].
    split; [intros _; exact R5 |].
    split; [split; [cbn [xd_words]; lia | exact W2] | exact R6].
Qed.

Lemma xdict_remmatch_spec_witness :
  let d := {| xd_words := set_nth (xd_words xdict_init) 3
                                  [str "cat"; str "dog"; str "cot"];
              xd_cap := xd_cap xdict_init;
              xd_sorted := false |} in
  let r := xdict_remmatch d (str "c?t") 0 in
  r = (-1, d)
  \/ (0 <= fst r
      /\ dict_len (xd_words (snd r)) + fst r = dict_len (xd_words d)
      /\ (forall j x, (occurrences (bucket (xd_words (snd r)) j) x
                       <= occurrences (bucket (xd_words d) j) x)%nat)
      /\ (0 = 0 \/ In "*" (str "c?t") \/ In "?" (str "c?t") ->
          forall j x, xdict_match x (str "c?t") = false ->
                      occurrences (bucket (xd_words (snd r)) j) x
                      = occurrences (bucket (xd_words d) j) x)
      /\ xdict_wf (snd r)
      /\ (xd_sorted (snd r) = true -> xd_sorted d = true)).
Proof.
  cbn zeta. apply xdict_remmatch_spec. split; reflexivity.
Defined.

(** ** Loading the dictionary file *)

(** What one call of [xdict_addword] does to the buckets, for any [k]. *)
Lemma xdict_addword_buckets (realloc_ok malloc_ok : bool) (d : xdict_t)
      (word : list ascii) (k : Z) :
  xdict_wf d ->
  let k' := if k =? 0 then Z.of_nat (List.length word) else k in
  let r := xdict_addword realloc_ok malloc_ok d word k in
  xdict_wf (snd r)
  /\ ((xd_words (snd r) = xd_words d /\ xd_sorted (snd r) = xd_sorted d
       /\ (realloc_ok = true -> malloc_ok = true ->
           k' <= 2 \/ XDICT_MAXLENGTH <= k'))
      \/ (fst r = 0 /\ 2 < k' < XDICT_MAXLENGTH
          /\ xd_sorted (snd r) = false
          /\ forall j,
              bucket (xd_words (snd r)) j
              = if Nat.eqb j (Z.to_nat k')
                then bucket (xd_words d) j ++ [firstn (Z.to_nat k') word]
                else bucket (xd_words d) j)).
Proof.
  intros [W1 W2]. cbn zeta. unfold xdict_addword.
  set (k' := if k =? 0 then Z.of_nat (List.length word) else k).
  destruct (k' >=? XDICT_MAXLENGTH) eqn:G.
  { cbn [fst snd]. split; [split; assumption |]. left.
    rewrite Z.geb_leb in G. apply Z.leb_le in G. auto. }
  destruct (k' <=? 2) eqn:L.
  { cbn [fst snd]. split; [split; assumption |]. left.
    apply Z.leb_le in L. auto. }
  rewrite Z.geb_leb in G. apply Z.leb_gt in G, L.
  assert (Hk : (Z.to_nat k' < List.length (xd_words d))%nat)
    by (rewrite W1; lia).
  assert (Hc : (Z.to_nat k' < List.length (xd_cap d))%nat)
    by (rewrite W2; lia).
  set (grow := Z.of_nat (List.length (nth (Z.to_nat k') (xd_words d) []))
               >=? nth (Z.to_nat k') (xd_cap d) 0).
  assert (WC : List.length
                 (if grow
                  then set_nth (xd_cap d) (Z.to_nat k')
                               (nth (Z.to_nat k') (xd_cap d) 0 * 2 + 15)
                  else xd_cap d) = Z.to_nat XDICT_MAXLENGTH).
  { destruct grow; [rewrite set_nth_length by exact Hc |]; exact W2. }
  destruct (grow && negb realloc_ok) eqn:E1.
  { cbn [fst snd]. split; [split; assumption |]. left.
    split; [reflexivity | split; [reflexivity |]].
    intros -> _. rewrite andb_false_r in E1. discriminate E1. }
  destruct (negb malloc_ok) eqn:E2.
  { cbn [fst snd xd_words xd_cap xd_sorted].
    split; [split; cbn [xd_words xd_cap]; assumption |]. left.
    split; [reflexivity | split; [reflexivity |]].
    intros _ ->. discriminate E2. }
  cbn [fst snd xd_words xd_cap xd_sorted].
  split; [split; cbn [xd_words xd_cap];
          [rewrite set_nth_length by exact Hk; exact W1 | exact WC] |].
  right. split; [reflexivity |]. split; [lia |]. split; [reflexivity |].
  intros j. unfold bucket. rewrite nth_set_nth by exact Hk.
  destruct (Nat.eqb_spec j (Z.to_nat k')) as [-> | _]; reflexivity.
Qed.

Lemma add_calls_spec (alloc : nat -> bool * bool)
      (calls : list (list ascii * Z)) :
  forall (d : xdict_t) (n : nat),
    xdict_wf d -> xdict_lengths (xd_words d) ->
    Forall call_in_string calls ->
    let r := add_calls alloc calls d n in
    xdict_wf (snd (fst r)) /\ xdict_lengths (xd_words (snd (fst r))).
Proof.
  induction calls as [| [word k] calls IH]; intros d n W HL HC; cbn zeta;
    cbn [add_calls]; [cbn [fst snd]; auto |].
  inversion HC as [| ? ? C1 C2]; subst.
  pose proof (xdict_addword_buckets (fst (alloc n)) (snd (alloc n)) d word k W)
    as HA. cbn zeta in HA.
  destruct (xdict_addword (fst (alloc n)) (snd (alloc n)) d word k)
    as [rc d'].
  cbn [fst snd] in HA. destruct HA as [W' HA].
  assert (HL' : xdict_lengths (xd_words d')).
  { destruct HA as [[E _] | [_ [Hk [_ Hb]]]]; [rewrite E; exact HL |].
    intros j x Hx. rewrite Hb in Hx.
    destruct (Nat.eqb_spec j
                (Z.to_nat (if k =? 0 then Z.of_nat (List.length word)
                           else k))) as [-> | _];
      [| exact (HL j x Hx)].
    apply in_app_or in Hx. destruct Hx as [Hx | [<- | []]].
    - exact (HL _ x Hx).
    - rewrite length_firstn. unfold call_in_string in C1.
      cbn [fst snd] in C1. destruct (k =? 0); lia. }
  destruct (rc <? -1); [cbn [fst snd]; auto |].
  apply IH; assumption.
Qed.

Lemma strchr_index_some (s : list ascii) (c : ascii) (i : nat) :
  strchr_index s c = Some i ->
  (i < List.length s)%nat /\ nth i s NUL = c /\ ~ In c (firstn i s).
Proof.
  revert i. induction s as [| x s IH]; intros i H; [discriminate H |].
  cbn [strchr_index] in H.
  destruct (Ascii.eqb_spec x c) as [-> | Ne].
  - injection H as <-. cbn. split; [lia | split; [reflexivity | tauto]].
  - destruct (strchr_index s c) as [j |]; [| discriminate H].
    injection H as <-. destruct (IH j eq_refl) as [I1 [I2 I3]].
    cbn [List.length nth firstn]. split; [lia | split; [exact I2 |]].
    intros [E | Hin]; [now apply Ne | now apply I3].
Qed.

Lemma strchr_index_none (s : list ascii) (c : ascii) :
  strchr_index s c = None <-> ~ In c s.
Proof.
  induction s as [| x s IH]; cbn [strchr_index]; [split; [tauto | auto] |].
  destruct (Ascii.eqb_spec x c) as [-> | Ne].
  - split; [discriminate |]. intros H. exfalso. apply H. now left.
  - destruct (strchr_index s c) as [j |].
    + split; [discriminate |]. intros H. exfalso.
      assert (N : ~ In c s) by (intros Hin; apply H; now right).
      apply IH in N. discriminate N.
    + split; [| reflexivity]. intros _ [E | Hin]; [now apply Ne |].
      now apply (proj1 IH eq_refl).
Qed.

Lemma firstn_no_NUL (s : list ascii) (i : nat) :
  ~ In NUL s -> ~ In NUL (firstn i s).
Proof.
  intros H Hin. apply H. rewrite <- (firstn_skipn i s).
  apply in_or_app. now left.
Qed.

(** No call that [xdict_load] makes for a line reaches past the end of
    the string in [buffer]. *)
Lemma load_calls_in_string (before : ascii) (buffer : list ascii) :
  before <> NUL -> ~ In NUL buffer ->
  Forall call_in_string (load_calls before buffer).
Proof.
  intros HB HN. unfold load_calls.
  assert (Dflt : Forall call_in_string
                        [(buffer, Z.of_nat (List.length buffer))]).
  { repeat constructor; cbn [fst snd]; lia. }
  destruct (strchr_index buffer "/") as [pi |] eqn:E; [| exact Dflt].
  apply strchr_index_some in E. destruct E as [E1 _].
  assert (Ls : List.length (firstn pi buffer) = pi)
    by (rewrite length_firstn; lia).
  assert (Hl : nth pi (before :: buffer) NUL <> NUL).
  { destruct pi as [| pj]; [exact HB |]. cbn [nth]. intros E.
    apply HN. rewrite <- E. apply nth_In. lia. }
  assert (Hc : forall tail,
             ~ In NUL tail ->
             c_str (firstn pi buffer ++ nth pi (before :: buffer) NUL :: tail)
             = firstn pi buffer ++ nth pi (before :: buffer) NUL :: tail).
  { intros tail Ht. apply c_str_id. intros Hin.
    apply in_app_or in Hin. destruct Hin as [Hin | [Hin | Hin]].
    - exact (firstn_no_NUL buffer pi HN Hin).
    - now apply Hl.
    - now apply Ht. }
  destruct (Ascii.eqb (nth (S pi) buffer NUL) "s"
            || Ascii.eqb (nth (S pi) buffer NUL) "S").
  { repeat constructor; unfold call_in_string; cbn [fst snd];
      rewrite ?length_app, ?Ls; cbn [List.length str list_ascii_of_string];
      lia. }
  destruct (Ascii.eqb (nth (S pi) buffer NUL) "v"
            || Ascii.eqb (nth (S pi) buffer NUL) "V").
  { repeat constructor; unfold call_in_string; cbn [fst snd];
      rewrite ?length_app, ?Ls; cbn [List.length str list_ascii_of_string];
      lia. }
  destruct (Ascii.eqb (nth (S pi) buffer NUL) "w"
            || Ascii.eqb (nth (S pi) buffer NUL) "W").
  { repeat constructor; unfold call_in_string; cbn [fst snd];
      rewrite ?length_app, ?Ls; cbn [List.length str list_ascii_of_string];
      lia. }
  destruct (Ascii.eqb (nth (S pi) buffer NUL) "x"
            || Ascii.eqb (nth (S pi) buffer NUL) "X"); [| exact Dflt].
  rewrite !Hc
    by (cbn; intros H; repeat destruct H as [H | H]; try discriminate H;
        exact H).
  repeat constructor; unfold call_in_string; cbn [fst snd];
    rewrite ?length_app, ?Ls; cbn [List.length str list_ascii_of_string];
    lia.
Qed.

Lemma fgets_progress (size : nat) (fp fp' : FILE) (l : list ascii) :
  (2 <= size)%nat ->
  fgets size fp = (Some l, fp') ->
  (List.length (f_rest fp') < List.length (f_rest fp))%nat.
Proof.
  intros Hs. unfold fgets.
  pose proof (fgets_chars_spec (size - 1) (f_rest fp)) as HS.
  cbn zeta in HS.
  destruct (fgets_chars (size - 1) (f_rest fp)) as [[l0 r] e].
  cbn [fst snd] in HS. destruct HS as [S1 [S2 S3]].
  destruct l0 as [| c l0].
  - destruct e; [discriminate |].
    destruct (S3 eq_refl) as [H | H]; [lia | discriminate H].
  - intros E. injection E as <- <-. cbn [f_rest]. rewrite S1.
    rewrite length_app. cbn [List.length]. lia.
Qed.

(** The loop of [xdict_load] ends, whatever the file holds, and keeps
    every word in the bucket of its length. *)
Lemma load_lines_total (alloc : nat -> bool * bool) (before : ascii)
      (fuel : nat) :
  before <> NUL ->
  forall (fp : FILE) (d : xdict_t) (n : nat),
    (List.length (f_rest fp) < fuel)%nat ->
    xdict_wf d -> xdict_lengths (xd_words d) ->
    exists d',
      load_lines alloc before fuel fp d n = Ok d'
      /\ xdict_wf d' /\ xdict_lengths (xd_words d').
Proof.
  intros HB. induction fuel as [| fuel IH]; intros fp d n Hf W HL; [lia |].
  cbn [load_lines].
  destruct (fgets (Z.to_nat (XDICT_MAXLENGTH + 25) - 5) fp)
    as [[l |] fp'] eqn:E; [| exists d; auto].
  apply fgets_progress in E; [| vm_compute; lia].
  destruct (strchr_index (c_str l) newline) as [p |]; [| exists d; auto].
  pose proof (add_calls_spec alloc
                (load_calls before (firstn p (c_str l))) d n W HL
                (load_calls_in_string before _ HB
                   (firstn_no_NUL _ p (c_str_no_NUL l)))) as HA.
  cbn zeta in HA.
  destruct (add_calls alloc (load_calls before (firstn p (c_str l))) d n)
    as [[stop d1] n1].
  cbn [fst snd] in HA. destruct HA as [W1 L1].
  destruct stop; [exists d1; auto |].
  apply IH; [lia | exact W1 | exact L1].
Qed.

Lemma xdict_sort_wf (d : xdict_t) : xdict_wf d -> xdict_wf (xdict_sort d).
Proof.
  intros [W1 W2]. split; [| exact W2]. unfold xdict_sort. cbn [xd_words].
  rewrite length_app, length_map, length_firstn, length_skipn. lia.
Qed.

(** X25: [xdict_load] on a file that could be opened always returns,
    and it returns 0, whatever the file holds and whichever allocation
    fails.  The dictionary it leaves is flagged as sorted, has every
    bucket below [XDICT_MAXLENGTH] in [strcmp] order, and still holds
    every word in the bucket of its length ([before], the character in
    front of the line buffer, must not be NUL for that, since a line
    that begins with [/x] reads it).  When the file could not be opened
    the value is -1 and the dictionary is untouched. *)
Theorem xdict_load_returns (alloc : nat -> bool * bool) (before : ascii)
        (d : xdict_t) (file : option FILE) :
  xdict_wf d -> xdict_lengths (xd_words d) -> before <> NUL ->
  match file with
  | None => xdict_load alloc before d file = Ok (-1, d)
  | Some _ =>
      exists d',
        xdict_load alloc before d file = Ok (0, d')
        /\ xdict_wf d'
        /\ xd_sorted d' = true
        /\ xdict_lengths (xd_words d')
        /\ forall k, (k < Z.to_nat XDICT_MAXLENGTH)%nat ->
                     StronglySorted (fun a b => strcmp a b <= 0)
                                    (bucket (xd_words d') k)
  end.
Proof.
  intros W HL HB. destruct file as [fp |]; [| reflexivity].
  unfold xdict_load.
  destruct (load_lines_total alloc before (S (List.length (f_rest fp))) HB
                             fp d 0%nat ltac:(lia) W HL)
    as [d1 [E [W1 L1]]].
  rewrite E. cbn [bind]. exists (xdict_sort d1).
  split; [reflexivity |]. split; [apply xdict_sort_wf; exact W1 |].
  split; [reflexivity |]. split.
  - intros k x Hx. rewrite xdict_sort_buckets in Hx.
    destruct (k <? Z.to_nat XDICT_MAXLENGTH)%nat; [| exact (L1 k x Hx)].
    apply L1. apply (xdict_sort_bucket_spec (bucket (xd_words d1) k)).
    exact Hx.
  - intros k Hk. rewrite xdict_sort_buckets.
    replace (k <? Z.to_nat XDICT_MAXLENGTH)%nat with true
      by (symmetry; apply Nat.ltb_lt; exact Hk).
    apply xdict_sort_bucket_spec.
Qed.

Lemma xdict_load_returns_witness :
  exists d',
    xdict_load (fun _ => (true, true)) "a" xdict_init
               (Some {| f_rest := str "cab/s"; f_eof := false |})
    = Ok (0, d')
    /\ xdict_wf d'
    /\ xd_sorted d' = true
    /\ xdict_lengths (xd_words d')
    /\ forall k, (k < Z.to_nat XDICT_MAXLENGTH)%nat ->
                 StronglySorted (fun a b => strcmp a b <= 0)
                                (bucket (xd_words d') k).
Proof.
  apply (xdict_load_returns (fun _ => (true, true)) "a" xdict_init
           (Some {| f_rest := str "cab/s"; f_eof := false |})).
  - split; reflexivity.
  - intros k x Hx. unfold bucket, xdict_init in Hx. cbn [xd_words] in Hx.
    destruct (nth_in_or_default k (repeat [] (Z.to_nat XDICT_MAXLENGTH))
                                (@nil (list ascii))) as [Hin | E].
    + apply repeat_spec in Hin. rewrite Hin in Hx. destruct Hx.
    + rewrite E in Hx. destruct Hx.
  - discriminate.
Defined.

Lemma xdict_find_sorted (d : xdict_t) (p : list ascii) :
  is_purely_alphabetic p = true ->
  2 <= Z.of_nat (List.length p) < XDICT_MAXLENGTH ->
  xd_sorted d = true ->
  StronglySorted (fun a b => strcmp a b <= 0)
                 (bucket (xd_words d) (List.length p)) ->
  xdict_find d p
  = Ok (if in_dec (list_eq_dec ascii_dec) p
                  (bucket (xd_words d) (List.length p))
        then 1 else 0).
Proof.
  intros Al H HS S. unfold xdict_find, bucket in *.
  rewrite (alphabetic_star_free p Al). cbn [negb].
  replace ((Z.of_nat (List.length p) <? 2)
           || (Z.of_nat (List.length p) >=? XDICT_MAXLENGTH)) with false.
  2:{ symmetry. apply orb_false_iff. split; [apply Z.ltb_ge; lia |].
      rewrite Z.geb_leb. apply Z.leb_gt. lia. }
  rewrite Al, HS. cbn [andb].
  apply bsearch_spec; try assumption; lia.
Qed.

Lemma alpha_not_control (c : ascii) :
  isalpha c = true -> c <> NUL /\ c <> newline /\ c <> "/".
Proof.
  destruct c as [[] [] [] [] [] [] [] []]; intros H;
    try discriminate H; repeat split; discriminate.
Qed.

Lemma alphabetic_not_in (w : list ascii) (c : ascii) :
  is_purely_alphabetic w = true -> isalpha c = false -> ~ In c w.
Proof.
  unfold is_purely_alphabetic. intros H Hc Hin.
  rewrite forallb_forall in H. specialize (H c Hin). congruence.
Qed.

Lemma fgets_line_gen (size : nat) (row more : list ascii) (e : bool) :
  ~ In newline row ->
  (List.length row + 2 <= size)%nat ->
  fgets size {| f_rest := row ++ newline :: more; f_eof := e |}
  = (Some (row ++ [newline]), {| f_rest := more; f_eof := e |}).
Proof.
  intros HN HL. unfold fgets. cbn [f_rest f_eof].
  rewrite fgets_chars_line by (auto; lia). rewrite orb_false_r.
  destruct row; reflexivity.
Qed.

Lemma strchr_index_line (w : list ascii) (c : ascii) (tail : list ascii) :
  ~ In c w -> strchr_index (w ++ c :: tail) c = Some (List.length w).
Proof.
  induction w as [| x w IH]; intros H; cbn [app strchr_index List.length].
  - now rewrite Ascii.eqb_refl.
  - destruct (Ascii.eqb_spec x c) as [E | _];
      [exfalso; apply H; now left |].
    rewrite IH by (intros Hin; apply H; now right). reflexivity.
Qed.

Lemma bucket_init (j : nat) : bucket (xd_words xdict_init) j = [].
Proof.
  unfold bucket, xdict_init. cbn [xd_words].
  destruct (nth_in_or_default j (repeat [] (Z.to_nat XDICT_MAXLENGTH))
                              (@nil (list ascii))) as [Hin | E];
    [apply repeat_spec in Hin |]; assumption.
Qed.

(** The loop of [xdict_load] on a file of plain words, when no
    allocation fails: each word is appended to the bucket of its
    length. *)
Lemma load_lines_plain (alloc : nat -> bool * bool) (before : ascii)
      (ws : list (list ascii)) :
  (forall n, alloc n = (true, true)) ->
  Forall plain_word ws ->
  forall (fuel : nat) (e : bool) (d : xdict_t) (n : nat),
    (List.length (file_of_lines ws) < fuel)%nat ->
    xdict_wf d ->
    exists d',
      load_lines alloc before fuel
                 {| f_rest := file_of_lines ws; f_eof := e |} d n = Ok d'
      /\ xdict_wf d'
      /\ forall j,
          bucket (xd_words d') j
          = bucket (xd_words d) j
            ++ filter (fun w => (List.length w =? j)%nat) ws.
Proof.
  intros HA. induction ws as [| w ws IH]; intros HP fuel e d n Hf W.
  - destruct fuel as [| fuel]; [cbn in Hf; lia |].
    exists d. split; [reflexivity | split; [exact W |]].
    intros j. cbn [filter]. now rewrite app_nil_r.
  - inversion HP as [| ? ? [Al Len] P2]; subst.
    destruct fuel as [| fuel]; [lia |].
    cbn [file_of_lines flat_map] in *. fold (file_of_lines ws) in *.
    cbn [load_lines]. rewrite <- app_assoc. cbn [app].
    assert (Nn : ~ In newline w)
      by (apply (alphabetic_not_in w newline Al); reflexivity).
    assert (Ns : ~ In "/" w)
      by (apply (alphabetic_not_in w "/" Al); reflexivity).
    assert (N0 : ~ In NUL (w ++ [newline])).
    { intros Hin. apply in_app_or in Hin.
      destruct Hin as [Hin | [Hin | []]]; [| discriminate Hin].
      revert Hin. apply (alphabetic_not_in w NUL Al). reflexivity. }
    rewrite fgets_line_gen;
      [| exact Nn
       | change (Z.to_nat (XDICT_MAXLENGTH + 25) - 5)%nat
           with (Z.to_nat (XDICT_MAXLENGTH + 20)); lia].
    rewrite (c_str_id _ N0).
    rewrite (strchr_index_line w newline [] Nn).
    rewrite firstn_app, firstn_all, Nat.sub_diag. cbn [firstn].
    rewrite app_nil_r.
    unfold load_calls. rewrite (proj2 (strchr_index_none w "/") Ns).
    cbn [add_calls]. rewrite HA. cbn [fst snd].
    pose proof (xdict_addword_buckets true true d w
                  (Z.of_nat (List.length w)) W) as HB.
    cbn zeta in HB.
    replace (if Z.of_nat (List.length w) =? 0
             then Z.of_nat (List.length w)
             else Z.of_nat (List.length w))
      with (Z.of_nat (List.length w)) in HB
      by (destruct (Z.of_nat (List.length w) =? 0); reflexivity).
    destruct (xdict_addword true true d w (Z.of_nat (List.length w)))
      as [rc d1].
    cbn [fst snd] in HB. destruct HB as [W1 [[_ [_ HB]] | [-> [_ [_ HB]]]]];
      [specialize (HB eq_refl eq_refl); lia |].
    change (0 <? -1) with false. cbn iota.
    rewrite length_app in Hf. cbn [List.length] in Hf.
    rewrite length_app in Hf. cbn [List.length] in Hf.
    destruct (IH P2 fuel e d1 (S n) ltac:(lia) W1) as [d' [E [W' B']]].
    exists d'. split; [exact E | split; [exact W' |]].
    intros j. rewrite B', HB. rewrite Nat2Z.id, firstn_all.
    cbn [filter]. rewrite (Nat.eqb_sym (List.length w) j).
    destruct (j =? List.length w)%nat; [| reflexivity].
    rewrite <- app_assoc. reflexivity.
Qed.

(** X26: loading then looking up.  For a file whose lines are distinct
    plain words (letters only, more than 2 and fewer than
    [XDICT_MAXLENGTH] of them), loaded into an empty dictionary while no
    allocation fails, [xdict_load] returns 0 and [xdict_find] then
    answers 1 for each word of the file and 0 for every other word of
    letters that is at least 2 and fewer than [XDICT_MAXLENGTH]
    characters long. *)
Theorem xdict_load_find (alloc : nat -> bool * bool) (before : ascii)
        (ws : list (list ascii)) (e : bool) :
  (forall n, alloc n = (true, true)) ->
  Forall plain_word ws -> NoDup ws ->
  exists d',
    xdict_load alloc before xdict_init
               (Some {| f_rest := file_of_lines ws; f_eof := e |})
    = Ok (0, d')
    /\ (forall p, In p ws -> xdict_find d' p = Ok 1)
    /\ (forall p, is_purely_alphabetic p = true ->
                  2 <= Z.of_nat (List.length p) < XDICT_MAXLENGTH ->
                  ~ In p ws -> xdict_find d' p = Ok 0).
Proof.
  intros HA HP ND. unfold xdict_load. cbn [f_rest].
  destruct (load_lines_plain alloc before ws HA HP
              (S (List.length (file_of_lines ws))) e xdict_init 0%nat
              ltac:(lia) xdict_init_wf) as [d1 [E [W1 B1]]].
  rewrite E. cbn [bind]. exists (xdict_sort d1).
  split; [reflexivity |].
  assert (Find : forall p,
             is_purely_alphabetic p = true ->
             2 <= Z.of_nat (List.length p) < XDICT_MAXLENGTH ->
             xdict_find (xdict_sort d1) p
             = Ok (if in_dec (list_eq_dec ascii_dec) p ws then 1 else 0)).
  { intros p Al Len.
    assert (Bk : bucket (xd_words (xdict_sort d1)) (List.length p)
                 = xdict_sort_bucket
                     (filter (fun w => (List.length w =? List.length p)%nat)
                             ws)).
    { rewrite xdict_sort_buckets.
      replace (List.length p <? Z.to_nat XDICT_MAXLENGTH)%nat with true
        by (symmetry; apply Nat.ltb_lt; lia).
      rewrite B1, bucket_init. reflexivity. }
    destruct (xdict_sort_bucket_spec
                (filter (fun w => (List.length w =? List.length p)%nat) ws))
      as [S1 [S2 S3]].
    assert (NDf : NoDup (filter (fun w => (List.length w
                                           =? List.length p)%nat) ws))
      by (apply NoDup_filter; exact ND).
    specialize (S3 NDf).
    rewrite (xdict_find_sorted (xdict_sort d1) p Al Len eq_refl)
      by (rewrite Bk; exact S1).
    rewrite Bk.
    destruct (in_dec (list_eq_dec ascii_dec) p
                     (xdict_sort_bucket
                        (filter (fun w => (List.length w =? List.length p)%nat)
                                ws))) as [I | N];
      destruct (in_dec (list_eq_dec ascii_dec) p ws) as [I' | N'];
      try reflexivity; exfalso.
    - apply N'. apply S2 in I. apply filter_In in I. tauto.
    - apply N. apply (Permutation_in p (Permutation_sym S3)).
      apply filter_In. split; [exact I' | apply Nat.eqb_refl]. }
  split.
  - intros p Hp. rewrite Forall_forall in HP.
    destruct (HP p Hp) as [Al Len]. rewrite (Find p Al ltac:(lia)).
    destruct (in_dec (list_eq_dec ascii_dec) p ws); [reflexivity |].
    contradiction.
  - intros p Al Len Hp. rewrite (Find p Al Len).
    destruct (in_dec (list_eq_dec ascii_dec) p ws); [contradiction |].
    reflexivity.
Qed.

Lemma xdict_load_find_witness :
  exists d',
    xdict_load (fun _ => (true, true)) "a" xdict_init
               (Some {| f_rest := file_of_lines [str "dog"; str "cat"];
                        f_eof := false |})
    = Ok (0, d')
    /\ (forall p, In p [str "dog"; str "cat"] -> xdict_find d' p = Ok 1)
    /\ (forall p, is_purely_alphabetic p = true ->
                  2 <= Z.of_nat (List.length p) < XDICT_MAXLENGTH ->
                  ~ In p [str "dog"; str "cat"] -> xdict_find d' p = Ok 0).
Proof.
  apply xdict_load_find.
  - intros n. reflexivity.
  - repeat constructor; vm_compute; congruence.
  - repeat constructor; cbn; intros H; repeat destruct H as [H | H];
      try discriminate H; exact H.
Defined.

Lemma fgets_chars_full (k : nat) :
  forall long rest,
    ~ In newline long -> List.length long = k ->
    fgets_chars k (long ++ rest) = (long, rest, false).
Proof.
  induction k as [| k IH]; intros long rest HN HL.
  - destruct long; [reflexivity | discriminate HL].
  - destruct long as [| c long]; [discriminate HL |].
    cbn [app fgets_chars].
    destruct (Ascii.eqb_spec c newline) as [E | _];
      [exfalso; apply HN; left; now symmetry |].
    rewrite IH; [reflexivity | intros H; apply HN; now right |].
    cbn in HL. lia.
Qed.

(** What [fgets] reads from complete lines does not depend on what
    follows them in the file. *)
Lemma fgets_chars_app (k : nat) :
  forall q more,
    exists l r,
      fgets_chars k (q ++ [newline]) = (l, r, false)
      /\ fgets_chars k ((q ++ [newline]) ++ more) = (l, r ++ more, false)
      /\ (r = [] \/ exists q', r = q' ++ [newline]).
Proof.
  induction k as [| k IH]; intros q more.
  - exists [], (q ++ [newline]). cbn [fgets_chars].
    split; [reflexivity | split; [reflexivity |]]. right. now exists q.
  - destruct q as [| c q]; cbn [app fgets_chars].
    + rewrite Ascii.eqb_refl. exists [newline], [].
      split; [reflexivity | split; [reflexivity | now left]].
    + destruct (Ascii.eqb c newline).
      * exists [c], (q ++ [newline]).
        split; [reflexivity | split; [reflexivity |]]. right. now exists q.
      * destruct (IH q more) as [l [r [E1 [E2 E3]]]].
        rewrite E1, E2. exists (c :: l), r.
        split; [reflexivity | split; [reflexivity | exact E3]].
Qed.

Lemma c_str_in (l : list ascii) (c : ascii) : In c (c_str l) -> In c l.
Proof.
  induction l as [| x l IH]; cbn [c_str]; [tauto |].
  destruct (Ascii.eqb x NUL); [intros [] |].
  intros [E | H]; [now left | right; now apply IH].
Qed.

(** The loop of [xdict_load] stops at a line too long for [fgets]. *)
Lemma load_lines_prefix (alloc : nat -> bool * bool) (before : ascii)
      (long rest : list ascii) :
  ~ In newline long ->
  List.length long = (Z.to_nat (XDICT_MAXLENGTH + 25) - 5 - 1)%nat ->
  forall (fuel1 fuel2 : nat) (pre : list ascii) (e : bool) (d : xdict_t)
         (n : nat),
    pre = [] \/ (exists q, pre = q ++ [newline]) ->
    (List.length pre < fuel1)%nat ->
    (List.length (pre ++ long ++ rest) < fuel2)%nat ->
    load_lines alloc before fuel2
               {| f_rest := pre ++ long ++ rest; f_eof := e |} d n
    = load_lines alloc before fuel1 {| f_rest := pre; f_eof := e |} d n.
Proof.
  intros HN HL.
  induction fuel1 as [| fuel1 IH]; intros fuel2 pre e d n HP H1 H2; [lia |].
  destruct fuel2 as [| fuel2]; [lia |].
  cbn [load_lines]. unfold fgets. cbn [f_rest f_eof].
  destruct HP as [-> | [q ->]].
  - cbn [app]. rewrite (fgets_chars_full _ long rest HN HL).
    assert (Hl : long <> [])
      by (intros ->; vm_compute in HL; discriminate HL).
    destruct long as [| c long]; [contradiction |].
    replace (strchr_index (c_str (c :: long)) newline) with (@None nat).
    + reflexivity.
    + symmetry. apply strchr_index_none. intros Hin.
      apply HN. apply c_str_in. exact Hin.
  - destruct (fgets_chars_app (Z.to_nat (XDICT_MAXLENGTH + 25) - 5 - 1) q
                              (long ++ rest)) as [l [r [E1 [E2 E3]]]].
    rewrite E1, E2.
    pose proof (fgets_chars_spec (Z.to_nat (XDICT_MAXLENGTH + 25) - 5 - 1)
                                 (q ++ [newline])) as HS.
    cbn zeta in HS. rewrite E1 in HS. cbn [fst snd] in HS.
    destruct HS as [S1 [_ S3]].
    destruct l as [| c l];
      [destruct (S3 eq_refl) as [H | H]; [vm_compute in H | ];
       discriminate H |].
    destruct (strchr_index (c_str (c :: l)) newline) as [p |];
      [| reflexivity].
    destruct (add_calls alloc
                (load_calls before (firstn p (c_str (c :: l)))) d n)
      as [[stop d1] n1].
    destruct stop; [reflexivity |].
    assert (Lr : (List.length r < List.length (q ++ [newline]))%nat)
      by (rewrite S1, length_app; cbn [List.length]; lia).
    apply IH; [exact E3 | lia |].
    rewrite length_app in H2 |- *. lia.
Qed.

(** X27: a line of [XDICT_MAXLENGTH + 19] or more characters ends the
    loading without a word: for a file that is complete lines, then
    [XDICT_MAXLENGTH + 19] characters without a newline, then anything,
    [xdict_load] gives the value and the dictionary that it gives for
    the complete lines alone, so no word after the long line is loaded
    and the value returned does not tell. *)
Theorem xdict_load_stops_at_long_line (alloc : nat -> bool * bool)
        (before : ascii) (d : xdict_t) (pre long rest : list ascii)
        (e : bool) :
  pre = [] \/ (exists q, pre = q ++ [newline]) ->
  ~ In newline long ->
  Z.of_nat (List.length long) = XDICT_MAXLENGTH + 19 ->
  xdict_load alloc before d
             (Some {| f_rest := pre ++ long ++ rest; f_eof := e |})
  = xdict_load alloc before d (Some {| f_rest := pre; f_eof := e |}).
Proof.
  intros HP HN HL. unfold xdict_load. cbn [f_rest].
  rewrite (load_lines_prefix alloc before long rest HN
             ltac:(unfold XDICT_MAXLENGTH in *; lia)
             (S (List.length pre)) (S (List.length (pre ++ long ++ rest)))
             pre e d 0%nat HP ltac:(lia) ltac:(lia)).
  reflexivity.
Qed.

Lemma xdict_load_stops_at_long_line_witness :
  xdict_load (fun _ => (true, true)) "a" xdict_init
             (Some {| f_rest := (str "cat" ++ [newline]) ++ repeat "a" 29
                                ++ newline :: str "dog" ++ [newline];
                      f_eof := false |})
  = xdict_load (fun _ => (true, true)) "a" xdict_init
               (Some {| f_rest := str "cat" ++ [newline]; f_eof := false |}).
Proof.
  apply xdict_load_stops_at_long_line.
  - right. exists (str "cat"). reflexivity.
  - intros H. apply repeat_spec in H. discriminate H.
  - reflexivity.
Defined.

(** ** The command line *)

(** What [atoi] returns is an [int]. *)
Lemma atoi_range (s : list ascii) :
  atoi s = None \/ exists n, atoi s = Some n /\ INT_MIN <= n <= INT_MAX.
Proof.
  unfold atoi.
  destruct ((INT_MIN <=? numeral_value s) && (numeral_value s <=? INT_MAX))
    eqn:E; [right | now left].
  apply andb_true_iff in E. destruct E as [E1 E2].
  apply Z.leb_le in E1, E2. eexists. split; [reflexivity | lia].
Qed.

(** What the options loop keeps and what it leaves. *)
Lemma parse_options_spec (n : nat) :
  forall (args rest : list (list ascii)) (v v' : main_vars),
    (List.length args <= n)%nat ->
    parse_options args v = Goes (rest, v') ->
    (NumSolutions (mv_options v) = -1
     \/ 1 <= NumSolutions (mv_options v) <= INT_MAX) ->
    1 <= PrintEveryNthSolution (mv_options v) <= INT_MAX ->
    (NumSolutions (mv_options v') = -1
     \/ 1 <= NumSolutions (mv_options v') <= INT_MAX)
    /\ 1 <= PrintEveryNthSolution (mv_options v') <= INT_MAX
    /\ (exists used, args = used ++ rest)
    /\ (LiteralInputNames v = false -> LiteralInputNames v' = false ->
        match rest with
        | [] => True
        | a :: _ => at_ a 0 <> "-" \/ at_ a 1 = NUL
        end).
Proof.
  induction n as [| n IH]; intros args rest v v' Hn H HN HE.
  - destruct args; [| cbn in Hn; lia]. cbn in H. injection H as <- <-.
    split; [exact HN | split; [exact HE | split; [now exists [] | auto]]].
  - destruct args as [| a args].
    { cbn in H. injection H as <- <-.
      split; [exact HN | split; [exact HE | split; [now exists [] | auto]]]. }
    cbn [parse_options] in H. cbn [List.length] in Hn.
    destruct (negb (Ascii.eqb (at_ a 0) "-")) eqn:E0.
    { injection H as <- <-.
      split; [exact HN | split; [exact HE | split; [now exists [] |]]].
      intros _ _. left. intros E. rewrite E in E0. discriminate E0. }
    destruct (Ascii.eqb (at_ a 1) NUL) eqn:E1.
    { injection H as <- <-.
      split; [exact HN | split; [exact HE | split; [now exists [] |]]].
      intros _ _. right. apply Ascii.eqb_eq. exact E1. }
    destruct (steq (tl a) "-").
    { injection H as <- <-. cbn [mv_options LiteralInputNames].
      split; [exact HN | split; [exact HE | split; [now exists [a] |]]].
      discriminate. }
    destruct (steq (tl a) "-help" || steq (tl a) "h" || steq (tl a) "?");
      [discriminate H |].
    destruct (steq (tl a) "-man"); [discriminate H |].
    assert (Two : forall f rest0 v0,
               args = f :: rest0 ->
               parse_options rest0 v0 = Goes (rest, v') ->
               (NumSolutions (mv_options v0) = -1
                \/ 1 <= NumSolutions (mv_options v0) <= INT_MAX) ->
               1 <= PrintEveryNthSolution (mv_options v0) <= INT_MAX ->
               LiteralInputNames v0 = LiteralInputNames v ->
               (NumSolutions (mv_options v') = -1
                \/ 1 <= NumSolutions (mv_options v') <= INT_MAX)
               /\ 1 <= PrintEveryNthSolution (mv_options v') <= INT_MAX
               /\ (exists used, a :: args = used ++ rest)
               /\ (LiteralInputNames v = false ->
                   LiteralInputNames v' = false ->
                   match rest with
                   | [] => True
                   | a :: _ => at_ a 0 <> "-" \/ at_ a 1 = NUL
                   end)).
    { intros f rest0 v0 -> H0 HN0 HE0 HL0.
      destruct (IH rest0 rest v0 v' ltac:(cbn in Hn; lia) H0 HN0 HE0)
        as [I1 [I2 [[used I3] I4]]].
      split; [exact I1 | split; [exact I2 | split]].
      - exists (a :: f :: used). now rewrite I3.
      - rewrite <- HL0. exact I4. }
    assert (One : forall v0,
               parse_options args v0 = Goes (rest, v') ->
               (NumSolutions (mv_options v0) = -1
                \/ 1 <= NumSolutions (mv_options v0) <= INT_MAX) ->
               1 <= PrintEveryNthSolution (mv_options v0) <= INT_MAX ->
               LiteralInputNames v0 = LiteralInputNames v ->
               (NumSolutions (mv_options v') = -1
                \/ 1 <= NumSolutions (mv_options v') <= INT_MAX)
               /\ 1 <= PrintEveryNthSolution (mv_options v') <= INT_MAX
               /\ (exists used, a :: args = used ++ rest)
               /\ (LiteralInputNames v = false ->
                   LiteralInputNames v' = false ->
                   match rest with
                   | [] => True
                   | a :: _ => at_ a 0 <> "-" \/ at_ a 1 = NUL
                   end)).
    { intros v0 H0 HN0 HE0 HL0.
      destruct (IH args rest v0 v' ltac:(lia) H0 HN0 HE0)
        as [I1 [I2 [[used I3] I4]]].
      split; [exact I1 | split; [exact I2 | split]].
      - exists (a :: used). now rewrite I3.
      - rewrite <- HL0. exact I4. }
    destruct (steq a "-o").
    { destruct args as [| f rest0]; [discriminate H |].
      exact (Two f rest0 _ eq_refl H HN HE eq_refl). }
    destruct (steq a "-d").
    { destruct args as [| f rest0]; [discriminate H |].
      exact (Two f rest0 _ eq_refl H HN HE eq_refl). }
    destruct (steq a "-n" || steq a "-N").
    { destruct args as [| f rest0]; [discriminate H |].
      destruct (atoi_range f) as [EA | [m [EA Hm]]]; rewrite EA in H;
        [discriminate H |].
      destruct (m <=? 0) eqn:Em; [discriminate H |].
      apply Z.leb_gt in Em.
      refine (Two f rest0 _ eq_refl H _ _ eq_refl);
        cbn [with_options mv_options NumSolutions PrintEveryNthSolution];
        [right; lia | exact HE]. }
    destruct (steq a "--every").
    { destruct args as [| f rest0]; [discriminate H |].
      destruct (atoi_range f) as [EA | [m [EA Hm]]]; rewrite EA in H;
        [discriminate H |].
      destruct (m <=? 0) eqn:Em; [discriminate H |].
      apply Z.leb_gt in Em.
      refine (Two f rest0 _ eq_refl H _ _ eq_refl);
        cbn [with_options mv_options NumSolutions PrintEveryNthSolution];
        [exact HN | lia]. }
    destruct (steq a "--allow_duplicate_words");
      [exact (One _ H HN HE eq_refl) |].
    destruct (steq a "--debug"); [exact (One _ H HN HE eq_refl) |].
    destruct (steq a "--naive"); [exact (One _ H HN HE eq_refl) |].
    discriminate H.
Qed.

(** X28: when [main] gets past its command line, the options that the
    callback relies on are in range: [NumSolutions] is -1 or from 1 to
    [INT_MAX] and [PrintEveryNthSolution] is from 1 to [INT_MAX].  A
    numeral that an [int] does not hold never leads there: the call of
    [atoi] is then undefined.  The grid is read from a
    file only if that file's name is the last argument, and from
    [stdin] only if no argument is left after the options, or the last
    argument is [-] and [--] was not given. *)
Theorem main_command_line_invariant (args : list (list ascii))
        (input : option (list ascii)) (v : main_vars) :
  main_command_line args = Goes (input, v) ->
  (NumSolutions (mv_options v) = -1
   \/ 1 <= NumSolutions (mv_options v) <= INT_MAX)
  /\ 1 <= PrintEveryNthSolution (mv_options v) <= INT_MAX
  /\ match input with
     | Some fname => exists used, args = used ++ [fname]
     | None =>
         parse_options args initial_vars = Goes ([], v)
         \/ (LiteralInputNames v = false
             /\ exists used a,
                 args = used ++ [a]
                 /\ steq a "-" = true
                 /\ (at_ a 0 <> "-" \/ at_ a 1 = NUL))
     end.
Proof.
  unfold main_command_line.
  destruct (parse_options args initial_vars) as [| | | [rest v0]] eqn:E;
    try discriminate.
  destruct (parse_options_spec (List.length args) args rest initial_vars v0
              (le_n _) E (or_introl eq_refl)
              ltac:(cbn; unfold INT_MAX; lia))
    as [P1 [P2 [[used P3] P4]]].
  unfold grid_input.
  destruct (1 <? List.length rest)%nat eqn:L; [discriminate |].
  apply Nat.ltb_ge in L.
  destruct rest as [| fname [| x rest]]; [| | cbn in L; lia].
  - intros H. injection H as <- <-.
    split; [exact P1 | split; [exact P2 |]]. now left.
  - destruct (LiteralInputNames v0 || negb (steq fname "-")) eqn:C;
      intros H; injection H as <- <-;
      (split; [exact P1 | split; [exact P2 |]]).
    + now exists used.
    + apply orb_false_iff in C. destruct C as [C1 C2].
      apply negb_false_iff in C2. right. split; [exact C1 |].
      exists used, fname. split; [exact P3 | split; [exact C2 |]].
      exact (P4 eq_refl C1).
Qed.

Lemma main_command_line_invariant_witness :
  (NumSolutions
     (mv_options
        {| mv_options :=
             {| NumSolutions := 3; RejectDuplicateWords := true;
                UseNaiveMethod := false; PrintEveryNthSolution := 2 |};
           DictFilename := str "xdict.save.txt"; OutputFilename := None;
           DebugFile := false; LiteralInputNames := false |}) = -1
   \/ 1 <= 3 <= INT_MAX)
  /\ 1 <= 2 <= INT_MAX
  /\ exists used,
      [str "-n"; str "3"; str "--every"; str "2"; str "grid.txt"]
      = used ++ [str "grid.txt"].
Proof.
  apply (main_command_line_invariant
           [str "-n"; str "3"; str "--every"; str "2"; str "grid.txt"]
           (Some (str "grid.txt"))
           {| mv_options :=
                {| NumSolutions := 3; RejectDuplicateWords := true;
                   UseNaiveMethod := false; PrintEveryNthSolution := 2 |};
              DictFilename := str "xdict.save.txt"; OutputFilename := None;
              DebugFile := false; LiteralInputNames := false |}).
  reflexivity.
Defined.

(** ** What [xdict_find] counts *)

Lemma matchers_agree (p : list ascii) :
  existsb (Ascii.eqb "*") p = false ->
  forall w, xdict_match_simple w p = xdict_match w p.
Proof.
  induction p as [| c p IH]; intros H w; [reflexivity |].
  cbn [existsb] in H. apply orb_false_iff in H. destruct H as [Hc Hp].
  cbn [xdict_match_simple xdict_match].
  rewrite (Ascii.eqb_sym c "*"), Hc.
  destruct w as [| x w]; [reflexivity |].
  now rewrite (IH Hp).
Qed.

(** A word matches a pattern without [*] only if it is as long as the
    pattern. *)
Lemma xdict_match_simple_length (p : list ascii) :
  forall w, xdict_match_simple w p = true -> List.length w = List.length p.
Proof.
  induction p as [| c p IH]; intros w H.
  - destruct w; [reflexivity | discriminate H].
  - destruct w as [| x w]; [discriminate H |].
    cbn [xdict_match_simple] in H. apply andb_true_iff in H.
    cbn [List.length]. f_equal. apply IH. tauto.
Qed.

(** A word matches a pattern only if it has a character for each
    pattern character other than [*]. *)
Lemma xdict_match_min_length (p : list ascii) :
  forall w,
    xdict_match w p = true ->
    (List.length (filter (fun c => negb (Ascii.eqb c "*")) p)
     <= List.length w)%nat.
Proof.
  induction p as [| c p IH]; intros w H; [cbn; lia |].
  cbn [xdict_match] in H. cbn [filter].
  destruct (Ascii.eqb c "*") eqn:E; cbn [negb].
  - induction w as [| x w IHw].
    + rewrite orb_false_r in H. exact (IH [] H).
    + apply orb_true_iff in H. destruct H as [H | H].
      * exact (IH _ H).
      * specialize (IHw H). cbn [List.length]. lia.
  - destruct w as [| x w]; [discriminate H |].
    apply andb_true_iff in H. destruct H as [_ H].
    specialize (IH w H). cbn [List.length]. lia.
Qed.

Lemma in_concat_firstn (L : xdict) (n : nat) (w : list ascii) :
  In w (concat (firstn n L)) ->
  exists j, (j < n)%nat /\ In w (nth j L []).
Proof.
  revert n. induction L as [| ws L IH]; intros n H.
  - rewrite firstn_nil in H. destruct H.
  - destruct n as [| n]; [destruct H |].
    cbn [firstn concat] in H. apply in_app_or in H.
    destruct H as [H | H].
    + exists 0%nat. split; [lia | exact H].
    + destruct (IH n H) as [j [Hj Hw]]. exists (S j). split; [lia | exact Hw].
Qed.

Lemma filter_none (f : list ascii -> bool) (l : list (list ascii)) :
  (forall w, In w l -> f w = false) -> filter f l = [].
Proof. intros H. apply filter_none_in. exact H. Qed.

(** Only one bucket holds words that pass the test. *)
Lemma filter_concat_one (f : list ascii -> bool) (L : xdict) :
  forall k,
    (forall j w, j <> k -> In w (nth j L []) -> f w = false) ->
    filter f (concat L) = filter f (nth k L []).
Proof.
  induction L as [| ws L IH]; intros k H.
  - destruct k; reflexivity.
  - cbn [concat]. rewrite filter_app. destruct k as [| k]; cbn [nth].
    + rewrite (filter_none f (concat L)); [apply app_nil_r |].
      intros w Hw. apply in_concat in Hw. destruct Hw as [l [Hl Hw]].
      apply (In_nth _ _ []) in Hl. destruct Hl as [j [_ Hj]].
      apply (H (S j) w); [lia |]. cbn [nth]. now rewrite Hj.
    + rewrite (filter_none f ws).
      * cbn [app]. apply IH. intros j w Hj Hw.
        apply (H (S j) w); [lia | exact Hw].
      * intros w Hw. apply (H 0%nat w); [lia | exact Hw].
Qed.

(** X29: what [xdict_find] counts.  In a dictionary that holds every
    word in the bucket of its length, when the binary search is not
    taken (the dictionary is not flagged as sorted, or the pattern is
    not made of letters only), [xdict_find] without a callback returns
    the number of words of the whole dictionary that [xdict_match]
    matches against the pattern, for a pattern with a [*] and for a
    pattern without one that is at least 2 and fewer than
    [XDICT_MAXLENGTH] characters long: the buckets it passes over hold no
    match. *)
Theorem xdict_find_counts (d : xdict_t) (p : list ascii) :
  xdict_lengths (xd_words d) ->
  xd_sorted d && is_purely_alphabetic p = false ->
  In "*" p \/ 2 <= Z.of_nat (List.length p) < XDICT_MAXLENGTH ->
  xdict_find d p
  = Ok (Z.of_nat (List.length (filter (fun w => xdict_match w p)
                                      (dict_words (xd_words d))))).
Proof.
  intros HL HB HP. unfold xdict_find, dict_words.
  set (F := firstn (Z.to_nat XDICT_MAXLENGTH) (xd_words d)).
  assert (HF : forall j w, In w (nth j F []) -> List.length w = j).
  { intros j w Hw. apply (HL j w). unfold bucket. unfold F in Hw.
    destruct (Nat.lt_ge_cases j (Z.to_nat XDICT_MAXLENGTH)) as [Lt | Ge].
    - rewrite nth_firstn in Hw.
      replace (j <? Z.to_nat XDICT_MAXLENGTH)%nat with true in Hw
        by (symmetry; apply Nat.ltb_lt; exact Lt).
      exact Hw.
    - rewrite nth_overflow in Hw; [destruct Hw |].
      rewrite length_firstn. lia. }
  destruct (existsb (Ascii.eqb "*") p) eqn:ES; cbn [negb].
  - set (len := List.length (filter (fun c => negb (Ascii.eqb c "*")) p)).
    rewrite <- (firstn_skipn len F) at 2.
    rewrite concat_app, filter_app.
    rewrite (filter_none _ (concat (firstn len F))); [reflexivity |].
    intros w Hw. apply in_concat_firstn in Hw.
    destruct Hw as [j [Hj Hw]]. apply HF in Hw.
    destruct (xdict_match w p) eqn:EM; [| reflexivity].
    apply xdict_match_min_length in EM. fold len in EM. lia.
  - destruct HP as [HP | HP].
    { exfalso. apply Bool.not_true_iff_false in ES. apply ES.
      apply existsb_exists. exists "*". split; [exact HP | reflexivity]. }
    replace ((Z.of_nat (List.length p) <? 2)
             || (Z.of_nat (List.length p) >=? XDICT_MAXLENGTH)) with false.
    2:{ symmetry. apply orb_false_iff. split; [apply Z.ltb_ge; lia |].
        rewrite Z.geb_leb. apply Z.leb_gt. lia. }
    rewrite HB.
    rewrite (filter_concat_one (fun w => xdict_match w p) F
                               (List.length p)).
    + unfold F. rewrite nth_firstn.
      replace (List.length p <? Z.to_nat XDICT_MAXLENGTH)%nat with true
        by (symmetry; apply Nat.ltb_lt; lia).
      do 3 f_equal. apply filter_ext. intros w. apply matchers_agree.
      exact ES.
    + intros j w Hj Hw. apply HF in Hw.
      destruct (xdict_match w p) eqn:EM; [| reflexivity].
      rewrite <- (matchers_agree p ES) in EM.
      apply xdict_match_simple_length in EM. lia.
Qed.

Lemma xdict_find_counts_witness :
  let d := {| xd_words := set_nth (xd_words xdict_init) 3
                                  [str "cat"; str "dog"; str "cot"];
              xd_cap := xd_cap xdict_init;
              xd_sorted := false |} in
  xdict_find d (str "c?t")
  = Ok (Z.of_nat (List.length (filter (fun w => xdict_match w (str "c?t"))
                                      (dict_words (xd_words d))))).
Proof.
  cbn zeta. apply xdict_find_counts.
  - intros k x Hx. unfold bucket in Hx. cbn [xd_words] in Hx.
    do 10 (destruct k as [| k];
           [vm_compute in Hx;
            repeat (destruct Hx as [<- | Hx]; [reflexivity |]);
            destruct Hx |]).
    vm_compute in Hx. destruct k; destruct Hx.
  - reflexivity.
  - right. vm_compute. split; congruence.
Defined.
